(* ===== verification/_CoqProject ===== *)
-Q . S2P
Prelude.v
Hoare.v
Crc32c.v
Crc32cHardware.v
Filesystem.v
Wire.v
Protocol.v
Framing.v
AsyncLoop.v
Sockets.v
Sync.v
Scheduler.v
ReceiverPaths.v
AppendReceiver.v
ChunkReceiver.v
ChunkResend.v
AppendState.v
SendBuffer.v
Source.v
SenderPlan.v
Network.v
NodeCommon.v
Config.v
Watchers.v
SenderApp.v
SenderRun.v
SenderEnds.v
SenderLoop.v
DiskWriter.v
ReceiverStreams.v
Coordinator.v
CommitConfirmation.v
WriterIdle.v
ReceiverTransfer.v
ReceiverApp.v
Node.v
ManifestAgreement.v
SenderTruth.v
SenderTells.v
EndToEnd.v
