(* ===== verification/Prelude.v ===== *)
(** * Yisync: a verification development

    Yisync copies directory trees ("streams") from a sender to a receiver over
    several TCP lines at once.  The sender scans its directories into a manifest,
    the receiver answers with what it lacks, and the files go over as CREATE and
    DATA messages (append mode) or as FILE_BEGIN, CHUNKs and FILE_COMMIT (chunk
    mode); heartbeats acknowledge, NACKs and lost lines make the sender repeat.
    This library models the program under [src/] (C++), bottom up, and proves
    what each part promises to the ones above it.

    ** Conventions

    Unsigned integers are [Z] with the wrap-around written out ([u8] ... [u64]
    below).  A call that throws is a value of [exc]; a method that mutates its
    object and may throw is a computation of the monad [M S], which keeps the
    state it has reached when an exception leaves it.  An object made of objects
    is an instance of [Has], and [on] runs a computation of the part.  A callback
    (of a connection, of a line, of the network) is a parameter of the
    definitions that call it.  What the program gets from outside is explicit:
    [fsys] carries the file tree and the answers of the system ([fault]: a call
    may fail, a write may be cut short), reads and writes of sockets take the
    kernel's answers, the order in which a [std::unordered_map] is visited is
    the class [MapIteration], the checksum is the class [Crc32c], and
    [std::regex] is a function argument.  Names are those of the source.

    ** Files and the code they model

    - [Prelude]: integers, exceptions, state, parts of objects, bytes, bit
      fields; the hint databases and tactics of the development.
    - [Hoare]: triples and invariants of computations that throw, with the
      tactic [solve_keeps]; families of computations by their fuel, what they
      settle on when they have enough of it, with the tactic [solve_ends].
    - [Crc32c]: [crc32c/src/crc32c_portable.cc]; [Crc32cHardware]:
      [crc32c/src/crc32c.cc], [crc32c_sse42.cc] and [crc32c_arm64.cc].
    - [Filesystem]: what the program uses of [std::filesystem], streams and
      [fsync], with symbolic links, path resolution and faults.
    - [Wire], [Protocol]: [core/yisync_protocol.cpp], the primitives, the ten
      messages and the frame.
    - [Framing], [AsyncLoop], [Sockets]: [network/yisync_async.cpp]:
      [EventLoop]'s tables and [AsyncFrameConnection]; [EventLoop::run]; the
      listener and the connector.
    - [Sync]: [core/yisync_sync.cpp], manifests, their comparison, checksums.
    - [Scheduler]: [network/yisync_scheduler.cpp], token buckets and the choice
      of a line.
    - [ReceiverPaths], [AppendReceiver], [ChunkReceiver]:
      [receiver/yisync_receiver.cpp], the checks of names and payloads,
      [T_ReceiverStream] and [T_ChunkedReceiverStream].
    - [ChunkResend], [AppendState], [SendBuffer], [SenderPlan], [Source]: the
      files of the same names under [sender/]: which chunk goes next, the plan of
      an appended file, the messages kept for retransmission, the tasks of a
      stream, the readers and the polling watcher; [Watchers]: the scan it makes
      and the other watchers of [sender/yisync_source.cpp].
    - [Network]: [network/yisync_network.cpp], the lines of both ends, the
      negotiation of hellos, control messages and pending heartbeats.
    - [NodeCommon], [Config]: [node/yisync_node_common.cpp], the options, the
      configuration file and the command line.
    - [SenderApp]: [sender/yisync_sender_app.cpp], every handler of the sender;
      [SenderRun]: its runs on any events; [SenderEnds]: that its handlers come
      to an end; [SenderLoop]: its runs on the loop.
    - [DiskWriter]: [receiver/yisync_disk_writer.cpp], the ring and the two
      threads that share it, and the queue it implements.
    - [ReceiverStreams], [Coordinator]: the files of the same names under
      [receiver/], the contexts of the streams and the handlers that fill the
      writer's queue and poll it; [CommitConfirmation] and [ReceiverTransfer]:
      their runs; [WriterIdle]: what is left in the writer's queue when the streams
      wait for nothing.
    - [ReceiverApp]: [receiver/yisync_receiver_app.cpp] and
      [receiver/yisync_commit_poller.cpp], every handler of the receiver.
    - [Node]: [node/yisync_node.cpp], [main].
    - [ManifestAgreement]: the receiver's answer to the manifest of a sender.
    - [SenderTruth], [SenderTells]: what the messages on the sender's lines say of
      its source, in every run of [SenderApp]; [EndToEnd]: such messages at the
      receiver, from the sender's files to the receiver's disk.

    The dependencies follow this order.  [SenderApp] composes [Network] (which
    contains [Scheduler] and [Framing]'s connections), [SendBuffer],
    [SenderPlan] (with [ChunkResend] and [AppendState]) and [Source] exactly as
    the class does; the network calls back into the application when a line is
    found lost, so [on_lost_sends] is tied with a depth.  [ReceiverApp] composes
    [Network] and [Coordinator], which holds [ReceiverStreams] (with
    [AppendReceiver] and [ChunkReceiver]) and the writer's queue: the coordinator
    is modelled on the queue that [DiskWriter] proves the ring to implement, and a
    task runs in one step of the writer's thread, when it ends.  A program runs on
    [AsyncLoop]'s loop through the class [LoopClient]: its callbacks reach the
    tables of the loop through the operations of [EventLoop] only; [SenderLoop]
    is the instance for the sender.

    ** What the theorems show

    - Codecs: [decode_encode_roundtrip], [decode_canonical] and
      [decode_frame_length_exact] (the wire format loses nothing, accepts one
      encoding of each message, and its 32-bit length check is exact);
      [extend_correct] (the checksum is CRC-32C on every machine: the table-driven
      routine, the SSE4.2 one and the ARM one);
      [file_id_roundtrip] and [parse_size_exact].
    - Connections: [stream_reassembly], [parse_frames_sound] and
      [write_queue_correct] (framing under any cutting, short writes and errors);
      [timers_fire_once] (every timer once, not early, none after a stop);
      [connect_settles_once] (one answer for an attempt, and no descriptor leaked
      but in the one case that it names).
    - Sending: [scheduler_invariant], [try_acquire_correct], [sends_conserved]
      and [line_rate_limited]; [unconfirmed_kept], [erase_completed_exact] and
      [key_for_nack_correct] for the buffer; [next_chunk_correct],
      [resend_invariant] and [all_chunks_sent] for chunks; [append_ledger] for
      appended files, lost lines and new manifests included; [rto_bounds] for the timer.
    - Planning: [scan_manifest_correct], [diff_stream_correct],
      [plan_follows_diff] (the answer to a manifest drives the sender to the
      first entry that differs), [chunk_count_exact], [range_checksum_roundtrip],
      [read_range_exact], [poll_events_exact]; [inotify_watches_tree] and
      [fsevents_none_lost] (the watchers see every change).
    - Receiving: [apply_create_correct], [append_transfer], [append_resume],
      [chunk_transfer] (whole files arrive intact under repetition and
      reordering), [apply_data_safe], [apply_chunk_safe], [commit_acknowledged]
      (nothing is changed or acknowledged unverified, whatever the system
      answers), [missing_ranges_exact] (maximal
      runs, and the first ones).
    - Writing: [disk_writer_refines] (the lock-free ring is a bounded queue, in
      order and without loss while it runs); [commits_confirmed] (a commit is
      confirmed only once it is on disk, a repeated FILE_COMMIT is answered only for
      a number that was passed, and no commit stays unanswered);
      [append_transfer_confirmed] and [chunk_transfer_confirmed] (whole files
      through the coordinator, its receivers and the writer: what is reported as
      durable was synchronised, and in the end everything is).
    - Lines: [negotiation_agrees] and [heartbeats_complete].
    - The node: [config_consistent] (an accepted configuration starts), and
      [done_only_when_confirmed]: in every run of the whole sender, with lines
      lost and messages repeated in any order, it reports success only when the
      receiver has confirmed each file; [receiver_exits_when_idle]: in every run
      of the whole receiver, it reports success only at rest: no stream waits, the
      writer has no commit, and it has nothing at all if no file was passed over
      while its fsync was queued (a file that was may still wait there:
      [exit_zero_with_fsync_waiting]).
      [exit_zero_means_success] says both of the program's exit code;
      [sender_handlers_end]: no handler of the sender goes on for ever, whatever
      its lines lose meanwhile; [sender_run_terminates]: a sender that does not
      watch ends 30 seconds after its start at the latest.
    - Both ends: [copied_tree_in_sync] (a receiver that has a copy of what the
      sender has says so, and the sender is done without sending a file);
      [sender_sends_truth] (in every run, whatever its peer and its lines do, the
      sender hands to its lines only messages that are true of its source);
      [chunked_file_arrives] and [appended_file_arrives] (such messages put the
      source's own bytes on the receiver's disk, and the receiver confirms them
      when they are there).  The sources of these are directories without links in
      the way, whose entries have different ids ([SenderTells.sound_source]); that
      a file does not change meanwhile is part of the model, in which the tree
      changes only by the program's own calls.

    Each property has a witness beside it, evaluated on a concrete input; for
    the two applications it is a run from the constructor to the end of a
    transfer.  Lemmas on concrete runs show where the program does otherwise than
    it means to: [stop_loses_task], [stale_completion], [repeated_create],
    [repeated_older_create], [closed_line_ends_receiver],
    [looped_link_ends_receiver], [failed_commit_nack_unsent],
    [stop_before_run_lost], [linked_root_unwatched], [dropped_attempt_still_watched],
    [made_connection_leaked], [exit_zero_with_fsync_waiting] and others beside the definitions they are about.

    ** Fuel and bounds

    - [to_string] has 20 digits of fuel, the length of 2^64 - 1.
    - Path resolution follows at most 40 links, the kernel's limit.
    - The loops of [Crc32c], [Crc32cHardware] and of checksums take the length of the buffer,
      which they consume; so do [parse_frames] and [read_available], whose
      theorems prove that the fuel suffices.
    - [flush_controls] takes one turn per queued message and one more, which is
      enough ([flush_turns_enough]).
    - [EventLoop::run] takes one turn per element of its script, the kernel's
      answers to [poll]; a run that uses them up is in its next [poll].
    - In [SenderApp] the depth of nested lost-line reports and the turns of
      [flush_retransmits] and of the chunk loop are arguments, with what is thrown
      when they run out ([SenderApp.limit]).  [sender_handlers_end] proves that
      every run has a depth and a number of turns from which on its result depends
      on none of the three: a report is made only when a connection was given up,
      so reports nest no deeper than lines are open, and until then a loop sends
      each queued message or chunk once.  The other theorems about the sender hold
      for every value of them.

    ** Not modelled

    - The CPU's CRC-32C instructions: the classes [Sse42] and [Arm64], whose laws
      are the operations of the manuals; prefetching, which changes no result.
    - System calls and name resolution: their answers, and the clock, are
      arguments.  The applications take what their connections deliver as events
      ([SenderApp.event], [ReceiverApp.event]) and what the watchers report as an
      argument; the receiver's runs are not put on the loop's timers.
    - The making of the FSEvents stream, socket options, conversion of addresses.
    - Memory orderings: the accesses of the two threads of [DiskWriter] interleave
      one at a time, each seeing the last store.
    - Log lines and metrics, the usage text, the demo and the tests. *)
From Stdlib Require Export ZArith Lia Strings.Byte.
From stdpp Require Export base tactics numbers list option strings gmap.

#[local] Open Scope Z_scope.

(** ** Machine integers

    An unsigned [w]-bit C++ integer is a [Z] in [0, 2^w); the arithmetic of the
    source wraps, which the definitions write out with the functions below. *)
Definition u8 (x : Z) : Z := x mod 256.
Definition u16 (x : Z) : Z := x mod 65536.
Definition u32 (x : Z) : Z := x mod 4294967296.
Definition u64 (x : Z) : Z := x mod 18446744073709551616.

Definition UINT64_MAX : Z := 18446744073709551615.

Definition in_u8 (x : Z) : Prop := 0 ≤ x < 256.
Definition in_u16 (x : Z) : Prop := 0 ≤ x < 65536.
Definition in_u32 (x : Z) : Prop := 0 ≤ x < 4294967296.
Definition in_u64 (x : Z) : Prop := 0 ≤ x < 18446744073709551616.

#[export] Instance in_u8_dec x : Decision (in_u8 x).
Proof. unfold in_u8. apply _. Defined.
#[export] Instance in_u16_dec x : Decision (in_u16 x).
Proof. unfold in_u16. apply _. Defined.
#[export] Instance in_u32_dec x : Decision (in_u32 x).
Proof. unfold in_u32. apply _. Defined.
#[export] Instance in_u64_dec x : Decision (in_u64 x).
Proof. unfold in_u64. apply _. Defined.

(** [uint_lia]: linear arithmetic after unfolding the widths and replacing
    division and modulo by their equations. *)
Ltac uint_unfold :=
  unfold u8, u16, u32, u64, in_u8, in_u16, in_u32, in_u64, UINT64_MAX in *.
Ltac uint_lia := uint_unfold; Z.to_euclidean_division_equations; lia.

Lemma u64_small x : in_u64 x → u64 x = x.
Proof. intros. apply Z.mod_small. done. Qed.
Lemma u32_small x : in_u32 x → u32 x = x.
Proof. intros. apply Z.mod_small. done. Qed.
Lemma u64_range x : in_u64 (u64 x).
Proof. apply Z.mod_pos_bound. lia. Qed.
Lemma u32_range x : in_u32 (u32 x).
Proof. apply Z.mod_pos_bound. lia. Qed.

(** ** Exceptions and state

    [exc A]: the value a C++ call returns, or the [what()] of the exception it
    throws.  [M S A]: a computation over a mutable state [S] that keeps the
    state it reached when an exception leaves it. *)
Inductive exc (A : Type) : Type :=
  | Ret (a : A)
  | Throw (what : string).
Arguments Ret {A} a.
Arguments Throw {A} what.

#[export] Instance exc_ret : MRet exc := λ A a, Ret a.
#[export] Instance exc_bind : MBind exc := λ A B f m,
  match m with Ret a => f a | Throw e => Throw e end.

Definition M (S A : Type) : Type := S → exc A * S.

#[export] Instance M_ret S : MRet (M S) := λ A a s, (Ret a, s).
#[export] Instance M_bind S : MBind (M S) := λ A B f m s,
  match m s with
  | (Ret a, s') => f a s'
  | (Throw e, s') => (Throw e, s')
  end.

Definition throw {S A} (e : string) : M S A := λ s, (Throw e, s).
Definition get {S} : M S S := λ s, (Ret s, s).
Definition gets {S A} (f : S → A) : M S A := λ s, (Ret (f s), s).
Definition put {S} (s : S) : M S unit := λ _, (Ret tt, s).
Definition modify {S} (f : S → S) : M S unit := λ s, (Ret tt, f s).
Definition lift_exc {S A} (e : exc A) : M S A := λ s, (e, s).

(** [try_catch m h]: [try { m } catch (const std::exception& ex) { h(ex.what()) }]. *)
Definition try_catch {S A} (m : M S A) (h : string → M S A) : M S A := λ s,
  match m s with
  | (Throw e, s') => h e s'
  | r => r
  end.

(** ** Objects made of objects

    [Has S C]: a state of type [S] has a component of type [C]; [on] runs a
    computation of the component. *)
Class Has (S C : Type) := {
  part : S → C;
  set_part : C → S → S;
  part_set c s : part (set_part c s) = c;
  set_part_part s : set_part (part s) s = s;
  set_part_set c c' s : set_part c (set_part c' s) = set_part c s
}.

Definition on {S C A} `{Has S C} (m : M C A) : M S A := λ s,
  let '(r, c) := m (part s) in (r, set_part c s).

Lemma M_bind_inv {S A B} (f : A → M S B) (m : M S A) s b s' :
  (m ≫= f) s = (Ret b, s') → ∃ a s1, m s = (Ret a, s1) ∧ f a s1 = (Ret b, s').
Proof. unfold mbind, M_bind. destruct (m s) as [[a|] s1]; naive_solver. Qed.

(** Run the first computation of a [bind]. *)
Lemma bind_cases {S A B} (m : M S A) (k : A → M S B) s r s' :
  (m ≫= k) s = (r, s') →
  (∃ a s1, m s = (Ret a, s1) ∧ k a s1 = (r, s')) ∨ (∃ e, m s = (Throw e, s') ∧ r = Throw e).
Proof.
  unfold mbind, M_bind. destruct (m s) as [[a|e] s1]; [eauto|].
  intros [= <- <-]. right. by exists e.
Qed.

Lemma bind_ret {S A B} (m : M S A) (k : A → M S B) s a s' :
  m s = (Ret a, s') → (m ≫= k) s = k a s'.
Proof. intros H. unfold mbind, M_bind. by rewrite H. Qed.

Lemma bind_throw {S A B} (m : M S A) (k : A → M S B) s e s' :
  m s = (Throw e, s') → (m ≫= k) s = (Throw e, s').
Proof. intros H. unfold mbind, M_bind. by rewrite H. Qed.

Lemma exc_bind_inv {A B} (f : A → exc B) (m : exc A) b :
  m ≫= f = Ret b → ∃ a, m = Ret a ∧ f a = Ret b.
Proof. destruct m; naive_solver. Qed.

(** Split every successful [bind] of the hypotheses. *)
Ltac inv_bind :=
  repeat match goal with
  | H : (_ ≫= _) _ = (Ret _, _) |- _ =>
      let a := fresh "a" in let s := fresh "s" in let E := fresh "E" in
      apply M_bind_inv in H as (a & s & E & H)
  | H : _ ≫= _ = Ret _ |- _ =>
      let a := fresh "a" in let E := fresh "E" in
      apply exc_bind_inv in H as (a & E & H)
  end.

(** Decide the next condition of a hypothesis or of the goal. *)
Ltac case_cond :=
  match goal with
  | H : context [if ?b then _ else _] |- _ =>
      lazymatch type of b with
      | bool => destruct b eqn:?
      | _ => destruct b
      end
  | |- context [if ?b then _ else _] =>
      lazymatch type of b with
      | bool => destruct b eqn:?
      | _ => destruct b
      end
  end.

(** ** Bytes *)
Abbreviation Bytes := (list byte).

#[export] Instance byte_eq_dec : EqDecision byte := Byte.byte_eq_dec.

Definition Z_of_byte (b : byte) : Z := Z.of_N (Byte.to_N b).
Definition byte_of_Z (z : Z) : byte := default x00 (Byte.of_N (Z.to_N (z mod 256))).

Lemma Z_of_byte_range b : in_u8 (Z_of_byte b).
Proof. unfold Z_of_byte, in_u8. pose proof (Byte.to_N_bounded b). lia. Qed.

Lemma byte_of_Z_of_byte b : byte_of_Z (Z_of_byte b) = b.
Proof.
  unfold byte_of_Z. rewrite Z.mod_small by apply Z_of_byte_range.
  unfold Z_of_byte. by rewrite N2Z.id, Byte.of_to_N.
Qed.

Lemma Z_of_byte_of_Z z : Z_of_byte (byte_of_Z z) = z mod 256.
Proof.
  pose proof (Z.mod_pos_bound z 256 ltac:(lia)) as Hb.
  unfold byte_of_Z. destruct (Byte.of_N _) as [b|] eqn:E; simpl.
  - apply Byte.to_of_N in E. unfold Z_of_byte. rewrite E. lia.
  - apply Byte.of_N_None_iff in E. lia.
Qed.

Lemma Z_of_byte_inj b c : Z_of_byte b = Z_of_byte c → b = c.
Proof. intros E. by rewrite <- (byte_of_Z_of_byte b), E, byte_of_Z_of_byte. Qed.

(** The length of a list as the [std::size_t] the source compares it with. *)
Definition zlen {A} (l : list A) : Z := Z.of_nat (length l).

Lemma zlen_nil {A} : zlen (@nil A) = 0.
Proof. done. Qed.
Lemma zlen_cons {A} (x : A) l : zlen (x :: l) = 1 + zlen l.
Proof. unfold zlen. simpl. lia. Qed.
Lemma zlen_app {A} (l k : list A) : zlen (l ++ k) = zlen l + zlen k.
Proof. unfold zlen. rewrite length_app. lia. Qed.
Lemma zlen_nonneg {A} (l : list A) : 0 ≤ zlen l.
Proof. unfold zlen. lia. Qed.
Lemma zlen_to_nat {A} (l : list A) : Z.to_nat (zlen l) = length l.
Proof. unfold zlen. lia. Qed.

(** [std::unique]: the first of each run of equal elements. *)
Fixpoint unique_from {A} (same : A → A → bool) (kept : A) (l : list A) : list A :=
  match l with
  | [] => [kept]
  | x :: l => if same kept x then unique_from same kept l else kept :: unique_from same x l
  end.
Definition unique {A} (same : A → A → bool) (l : list A) : list A :=
  match l with [] => [] | x :: l => unique_from same x l end.

(** ** Unordered maps

    The order a range [for] visits the entries of a [std::unordered_map] in is
    not specified: any order of the entries. *)
Class MapIteration (K : Type) `{Countable K} (A : Type) := {
  iteration : gmap K A → list (K * A);
  iteration_perm m : iteration m ≡ₚ map_to_list m
}.

(** The order of [map_to_list], to run examples. *)
Definition some_order (K : Type) `{Countable K} (A : Type) : MapIteration K A :=
  {| iteration := map_to_list; iteration_perm m := Permutation_refl _ |}.

Lemma elem_of_iteration `{MapIteration K A} (m : gmap K A) k a : (k, a) ∈ iteration m ↔ m !! k = Some a.
Proof. rewrite iteration_perm. apply elem_of_map_to_list. Qed.

(** Remove the keys of a list from a map. *)
Definition delete_keys `{Countable K} {A} (l : list (K * A)) (m : gmap K A) : gmap K A :=
  foldr (λ '(key, _) m, delete key m) m l.

Lemma lookup_delete_keys `{Countable K} {A} (l : list (K * A)) (m : gmap K A) k :
  delete_keys l m !! k = if decide (k ∈ l.*1) then None else m !! k.
Proof.
  unfold delete_keys. induction l as [|[k' a] l IH]; cbn; [by rewrite decide_False by apply not_elem_of_nil|].
  destruct (decide (k = k')) as [->|Hne].
  - rewrite lookup_delete_eq, decide_True; [done|by left].
  - rewrite lookup_delete_ne, IH by done. apply decide_ext. rewrite elem_of_cons. tauto.
Qed.

(** The first of two optional results. *)
Definition or_else {A} (x y : option A) : option A := match x with Some _ => x | None => y end.

Lemma or_else_some {A} (x y : option A) a : or_else x y = Some a → x = Some a ∨ x = None ∧ y = Some a.
Proof. destruct x; cbn; auto. Qed.

Lemma or_else_none {A} (x y : option A) : or_else x y = None ↔ x = None ∧ y = None.
Proof. destruct x; cbn; intuition discriminate. Qed.

Create HintDb yisync.
Create Rewrite HintDb yisync.
#[export] Hint Resolve u64_range u32_range Z_of_byte_range zlen_nonneg : yisync.
#[export] Hint Rewrite @zlen_nil @zlen_cons @zlen_app @zlen_to_nat
  byte_of_Z_of_byte Z_of_byte_of_Z : yisync.

(** ** Disjoint bit fields *)
Lemma land_shiftl_0 a b n : 0 ≤ n → 0 ≤ a < 2 ^ n → Z.land a (Z.shiftl b n) = 0.
Proof.
  intros Hn Ha. apply Z.bits_inj'. intros k Hk. rewrite Z.land_spec, Z.bits_0.
  destruct (decide (k < n)) as [Hlt|Hge].
  - rewrite Z.shiftl_spec_low by lia. by rewrite andb_false_r.
  - destruct (decide (a = 0)) as [->|Hne]; [by rewrite Z.bits_0|].
    rewrite Z.bits_above_log2; [done|lia|].
    apply Z.lt_le_trans with n; [|lia]. apply Z.log2_lt_pow2; lia.
Qed.

Lemma lor_shiftl_xor a b n :
  0 ≤ n → 0 ≤ a < 2 ^ n → Z.lor a (Z.shiftl b n) = Z.lxor a (Z.shiftl b n).
Proof. intros Hn Ha. symmetry. by apply Z.lxor_lor, land_shiftl_0. Qed.

Lemma lor_shiftl_add a b n :
  0 ≤ n → 0 ≤ a < 2 ^ n → Z.lor a (Z.shiftl b n) = a + b * 2 ^ n.
Proof.
  intros Hn Ha. rewrite lor_shiftl_xor by done.
  rewrite <- Z.add_nocarry_lxor by (by apply land_shiftl_0).
  by rewrite Z.shiftl_mul_pow2 by lia.
Qed.

Lemma lxor_small n a b : 0 ≤ n → 0 ≤ a < 2 ^ n → 0 ≤ b < 2 ^ n → 0 ≤ Z.lxor a b < 2 ^ n.
Proof.
  intros Hn Ha Hb.
  assert (Z.lxor a b = Z.land (Z.lxor a b) (Z.ones n)) as ->.
  { apply Z.bits_inj'. intros k Hk. rewrite Z.land_spec, !Z.lxor_spec.
    destruct (decide (k < n)).
    - by rewrite Z.ones_spec_low, andb_true_r by lia.
    - rewrite Z.ones_spec_high, andb_false_r by lia.
      assert (∀ x, 0 ≤ x < 2 ^ n → Z.testbit x k = false) as Hz; [|by rewrite !Hz].
      intros x Hx. destruct (decide (x = 0)) as [->|Hne]; [apply Z.bits_0|].
      apply Z.bits_above_log2; [lia|]. apply Z.lt_le_trans with n; [|lia].
      apply Z.log2_lt_pow2; lia. }
  rewrite Z.land_ones by lia. apply Z.mod_pos_bound. lia.
Qed.
