(* ===== verification/Hoare.v ===== *)
(** * Assertions about programs that throw

    Triples for the computations of the prelude: a precondition, what holds of
    the value and the state a computation returns, and what holds of the state
    an exception leaves it in; and the invariants a computation keeps either way. *)
From S2P Require Import Prelude.

Section triples.
Context {S : Type}.
Implicit Types P E I : S → Prop.

Definition triple {A} P (m : M S A) (Q : A → S → Prop) E : Prop :=
  ∀ s r s', P s → m s = (r, s') → match r with Ret a => Q a s' | Throw _ => E s' end.

(** [m] keeps [I], whether it returns or throws. *)
Definition keeps {A} I (m : M S A) : Prop := triple I m (λ _, I) I.

Lemma triple_bind {A B} P (m : M S A) (k : A → M S B) R Q E :
  triple P m R E → (∀ a, triple (R a) (k a) Q E) → triple P (m ≫= k) Q E.
Proof.
  intros Hm Hk s r s' HP Hr. apply bind_cases in Hr as [(a & s1 & Ha & Hr)|(e & He & ->)].
  - specialize (Hm s _ _ HP Ha). exact (Hk a s1 _ _ Hm Hr).
  - exact (Hm s _ _ HP He).
Qed.

Lemma triple_ret {A} P (a : A) (Q : A → S → Prop) E : (∀ s, P s → Q a s) → triple P (mret a) Q E.
Proof. intros H s r s' HP [= <- <-]. by apply H. Qed.

Lemma triple_conseq {A} P P' (m : M S A) (Q : A → S → Prop) E :
  triple P' m Q E → (∀ s, P s → P' s) → triple P m Q E.
Proof. intros H Hp s r s' HP Hr. exact (H s r s' (Hp s HP) Hr). Qed.

(** A state that was read is the state. *)
Lemma triple_get {A} P (k : S → M S A) Q E :
  (∀ s, P s → triple (λ s', s' = s) (k s) Q E) → triple P (get ≫= k) Q E.
Proof. intros H s r s' HP Hr. exact (H s HP s r s' eq_refl Hr). Qed.

Lemma triple_if {A} P (b : bool) (m1 m2 : M S A) Q E :
  (b = true → triple P m1 Q E) → (b = false → triple P m2 Q E) → triple P (if b then m1 else m2) Q E.
Proof. destruct b; auto. Qed.

(** A step that keeps an invariant which is more than what is left at an exception. *)
Lemma triple_then {A B} I (m : M S A) (k : A → M S B) Q E :
  keeps I m → (∀ s, I s → E s) → (∀ a, triple I (k a) Q E) → triple I (m ≫= k) Q E.
Proof.
  intros Hm HE Hk. apply (triple_bind _ _ _ (λ _, I)); [|done]. intros s r s' HI Hr.
  specialize (Hm s r s' HI Hr). destruct r; auto.
Qed.

Lemma keeps_ret {A} I (a : A) : keeps I (mret a).
Proof. by apply triple_ret. Qed.

Lemma keeps_throw {A} I e : keeps I (throw (A := A) e).
Proof. intros s r s' HI [= <- <-]. done. Qed.

Lemma keeps_bind {A B} I (m : M S A) (k : A → M S B) : keeps I m → (∀ a, keeps I (k a)) → keeps I (m ≫= k).
Proof. intros Hm Hk. by apply (triple_bind _ _ _ (λ _, I)). Qed.

Lemma keeps_get {A} I (k : S → M S A) : (∀ s, I s → keeps I (k s)) → keeps I (get ≫= k).
Proof. intros H s r s' HP Hr. exact (H s HP s r s' HP Hr). Qed.

Lemma keeps_gets {A B} I (f : S → A) (k : A → M S B) :
  (∀ s, I s → keeps I (k (f s))) → keeps I (gets f ≫= k).
Proof. intros H s r s' HP Hr. exact (H s HP s r s' HP Hr). Qed.

Lemma keeps_modify I f : (∀ s, I s → I (f s)) → keeps I (modify f).
Proof. intros H s r s' HP [= <- <-]. by apply H. Qed.

Lemma keeps_put I s : I s → keeps I (put s).
Proof. intros H s0 r s' HP [= <- <-]. done. Qed.

Lemma keeps_lift {A} I (e : exc A) : keeps I (lift_exc e).
Proof. intros s r s' HI [= <- <-]. by destruct e. Qed.

Lemma keeps_catch {A} I (m : M S A) h : keeps I m → (∀ e, keeps I (h e)) → keeps I (try_catch m h).
Proof.
  intros Hm Hh s r s' HI Hr. unfold try_catch in Hr. destruct (m s) as [[a|e] s1] eqn:E.
  - injection Hr as <- <-. exact (Hm s _ _ HI E).
  - exact (Hh e s1 r s' (Hm s _ _ HI E) Hr).
Qed.

Lemma triple_catch {A} P (m : M S A) h (Q : A → S → Prop) R E :
  triple P m Q R → (∀ e, triple R (h e) Q E) → triple P (try_catch m h) Q E.
Proof.
  intros Hm Hh s r s' HP Hr. unfold try_catch in Hr. destruct (m s) as [[a|e] s1] eqn:Em.
  - injection Hr as <- <-. exact (Hm s _ _ HP Em).
  - exact (Hh e s1 r s' (Hm s _ _ HP Em) Hr).
Qed.

Lemma keeps_on {C A} `{Has S C} I (m : M C A) : (∀ c s, I s → I (set_part c s)) → keeps I (on m).
Proof.
  intros HI s r s' Hs Hr. unfold on in Hr. destruct (m (part s)) as [r0 c]. injection Hr as <- <-.
  destruct r0; auto.
Qed.

(** [m] keeps [I], and a value it returns satisfies [Q]. *)
Definition gives {A} I (m : M S A) (Q : A → Prop) : Prop := triple I m (λ a s, I s ∧ Q a) I.

Lemma gives_ret {A} I (a : A) (Q : A → Prop) : Q a → gives I (mret a) Q.
Proof. intros HQ. by apply triple_ret. Qed.

Lemma gives_throw {A} I e (Q : A → Prop) : gives I (throw e) Q.
Proof. intros s r s' HI [= <- <-]. done. Qed.

Lemma gives_of_keeps {A} I (m : M S A) : keeps I m → gives I m (λ _, True).
Proof. intros Hm s r s' HI Hr. specialize (Hm s r s' HI Hr). by destruct r. Qed.

Lemma keeps_of_gives {A} I (m : M S A) Q : gives I m Q → keeps I m.
Proof. intros Hm s r s' HI Hr. specialize (Hm s r s' HI Hr). destruct r; [apply Hm|done]. Qed.

Lemma gives_bind {A B} I (m : M S A) (k : A → M S B) R Q :
  gives I m R → (∀ a, R a → gives I (k a) Q) → gives I (m ≫= k) Q.
Proof.
  intros Hm Hk. apply (triple_bind _ _ _ (λ a s, I s ∧ R a)); [done|]. intros a s r s' [HI HR] Hr.
  exact (Hk a HR s r s' HI Hr).
Qed.

Lemma gives_after {A B} I (m : M S A) (k : A → M S B) Q :
  keeps I m → (∀ a, gives I (k a) Q) → gives I (m ≫= k) Q.
Proof. intros Hm Hk. apply (gives_bind _ _ _ (λ _, True)); [by apply gives_of_keeps|auto]. Qed.

Lemma gives_get {A} I (k : S → M S A) Q : (∀ s, I s → gives I (k s) Q) → gives I (get ≫= k) Q.
Proof. intros H s r s' HP Hr. exact (H s HP s r s' HP Hr). Qed.

Lemma gives_catch {A} I (m : M S A) h Q : gives I m Q → (∀ e, gives I (h e) Q) → gives I (try_catch m h) Q.
Proof.
  intros Hm Hh s r s' HI Hr. unfold try_catch in Hr. destruct (m s) as [[a|e] s1] eqn:E.
  - injection Hr as <- <-. exact (Hm s _ _ HI E).
  - exact (Hh e s1 r s' (Hm s _ _ HI E) Hr).
Qed.

(** What is read satisfies [Q], and that is enough for the rest. *)
Lemma keeps_given {A B} I (m : M S A) (k : A → M S B) (Q : A → Prop) :
  gives I m Q → (∀ a, Q a → keeps I (k a)) → keeps I (m ≫= k).
Proof.
  intros Hm Hk. apply (triple_bind _ _ _ (λ a s, I s ∧ Q a)); [done|]. intros a s r s' [HI HQ]. by apply Hk.
Qed.

(** A computation that reaches a state only through invariants keeps them. *)
Lemma keeps_run {A} I (m : M S A) s r s' : keeps I m → I s → m s = (r, s') → I s'.
Proof. intros Hm HI Hr. specialize (Hm s r s' HI Hr). by destruct r. Qed.
End triples.

(** A computation on a part keeps what [I] says of the part. *)
Lemma keeps_on_part {S C A} `{Has S C} (I : S → Prop) (P : C → Prop) (m : M C A) :
  (∀ s, I s → P (part s)) → (∀ c s, I s → P c → I (set_part c s)) → keeps P m → keeps I (on m).
Proof.
  intros Hp HI Hm s r s' Hs Hr. unfold on in Hr. destruct (m (part s)) as [r0 c] eqn:E. injection Hr as <- <-.
  specialize (Hm _ _ _ (Hp s Hs) E). destruct r0; auto.
Qed.

Lemma gives_on_part {S C A} `{Has S C} (I : S → Prop) (P : C → Prop) (m : M C A) (Q : A → Prop) :
  (∀ s, I s → P (part s)) → (∀ c s, I s → P c → I (set_part c s)) → gives P m Q → gives I (on m) Q.
Proof.
  intros Hp HI Hm s r s' Hs Hr. unfold on in Hr. destruct (m (part s)) as [r0 c] eqn:E. injection Hr as <- <-.
  specialize (Hm _ _ _ (Hp s Hs) E). destruct r0; [destruct Hm; auto|auto].
Qed.

Create HintDb keeps discriminated.
#[export] Hint Constants Opaque : keeps.
#[export] Hint Variables Opaque : keeps.
#[export] Hint Resolve keeps_ret keeps_throw keeps_lift : keeps.

(** Follow a computation and close what the database knows of its steps. *)
Ltac keeps_step :=
  first
  [ solve [eauto 2 with keeps]
  | match goal with
    | |- keeps _ (get ≫= _) => apply keeps_get; intros
    | |- keeps _ (gets _ ≫= _) => apply keeps_gets; intros
    | |- keeps _ (_ ≫= _) => apply keeps_bind; [|intros]
    | |- keeps _ (try_catch _ _) => apply keeps_catch; [|intros]
    | |- keeps _ (if ?b then _ else _) => destruct b eqn:?
    | |- keeps _ (match ?x with _ => _ end) => destruct x eqn:?
    | |- keeps _ (let '(_, _) := ?x in _) => destruct x eqn:?
    end ].
Ltac solve_keeps := cbv zeta; repeat keeps_step.

(** The same for the value a computation gives: the steps before it keep the
    invariant, the value at the end is left as a goal. *)
Ltac gives_step :=
  first
  [ solve [eauto 2 with keeps]
  | apply gives_throw
  | match goal with
    | |- gives _ (mret _) _ => apply gives_ret
    | |- gives _ (get ≫= _) _ => apply gives_get; intros
    | |- gives _ (_ ≫= _) _ => apply gives_after; [solve [solve_keeps]|intros]
    | |- gives _ (if ?b then _ else _) _ => destruct b eqn:?
    | |- gives _ (match ?x with _ => _ end) _ => destruct x eqn:?
    end ].
Ltac solve_gives := cbv zeta; repeat gives_step.

(** ** Computations that have fuel

    A family of computations, one for each amount of fuel, settles on a state
    when all that have enough of it do the same; [ends I m]: it settles wherever
    [I] holds, and keeps [I]. *)
Class Fuel (L : Type) := {
  enough : nat → L → Prop;
  enough_mono n n' l : (n ≤ n')%nat → enough n' l → enough n l
}.

Section ends.
Context {S L : Type} `{Fuel L}.
Implicit Types I : S → Prop.

Definition settles {A} (m : L → M S A) (s : S) (o : exc A * S) : Prop := ∃ n, ∀ l, enough n l → m l s = o.
Definition ends_from {A} (m : L → M S A) (s : S) (Q : exc A → S → Prop) : Prop :=
  ∃ r s', settles m s (r, s') ∧ Q r s'.
Definition ends {A} I (m : L → M S A) : Prop := ∀ s, I s → ends_from m s (λ _, I).

Lemma ends_from_const {A} (m : M S A) s (Q : exc A → S → Prop) :
  (∀ r s', m s = (r, s') → Q r s') → ends_from (λ _, m) s Q.
Proof. intros HQ. destruct (m s) as [r s'] eqn:E. exists r, s'. split; [by exists 0%nat|auto]. Qed.

(** What only the computations with enough fuel do. *)
Lemma ends_from_enough {A} n (m m' : L → M S A) s Q :
  (∀ l, enough n l → m l s = m' l s) → ends_from m' s Q → ends_from m s Q.
Proof.
  intros Hm (r & s' & [n' Hn] & HQ). exists r, s'. split; [|done]. exists (n `max` n')%nat. intros l Hl.
  rewrite Hm by (eapply enough_mono; [|exact Hl]; lia). apply Hn. eapply enough_mono; [|exact Hl]. lia.
Qed.

Lemma ends_from_unfold {A} n (m m' : L → M S A) s Q :
  (∀ l, enough n l → m l = m' l) → ends_from m' s Q → ends_from m s Q.
Proof. intros Hm. apply (ends_from_enough n). intros l Hl. by rewrite Hm. Qed.

Lemma ends_from_bind {A B} (m : L → M S A) (k : L → A → M S B) s R Q :
  ends_from m s R → (∀ a s1, R (Ret a) s1 → ends_from (λ l, k l a) s1 Q) →
  (∀ e s1, R (Throw e) s1 → Q (Throw e) s1) → ends_from (λ l, m l ≫= k l) s Q.
Proof.
  intros ([a|e] & s1 & [n Hn] & HR) Hk Ht.
  - apply (ends_from_enough n _ (λ l _, k l a s1)).
    + intros l Hl. by rewrite (bind_ret (m l) _ s a s1) by auto.
    + destruct (Hk a s1 HR) as (r & s' & [n' Hn'] & HQ). exists r, s'. by split; [exists n'|].
  - exists (Throw e), s1. split; [|auto]. exists n. intros l Hl. by apply bind_throw, Hn.
Qed.

Lemma ends_from_weaken {A} (m : L → M S A) s (Q Q' : exc A → S → Prop) :
  ends_from m s Q → (∀ r s', Q r s' → Q' r s') → ends_from m s Q'.
Proof. intros (r & s' & Hs & HQ) HQ'. exists r, s'. auto. Qed.

Lemma ends_const {A} I (m : M S A) : keeps I m → ends I (λ _, m).
Proof. intros Hm s HI. apply ends_from_const. intros r s' Hr. exact (keeps_run _ _ _ _ _ Hm HI Hr). Qed.

Lemma ends_bind {A B} I (m : L → M S A) (k : L → A → M S B) :
  ends I m → (∀ a, ends I (λ l, k l a)) → ends I (λ l, m l ≫= k l).
Proof. intros Hm Hk s HI. apply (ends_from_bind _ _ _ (λ _, I)); [auto|intros; by apply Hk|done]. Qed.

Lemma ends_catch {A} I (m : L → M S A) (h : L → string → M S A) :
  ends I m → (∀ e, ends I (λ l, h l e)) → ends I (λ l, try_catch (m l) (h l)).
Proof.
  intros Hm Hh s HI. destruct (Hm s HI) as ([a|e] & s1 & [n Hn] & HI1).
  - exists (Ret a), s1. split; [|done]. exists n. intros l Hl. unfold try_catch. by rewrite Hn.
  - apply (ends_from_enough n _ (λ l _, h l e s1)).
    + intros l Hl. unfold try_catch. by rewrite Hn.
    + destruct (Hh e s1 HI1) as (r & s' & [n' Hn'] & HI'). exists r, s'. by split; [exists n'|].
Qed.

Lemma ends_get {A} I (k : L → S → M S A) : (∀ s, I s → ends I (λ l, k l s)) → ends I (λ l, get ≫= k l).
Proof. intros Hk s HI. exact (Hk s HI s HI). Qed.

Lemma ends_gets {A B} I (f : S → A) (k : L → A → M S B) :
  (∀ s, I s → ends I (λ l, k l (f s))) → ends I (λ l, gets f ≫= k l).
Proof. intros Hk s HI. exact (Hk s HI s HI). Qed.

Lemma ends_weaken {A} I I' (m : L → M S A) s : ends I m → I s → (∀ s', I s' → I' s') → ends_from m s (λ _, I').
Proof. intros Hm HI HI'. eapply ends_from_weaken; [by apply Hm|auto]. Qed.

Lemma ends_from_gets {A B} (f : S → A) (k : L → A → M S B) s Q :
  ends_from (λ l, k l (f s)) s Q → ends_from (λ l, gets f ≫= k l) s Q.
Proof. done. Qed.
Lemma ends_from_get {A} (k : L → S → M S A) s Q :
  ends_from (λ l, k l s) s Q → ends_from (λ l, get ≫= k l) s Q.
Proof. done. Qed.
Lemma ends_from_modify {A} f (m : L → M S A) s Q :
  ends_from m (f s) Q → ends_from (λ l, modify f;; m l) s Q.
Proof. done. Qed.
End ends.

Create HintDb ends discriminated.
#[export] Hint Constants Opaque : ends.
#[export] Hint Variables Opaque : ends.

(** Follow a family of computations as [keeps_step] follows one. *)
Ltac ends_step :=
  cbv beta;
  first
  [ solve [eauto 2 with ends]
  | apply ends_const; solve [solve_keeps]
  | match goal with
    | |- ends _ (λ l, get ≫= _) => apply ends_get; intros
    | |- ends _ (λ l, gets _ ≫= _) => apply ends_gets; intros
    | |- ends _ (λ l, _ ≫= _) => apply ends_bind; [|intros]
    | |- ends _ (λ l, if ?b then _ else _) => destruct b eqn:?
    | |- ends _ (λ l, match ?x with _ => _ end) => destruct x eqn:?
    | |- ends _ (λ l, let '(_, _) := ?x in _) => destruct x eqn:?
    end ].
Ltac solve_ends := cbv zeta; repeat ends_step.
