(* ===== verification/Crc32cHardware.v ===== *)
(** * CRC-32C in hardware: [crc32c/src/crc32c_sse42.cc], [crc32c/src/crc32c_arm64.cc], [crc32c/src/crc32c.cc]

    The routines for CPUs with CRC-32C instructions and the choice between them
    and the portable one.  The instructions are not code of the program: they
    are the classes [Sse42] and [Arm64], whose laws are the operations of the
    manuals (a division of bit-reflected polynomials, a carry-less product),
    which [ReferenceCpu] carries out. *)
From S2P Require Import Prelude Crc32c.
#[local] Open Scope Z_scope.

(** ** What the manuals say of the instructions *)

(** The [n] low bits of [x] in the reverse order. *)
Fixpoint reflect (n : nat) (x : Z) : Z :=
  match n with
  | O => 0
  | S n => Z.lor (if Z.odd x then Z.shiftl 1 (Z.of_nat n) else 0) (reflect n (Z.shiftr x 1))
  end.

(** The remainder of the polynomial [x], below degree [n + 32], by the
    Castagnoli polynomial. *)
Fixpoint mod2 (n : nat) (x : Z) : Z :=
  match n with
  | O => x
  | S n => mod2 n (if Z.testbit x (Z.of_nat n + 32) then Z.lxor x (Z.shiftl 0x11edc6f41 (Z.of_nat n)) else x)
  end.

(** CRC32 on [w] bits: [crc] and [v] are reflected, [v] multiplied by x^32 and
    [crc] by x^w, and the remainder of their sum is reflected. *)
Definition crc32_operation (w : nat) (crc v : Z) : Z :=
  reflect 32 (mod2 w (Z.lxor (Z.shiftl (reflect w v) 32) (Z.shiftl (reflect 32 crc) (Z.of_nat w)))).

(** The product of two polynomials of 64 coefficients. *)
Definition polynomial_product (a b : Z) : Z :=
  foldr (λ i x, Z.lxor x (if Z.testbit a i then Z.shiftl b i else 0)) 0 (seqZ 0 64).

Class Sse42 := {
  _mm_crc32_u8 : Z → Z → Z;
  _mm_crc32_u64 : Z → Z → Z;
  mm_crc32_u8_law crc v : in_u32 crc → in_u8 v → _mm_crc32_u8 crc v = crc32_operation 8 crc v;
  mm_crc32_u64_law crc v : in_u64 crc → in_u64 v → _mm_crc32_u64 crc v = crc32_operation 64 (u32 crc) v
}.

Class Arm64 := {
  __crc32cb : Z → Z → Z;
  __crc32ch : Z → Z → Z;
  __crc32cw : Z → Z → Z;
  __crc32cd : Z → Z → Z;
  vmull_p64 : Z → Z → Z;
  crc32cb_law crc v : in_u32 crc → in_u8 v → __crc32cb crc v = crc32_operation 8 crc v;
  crc32ch_law crc v : in_u32 crc → in_u16 v → __crc32ch crc v = crc32_operation 16 crc v;
  crc32cw_law crc v : in_u32 crc → in_u32 v → __crc32cw crc v = crc32_operation 32 crc v;
  crc32cd_law crc v : in_u32 crc → in_u64 v → __crc32cd crc v = crc32_operation 64 crc v;
  vmull_p64_law a b : in_u64 a → in_u64 b → vmull_p64 a b = polynomial_product a b
}.

(** A processor that does what the manuals say. *)
Module ReferenceCpu.
#[export] Instance sse42 : Sse42.
Proof. by refine {| _mm_crc32_u8 := crc32_operation 8; _mm_crc32_u64 crc := crc32_operation 64 (u32 crc) |}. Defined.
#[export] Instance arm64 : Arm64.
Proof.
  by refine {| __crc32cb := crc32_operation 8; __crc32ch := crc32_operation 16; __crc32cw := crc32_operation 32;
    __crc32cd := crc32_operation 64; vmull_p64 := polynomial_product |}.
Defined.
End ReferenceCpu.

(** ** Words in memory *)
Definition ReadUint16LE (p : Bytes) : Z :=
  match p with
  | b0 :: b1 :: _ => Z.lor (Z_of_byte b0) (Z.shiftl (Z_of_byte b1) 8)
  | _ => 0
  end.

Definition ReadUint64LE (p : Bytes) : Z :=
  match p with
  | b0 :: b1 :: b2 :: b3 :: b4 :: b5 :: b6 :: b7 :: _ =>
      Z.lor (Z.lor (Z.lor (Z.lor (Z.lor (Z.lor (Z.lor (Z_of_byte b0) (Z.shiftl (Z_of_byte b1) 8))
        (Z.shiftl (Z_of_byte b2) 16)) (Z.shiftl (Z_of_byte b3) 24)) (Z.shiftl (Z_of_byte b4) 32))
        (Z.shiftl (Z_of_byte b5) 40)) (Z.shiftl (Z_of_byte b6) 48)) (Z.shiftl (Z_of_byte b7) 56)
  | _ => 0
  end.

(** [RoundUp<8>(pointer)]. *)
Definition RoundUp8 (pointer : Z) : Z := Z.land (pointer + 7) (Z.lnot 7).

(** ** [ExtendSse42] *)
Definition kGroups : Z := 3.
Definition kBlock0Size : Z := 16 * 1024 / kGroups / 64 * 64.
Definition kBlock1Size : Z := 4 * 1024 / kGroups / 8 * 8.
Definition kBlock2Size : Z := 1024 / kGroups / 8 * 8.

Definition kBlock0SkipTable : list (list Z) :=
  [ [0x00000000; 0xff770459; 0xfb027e43; 0x04757a1a; 0xf3e88a77; 0x0c9f8e2e; 0x08eaf434; 0xf79df06d;
      0xe23d621f; 0x1d4a6646; 0x193f1c5c; 0xe6481805; 0x11d5e868; 0xeea2ec31; 0xead7962b; 0x15a09272];
    [0x00000000; 0xc196b2cf; 0x86c1136f; 0x4757a1a0; 0x086e502f; 0xc9f8e2e0; 0x8eaf4340; 0x4f39f18f;
      0x10dca05e; 0xd14a1291; 0x961db331; 0x578b01fe; 0x18b2f071; 0xd92442be; 0x9e73e31e; 0x5fe551d1];
    [0x00000000; 0x21b940bc; 0x43728178; 0x62cbc1c4; 0x86e502f0; 0xa75c424c; 0xc5978388; 0xe42ec334;
      0x08267311; 0x299f33ad; 0x4b54f269; 0x6aedb2d5; 0x8ec371e1; 0xaf7a315d; 0xcdb1f099; 0xec08b025];
    [0x00000000; 0x104ce622; 0x2099cc44; 0x30d52a66; 0x41339888; 0x517f7eaa; 0x61aa54cc; 0x71e6b2ee;
      0x82673110; 0x922bd732; 0xa2fefd54; 0xb2b21b76; 0xc354a998; 0xd3184fba; 0xe3cd65dc; 0xf38183fe];
    [0x00000000; 0x012214d1; 0x024429a2; 0x03663d73; 0x04885344; 0x05aa4795; 0x06cc7ae6; 0x07ee6e37;
      0x0910a688; 0x0832b259; 0x0b548f2a; 0x0a769bfb; 0x0d98f5cc; 0x0cbae11d; 0x0fdcdc6e; 0x0efec8bf];
    [0x00000000; 0x12214d10; 0x24429a20; 0x3663d730; 0x48853440; 0x5aa47950; 0x6cc7ae60; 0x7ee6e370;
      0x910a6880; 0x832b2590; 0xb548f2a0; 0xa769bfb0; 0xd98f5cc0; 0xcbae11d0; 0xfdcdc6e0; 0xefec8bf0];
    [0x00000000; 0x27f8a7f1; 0x4ff14fe2; 0x6809e813; 0x9fe29fc4; 0xb81a3835; 0xd013d026; 0xf7eb77d7;
      0x3a294979; 0x1dd1ee88; 0x75d8069b; 0x5220a16a; 0xa5cbd6bd; 0x8233714c; 0xea3a995f; 0xcdc23eae];
    [0x00000000; 0x745292f2; 0xe8a525e4; 0x9cf7b716; 0xd4a63d39; 0xa0f4afcb; 0x3c0318dd; 0x48518a2f;
      0xaca00c83; 0xd8f29e71; 0x44052967; 0x3057bb95; 0x780631ba; 0x0c54a348; 0x90a3145e; 0xe4f186ac] ].

Definition kBlock1SkipTable : list (list Z) :=
  [ [0x00000000; 0x79113270; 0xf22264e0; 0x8b335690; 0xe1a8bf31; 0x98b98d41; 0x138adbd1; 0x6a9be9a1;
      0xc6bd0893; 0xbfac3ae3; 0x349f6c73; 0x4d8e5e03; 0x2715b7a2; 0x5e0485d2; 0xd537d342; 0xac26e132];
    [0x00000000; 0x889667d7; 0x14c0b95f; 0x9c56de88; 0x298172be; 0xa1171569; 0x3d41cbe1; 0xb5d7ac36;
      0x5302e57c; 0xdb9482ab; 0x47c25c23; 0xcf543bf4; 0x7a8397c2; 0xf215f015; 0x6e432e9d; 0xe6d5494a];
    [0x00000000; 0xa605caf8; 0x49e7e301; 0xefe229f9; 0x93cfc602; 0x35ca0cfa; 0xda282503; 0x7c2deffb;
      0x2273faf5; 0x8476300d; 0x6b9419f4; 0xcd91d30c; 0xb1bc3cf7; 0x17b9f60f; 0xf85bdff6; 0x5e5e150e];
    [0x00000000; 0x44e7f5ea; 0x89cfebd4; 0xcd281e3e; 0x1673a159; 0x529454b3; 0x9fbc4a8d; 0xdb5bbf67;
      0x2ce742b2; 0x6800b758; 0xa528a966; 0xe1cf5c8c; 0x3a94e3eb; 0x7e731601; 0xb35b083f; 0xf7bcfdd5];
    [0x00000000; 0x59ce8564; 0xb39d0ac8; 0xea538fac; 0x62d66361; 0x3b18e605; 0xd14b69a9; 0x8885eccd;
      0xc5acc6c2; 0x9c6243a6; 0x7631cc0a; 0x2fff496e; 0xa77aa5a3; 0xfeb420c7; 0x14e7af6b; 0x4d292a0f];
    [0x00000000; 0x8eb5fb75; 0x1887801b; 0x96327b6e; 0x310f0036; 0xbfbafb43; 0x2988802d; 0xa73d7b58;
      0x621e006c; 0xecabfb19; 0x7a998077; 0xf42c7b02; 0x5311005a; 0xdda4fb2f; 0x4b968041; 0xc5237b34];
    [0x00000000; 0xc43c00d8; 0x8d947741; 0x49a87799; 0x1ec49873; 0xdaf898ab; 0x9350ef32; 0x576cefea;
      0x3d8930e6; 0xf9b5303e; 0xb01d47a7; 0x7421477f; 0x234da895; 0xe771a84d; 0xaed9dfd4; 0x6ae5df0c];
    [0x00000000; 0x7b1261cc; 0xf624c398; 0x8d36a254; 0xe9a5f1c1; 0x92b7900d; 0x1f813259; 0x64935395;
      0xd6a79573; 0xadb5f4bf; 0x208356eb; 0x5b913727; 0x3f0264b2; 0x4410057e; 0xc926a72a; 0xb234c6e6] ].

Definition kBlock2SkipTable : list (list Z) :=
  [ [0x00000000; 0x8f158014; 0x1bc776d9; 0x94d2f6cd; 0x378eedb2; 0xb89b6da6; 0x2c499b6b; 0xa35c1b7f;
      0x6f1ddb64; 0xe0085b70; 0x74daadbd; 0xfbcf2da9; 0x589336d6; 0xd786b6c2; 0x4354400f; 0xcc41c01b];
    [0x00000000; 0xde3bb6c8; 0xb99b1b61; 0x67a0ada9; 0x76da4033; 0xa8e1f6fb; 0xcf415b52; 0x117aed9a;
      0xedb48066; 0x338f36ae; 0x542f9b07; 0x8a142dcf; 0x9b6ec055; 0x4555769d; 0x22f5db34; 0xfcce6dfc];
    [0x00000000; 0xde85763d; 0xb8e69a8b; 0x6663ecb6; 0x742143e7; 0xaaa435da; 0xccc7d96c; 0x1242af51;
      0xe84287ce; 0x36c7f1f3; 0x50a41d45; 0x8e216b78; 0x9c63c429; 0x42e6b214; 0x24855ea2; 0xfa00289f];
    [0x00000000; 0xd569796d; 0xaf3e842b; 0x7a57fd46; 0x5b917ea7; 0x8ef807ca; 0xf4affa8c; 0x21c683e1;
      0xb722fd4e; 0x624b8423; 0x181c7965; 0xcd750008; 0xecb383e9; 0x39dafa84; 0x438d07c2; 0x96e47eaf];
    [0x00000000; 0x6ba98c6d; 0xd75318da; 0xbcfa94b7; 0xab4a4745; 0xc0e3cb28; 0x7c195f9f; 0x17b0d3f2;
      0x5378f87b; 0x38d17416; 0x842be0a1; 0xef826ccc; 0xf832bf3e; 0x939b3353; 0x2f61a7e4; 0x44c82b89];
    [0x00000000; 0xa6f1f0f6; 0x480f971d; 0xeefe67eb; 0x901f2e3a; 0x36eedecc; 0xd810b927; 0x7ee149d1;
      0x25d22a85; 0x8323da73; 0x6dddbd98; 0xcb2c4d6e; 0xb5cd04bf; 0x133cf449; 0xfdc293a2; 0x5b336354];
    [0x00000000; 0x4ba4550a; 0x9748aa14; 0xdcecff1e; 0x2b7d22d9; 0x60d977d3; 0xbc3588cd; 0xf791ddc7;
      0x56fa45b2; 0x1d5e10b8; 0xc1b2efa6; 0x8a16baac; 0x7d87676b; 0x36233261; 0xeacfcd7f; 0xa16b9875];
    [0x00000000; 0xadf48b64; 0x5e056039; 0xf3f1eb5d; 0xbc0ac072; 0x11fe4b16; 0xe20fa04b; 0x4ffb2b2f;
      0x7df9f615; 0xd00d7d71; 0x23fc962c; 0x8e081d48; 0xc1f33667; 0x6c07bd03; 0x9ff6565e; 0x3202dd3a] ].

Section sse42.
Context `{!Sse42}.

Definition STEP1_sse (l : Z) (b : byte) : Z := _mm_crc32_u8 l (Z_of_byte b).
Definition STEP8 (crc : Z) (data : Bytes) : Z * Bytes := (_mm_crc32_u64 crc (ReadUint64LE data), drop 8 data).

(** The partial results [l64], [l641] and [l642] of three blocks of [bs] bytes. *)
Definition lanes : Type := Z * Z * Z.

Definition STEP8X3 (bs : Z) (s : Bytes * lanes) : Bytes * lanes :=
  let '(p, (crc0, crc1, crc2)) := s in
  (drop 8 p,
   (_mm_crc32_u64 crc0 (ReadUint64LE p),
    _mm_crc32_u64 crc1 (ReadUint64LE (drop (Z.to_nat bs) p)),
    _mm_crc32_u64 crc2 (ReadUint64LE (drop (Z.to_nat (2 * bs)) p)))).

Definition SKIP_BLOCK (tab : list (list Z)) (crc : Z) : Z :=
  let at_ i := nth (Z.to_nat (Z.land (Z.shiftr crc (4 * Z.of_nat i)) 0xf)) (nth i tab []) 0 in
  Z.lxor (Z.lxor (Z.lxor (Z.lxor (Z.lxor (Z.lxor (Z.lxor (at_ 0%nat) (at_ 1%nat)) (at_ 2%nat)) (at_ 3%nat)) (at_ 4%nat))
    (at_ 5%nat)) (at_ 6%nat)) (at_ 7%nat).

(** The [for] loops over a block: [i] goes up to the block's size by 64 bytes,
    eight steps written out, or by 8. *)
Definition block_by_64 (bs : Z) (s : Bytes * lanes) : Bytes * lanes :=
  Nat.iter (Z.to_nat (bs / 64)) (λ s, STEP8X3 bs (STEP8X3 bs (STEP8X3 bs (STEP8X3 bs
    (STEP8X3 bs (STEP8X3 bs (STEP8X3 bs (STEP8X3 bs s)))))))) s.
Definition block_by_8 (bs : Z) (s : Bytes * lanes) : Bytes * lanes :=
  Nat.iter (Z.to_nat (bs / 8)) (STEP8X3 bs) s.

(** The [while] loops over three blocks at a time; every turn takes at least a
    byte, so the length of the buffer is fuel enough. *)
Fixpoint blocks (block : Bytes * lanes → Bytes * lanes) (bs : Z) (tab : list (list Z)) (fuel : nat)
    (p : Bytes) (l64 : Z) : Bytes * Z :=
  match fuel with
  | S fuel =>
      if zlen p >=? kGroups * bs then
        let '(p, (l64, l641, l642)) := block (p, (l64, 0, 0)) in
        let l64 := SKIP_BLOCK tab l64 in
        let l64 := Z.lxor l64 l641 in
        let l64 := SKIP_BLOCK tab l64 in
        let l64 := Z.lxor l64 l642 in
        blocks block bs tab fuel (drop (Z.to_nat ((kGroups - 1) * bs)) p) l64
      else (p, l64)
  | O => (p, l64)
  end.

Fixpoint words16 (fuel : nat) (p : Bytes) (l64 : Z) : Bytes * Z :=
  match fuel with
  | S fuel =>
      if zlen p >=? 16 then
        let '(l64, p) := STEP8 l64 p in
        let '(l64, p) := STEP8 l64 p in
        words16 fuel p l64
      else (p, l64)
  | O => (p, l64)
  end.

(** [address] is where the buffer lies; only its last three bits matter. *)
Definition ExtendSse42 (address crc : Z) (data : Bytes) : Z :=
  let l := Z.lxor crc kCRC32Xor in
  let lead := Z.to_nat (RoundUp8 address - address) in
  let '(l, p) :=
    if decide (lead ≤ length data)%nat
    then (foldl STEP1_sse l (take lead data), drop lead data) else (l, data) in
  let l64 := l in
  let '(p, l64) := blocks (block_by_64 kBlock0Size) kBlock0Size kBlock0SkipTable (length p) p l64 in
  let '(p, l64) := blocks (block_by_8 kBlock1Size) kBlock1Size kBlock1SkipTable (length p) p l64 in
  let '(p, l64) := blocks (block_by_8 kBlock2Size) kBlock2Size kBlock2SkipTable (length p) p l64 in
  let '(p, l64) := words16 (length p) p l64 in
  let l := u32 l64 in
  Z.lxor (foldl STEP1_sse l p) kCRC32Xor.
End sse42.

(** ** [ExtendArm64] *)
Definition KBYTES : Z := 1032.
Definition SEGMENTBYTES : Z := 256.

(** [int64_t length = size]. *)
Definition s64 (x : Z) : Z := if x <? 9223372036854775808 then x else x - 18446744073709551616.

Section arm64.
Context `{!Arm64}.

(** [crc0] to [crc3], one for each segment of 256 bytes. *)
Definition parts : Type := Z * Z * Z * Z.

Definition CRC32C32BYTES (P : Bytes) (ind : Z) (c : parts) : parts :=
  let '(crc0, crc1, crc2, crc3) := c in
  let word segment := ReadUint64LE (drop (Z.to_nat (SEGMENTBYTES * segment + ind * 8)) P) in
  let crc1 := __crc32cd crc1 (word 1) in
  let crc2 := __crc32cd crc2 (word 2) in
  let crc3 := __crc32cd crc3 (word 3) in
  let crc0 := __crc32cd crc0 (word 0) in
  (crc0, crc1, crc2, crc3).

Definition CRC32C256BYTES (P : Bytes) (ind : Z) (c : parts) : parts :=
  let c := CRC32C32BYTES P (ind * 8 + 0) c in
  let c := CRC32C32BYTES P (ind * 8 + 1) c in
  let c := CRC32C32BYTES P (ind * 8 + 2) c in
  let c := CRC32C32BYTES P (ind * 8 + 3) c in
  let c := CRC32C32BYTES P (ind * 8 + 4) c in
  let c := CRC32C32BYTES P (ind * 8 + 5) c in
  let c := CRC32C32BYTES P (ind * 8 + 6) c in
  CRC32C32BYTES P (ind * 8 + 7) c.

Definition CRC32C1024BYTES (P : Bytes) (c : parts) : Bytes * parts :=
  let c := CRC32C256BYTES P 0 c in
  let c := CRC32C256BYTES P 1 c in
  let c := CRC32C256BYTES P 2 c in
  let c := CRC32C256BYTES P 3 c in
  (drop (Z.to_nat (4 * SEGMENTBYTES)) P, c).

Definition k0 : Z := 0x8d96551c.
Definition k1 : Z := 0xbd6f81f8.
Definition k2 : Z := 0xdcb17aa4.

(** One turn of the first loop. *)
Definition merge_segments (crc : Z) (data : Bytes) : Z * Bytes :=
  let '(data, (crc0, crc1, crc2, crc3)) := CRC32C1024BYTES data (crc, 0, 0, 0) in
  let t2 := u64 (vmull_p64 crc2 k2) in
  let t1 := u64 (vmull_p64 crc1 k1) in
  let t0 := u64 (vmull_p64 crc0 k0) in
  let crc := __crc32cd crc3 (ReadUint64LE data) in
  let data := drop 8 data in
  let crc := Z.lxor crc (__crc32cd 0 t2) in
  let crc := Z.lxor crc (__crc32cd 0 t1) in
  let crc := Z.lxor crc (__crc32cd 0 t0) in
  (crc, data).

(** The loops, with the bytes that are left; every turn takes 8 or more, so
    the length of the buffer is fuel enough. *)
Fixpoint segments (fuel : nat) (crc : Z) (data : Bytes) (length : Z) : Z * Bytes * Z :=
  match fuel with
  | S fuel =>
      if length >=? KBYTES then
        let '(crc, data) := merge_segments crc data in
        segments fuel crc data (length - KBYTES)
      else (crc, data, length)
  | O => (crc, data, length)
  end.

Fixpoint words8 (fuel : nat) (crc : Z) (data : Bytes) (length : Z) : Z * Bytes * Z :=
  match fuel with
  | S fuel =>
      if length >=? 8 then words8 fuel (__crc32cd crc (ReadUint64LE data)) (drop 8 data) (length - 8)
      else (crc, data, length)
  | O => (crc, data, length)
  end.

Definition first_byte (p : Bytes) : Z := match p with b :: _ => Z_of_byte b | [] => 0 end.

Definition ExtendArm64 (crc : Z) (data : Bytes) : Z :=
  let fuel := base.length data in
  let length := s64 (zlen data) in
  let crc := Z.lxor crc kCRC32Xor in
  let '(crc, data, length) := segments fuel crc data length in
  let '(crc, data, length) := words8 fuel crc data length in
  let '(crc, data) :=
    if negb (Z.land length 4 =? 0) then (__crc32cw crc (ReadUint32LE data), drop 4 data) else (crc, data) in
  let '(crc, data) :=
    if negb (Z.land length 2 =? 0) then (__crc32ch crc (ReadUint16LE data), drop 2 data) else (crc, data) in
  let crc := if negb (Z.land length 1 =? 0) then __crc32cb crc (first_byte data) else crc in
  Z.lxor crc kCRC32Xor.
End arm64.

(** ** [Extend] *)

(** [__get_cpuid(1, ...)]: the four registers, when the leaf is supported. *)
Definition CanUseSse42 (get_cpuid : Z → option (Z * Z * Z * Z)) : bool :=
  match get_cpuid 1 with
  | Some (_, _, ecx, _) => negb (Z.land ecx (Z.shiftl 1 20) =? 0)
  | None => false
  end.

(** The systems that the ARM check asks: Linux by [getauxval(AT_HWCAP)], macOS
    by [sysctlbyname] (its value, when the name is known). *)
Inductive arm_system := ArmLinux (getauxval : Z → Z) | ArmApple (sysctl : option Z) | ArmOther.
Definition AT_HWCAP : Z := 16.
Definition CanUseArm64Crc32 (system : arm_system) : bool :=
  match system with
  | ArmLinux getauxval =>
      let kHWCAP_PMULL := Z.shiftl 1 4 in
      let kHWCAP_CRC32 := Z.shiftl 1 7 in
      let hwcap := getauxval AT_HWCAP in
      Z.land hwcap (Z.lor kHWCAP_PMULL kHWCAP_CRC32) =? Z.lor kHWCAP_PMULL kHWCAP_CRC32
  | ArmApple (Some val) => negb (val =? 0)
  | ArmApple None | ArmOther => false
  end.

(** What the program was compiled for. *)
Inductive target :=
  | X86_64 (get_cpuid : Z → option (Z * Z * Z * Z))
  | Aarch64 (system : arm_system)
  | Other.

Section extend.
Context `{!Sse42, !Arm64}.

Definition Extend_on (machine : target) (address crc : Z) (data : Bytes) : Z :=
  match machine with
  | X86_64 get_cpuid => if CanUseSse42 get_cpuid then ExtendSse42 address crc data else ExtendPortable address crc data
  | Aarch64 system => if CanUseArm64Crc32 system then ExtendArm64 crc data else ExtendPortable address crc data
  | Other => ExtendPortable address crc data
  end.

(** [Crc32c(data, count)] and the C functions. *)
Definition Crc32c_value (machine : target) (address : Z) (data : Bytes) : Z := Extend_on machine address 0 data.
End extend.

(** ** The instructions take bits off the register *)
Lemma reflect_spec n x i : 0 ≤ i → Z.testbit (reflect n x) i = (i <? Z.of_nat n) && Z.testbit x (Z.of_nat n - 1 - i).
Proof.
  intros Hi. revert x. induction n as [|n IH]; intros x; cbn [reflect].
  - rewrite Z.bits_0. by destruct (Z.ltb_spec i (Z.of_nat 0)); [lia|].
  - rewrite Z.lor_spec, IH, <- Z.bit0_odd.
    assert (Z.testbit (if Z.testbit x 0 then Z.shiftl 1 (Z.of_nat n) else 0) i = (i =? Z.of_nat n) && Z.testbit x 0) as ->.
    { destruct (Z.testbit x 0); [|by rewrite Z.bits_0, andb_false_r].
      rewrite Z.shiftl_1_l, Z.pow2_bits_eqb, andb_true_r, Z.eqb_sym by lia. done. }
    destruct (Z.eqb_spec i (Z.of_nat n)) as [->|Hne]; cbn [andb].
    + destruct (Z.ltb_spec (Z.of_nat n) (Z.of_nat n)); [lia|]. destruct (Z.ltb_spec (Z.of_nat n) (Z.of_nat (S n))); [|lia].
      cbn [andb]. rewrite orb_false_r. f_equal. lia.
    + cbn [orb]. destruct (Z.ltb_spec i (Z.of_nat n)), (Z.ltb_spec i (Z.of_nat (S n))); try lia; cbn [andb]; try done.
      rewrite Z.shiftr_spec by lia. f_equal. lia.
Qed.

Lemma testbit_high n x i : 0 ≤ x < 2 ^ n → n ≤ i → Z.testbit x i = false.
Proof.
  intros Hx Hi. destruct (decide (0 ≤ n)); [|rewrite Z.pow_neg_r in Hx; lia].
  rewrite <- (Z.mod_small x (2 ^ n)) by done. apply Z.mod_pow2_bits_high. lia.
Qed.

Lemma below_pow2 n x : 0 ≤ n → 0 ≤ x → (∀ i, n ≤ i → Z.testbit x i = false) → x < 2 ^ n.
Proof.
  intros Hn Hx Hb. destruct (decide (x = 0)) as [->|]; [by apply Z.pow_pos_nonneg|].
  apply Z.log2_lt_pow2; [lia|]. destruct (decide (Z.log2 x < n)); [done|].
  specialize (Hb (Z.log2 x) ltac:(lia)). rewrite Z.bit_log2 in Hb by lia. done.
Qed.

Lemma reflect_range n x : 0 ≤ reflect n x < 2 ^ Z.of_nat n.
Proof.
  assert (0 ≤ reflect n x) as H0.
  { revert x. induction n as [|n IH]; intros x; cbn [reflect]; [done|]. apply Z.lor_nonneg. split; [|done].
    destruct (Z.odd x); [|done]. apply Z.shiftl_nonneg. lia. }
  split; [done|]. apply below_pow2; [lia|done|]. intros i Hi. rewrite reflect_spec by lia.
  by destruct (Z.ltb_spec i (Z.of_nat n)); [lia|].
Qed.

Lemma reflect_lxor n x y : reflect n (Z.lxor x y) = Z.lxor (reflect n x) (reflect n y).
Proof.
  apply Z.bits_inj'. intros i Hi. rewrite Z.lxor_spec, !reflect_spec by done.
  rewrite Z.lxor_spec. by destruct (_ <? _).
Qed.

(** A step of the division is a step of the register. *)
Lemma reflect_step n a : bit (reflect (S n + 32) a) =
  reflect (n + 32) (if Z.testbit a (Z.of_nat n + 32) then Z.lxor a (Z.shiftl 0x11edc6f41 (Z.of_nat n)) else a).
Proof.
  assert (Z.odd (reflect (S n + 32) a) = Z.testbit a (Z.of_nat n + 32)) as Hodd.
  { rewrite <- Z.bit0_odd, reflect_spec by lia. destruct (Z.ltb_spec 0 (Z.of_nat (S n + 32))); [|lia]. cbn [andb]. f_equal. lia. }
  assert (Z.shiftr (reflect (S n + 32) a) 1 = reflect (n + 32) a) as Hshift.
  { apply Z.bits_inj'. intros i Hi. rewrite Z.shiftr_spec, !reflect_spec by lia.
    destruct (Z.ltb_spec (i + 1) (Z.of_nat (S n + 32))), (Z.ltb_spec i (Z.of_nat (n + 32))); try lia; cbn [andb]; try done.
    f_equal. lia. }
  unfold bit. rewrite Hodd, Hshift. destruct (Z.testbit a _); [|apply Z.lxor_0_r]. rewrite reflect_lxor. f_equal.
  change polynomial with (reflect 32 0x11edc6f41). apply Z.bits_inj'. intros i Hi. rewrite !reflect_spec by done.
  destruct (Z.ltb_spec i (Z.of_nat (n + 32))), (Z.ltb_spec i (Z.of_nat 32)); try lia; cbn [andb]; try done.
  - rewrite Z.shiftl_spec by lia. f_equal. lia.
  - rewrite Z.shiftl_spec by lia. symmetry. apply Z.testbit_neg_r. lia.
Qed.
Lemma mod2_spec n a : reflect 32 (mod2 n a) = bits n (reflect (n + 32) a).
Proof.
  revert a. induction n as [|n IH]; intros a; [done|]. cbn [mod2]. rewrite IH, <- reflect_step.
  change (bit ?x) with (bits 1 x). rewrite <- bits_add. f_equal. lia.
Qed.

Lemma reflect_shifted w m n x :
  0 ≤ x < 2 ^ Z.of_nat n → (n + m = w)%nat → reflect w (Z.shiftl (reflect n x) (Z.of_nat m)) = x.
Proof.
  intros Hx Hw. apply Z.bits_inj'. intros i Hi. rewrite reflect_spec by done.
  destruct (Z.ltb_spec i (Z.of_nat w)); cbn [andb];
    [|symmetry; apply (testbit_high (Z.of_nat n)); [done|lia]].
  rewrite Z.shiftl_spec by lia. destruct (Z.lt_ge_cases i (Z.of_nat n)).
  - rewrite reflect_spec by lia. destruct (Z.ltb_spec (Z.of_nat w - 1 - i - Z.of_nat m) (Z.of_nat n)); [|lia].
    cbn [andb]. f_equal. lia.
  - rewrite Z.testbit_neg_r by lia. symmetry. apply (testbit_high (Z.of_nat n)); [done|lia].
Qed.

Lemma crc32_operation_bits w crc v :
  in_u32 crc → 0 ≤ v < 2 ^ Z.of_nat w → crc32_operation w crc v = bits w (Z.lxor crc v).
Proof.
  intros Hc Hv. unfold crc32_operation. rewrite mod2_spec, reflect_lxor.
  rewrite (reflect_shifted (w + 32) w 32 crc) by (done || lia).
  change 32 with (Z.of_nat 32) at 1. rewrite (reflect_shifted (w + 32) 32 w v) by (done || lia). by rewrite Z.lxor_comm.
Qed.

(** ** Bytes as a little-endian number *)
Fixpoint le (bs : Bytes) : Z :=
  match bs with [] => 0 | b :: bs => Z.lxor (Z_of_byte b) (Z.shiftl (le bs) 8) end.

Lemma le_range bs : 0 ≤ le bs < 2 ^ (8 * zlen bs).
Proof.
  induction bs as [|b bs IH]; [done|]. cbn [le]. pose proof (Z_of_byte_range b) as Hb.
  replace (8 * zlen (b :: bs)) with (8 * zlen bs + 8) by (unfold zlen; cbn [length]; lia).
  assert (0 < 2 ^ (8 * zlen bs)) by (apply Z.pow_pos_nonneg; unfold zlen; lia).
  apply lxor_small; [unfold zlen; lia| |]; rewrite ?Z.shiftl_mul_pow2, Z.pow_add_r by (unfold zlen; lia);
    change (2 ^ 8) with 256; uint_unfold; nia.
Qed.

(** The checksum takes many bytes as it takes one. *)
Lemma crc_le l bs : foldl crc_byte l bs = bits (8 * length bs) (Z.lxor l (le bs)).
Proof.
  revert l. induction bs as [|b bs IH]; intros l; [symmetry; apply Z.lxor_0_r|]. cbn [foldl le length].
  rewrite IH. unfold crc_byte. replace (8 * S (length bs))%nat with (8 * length bs + 8)%nat by lia.
  rewrite bits_add. f_equal. rewrite <- Z.lxor_assoc, (bits_lxor 8 _ (Z.shiftl _ 8)), bits_shiftl8. done.
Qed.

Lemma crc_split l bs : foldl crc_byte l bs = Z.lxor (bits (8 * length bs) l) (foldl crc_byte 0 bs).
Proof. by rewrite !crc_le, Z.lxor_0_l, bits_lxor. Qed.

Lemma crc_app l p q : foldl crc_byte l (p ++ q) = Z.lxor (foldl crc_byte 0 q) (bits (8 * length q) (foldl crc_byte l p)).
Proof. rewrite foldl_app, crc_split. apply Z.lxor_comm. Qed.

Lemma word_step x b k : 0 ≤ k → 0 ≤ x < 2 ^ k →
  Z.lor x (Z.shiftl (Z_of_byte b) k) = Z.lxor x (Z.shiftl (Z_of_byte b) k) ∧
  0 ≤ Z.lxor x (Z.shiftl (Z_of_byte b) k) < 2 ^ (k + 8).
Proof.
  intros Hk Hx. split; [by apply lor_shiftl_xor|]. pose proof (Z_of_byte_range b).
  apply lxor_small; [lia|..]; rewrite ?Z.shiftl_mul_pow2, Z.pow_add_r by lia; change (2 ^ 8) with 256; uint_unfold; nia.
Qed.

Ltac word_steps b0 :=
  let H := fresh in pose proof (Z_of_byte_range b0) as H; uint_unfold;
  repeat match goal with
    | H : 0 ≤ ?x < _ |- context [Z.lor ?x (Z.shiftl (Z_of_byte ?b) ?k)] =>
        let E := fresh in let R := fresh in
        destruct (word_step x b k ltac:(lia) H) as [E R]; rewrite E; clear E H; rename R into H
    end.

Lemma ReadUint16LE_le p : (2 ≤ length p)%nat → ReadUint16LE p = le (take 2 p).
Proof.
  destruct p as [|b0 [|b1 p]]; cbn [length]; try lia. intros _. cbn [ReadUint16LE].
  word_steps b0. change (take 2 (b0 :: b1 :: p)) with [b0; b1]. cbn [le]. by rewrite Z.shiftl_0_l, Z.lxor_0_r.
Qed.

Lemma ReadUint32LE_le p : (4 ≤ length p)%nat → ReadUint32LE p = le (take 4 p).
Proof.
  destruct p as [|b0 [|b1 [|b2 [|b3 p]]]]; cbn [length]; try lia. intros _. cbn [ReadUint32LE].
  word_steps b0. change (take 4 (b0 :: b1 :: b2 :: b3 :: p)) with [b0; b1; b2; b3]. cbn [le].
  rewrite !Z.shiftl_lxor, !Z.shiftl_shiftl, Z.shiftl_0_l, Z.lxor_0_r, !Z.lxor_assoc by lia. done.
Qed.

Lemma ReadUint64LE_le p : (8 ≤ length p)%nat → ReadUint64LE p = le (take 8 p).
Proof.
  destruct p as [|b0 [|b1 [|b2 [|b3 [|b4 [|b5 [|b6 [|b7 p]]]]]]]]; cbn [length]; try lia. intros _. cbn [ReadUint64LE].
  word_steps b0. change (take 8 (b0 :: b1 :: b2 :: b3 :: b4 :: b5 :: b6 :: b7 :: p)) with [b0; b1; b2; b3; b4; b5; b6; b7].
  cbn [le]. rewrite !Z.shiftl_lxor, !Z.shiftl_shiftl, Z.shiftl_0_l, Z.lxor_0_r, !Z.lxor_assoc by lia. done.
Qed.

(** An instruction that takes the next bytes of a buffer. *)
Lemma crc32_operation_crc w l bs :
  in_u32 l → (8 * length bs = w)%nat → crc32_operation w l (le bs) = foldl crc_byte l bs.
Proof.
  intros Hl <-. rewrite crc_le. apply crc32_operation_bits; [done|]. pose proof (le_range bs).
  unfold zlen in *. by replace (Z.of_nat (8 * length bs)) with (8 * Z.of_nat (length bs)) by lia.
Qed.
(** ** Linear maps by what they do to each bit *)
Definition combination (f : Z → Z) (n x : Z) : Z :=
  foldr (λ i a, Z.lxor a (if Z.testbit x i then f i else 0)) 0 (seqZ 0 n).

Lemma combination_ext f g n x : (∀ i, 0 ≤ i < n → f i = g i) → combination f n x = combination g n x.
Proof.
  intros Hf. unfold combination. assert (Forall (λ i, f i = g i) (seqZ 0 n)) as Hall.
  { apply Forall_forall. intros i Hi%elem_of_seqZ. apply Hf. lia. }
  induction Hall as [|i l Hi _ IH]; [done|]. cbn [foldr]. by rewrite IH, Hi.
Qed.

Lemma bits_combination m f n x : bits m (combination f n x) = combination (λ i, bits m (f i)) n x.
Proof.
  unfold combination. induction (seqZ 0 n) as [|i l IH]; cbn [foldr]; [apply bits_0|].
  rewrite bits_lxor, IH. f_equal. destruct (Z.testbit x i); [done|apply bits_0].
Qed.

Lemma combination_narrow f n m x : 0 ≤ n ≤ m → 0 ≤ x < 2 ^ n → combination f m x = combination f n x.
Proof.
  intros Hn Hx. unfold combination. replace m with (n + (m - n)) by lia. rewrite seqZ_app, foldr_app by lia. f_equal.
  assert (Forall (λ i, Z.testbit x i = false) (seqZ (0 + n) (m - n))) as Hall.
  { apply Forall_forall. intros i Hi%elem_of_seqZ. apply (testbit_high n); [done|lia]. }
  induction Hall as [|i l Hi _ IH]; [done|]. cbn [foldr]. by rewrite Hi, IH.
Qed.

Lemma combination_identity n x : 0 ≤ n → 0 ≤ x < 2 ^ n → combination (Z.shiftl 1) n x = x.
Proof.
  intros Hn Hx.
  assert (∀ l i, 0 ≤ i → NoDup l → Forall (λ j, 0 ≤ j) l →
    Z.testbit (foldr (λ i a, Z.lxor a (if Z.testbit x i then Z.shiftl 1 i else 0)) 0 l) i =
    bool_decide (i ∈ l) && Z.testbit x i) as Hbits.
  { intros l i Hi Hnd Hl. induction Hl as [|j l Hj Hl IH]; cbn [foldr].
    - rewrite Z.bits_0. rewrite bool_decide_eq_false_2; [done|]. apply not_elem_of_nil.
    - apply NoDup_cons in Hnd as [Hjl Hnd]. rewrite Z.lxor_spec, IH by done. destruct (decide (i = j)) as [->|Hne].
      + rewrite bool_decide_eq_false_2, bool_decide_eq_true_2 by (done || left). cbn [andb]. rewrite xorb_false_l.
        destruct (Z.testbit x j); [|apply Z.bits_0]. rewrite Z.shiftl_1_l. by rewrite Z.pow2_bits_true.
      + assert (Z.testbit (if Z.testbit x j then Z.shiftl 1 j else 0) i = false) as ->.
        { destruct (Z.testbit x j); [|apply Z.bits_0]. rewrite Z.shiftl_1_l, Z.pow2_bits_false; [done|congruence]. }
        rewrite xorb_false_r. f_equal. apply bool_decide_ext. rewrite elem_of_cons. intuition congruence. }
  apply Z.bits_inj'. intros i Hi. unfold combination. rewrite Hbits; [|done|apply NoDup_seqZ|].
  - case_bool_decide as Hin; [done|]. rewrite elem_of_seqZ in Hin. symmetry. apply (testbit_high n); [done|lia].
  - apply Forall_forall. intros j Hj%elem_of_seqZ. lia.
Qed.

Lemma bits_by_images n x : in_u32 x → bits n x = combination (λ i, bits n (Z.shiftl 1 i)) 32 x.
Proof. intros Hx. rewrite <- bits_combination, combination_identity by (uint_unfold; lia || done). done. Qed.

(** The images of the 32 bits after [n] steps, by doubling. *)
Definition images (n : nat) : list Z := (λ i, bits n (Z.shiftl 1 i)) <$> seqZ 0 32.
Definition apply_images (m : list Z) (x : Z) : Z := combination (λ i, nth (Z.to_nat i) m 0) 32 x.
Fixpoint images_pos (p : positive) : list Z :=
  match p with
  | xH => images 1
  | xO p => let m := images_pos p in apply_images m <$> m
  | xI p => let m := images_pos p in let m1 := images 1 in apply_images m1 <$> (apply_images m <$> m)
  end.

Lemma apply_images_bits n x : in_u32 x → apply_images (images n) x = bits n x.
Proof.
  intros Hx. rewrite bits_by_images by done. apply combination_ext. intros i Hi. unfold images.
  rewrite nth_lookup, list_lookup_fmap, lookup_seqZ_lt by lia. cbn. f_equal. f_equal. lia.
Qed.

Lemma images_add n m : images (n + m) = apply_images (images n) <$> images m.
Proof.
  unfold images at 1 3. rewrite <- list_fmap_compose. apply list_fmap_ext. intros k i Hi%list_elem_of_lookup_2%elem_of_seqZ.
  cbn. rewrite apply_images_bits, bits_add; [done|]. apply bits_range. rewrite Z.shiftl_1_l.
  split; [by apply Z.pow_nonneg|]. change 4294967296 with (2 ^ 32); apply Z.pow_lt_mono_r; lia.
Qed.

Lemma images_pos_spec p : images_pos p = images (Pos.to_nat p).
Proof.
  induction p as [p IH|p IH|]; [| |done]; cbn [images_pos]; rewrite IH, <- images_add.
  - rewrite <- images_add. f_equal. lia.
  - f_equal. lia.
Qed.

(** ** [ExtendSse42] *)

(** The tables take a checksum over a block of zeros. *)
Definition skips (tab : list (list Z)) (bs : positive) : bool :=
  let m := images_pos (8 * bs) in
  forallb (λ j, forallb (λ i, nth (Z.to_nat i) (nth j tab []) 0 =? apply_images m (Z.shiftl i (4 * Z.of_nat j)))
    (seqZ 0 16)) (seq 0 8).

Lemma block0_skips : skips kBlock0SkipTable 5440 = true.
Proof. vm_compute. reflexivity. Qed.
Lemma block1_skips : skips kBlock1SkipTable 1360 = true.
Proof. vm_compute. reflexivity. Qed.
Lemma block2_skips : skips kBlock2SkipTable 336 = true.
Proof. vm_compute. reflexivity. Qed.

Lemma land_15 x : 0 ≤ Z.land x 15 < 16.
Proof. change 15 with (Z.ones 4). rewrite Z.land_ones by lia. apply Z.mod_pos_bound. lia. Qed.

Lemma skip_entry tab bs j x : skips tab bs = true → (j < 8)%nat →
  nth (Z.to_nat (Z.land x 0xf)) (nth j tab []) 0 = bits (8 * Pos.to_nat bs) (Z.shiftl (Z.land x 0xf) (4 * Z.of_nat j)).
Proof.
  intros Hs Hj. unfold skips in Hs. rewrite forallb_forall in Hs. specialize (Hs j). rewrite forallb_forall in Hs.
  pose proof (land_15 x) as Hx. specialize (Hs ltac:(apply in_seq; lia) (Z.land x 0xf)).
  rewrite images_pos_spec, apply_images_bits in Hs.
  - replace (Pos.to_nat (8 * bs)) with (8 * Pos.to_nat bs)%nat in Hs by lia. apply Z.eqb_eq, Hs.
    apply list_elem_of_In, elem_of_seqZ. lia.
  - rewrite Z.shiftl_mul_pow2 by lia. assert (2 ^ (4 * Z.of_nat j) ≤ 2 ^ 28) by (apply Z.pow_le_mono_r; lia).
    assert (0 < 2 ^ (4 * Z.of_nat j)) by (by apply Z.pow_pos_nonneg; lia). change (2 ^ 28) with 268435456 in *. uint_unfold. nia.
Qed.

(** A word is its nibbles. *)
Lemma split_nibble x k : 0 ≤ k →
  Z.shiftl (Z.shiftr x k) k = Z.lxor (Z.shiftl (Z.land (Z.shiftr x k) 0xf) k) (Z.shiftl (Z.shiftr x (k + 4)) (k + 4)).
Proof.
  intros Hk. rewrite (split_byte (Z.shiftr x k) 4) at 1 by lia.
  by rewrite Z.shiftl_lxor, Z.shiftl_shiftl, Z.shiftr_shiftr, (Z.add_comm 4 k) by lia.
Qed.

Lemma SKIP_BLOCK_spec tab bs crc :
  skips tab bs = true → in_u32 crc → SKIP_BLOCK tab crc = bits (8 * Pos.to_nat bs) crc.
Proof.
  intros Hs Hc. unfold SKIP_BLOCK. cbv zeta. rewrite !(skip_entry tab bs) by (done || lia).
  rewrite <- !bits_lxor. f_equal. transitivity (Z.shiftl (Z.shiftr crc 0) 0); [|by rewrite Z.shiftr_0_r, Z.shiftl_0_r].
  rewrite (split_nibble crc 0), (split_nibble crc (0 + 4)), (split_nibble crc (0 + 4 + 4)), (split_nibble crc (0 + 4 + 4 + 4)),
    (split_nibble crc (0 + 4 + 4 + 4 + 4)), (split_nibble crc (0 + 4 + 4 + 4 + 4 + 4)),
    (split_nibble crc (0 + 4 + 4 + 4 + 4 + 4 + 4)), (split_nibble crc (0 + 4 + 4 + 4 + 4 + 4 + 4 + 4)) by lia.
  assert (Z.shiftr crc (0 + 4 + 4 + 4 + 4 + 4 + 4 + 4 + 4) = 0) as ->.
  { rewrite Z.shiftr_div_pow2 by lia. apply Z.div_small. exact Hc. }
  rewrite Z.shiftl_0_l, Z.lxor_0_r, !Z.lxor_assoc. done.
Qed.
Lemma take_drop_next {A} n k (l : list A) : take (n + k) l = take n l ++ take k (drop n l).
Proof. symmetry. apply take_take_drop. Qed.

Lemma foldl_take_next l n k (p : Bytes) :
  foldl crc_byte l (take (n + k) p) = foldl crc_byte (foldl crc_byte l (take n p)) (take k (drop n p)).
Proof. by rewrite take_drop_next, foldl_app. Qed.

Section sse42_facts.
Context `{!Sse42}.

Lemma STEP1_sse_spec l b : in_u32 l → STEP1_sse l b = crc_byte l b.
Proof.
  intros Hl. pose proof (Z_of_byte_range b). unfold STEP1_sse. rewrite mm_crc32_u8_law by done.
  by apply crc32_operation_bits.
Qed.

Lemma foldl_STEP1_sse l p : in_u32 l → foldl STEP1_sse l p = foldl crc_byte l p.
Proof.
  revert l. induction p as [|b p IH]; intros l Hl; [done|]. cbn [foldl]. rewrite STEP1_sse_spec by done.
  apply IH. exact (crc_range l [b] Hl).
Qed.

Lemma crc32_u64_spec l p : in_u32 l → (8 ≤ length p)%nat → _mm_crc32_u64 l (ReadUint64LE p) = foldl crc_byte l (take 8 p).
Proof.
  intros Hl Hp. rewrite ReadUint64LE_le by done.
  assert (length (take 8 p) = 8%nat) as H8 by (rewrite length_take; lia).
  pose proof (le_range (take 8 p)) as Hr. unfold zlen in Hr. rewrite H8 in Hr.
  rewrite mm_crc32_u64_law; [|uint_unfold; lia|exact Hr]. rewrite u32_small by done.
  apply crc32_operation_crc; [done|]. by rewrite H8.
Qed.

(** The lanes after [n] words. *)
Definition lanes_at (bs : Z) (p : Bytes) (c : lanes) (n : nat) : Bytes * lanes :=
  let '(a, b, c) := c in
  (drop n p, (foldl crc_byte a (take n p), foldl crc_byte b (take n (drop (Z.to_nat bs) p)),
              foldl crc_byte c (take n (drop (Z.to_nat (2 * bs)) p)))).

Lemma STEP8X3_spec bs p a b c n :
  in_u32 a → in_u32 b → in_u32 c → 0 ≤ bs → Z.of_nat n + 8 ≤ bs → 3 * bs ≤ zlen p →
  STEP8X3 bs (lanes_at bs p (a, b, c) n) = lanes_at bs p (a, b, c) (n + 8).
Proof.
  intros Ha Hb Hc Hbs Hn Hp. unfold zlen in Hp. unfold lanes_at, STEP8X3. rewrite !drop_drop.
  rewrite !crc32_u64_spec by (by apply crc_range || (rewrite length_drop; lia)).
  rewrite !foldl_take_next, !drop_drop, (Nat.add_comm n (Z.to_nat bs)), (Nat.add_comm n (Z.to_nat (2 * bs))). done.
Qed.

Lemma iter_STEP8X3 bs p a b c k n :
  in_u32 a → in_u32 b → in_u32 c → 0 ≤ bs → Z.of_nat n + 8 * Z.of_nat k ≤ bs → 3 * bs ≤ zlen p →
  Nat.iter k (STEP8X3 bs) (lanes_at bs p (a, b, c) n) = lanes_at bs p (a, b, c) (n + 8 * k).
Proof.
  intros Ha Hb Hc Hbs Hn Hp. induction k as [|k IH]; [by replace (n + 8 * 0)%nat with n by lia|].
  rewrite Nat.iter_succ, IH by lia. rewrite STEP8X3_spec by (done || lia). f_equal. lia.
Qed.

(** A block's loop takes three blocks at once. *)
Definition takes_blocks (block : Bytes * lanes → Bytes * lanes) (bs : Z) : Prop :=
  ∀ p a b c, in_u32 a → in_u32 b → in_u32 c → 3 * bs ≤ zlen p →
    block (p, (a, b, c)) = lanes_at bs p (a, b, c) (Z.to_nat bs).

Lemma block_by_8_spec bs : 0 ≤ bs → bs mod 8 = 0 → takes_blocks (block_by_8 bs) bs.
Proof.
  intros Hbs H8 p a b c Ha Hb Hc Hp. unfold block_by_8. change (p, (a, b, c)) with (lanes_at bs p (a, b, c) 0).
  pose proof (Z.div_mod bs 8 ltac:(lia)). pose proof (Z.div_pos bs 8 Hbs ltac:(lia)).
  rewrite iter_STEP8X3 by (done || lia). f_equal. lia.
Qed.

Lemma block_by_64_spec bs : 0 ≤ bs → bs mod 64 = 0 → takes_blocks (block_by_64 bs) bs.
Proof.
  intros Hbs H64 p a b c Ha Hb Hc Hp. unfold block_by_64.
  assert (∀ k s, Nat.iter k (λ s, STEP8X3 bs (STEP8X3 bs (STEP8X3 bs (STEP8X3 bs (STEP8X3 bs (STEP8X3 bs
    (STEP8X3 bs (STEP8X3 bs s)))))))) s = Nat.iter (8 * k) (STEP8X3 bs) s) as ->.
  { intros k s. induction k as [|k IH]; [done|]. replace (8 * S k)%nat with (8 + 8 * k)%nat by lia.
    rewrite Nat.iter_add, Nat.iter_succ, IH. done. }
  change (p, (a, b, c)) with (lanes_at bs p (a, b, c) 0).
  pose proof (Z.div_mod bs 64 ltac:(lia)). pose proof (Z.div_pos bs 64 Hbs ltac:(lia)).
  rewrite iter_STEP8X3 by (done || lia). f_equal. lia.
Qed.

(** The three partial results are put together. *)
Lemma three_blocks tab bs p l :
  skips tab bs = true → in_u32 l → 3 * Z.pos bs ≤ zlen p →
  let n := Pos.to_nat bs in
  Z.lxor (SKIP_BLOCK tab (Z.lxor (SKIP_BLOCK tab (foldl crc_byte l (take n p)))
    (foldl crc_byte 0 (take n (drop n p))))) (foldl crc_byte 0 (take n (drop (2 * n) p))) =
  foldl crc_byte l (take (3 * n) p).
Proof.
  intros Hs Hl Hp n. unfold zlen in Hp. replace (3 * n)%nat with (n + (n + n))%nat by lia.
  rewrite !foldl_take_next, (crc_split (foldl _ (foldl _ _ _) _)), (crc_split (foldl _ l _) (take n (drop n p))).
  rewrite !length_take, !length_drop, !Nat.min_l by lia. rewrite drop_drop. replace (n + n)%nat with (2 * n)%nat by lia.
  assert (∀ l p, in_u32 l → in_u32 (foldl crc_byte l p)) as Hr by (intros; by apply crc_range).
  rewrite !(SKIP_BLOCK_spec tab bs); [done|done|by apply Hr|done|].
  apply (lxor_small 32); [lia| |by apply Hr]. rewrite (SKIP_BLOCK_spec tab bs) by (done || by apply Hr).
  by apply bits_range, Hr.
Qed.

Lemma blocks_spec block bs tab fuel p l :
  takes_blocks block (Z.pos bs) → skips tab bs = true → in_u32 l →
  let '(p', l') := blocks block (Z.pos bs) tab fuel p l in in_u32 l' ∧ foldl crc_byte l' p' = foldl crc_byte l p.
Proof.
  intros Hblock Hs. revert p l. induction fuel as [|fuel IH]; intros p l Hl; [done|]. cbn [blocks].
  destruct (Z.geb_spec (zlen p) (kGroups * Z.pos bs)) as [Hp|]; [|done]. change kGroups with 3 in *.
  rewrite Hblock by done. cbn [lanes_at].
  pose proof (three_blocks tab bs p l Hs Hl Hp) as H3. cbv zeta in H3.
  replace (Z.to_nat (2 * Z.pos bs)) with (2 * Pos.to_nat bs)%nat by lia. change (Z.to_nat (Z.pos bs)) with (Pos.to_nat bs).
  rewrite H3, drop_drop. replace (Pos.to_nat bs + Z.to_nat ((3 - 1) * Z.pos bs))%nat with (3 * Pos.to_nat bs)%nat by lia.
  specialize (IH (drop (3 * Pos.to_nat bs) p) _ (crc_range l (take (3 * Pos.to_nat bs) p) Hl)).
  destruct (blocks _ _ _ _ _ _) as [p' l']. destruct IH as [Hl' IH]. split; [done|].
  by rewrite IH, <- foldl_take_drop.
Qed.

Lemma words16_spec fuel p l : in_u32 l →
  let '(p', l') := words16 fuel p l in in_u32 l' ∧ foldl crc_byte l' p' = foldl crc_byte l p.
Proof.
  revert p l. induction fuel as [|fuel IH]; intros p l Hl; [done|]. cbn [words16].
  destruct (Z.geb_spec (zlen p) 16) as [Hp|]; [|done]. unfold zlen in Hp. unfold STEP8.
  rewrite (crc32_u64_spec l) by (done || lia).
  rewrite crc32_u64_spec by (by apply crc_range || (rewrite length_drop; lia)). rewrite drop_drop.
  rewrite <- foldl_take_next. specialize (IH (drop 16 p) _ (crc_range l (take 16 p) Hl)).
  change (8 + 8)%nat with 16%nat. destruct (words16 _ _ _) as [p' l']. destruct IH as [Hl' IH]. split; [done|].
  by rewrite IH, <- foldl_take_drop.
Qed.

Lemma extend_sse42_correct address crc data : in_u32 crc → ExtendSse42 address crc data = crc_ref crc data.
Proof.
  intros Hcrc. unfold ExtendSse42, crc_ref. f_equal. change kCRC32Xor with 0xffffffff. set (l0 := Z.lxor crc _).
  assert (in_u32 l0) as Hl0 by (apply (lxor_small 32); uint_lia). set (lead := Z.to_nat _).
  assert (∃ l p, (if decide (lead ≤ length data)%nat
      then (foldl STEP1_sse l0 (take lead data), drop lead data) else (l0, data)) = (l, p) ∧
    in_u32 l ∧ foldl crc_byte l p = foldl crc_byte l0 data) as (l & p & -> & Hl & <-).
  { case_decide; eexists _, _; (split; [done|]); [|done]. rewrite foldl_STEP1_sse by done.
    split; [by apply crc_range|by rewrite <- foldl_take_drop]. }
  change kBlock0Size with 5440. change kBlock1Size with 1360. change kBlock2Size with 336.
  pose proof (blocks_spec (block_by_64 5440) 5440 kBlock0SkipTable (length p) p l
    (block_by_64_spec 5440 ltac:(lia) eq_refl) block0_skips Hl) as H0.
  destruct (blocks (block_by_64 5440) _ _ _ _ _) as [p0 l1]. destruct H0 as [Hl1 <-].
  pose proof (blocks_spec (block_by_8 1360) 1360 kBlock1SkipTable (length p0) p0 l1
    (block_by_8_spec 1360 ltac:(lia) eq_refl) block1_skips Hl1) as H1.
  destruct (blocks (block_by_8 1360) _ _ _ _ _) as [p1 l2]. destruct H1 as [Hl2 <-].
  pose proof (blocks_spec (block_by_8 336) 336 kBlock2SkipTable (length p1) p1 l2
    (block_by_8_spec 336 ltac:(lia) eq_refl) block2_skips Hl2) as H2.
  destruct (blocks (block_by_8 336) _ _ _ _ _) as [p2 l3]. destruct H2 as [Hl3 <-].
  pose proof (words16_spec (length p2) p2 l3 Hl3) as H3. destruct (words16 _ _ _) as [p3 l4]. destruct H3 as [Hl4 <-].
  rewrite u32_small by done. f_equal. by apply foldl_STEP1_sse.
Qed.
End sse42_facts.

(** ** [ExtendArm64] *)

(** The constants take a checksum over the segments that follow and the last
    word. *)
Definition folds (k : Z) (m : positive) : bool :=
  let im := images_pos m in
  (0 <=? k) && (k <? 2 ^ 32) && forallb (λ i, bits 64 (Z.shiftl k i) =? nth (Z.to_nat i) im 0) (seqZ 0 32).

Lemma k0_folds : folds k0 6208 = true.
Proof. vm_compute. reflexivity. Qed.
Lemma k1_folds : folds k1 4160 = true.
Proof. vm_compute. reflexivity. Qed.
Lemma k2_folds : folds k2 2112 = true.
Proof. vm_compute. reflexivity. Qed.

Lemma combination_range f n x m :
  0 ≤ m → (∀ i, 0 ≤ i < n → 0 ≤ f i < 2 ^ m) → 0 ≤ combination f n x < 2 ^ m.
Proof.
  intros Hm Hf. unfold combination. assert (Forall (λ i, 0 ≤ f i < 2 ^ m) (seqZ 0 n)) as Hall.
  { apply Forall_forall. intros i Hi%elem_of_seqZ. apply Hf. lia. }
  assert (0 < 2 ^ m) by by apply Z.pow_pos_nonneg.
  induction Hall as [|i l Hi _ IH]; cbn [foldr]; [lia|]. apply lxor_small; [done|done|]. by destruct (Z.testbit x i).
Qed.

Lemma product_combination c k : polynomial_product c k = combination (Z.shiftl k) 64 c.
Proof. unfold polynomial_product, combination. reflexivity. Qed.

Lemma product_small c k : in_u32 c → in_u32 k → in_u64 (polynomial_product c k).
Proof.
  intros Hc Hk. pose proof (combination_range (Z.shiftl k) 32 c 64 ltac:(lia)) as Hr. unfold in_u64.
  change 18446744073709551616 with (2 ^ 64). rewrite product_combination.
  rewrite (combination_narrow _ 32) by (lia || exact Hc). apply Hr. intros i Hi.
  assert (0 < 2 ^ i ≤ 2 ^ 31) by (split; [apply Z.pow_pos_nonneg|apply Z.pow_le_mono_r]; lia).
  rewrite Z.shiftl_mul_pow2 by lia. change (2 ^ 64) with 18446744073709551616. change (2 ^ 31) with 2147483648 in *.
  uint_unfold. nia.
Qed.

Lemma product_bits c k m : folds k m = true → in_u32 c → bits 64 (polynomial_product c k) = bits (Pos.to_nat m) c.
Proof.
  intros Hk Hc. unfold folds in Hk. apply andb_true_iff in Hk as [_ Hk]. rewrite forallb_forall in Hk.
  rewrite product_combination.
  rewrite (combination_narrow _ 32), bits_combination, <- (apply_images_bits (Pos.to_nat m)) by (lia || exact Hc).
  rewrite <- images_pos_spec. apply combination_ext. intros i Hi. apply Z.eqb_eq, Hk, list_elem_of_In, elem_of_seqZ. lia.
Qed.

Section arm64_facts.
Context `{!Arm64}.

Lemma crc32cd_spec l p : in_u32 l → (8 ≤ length p)%nat → __crc32cd l (ReadUint64LE p) = foldl crc_byte l (take 8 p).
Proof.
  intros Hl Hp. rewrite ReadUint64LE_le by done.
  assert (length (take 8 p) = 8%nat) as H8 by (rewrite length_take; lia).
  pose proof (le_range (take 8 p)) as Hr. unfold zlen in Hr. rewrite H8 in Hr.
  rewrite crc32cd_law by done. apply crc32_operation_crc; [done|]. by rewrite H8.
Qed.

Lemma folded_spec c k m : folds k m = true → in_u32 c → __crc32cd 0 (u64 (vmull_p64 c k)) = bits (Pos.to_nat m) c.
Proof.
  intros Hk Hc. assert (in_u32 k) as Hk32 by (unfold folds in Hk; uint_unfold; lia).
  rewrite vmull_p64_law by (uint_unfold; lia). pose proof (product_small c k Hc Hk32).
  rewrite u64_small, crc32cd_law, crc32_operation_bits by done. by apply product_bits.
Qed.

(** The parts after [n] words. *)
Definition parts_at (P : Bytes) (crc : Z) (n : nat) : parts :=
  (foldl crc_byte crc (take (8 * n) P), foldl crc_byte 0 (take (8 * n) (drop 256 P)),
   foldl crc_byte 0 (take (8 * n) (drop 512 P)), foldl crc_byte 0 (take (8 * n) (drop 768 P))).

Lemma CRC32C32BYTES_spec P crc n :
  in_u32 crc → (n < 32)%nat → (1024 ≤ length P)%nat →
  CRC32C32BYTES P (Z.of_nat n) (parts_at P crc n) = parts_at P crc (S n).
Proof.
  intros Hc Hn HP. unfold CRC32C32BYTES, parts_at. cbv zeta. change SEGMENTBYTES with 256.
  rewrite !crc32cd_spec by (by apply crc_range || (rewrite length_drop; lia)).
  replace (8 * S n)%nat with (8 * n + 8)%nat by lia. rewrite !foldl_take_next, !drop_drop.
  replace (Z.to_nat (256 * 0 + Z.of_nat n * 8)) with (8 * n)%nat by lia.
  replace (Z.to_nat (256 * 1 + Z.of_nat n * 8)) with (256 + 8 * n)%nat by lia.
  replace (Z.to_nat (256 * 2 + Z.of_nat n * 8)) with (512 + 8 * n)%nat by lia.
  replace (Z.to_nat (256 * 3 + Z.of_nat n * 8)) with (768 + 8 * n)%nat by lia. done.
Qed.

Lemma CRC32C256BYTES_spec P crc k ind :
  Z.of_nat k = ind → in_u32 crc → (k < 4)%nat → (1024 ≤ length P)%nat →
  CRC32C256BYTES P ind (parts_at P crc (8 * k)) = parts_at P crc (8 * S k).
Proof.
  intros <- Hc Hk HP. unfold CRC32C256BYTES. cbv zeta.
  assert (∀ j z, Z.of_nat j = z → (j < 8)%nat → CRC32C32BYTES P (Z.of_nat k * 8 + z) (parts_at P crc (8 * k + j)) =
    parts_at P crc (8 * k + S j)) as Hstep.
  { intros j z <- Hj. replace (Z.of_nat k * 8 + Z.of_nat j) with (Z.of_nat (8 * k + j)) by lia.
    rewrite CRC32C32BYTES_spec by (done || lia). by rewrite <- plus_n_Sm. }
  replace (8 * k)%nat with (8 * k + 0)%nat by lia.
  rewrite (Hstep 0%nat 0 eq_refl ltac:(lia)), (Hstep 1%nat 1 eq_refl ltac:(lia)), (Hstep 2%nat 2 eq_refl ltac:(lia)),
    (Hstep 3%nat 3 eq_refl ltac:(lia)), (Hstep 4%nat 4 eq_refl ltac:(lia)), (Hstep 5%nat 5 eq_refl ltac:(lia)),
    (Hstep 6%nat 6 eq_refl ltac:(lia)), (Hstep 7%nat 7 eq_refl ltac:(lia)).
  f_equal. lia.
Qed.

Lemma CRC32C1024BYTES_spec P crc :
  in_u32 crc → (1024 ≤ length P)%nat → CRC32C1024BYTES P (crc, 0, 0, 0) = (drop 1024 P, parts_at P crc 32).
Proof.
  intros Hc HP. unfold CRC32C1024BYTES. cbv zeta. change (crc, 0, 0, 0) with (parts_at P crc (8 * 0)).
  rewrite (CRC32C256BYTES_spec P crc 0 0), (CRC32C256BYTES_spec P crc 1 1), (CRC32C256BYTES_spec P crc 2 2),
    (CRC32C256BYTES_spec P crc 3 3) by (done || lia). done.
Qed.

(** The four segments and the word after them are put together. *)
Lemma four_segments crc p0 p1 p2 p3 p4 :
  length p1 = 256%nat → length p2 = 256%nat → length p3 = 256%nat → length p4 = 8%nat →
  foldl crc_byte crc (p0 ++ p1 ++ p2 ++ p3 ++ p4) =
  Z.lxor (Z.lxor (Z.lxor (foldl crc_byte (foldl crc_byte 0 p3) p4) (bits (Pos.to_nat 2112) (foldl crc_byte 0 p2)))
    (bits (Pos.to_nat 4160) (foldl crc_byte 0 p1))) (bits (Pos.to_nat 6208) (foldl crc_byte crc p0)).
Proof.
  intros H1 H2 H3 H4. rewrite (crc_app crc p0), (crc_app 0 p1), (crc_app 0 p2), foldl_app, !length_app, H1, H2, H3, H4.
  reflexivity.
Qed.

Lemma merge_segments_spec P crc :
  in_u32 crc → (1032 ≤ length P)%nat → merge_segments crc P = (foldl crc_byte crc (take 1032 P), drop 1032 P).
Proof.
  intros Hc HP. unfold merge_segments. rewrite CRC32C1024BYTES_spec by (done || lia). unfold parts_at. cbv zeta.
  change (8 * 32)%nat with 256%nat. assert (∀ l p, in_u32 l → in_u32 (foldl crc_byte l p)) as Hr by (intros; by apply crc_range).
  rewrite (folded_spec _ k0 6208 k0_folds), (folded_spec _ k1 4160 k1_folds), (folded_spec _ k2 2112 k2_folds) by (by apply Hr).
  rewrite crc32cd_spec by (by apply Hr || (rewrite length_drop; lia)). rewrite drop_drop. f_equal.
  change 1032%nat with (256 + (256 + (256 + (256 + 8))))%nat at 1. rewrite !take_drop_next, !drop_drop.
  rewrite four_segments by (rewrite length_take, ?length_drop; lia). done.
Qed.

Lemma s64_small x : 0 ≤ x < 2 ^ 63 → s64 x = x.
Proof. intros Hx. unfold s64. change (2 ^ 63) with 9223372036854775808 in Hx. by destruct (Z.ltb_spec x 9223372036854775808); [|lia]. Qed.

Lemma segments_spec fuel crc data : in_u32 crc →
  ∃ crc' data', segments fuel crc data (zlen data) = (crc', data', zlen data') ∧ in_u32 crc' ∧
    (length data' ≤ length data)%nat ∧ foldl crc_byte crc' data' = foldl crc_byte crc data.
Proof.
  revert crc data. induction fuel as [|fuel IH]; intros crc data Hc; cbn [segments]; [by eexists _, _|].
  change KBYTES with 1032. destruct (Z.geb_spec (zlen data) 1032) as [Hl|]; [|by eexists _, _]. unfold zlen in Hl.
  rewrite merge_segments_spec by (done || lia).
  replace (zlen data - 1032) with (zlen (drop 1032 data)) by (unfold zlen; rewrite length_drop; lia).
  destruct (IH (foldl crc_byte crc (take 1032 data)) (drop 1032 data)) as (crc' & data' & -> & Hc' & Hl' & Heq);
    [by apply crc_range|]. rewrite length_drop in Hl'. eexists _, _. split; [done|]. split; [done|]. split; [lia|].
  by rewrite Heq, <- foldl_take_drop.
Qed.

Lemma words8_spec fuel crc data : in_u32 crc → (length data ≤ fuel)%nat →
  ∃ crc' data', words8 fuel crc data (zlen data) = (crc', data', zlen data') ∧ in_u32 crc' ∧ (length data' < 8)%nat ∧
    foldl crc_byte crc' data' = foldl crc_byte crc data.
Proof.
  revert crc data. induction fuel as [|fuel IH]; intros crc data Hc Hf; cbn [words8].
  { eexists _, _. split; [done|]. split; [done|]. split; [lia|done]. }
  destruct (Z.geb_spec (zlen data) 8) as [Hl|]; unfold zlen in *.
  2: { eexists _, _. split; [done|]. split; [done|]. split; [lia|done]. }
  rewrite crc32cd_spec by (done || lia).
  replace (Z.of_nat (length data) - 8) with (Z.of_nat (length (drop 8 data))) by (rewrite length_drop; lia).
  destruct (IH (foldl crc_byte crc (take 8 data)) (drop 8 data)) as (crc' & data' & -> & Hc' & Hl' & Heq);
    [by apply crc_range|rewrite length_drop; lia|]. eexists _, _. split; [done|]. split; [done|]. split; [done|].
  by rewrite Heq, <- foldl_take_drop.
Qed.

(** The last bytes, by the bits of their number. *)
Definition tail_taken (n : Z) (k : nat) : nat := if Z.land n (Z.of_nat k) =? 0 then 0 else k.

Lemma tail_bits n : (n < 8)%nat → let z := Z.of_nat n in
  (Z.land z (Z.of_nat 4) ≠ 0 → (4 ≤ n)%nat) ∧ (Z.land z (Z.of_nat 2) ≠ 0 → (2 ≤ n - tail_taken z 4)%nat) ∧
  (Z.land z (Z.of_nat 1) ≠ 0 → (1 ≤ n - tail_taken z 4 - tail_taken z 2)%nat) ∧
  (n - tail_taken z 4 - tail_taken z 2 - tail_taken z 1 = 0)%nat.
Proof. do 8 (destruct n as [|n]; [intros _; vm_compute; intuition lia|]). lia. Qed.

Lemma last_word k z (instruction : Z → Z → Z) (read : Bytes → Z) length crc (data : Bytes) :
  Z.of_nat k = z → (∀ l p, in_u32 l → (k ≤ base.length p)%nat → instruction l (read p) = foldl crc_byte l (take k p)) →
  in_u32 crc → (Z.land length (Z.of_nat k) ≠ 0 → (k ≤ base.length data)%nat) →
  ∃ crc' data', (if negb (Z.land length z =? 0) then (instruction crc (read data), drop k data)
      else (crc, data)) = (crc', data') ∧
    in_u32 crc' ∧ foldl crc_byte crc' data' = foldl crc_byte crc data ∧
    base.length data' = (base.length data - tail_taken length k)%nat.
Proof.
  intros <- Hi Hc Hl. unfold tail_taken. destruct (Z.eqb_spec (Z.land length (Z.of_nat k)) 0) as [|Hne]; cbn [negb].
  { eexists _, _. split; [done|]. split; [done|]. split; [done|lia]. }
  eexists _, _. split; [done|]. rewrite Hi by auto. split; [by apply crc_range|]. split; [by rewrite <- foldl_take_drop|].
  by rewrite length_drop.
Qed.

Lemma crc32cw_spec l p : in_u32 l → (4 ≤ length p)%nat → __crc32cw l (ReadUint32LE p) = foldl crc_byte l (take 4 p).
Proof.
  intros Hl Hp. rewrite ReadUint32LE_le by done. assert (length (take 4 p) = 4%nat) as H4 by (rewrite length_take; lia).
  pose proof (le_range (take 4 p)) as Hr. unfold zlen in Hr. rewrite H4 in Hr.
  rewrite crc32cw_law by done. apply crc32_operation_crc; [done|]. by rewrite H4.
Qed.

Lemma crc32ch_spec l p : in_u32 l → (2 ≤ length p)%nat → __crc32ch l (ReadUint16LE p) = foldl crc_byte l (take 2 p).
Proof.
  intros Hl Hp. rewrite ReadUint16LE_le by done. assert (length (take 2 p) = 2%nat) as H2 by (rewrite length_take; lia).
  pose proof (le_range (take 2 p)) as Hr. unfold zlen in Hr. rewrite H2 in Hr.
  rewrite crc32ch_law by done. apply crc32_operation_crc; [done|]. by rewrite H2.
Qed.

Lemma crc32cb_spec l p : in_u32 l → (1 ≤ length p)%nat → __crc32cb l (first_byte p) = foldl crc_byte l (take 1 p).
Proof.
  destruct p as [|b p]; [cbn; lia|]. intros Hl _. pose proof (Z_of_byte_range b). cbn [first_byte].
  rewrite crc32cb_law by done. change (take 1 (b :: p)) with [b]. cbn [foldl]. by apply crc32_operation_bits.
Qed.

Lemma extend_arm64_correct crc data : in_u32 crc → zlen data < 2 ^ 63 → ExtendArm64 crc data = crc_ref crc data.
Proof.
  intros Hcrc Hlen. unfold ExtendArm64, crc_ref. change kCRC32Xor with 0xffffffff. set (l0 := Z.lxor crc _).
  assert (in_u32 l0) as Hl0 by (apply (lxor_small 32); uint_lia). cbv zeta.
  rewrite s64_small by (unfold zlen in *; lia).
  destruct (segments_spec (length data) l0 data Hl0) as (c1 & d1 & -> & Hc1 & Hd1 & <-).
  destruct (words8_spec (length data) c1 d1 Hc1 Hd1) as (c2 & d2 & -> & Hc2 & Hd2 & <-).
  destruct (tail_bits (length d2) Hd2) as (T4 & T2 & T1 & T0).
  destruct (last_word 4 4 __crc32cw ReadUint32LE (zlen d2) c2 d2) as (c3 & d3 & -> & Hc3 & <- & Hd3);
    [done|exact crc32cw_spec|done|exact T4|].
  destruct (last_word 2 2 __crc32ch ReadUint16LE (zlen d2) c3 d3) as (c4 & d4 & -> & Hc4 & <- & Hd4);
    [done|exact crc32ch_spec|done|by rewrite Hd3|].
  destruct (last_word 1 1 __crc32cb first_byte (zlen d2) c4 d4) as (c5 & d5 & E & Hc5 & <- & Hd5);
    [done|exact crc32cb_spec|done|by rewrite Hd4, Hd3|].
  rewrite Hd4, Hd3 in Hd5. unfold zlen in Hd5. rewrite T0 in Hd5. destruct d5; [|done]. cbn [foldl].
  f_equal. destruct (negb _); by injection E.
Qed.
End arm64_facts.

(** ** Every machine computes the same checksum *)

(** C18: [Extend] computes CRC-32C on every machine: whatever the program was
    compiled for, whatever the CPU and the system report of their
    instructions, and wherever the buffer lies in memory, the routine that is
    chosen (the table-driven one; the SSE4.2 one with its three sizes of
    interleaved blocks and their skip tables; the ARM one with its four
    segments merged by carry-less products) returns what the bit-at-a-time
    reference over the reflected Castagnoli polynomial returns.  Of the
    instructions it is assumed that they do what the manuals say; a buffer is
    shorter than 2^63 bytes. *)
Theorem extend_correct `{!Sse42, !Arm64} machine address crc data :
  in_u32 crc → zlen data < 2 ^ 63 → Extend_on machine address crc data = crc_ref crc data.
Proof.
  intros Hc Hlen. destruct machine as [get_cpuid|system|]; cbn [Extend_on].
  - destruct (CanUseSse42 get_cpuid); [by apply extend_sse42_correct|by apply extend_portable_correct].
  - destruct (CanUseArm64Crc32 system); [by apply extend_arm64_correct|by apply extend_portable_correct].
  - by apply extend_portable_correct.
Qed.

(** An Intel CPU with SSE4.2, an ARM one with the instructions and one without
    the carry-less product, on a buffer long enough for every kind of block. *)
Definition sample_buffer : Bytes := (λ n, byte_of_Z (u8 (n * n + 7 * n))) <$> seqZ 0 3000.
Definition intel : target := X86_64 (λ leaf, if leaf =? 1 then Some (0x906ea, 0, Z.shiftl 1 20, 0) else None).
Definition arm (hwcap : Z) : target := Aarch64 (ArmLinux (λ type, if type =? AT_HWCAP then hwcap else 0)).

Lemma extend_correct_witness :
  let check := String.list_byte_of_string "123456789" in
  let I := ReferenceCpu.sse42 in let J := ReferenceCpu.arm64 in
  (Extend_on intel 3 5 sample_buffer = crc_ref 5 sample_buffer ∧
   Extend_on (arm 0x90) 3 5 sample_buffer = crc_ref 5 sample_buffer ∧
   Extend_on (arm 0x80) 3 5 sample_buffer = crc_ref 5 sample_buffer) ∧
  Extend_on intel 0 0 check = 0xe3069283 ∧ Extend_on (arm 0x90) 0 0 check = 0xe3069283.
Proof.
  cbv zeta. split; [|split; vm_compute; reflexivity].
  split; [apply (extend_correct intel 3 5 sample_buffer)|
    split; [apply (extend_correct (arm 0x90) 3 5 sample_buffer)|apply (extend_correct (arm 0x80) 3 5 sample_buffer)]];
  try (split; [discriminate|reflexivity]); vm_compute; reflexivity.
Defined.
