(* ===== verification/Filesystem.v ===== *)
(** * The file system the program runs on

    What [src/core/yisync_sync.cpp] and [src/receiver/yisync_receiver.cpp] use of
    [std::filesystem], [std::fstream] and [fsync]: a tree of files, directories
    and symbolic links, path resolution that follows links, and for every call
    an explicit answer of the system ([fault]) that may make it fail or lose
    part of a write. *)
From Stdlib Require Import Ascii.
From S2P Require Import Prelude.
#[local] Open Scope Z_scope.

(** ** Paths

    A location is the list of the names from the root of the file system. *)
Abbreviation path := (list string).

Fixpoint split_slash (s : string) : list string :=
  match s with
  | EmptyString => [EmptyString]
  | String c s =>
      if decide (c = "/"%char) then EmptyString :: split_slash s
      else match split_slash s with
           | [] => [String c EmptyString]
           | seg :: segs => String c seg :: segs
           end
  end.

Definition is_absolute (s : string) : bool :=
  match s with String c _ => bool_decide (c = "/"%char) | EmptyString => false end.

(** The elements of [std::filesystem::path(s)]: the root directory, the names,
    and an empty last element for a trailing separator. *)
Definition path_parts (s : string) : list string :=
  let segs := split_slash s in
  let names := filter (λ seg, seg ≠ ""%string) segs in
  (if is_absolute s then ["/"%string] else []) ++ names ++
  (if bool_decide (names ≠ [] ∧ last segs = Some ""%string) then [""%string] else []).

(** [generic_string()] of a relative path of plain names. *)
Definition generic_string (p : path) : string := String.concat "/" p.

Definition parent_path (p : path) : path := removelast p.

(** ** The tree *)
Inductive node :=
  | File (data : Bytes)
  | Dir
  | Symlink (target : string).

#[export] Instance node_eq_dec : EqDecision node.
Proof. solve_decision. Defined.

Inductive errc := ENOENT | ENOTDIR | EISDIR | EEXIST | ELOOP | ENOTEMPTY | EIO.

Definition message (e : errc) : string :=
  match e with
  | ENOENT => "No such file or directory" | ENOTDIR => "Not a directory"
  | EISDIR => "Is a directory" | EEXIST => "File exists"
  | ELOOP => "Too many levels of symbolic links" | ENOTEMPTY => "Directory not empty"
  | EIO => "Input/output error"
  end.

Inductive res (A : Type) := Ok (a : A) | Err (e : errc).
Arguments Ok {A} a.
Arguments Err {A} e.

(** The system's answer to the next call: the call proceeds, fails, or (for a
    write) leaves only [n] bytes on disk; a lost write is noticed by the
    stream's state only when [reported] (a small write fails in the destructor,
    where the source cannot see it). *)
Inductive fault :=
  | Proceeds
  | Fails (e : errc)
  | Loses (n : nat) (reported : bool).

Record fsys := mk_fsys { nodes : gmap path node; faults : list fault }.

(** A call that consults the system once. *)
Definition IO (A : Type) : Type := fsys → res A * fsys.

Definition next_fault (w : fsys) : fault * fsys :=
  match w.(faults) with
  | [] => (Proceeds, w)
  | f :: fs => (f, mk_fsys w.(nodes) fs)
  end.

Definition set_nodes (n : gmap path node) (w : fsys) : fsys := mk_fsys n w.(faults).

(** A call on the tree that either fails or yields a result and a new tree. *)
Definition syscall {A} (f : gmap path node → res (A * gmap path node)) : IO A := λ w,
  let '(flt, w) := next_fault w in
  match flt with
  | Fails e => (Err e, w)
  | _ => match f w.(nodes) with
         | Ok (a, n) => (Ok a, set_nodes n w)
         | Err e => (Err e, w)
         end
  end.

(** ** Resolution *)

(** The root directory always exists. *)
Definition node_at (t : gmap path node) (p : path) : option node :=
  match p with [] => Some Dir | _ => t !! p end.

(** [walk links follow t cur todo]: resolve [todo] from the directory [cur],
    through at most [links] symbolic links; a last link is followed when
    [follow].  The result is a location whose parent is a directory. *)
Fixpoint walk (links : nat) (follow : bool) (t : gmap path node) : path → list string → res path :=
  fix go (cur : path) (todo : list string) {struct todo} : res path :=
    match todo with
    | [] => Ok cur
    | c :: todo =>
        if bool_decide (c = ""%string ∨ c = "."%string) then go cur todo
        else if bool_decide (c = ".."%string) then go (removelast cur) todo
        else if bool_decide (c = "/"%string) then go [] todo
        else
          match node_at t (cur ++ [c]) with
          | None => match todo with [] => Ok (cur ++ [c]) | _ => Err ENOENT end
          | Some Dir => go (cur ++ [c]) todo
          | Some (File _) => match todo with [] => Ok (cur ++ [c]) | _ => Err ENOTDIR end
          | Some (Symlink target) =>
              if bool_decide (todo = []) && negb follow then Ok (cur ++ [c])
              else match links with
                   | O => Err ELOOP
                   | S links => walk links follow t cur (path_parts target ++ todo)
                   end
          end
    end.

(** The kernel's limit on links in one resolution. *)
Definition MAXSYMLINKS : nat := 40.

Definition resolve (t : gmap path node) (p : path) : res path := walk MAXSYMLINKS true t [] p.
Definition lresolve (t : gmap path node) (p : path) : res path := walk MAXSYMLINKS false t [] p.

(** [stat] and [lstat]. *)
Definition status (t : gmap path node) (p : path) : res node :=
  match resolve t p with
  | Err e => Err e
  | Ok q => match node_at t q with Some n => Ok n | None => Err ENOENT end
  end.

Definition symlink_status (t : gmap path node) (p : path) : res node :=
  match lresolve t p with
  | Err e => Err e
  | Ok q => match node_at t q with Some n => Ok n | None => Err ENOENT end
  end.

(** ** [std::filesystem] *)

(** [exists(p)]: a missing file is not an error. *)
Definition exists_ (p : path) : IO bool :=
  syscall (λ t, match status t p with
                | Ok _ => Ok (true, t)
                | Err (ENOENT | ENOTDIR) => Ok (false, t)
                | Err e => Err e
                end).

Definition file_size (p : path) : IO Z :=
  syscall (λ t, match status t p with
                | Ok (File data) => Ok (zlen data, t)
                | Ok _ => Err EISDIR
                | Err e => Err e
                end).

(** [mkdir], then [EEXIST] on an existing directory is no error. *)
Definition create_directory (p : path) : IO unit :=
  syscall (λ t, match lresolve t p with
                | Err e => Err e
                | Ok q =>
                    match node_at t q with
                    | None => Ok (tt, <[q := Dir]> t)
                    | Some _ => match status t p with Ok Dir => Ok (tt, t) | _ => Err EEXIST end
                    end
                end).

(** Every ancestor first. *)
Fixpoint make_directories (t : gmap path node) (made rest : list string) : res (gmap path node) :=
  match rest with
  | [] => Ok t
  | c :: rest =>
      match status t (made ++ [c]) with
      | Ok Dir => make_directories t (made ++ [c]) rest
      | Ok _ => Err ENOTDIR
      | Err ENOENT =>
          match lresolve t (made ++ [c]) with
          | Ok q =>
              match node_at t q with
              | None => make_directories (<[q := Dir]> t) (made ++ [c]) rest
              | Some _ => Err EEXIST
              end
          | Err e => Err e
          end
      | Err e => Err e
      end
  end.

Definition create_directories (p : path) : IO unit :=
  syscall (λ t, match make_directories t [] p with Ok t => Ok (tt, t) | Err e => Err e end).

Definition create_symlink (target : string) (p : path) : IO unit :=
  syscall (λ t, match lresolve t p with
                | Err e => Err e
                | Ok q =>
                    match node_at t q with
                    | None => Ok (tt, <[q := Symlink target]> t)
                    | Some _ => Err EEXIST
                    end
                end).

(** [rename] of a regular file over a missing or existing file. *)
Definition rename (from to : path) : IO unit :=
  syscall (λ t, match lresolve t from, lresolve t to with
                | Ok p, Ok q =>
                    match node_at t p with
                    | None => Err ENOENT
                    | Some Dir => Err EISDIR
                    | Some n =>
                        match node_at t q with
                        | Some Dir => Err EISDIR
                        | _ => Ok (tt, <[q := n]> (delete p t))
                        end
                    end
                | Err e, _ | _, Err e => Err e
                end).

(** [p] is [q] or below it. *)
Definition below (q p : path) : Prop := ∃ r, p = q ++ r.
#[export] Instance below_dec q p : Decision (below q p).
Proof. unfold below. apply (prefix_dec q p). Defined.

Definition remove_all (p : path) : IO unit :=
  syscall (λ t, match lresolve t p with
                | Ok q => Ok (tt, filter (λ kn, ¬ below q kn.1) t)
                | Err ENOENT => Ok (tt, t)
                | Err e => Err e
                end).

(** ** Streams and descriptors *)

(** [std::ofstream(p, binary)] (and [| trunc]): the file is created or emptied. *)
Definition open_trunc (p : path) : IO unit :=
  syscall (λ t, match resolve t p with
                | Err e => Err e
                | Ok q => match node_at t q with
                          | Some Dir => Err EISDIR
                          | _ => Ok (tt, <[q := File []]> t)
                          end
                end).

(** [std::ofstream(p, binary | app)]: the open file, created when missing. *)
Definition open_app (p : path) : IO path :=
  syscall (λ t, match resolve t p with
                | Err e => Err e
                | Ok q => match node_at t q with
                          | Some Dir => Err EISDIR
                          | None => Ok (q, <[q := File []]> t)
                          | _ => Ok (q, t)
                          end
                end).

(** [std::fstream(p, binary | in | out)]: the file must exist. *)
Definition open_inout (p : path) : IO path :=
  syscall (λ t, match resolve t p with
                | Err e => Err e
                | Ok q => match node_at t q with
                          | Some Dir => Err EISDIR
                          | None => Err ENOENT
                          | _ => Ok (q, t)
                          end
                end).

Definition content (t : gmap path node) (q : path) : Bytes :=
  match t !! q with Some (File data) => data | _ => [] end.

(** [bytes] at offset [off], the gap filled with zeros; no bytes write nothing. *)
Definition overwrite (data : Bytes) (off : nat) (bytes : Bytes) : Bytes :=
  match bytes with
  | [] => data
  | _ => take off data ++ replicate (off - length data) x00 ++ bytes ++ drop (off + length bytes) data
  end.

(** [write] and the stream's destructor; the answer is the stream's state. *)
Definition stream_write (q : path) (place : Bytes → Bytes → Bytes) (bytes : Bytes) : IO unit := λ w,
  let '(flt, w) := next_fault w in
  let put bs := set_nodes (<[q := File (place (content w.(nodes) q) bs)]> w.(nodes)) w in
  match flt with
  | Proceeds => (Ok tt, put bytes)
  | Fails e => (Err e, w)
  | Loses n reported => (if reported then Err EIO else Ok tt, put (take n bytes))
  end.

Definition write_append (q : path) (bytes : Bytes) : IO unit := stream_write q app bytes.

Definition write_at (q : path) (off : Z) (bytes : Bytes) : IO unit :=
  stream_write q (λ data, overwrite data (Z.to_nat off)) bytes.

(** [open(p, O_RDONLY)] and [fsync]. *)
Definition fsync_file (p : path) : IO unit :=
  syscall (λ t, match status t p with Ok _ => Ok (tt, t) | Err e => Err e end).

Definition fsync_dir (p : path) : IO unit :=
  syscall (λ t, match status t p with
                | Ok Dir => Ok (tt, t) | Ok _ => Err ENOTDIR | Err e => Err e
                end).

(** [std::ifstream(p, binary)] and one reading pass: the bytes of the file. *)
Definition read_file (p : path) : IO Bytes :=
  syscall (λ t, match status t p with
                | Ok (File data) => Ok (data, t)
                | Ok _ => Err EISDIR
                | Err e => Err e
                end).

(** ** Resolution without links *)
Definition name_ok (c : string) : Prop := c ≠ "" ∧ c ≠ "." ∧ c ≠ ".." ∧ c ≠ "/".
#[export] Instance name_ok_dec c : Decision (name_ok c).
Proof. unfold name_ok. apply _. Defined.

Definition is_symlink (n : option node) : bool :=
  match n with Some (Symlink _) => true | _ => false end.

(** [p] is a directory reached through directories only. *)
Definition dir_path (t : gmap path node) (p : path) : Prop :=
  Forall name_ok p ∧ ∀ q, q `prefix_of` p → node_at t q = Some Dir.

Lemma dir_path_nil t : dir_path t [].
Proof. split; [constructor|]. intros q Hq. apply prefix_nil_inv in Hq as ->. done. Qed.

Lemma dir_path_prefix t p q : dir_path t (p ++ q) → dir_path t p.
Proof.
  intros [Hok Hd]. apply Forall_app in Hok as [? _]. split; [done|].
  intros r Hr. apply Hd. by apply prefix_app_r.
Qed.

Lemma dir_path_node t p : dir_path t p → node_at t p = Some Dir.
Proof. intros [_ Hd]. by apply Hd. Qed.

Lemma prefix_snoc_inv {A} (q p : list A) c : q `prefix_of` p ++ [c] → q = p ++ [c] ∨ q `prefix_of` p.
Proof.
  intros [k Hk]. destruct k as [|x k _] using rev_ind; [left; by rewrite app_nil_r in Hk|right].
  rewrite app_assoc in Hk. apply app_inj_tail in Hk as [-> _]. by exists k.
Qed.

Lemma prefix_app_cases {A} (q p r : list A) :
  q `prefix_of` p ++ r → q `prefix_of` p ∨ ∃ k, q = p ++ k ∧ k `prefix_of` r.
Proof.
  intros [l Hl]. symmetry in Hl. apply app_eq_app in Hl as (k & [[-> Hk]|[-> Hk]]).
  - right. exists k. split; [done|]. by exists l.
  - left. by exists k.
Qed.

Lemma dir_path_snoc t p c :
  dir_path t p → name_ok c → node_at t (p ++ [c]) = Some Dir → dir_path t (p ++ [c]).
Proof.
  intros [Hok Hd] Hc Hn. split; [apply Forall_app; split; [done|by constructor]|].
  intros q Hq. apply prefix_snoc_inv in Hq as [->|Hq]; auto.
Qed.

Lemma walk_step links follow t cur c todo :
  name_ok c →
  walk links follow t cur (c :: todo) =
  match node_at t (cur ++ [c]) with
  | None => match todo with [] => Ok (cur ++ [c]) | _ => Err ENOENT end
  | Some Dir => walk links follow t (cur ++ [c]) todo
  | Some (File _) => match todo with [] => Ok (cur ++ [c]) | _ => Err ENOTDIR end
  | Some (Symlink target) =>
      if bool_decide (todo = []) && negb follow then Ok (cur ++ [c])
      else match links with
           | O => Err ELOOP
           | S links => walk links follow t cur (path_parts target ++ todo)
           end
  end.
Proof.
  intros (H1 & H2 & H3 & H4).
  destruct links; cbn [walk]; rewrite !bool_decide_eq_false_2 by tauto; done.
Qed.

Lemma walk_nil links follow t cur : walk links follow t cur [] = Ok cur.
Proof. by destruct links. Qed.

Lemma walk_dirs links follow t p todo :
  dir_path t p → walk links follow t [] (p ++ todo) = walk links follow t p todo.
Proof.
  revert todo. induction p as [|c p IH] using rev_ind; intros todo Hp; [done|].
  rewrite <- app_assoc, IH by (by eapply dir_path_prefix).
  destruct Hp as [Hok Hd]. cbn [app]. rewrite walk_step.
  - by rewrite (Hd (p ++ [c])).
  - apply Forall_app in Hok as [_ Hok]. by apply Forall_inv in Hok.
Qed.

Lemma walk_in_dir links follow t p c :
  dir_path t p → name_ok c → is_symlink (node_at t (p ++ [c])) = false →
  walk links follow t [] (p ++ [c]) = Ok (p ++ [c]).
Proof.
  intros Hp Hc Hs. rewrite walk_dirs, walk_step by done.
  destruct (node_at t (p ++ [c])) as [[]|]; try done. apply walk_nil.
Qed.

Lemma resolve_in_dir t p c :
  dir_path t p → name_ok c → is_symlink (node_at t (p ++ [c])) = false →
  resolve t (p ++ [c]) = Ok (p ++ [c]).
Proof. apply walk_in_dir. Qed.

Lemma lresolve_in_dir t p c :
  dir_path t p → name_ok c → lresolve t (p ++ [c]) = Ok (p ++ [c]).
Proof.
  intros Hp Hc. unfold lresolve. rewrite walk_dirs, walk_step by done.
  by destruct (node_at t (p ++ [c])) as [[]|].
Qed.

Lemma status_in_dir t p c :
  dir_path t p → name_ok c → is_symlink (node_at t (p ++ [c])) = false →
  status t (p ++ [c]) = match node_at t (p ++ [c]) with Some n => Ok n | None => Err ENOENT end.
Proof. intros. unfold status. by rewrite resolve_in_dir. Qed.

Lemma node_at_snoc t p c : node_at t (p ++ [c]) = t !! (p ++ [c]).
Proof. by destruct p. Qed.

Lemma status_dir t p : dir_path t p → status t p = Ok Dir.
Proof.
  intros Hp. unfold status, resolve.
  pose proof (walk_dirs MAXSYMLINKS true t p [] Hp) as Hw. rewrite app_nil_r, walk_nil in Hw.
  by rewrite Hw, (dir_path_node t p).
Qed.

Lemma dir_path_insert t p q n :
  dir_path t p → node_at t q ≠ Some Dir → dir_path (<[q := n]> t) p.
Proof.
  intros [Hok Hd] Hq. split; [done|]. intros r Hr. specialize (Hd r Hr).
  destruct r as [|c r]; [done|]. unfold node_at in *.
  rewrite lookup_insert_ne; [done|]. intros ->. done.
Qed.

Lemma dir_path_insert_dir t p q : dir_path t p → dir_path (<[q := Dir]> t) p.
Proof.
  intros [Hok Hd]. split; [done|]. intros r Hr. specialize (Hd r Hr).
  destruct r as [|c r]; [done|]. unfold node_at in *.
  destruct (decide (q = c :: r)) as [->|]; [by rewrite lookup_insert_eq|by rewrite lookup_insert_ne].
Qed.

(** [create_directories] below a directory path, where only directories or
    nothing are in the way. *)
Definition free_path (t : gmap path node) (p rest : path) : Prop :=
  Forall name_ok rest ∧
  ∀ q, q `prefix_of` rest → node_at t (p ++ q) = Some Dir ∨ node_at t (p ++ q) = None.

Fixpoint add_dirs (t : gmap path node) (made rest : path) : gmap path node :=
  match rest with
  | [] => t
  | c :: rest =>
      add_dirs (match node_at t (made ++ [c]) with None => <[made ++ [c] := Dir]> t | _ => t end)
        (made ++ [c]) rest
  end.

Lemma free_path_step t p c rest :
  dir_path t p → free_path t p (c :: rest) →
  let t' := match node_at t (p ++ [c]) with None => <[p ++ [c] := Dir]> t | _ => t end in
  name_ok c ∧ dir_path t' (p ++ [c]) ∧ free_path t' (p ++ [c]) rest.
Proof.
  intros Hp [Hok Hf]. apply Forall_cons in Hok as [Hc Hok]. cbn zeta.
  split; [done|]. destruct (Hf [c]) as [Hn|Hn]; [by apply prefix_cons, prefix_nil| |]; rewrite Hn.
  - split; [by apply dir_path_snoc|]. split; [done|]. intros q Hq. rewrite <- app_assoc.
    apply Hf. by apply prefix_cons.
  - split.
    + apply dir_path_snoc; [by apply dir_path_insert_dir|done|].
      by rewrite node_at_snoc, lookup_insert_eq.
    + split; [done|]. intros q Hq. rewrite <- app_assoc. cbn [app].
      destruct (decide (q = [])) as [->|Hne].
      * left. by rewrite node_at_snoc, lookup_insert_eq.
      * destruct (Hf (c :: q) (prefix_cons c _ _ Hq)) as [H|H]; [left|right]; revert H;
          unfold node_at; destruct (p ++ c :: q) as [|x l] eqn:E; try done;
          rewrite lookup_insert_ne; try done; rewrite <- E; intros E2;
          apply app_inv_head in E2; injection E2 as <-; done.
Qed.

Lemma make_directories_free t p rest :
  dir_path t p → free_path t p rest →
  make_directories t p rest = Ok (add_dirs t p rest) ∧ dir_path (add_dirs t p rest) (p ++ rest).
Proof.
  revert t p. induction rest as [|c rest IH]; intros t p Hp Hf; cbn [make_directories add_dirs].
  { by rewrite app_nil_r. }
  destruct (free_path_step t p c rest Hp Hf) as (Hc & Hp' & Hf').
  destruct (IH _ _ Hp' Hf') as [IH1 IH2]. rewrite <- app_assoc in IH2. split; [|done].
  destruct Hf as [_ Hf]. destruct (Hf [c]) as [Hn|Hn]; [by apply prefix_cons, prefix_nil| |];
    rewrite status_in_dir, Hn in * by (done || by rewrite Hn).
  - apply IH1.
  - rewrite lresolve_in_dir, Hn by done. apply IH1.
Qed.

(** The files and links that were there stay as they were. *)
Lemma add_dirs_lookup t p rest q n :
  t !! q = Some n → add_dirs t p rest !! q = Some n.
Proof.
  revert t p. induction rest as [|c rest IH]; intros t p Hq; [done|]. cbn [add_dirs].
  apply IH. destruct (node_at t (p ++ [c])) eqn:E; [done|].
  rewrite node_at_snoc in E. rewrite lookup_insert_ne; [done|]. intros <-. rewrite E in Hq. done.
Qed.

(** ... and everything new is a directory. *)
Lemma add_dirs_new t p rest q n :
  t !! q = None → add_dirs t p rest !! q = Some n → n = Dir ∧ ∃ r, r `prefix_of` rest ∧ q = p ++ r.
Proof.
  revert t p. induction rest as [|c rest IH]; intros t p Hq Hn; cbn [add_dirs] in Hn; [congruence|].
  destruct (node_at t (p ++ [c])) eqn:E.
  - destruct (IH _ _ Hq Hn) as (-> & r & Hr & ->). split; [done|]. exists (c :: r).
    rewrite <- app_assoc. split; [by apply prefix_cons|done].
  - destruct (decide (q = p ++ [c])) as [->|Hne].
    + rewrite (add_dirs_lookup _ _ _ _ Dir) in Hn by apply lookup_insert_eq.
      split; [congruence|]. exists [c]. split; [by apply prefix_cons, prefix_nil|done].
    + destruct (IH (<[p ++ [c] := Dir]> t) (p ++ [c])) as (-> & r & Hr & ->);
        [by rewrite lookup_insert_ne|done|].
      split; [done|]. exists (c :: r). rewrite <- app_assoc. split; [by apply prefix_cons|done].
Qed.

Lemma walk_free links follow t p rest c :
  dir_path t p → free_path t p rest → name_ok c → node_at t (p ++ rest ++ [c]) = None →
  walk links follow t p (rest ++ [c]) = Ok (p ++ rest ++ [c]) ∨
  walk links follow t p (rest ++ [c]) = Err ENOENT.
Proof.
  revert p. induction rest as [|d rest IH]; intros p Hp [Hok Hf] Hc Hn; cbn [app] in *.
  - left. by rewrite walk_step, Hn by done.
  - apply Forall_cons in Hok as [Hd Hok]. rewrite walk_step by done.
    destruct (Hf [d]) as [E|E]; [by apply prefix_cons, prefix_nil| |]; rewrite E.
    + replace (p ++ d :: rest ++ [c]) with ((p ++ [d]) ++ rest ++ [c]) in * by (by rewrite <- app_assoc).
      apply IH; [by apply dir_path_snoc| |done|done]. split; [done|].
      intros q Hq. rewrite <- app_assoc. apply Hf. by apply prefix_cons.
    + right. by destruct rest.
Qed.

Lemma status_free t p rest c :
  dir_path t p → free_path t p rest → name_ok c → node_at t (p ++ rest ++ [c]) = None →
  status t (p ++ rest ++ [c]) = Err ENOENT.
Proof.
  intros Hp Hf Hc Hn. unfold status, resolve. rewrite walk_dirs by done.
  by destruct (walk_free MAXSYMLINKS true t p rest c Hp Hf Hc Hn) as [-> | ->]; rewrite ?Hn.
Qed.

Lemma free_path_root t p rest : dir_path t p → free_path t p rest → free_path t [] (p ++ rest).
Proof.
  intros [Hok Hd] [Hok' Hf]. split; [by apply Forall_app|]. cbn [app]. intros q Hq.
  apply prefix_app_cases in Hq as [Hq|(r & -> & Hr)]; [left; by apply Hd|by apply Hf].
Qed.

Lemma add_dirs_none t p rest q :
  t !! q = None → ¬ (∃ r, r `prefix_of` rest ∧ q = p ++ r) → add_dirs t p rest !! q = None.
Proof.
  intros Hq Hn. destruct (add_dirs t p rest !! q) as [n|] eqn:E; [|done].
  by destruct (add_dirs_new t p rest q n Hq E) as [_ ?].
Qed.

(** ** Calls that succeed *)
Lemma syscall_new {A} (f : gmap path node → res (A * gmap path node)) t a n :
  f t = Ok (a, n) → syscall f (mk_fsys t []) = (Ok a, mk_fsys n []).
Proof. intros Hf. unfold syscall, next_fault. cbn [faults nodes]. by rewrite Hf. Qed.

Section new_entry.
Context (t : gmap path node) (d : path) (c : string).
Context (Hd : dir_path t d) (Hc : name_ok c) (Hn : t !! (d ++ [c]) = None).

Lemma new_not_symlink : is_symlink (node_at t (d ++ [c])) = false.
Proof. by rewrite node_at_snoc, Hn. Qed.

Lemma open_trunc_new :
  open_trunc (d ++ [c]) (mk_fsys t []) = (Ok tt, mk_fsys (<[d ++ [c] := File []]> t) []).
Proof.
  apply syscall_new. rewrite resolve_in_dir by (done || apply new_not_symlink).
  by rewrite node_at_snoc, Hn.
Qed.

Lemma create_directory_new :
  create_directory (d ++ [c]) (mk_fsys t []) = (Ok tt, mk_fsys (<[d ++ [c] := Dir]> t) []).
Proof. apply syscall_new. rewrite lresolve_in_dir by done. by rewrite node_at_snoc, Hn. Qed.

Lemma create_symlink_new target :
  create_symlink target (d ++ [c]) (mk_fsys t []) =
  (Ok tt, mk_fsys (<[d ++ [c] := Symlink target]> t) []).
Proof. apply syscall_new. rewrite lresolve_in_dir by done. by rewrite node_at_snoc, Hn. Qed.
End new_entry.

(** The missing directories of a free path are made. *)
Lemma create_directories_free t p rest :
  dir_path t p → free_path t p rest →
  create_directories (p ++ rest) (mk_fsys t []) = (Ok tt, mk_fsys (add_dirs t [] (p ++ rest)) []) ∧
  dir_path (add_dirs t [] (p ++ rest)) (p ++ rest).
Proof.
  intros Hp Hf. pose proof (free_path_root _ _ _ Hp Hf) as Hf0.
  destruct (make_directories_free _ [] _ (dir_path_nil t) Hf0) as [Hmake Hdirs].
  split; [|done]. apply syscall_new. by rewrite Hmake.
Qed.

Lemma dir_path_add_dirs t made rest p : dir_path t p → dir_path (add_dirs t made rest) p.
Proof.
  intros [Hok Hd]. split; [done|]. intros q Hq. specialize (Hd q Hq).
  destruct q as [|c q]; [done|]. by apply add_dirs_lookup.
Qed.

Lemma dir_path_delete t p q : dir_path t p → node_at t q ≠ Some Dir → dir_path (delete q t) p.
Proof.
  intros [Hok Hd] Hq. split; [done|]. intros r Hr. specialize (Hd r Hr).
  destruct r as [|c r]; [done|]. unfold node_at in *.
  rewrite lookup_delete_ne; [done|]. intros ->. done.
Qed.

(** A renamed file. *)
Lemma rename_file t d c d' c' data :
  dir_path t d → name_ok c → t !! (d ++ [c]) = Some (File data) →
  dir_path t d' → name_ok c' → t !! (d' ++ [c']) = None →
  rename (d ++ [c]) (d' ++ [c']) (mk_fsys t []) =
    (Ok tt, mk_fsys (<[d' ++ [c'] := File data]> (delete (d ++ [c]) t)) []).
Proof.
  intros Hd Hc Hn Hd' Hc' Hn'. apply syscall_new.
  by rewrite !lresolve_in_dir, !node_at_snoc, Hn, Hn' by done.
Qed.
