(* ===== verification/Wire.v ===== *)
(** * The byte writer and reader of [src/core/yisync_protocol.cpp]

    [Writer] appends little-endian integers, length-prefixed byte strings and
    strings to a buffer; [Reader] consumes them from a buffer at a position and
    throws on truncation.  [Codec write read ok] is the interface every wire
    type satisfies: reading what was written gives the value back (on the
    values [ok] holds of), and a read that succeeds consumed exactly the bytes
    that [write] emits for its result. *)
From S2P Require Import Prelude.
#[local] Open Scope Z_scope.

(** ** Writer *)
Module Writer.
(** [Bytes out_]; an operation maps the buffer before to the buffer after. *)
Definition t : Type := Bytes.

(** [out_.push_back(static_cast<std::byte>(value))]. *)
Definition push_back (value : Z) (w : t) : t := w ++ [byte_of_Z value].

Definition u8 (value : Z) (w : t) : t := push_back value w.

Definition bool_value (value : bool) (w : t) : t := u8 (if value then 1 else 0) w.

Definition u16 (value : Z) (w : t) : t :=
  push_back (Z.land (Z.shiftr value 8) 255) (push_back (Z.land value 255) w).

(** The loops of [u32] and [u64]: one byte per [shift]. *)
Definition push_shifts (shifts : list Z) (value : Z) (w : t) : t :=
  foldl (λ out shift, push_back (Z.land (Z.shiftr value shift) 255) out) w shifts.

Definition u32 (value : Z) (w : t) : t := push_shifts [0; 8; 16; 24] value w.

Definition u64 (value : Z) (w : t) : t :=
  push_shifts [0; 8; 16; 24; 32; 40; 48; 56] value w.

(** The [size()] is cast to [uint32_t]. *)
Definition bytes (value : Bytes) (w : t) : t :=
  u32 (Prelude.u32 (zlen value)) w ++ value.

(** A [string_view] is written as its characters. *)
Definition string (value : string) (w : t) : t :=
  bytes (String.list_byte_of_string value) w.
End Writer.

(** [w |> f |> g]: the statements [writer.f(); writer.g();]. *)
Notation "w |> f" := (f w) (at level 50, left associativity, only parsing).

(** ** Reader *)
Module Reader.
Record t := mk { input_ : Bytes; pos_ : nat }.

Definition throw_truncated : string := "truncated message body".

(** [if (pos_ + len > input_.size()) throw]. *)
Definition require (len : Z) : M t unit := λ r,
  if Z.of_nat (pos_ r) + len >? zlen (input_ r)
  then (Throw throw_truncated, r) else (Ret tt, r).

(** [input_[pos_++]] as an unsigned value; every caller has [require]d it. *)
Definition next_byte : M t Z := λ r,
  (Ret (Z_of_byte (default x00 (input_ r !! pos_ r))),
   mk (input_ r) (S (pos_ r))).

Definition u8 : M t Z := _ ← require 1; next_byte.

Definition bool_value : M t bool := v ← u8; mret (negb (v =? 0)).

(** [for (shift ...) value |= input_[pos_++] << shift]. *)
Fixpoint or_shifts (shifts : list Z) (value : Z) : M t Z :=
  match shifts with
  | [] => mret value
  | shift :: shifts' => b ← next_byte; or_shifts shifts' (Z.lor value (Z.shiftl b shift))
  end.

Definition u16 : M t Z := _ ← require 2; or_shifts [0; 8] 0.

Definition u32 : M t Z := _ ← require 4; or_shifts [0; 8; 16; 24] 0.

Definition u64 : M t Z :=
  _ ← require 8; or_shifts [0; 8; 16; 24; 32; 40; 48; 56] 0.

(** [Bytes(input_.begin() + pos_, input_.begin() + pos_ + len); pos_ += len]. *)
Definition take_bytes (len : Z) : M t Bytes := λ r,
  (Ret (take (Z.to_nat len) (drop (pos_ r) (input_ r))),
   mk (input_ r) (pos_ r + Z.to_nat len)).

Definition bytes : M t Bytes := len ← u32; _ ← require len; take_bytes len.

Definition string : M t string :=
  len ← u32; _ ← require len; bs ← take_bytes len;
  mret (String.string_of_list_byte bs).

Definition done : M t unit := λ r,
  if decide (pos_ r = length (input_ r))
  then (Ret tt, r) else (Throw "trailing bytes in message body", r).
End Reader.

(** ** The codec interface *)

(** The reader that has consumed [pre] and has [suf] left. *)
Definition at_cursor (pre suf : Bytes) : Reader.t := Reader.mk (pre ++ suf) (length pre).

Class Codec {A : Type} (write : A → Writer.t → Writer.t) (read : M Reader.t A)
    (ok : A → Prop) : Prop := {
  codec_append x w : write x w = w ++ write x [];
  codec_read x pre tl :
    ok x → read (at_cursor pre (write x [] ++ tl)) = (Ret x, at_cursor (pre ++ write x []) tl);
  codec_sound pre suf x r' :
    read (at_cursor pre suf) = (Ret x, r') →
    ok x ∧ ∃ tl, suf = write x [] ++ tl ∧ r' = at_cursor (pre ++ write x []) tl
}.
Arguments codec_append {A} write {read ok _} x w.
Arguments codec_read {A} write {read ok _} x pre tl _.
Arguments codec_sound {A write} read {ok _} pre suf x r' _.

Lemma bind_at {A B} (write : A → Writer.t → Writer.t) (read : M Reader.t A) ok
    `{!Codec write read ok} (k : A → M Reader.t B) x pre tl :
  ok x →
  (read ≫= k) (at_cursor pre (write x [] ++ tl)) = k x (at_cursor (pre ++ write x []) tl).
Proof. intros Hok. unfold mbind, M_bind. by rewrite (codec_read write x pre tl Hok). Qed.
Arguments bind_at {A B} write {read ok _} k x pre tl _.

(** ** Fixed-width integers *)
Lemma at_cursor_cons pre b suf :
  Reader.next_byte (at_cursor pre (b :: suf)) = (Ret (Z_of_byte b), at_cursor (pre ++ [b]) suf).
Proof.
  unfold Reader.next_byte, at_cursor; simpl. rewrite list_lookup_middle by done. simpl.
  do 2 f_equal; [by rewrite <- app_assoc | rewrite length_app; simpl; lia].
Qed.

Lemma require_at pre suf len :
  Reader.require len (at_cursor pre suf) =
  if len <=? zlen suf then (Ret tt, at_cursor pre suf)
  else (Throw Reader.throw_truncated, at_cursor pre suf).
Proof.
  unfold Reader.require, at_cursor; simpl. rewrite zlen_app. unfold zlen.
  destruct (Z.gtb_spec (Z.of_nat (length pre) + len)
              (Z.of_nat (length pre) + Z.of_nat (length suf)));
    destruct (Z.leb_spec len (Z.of_nat (length suf))); lia || done.
Qed.

Lemma zlen_ge {A} n (l : list A) : n ≤ zlen l → ∃ l1 l2, l = l1 ++ l2 ∧ length l1 = Z.to_nat n.
Proof.
  intros H. exists (take (Z.to_nat n) l), (drop (Z.to_nat n) l).
  rewrite take_drop, length_take. unfold zlen in H. split; [done|lia].
Qed.

Lemma split_length {A} (l : list A) n m :
  length l = (n + m)%nat → ∃ l1 l2, l = l1 ++ l2 ∧ length l1 = n ∧ length l2 = m.
Proof.
  intros H. exists (take n l), (drop n l). rewrite take_drop, length_take, length_drop.
  split; [done|lia].
Qed.

(** The value of a little-endian byte string, and the bytes of a value. *)
Fixpoint le_value (bs : Bytes) : Z :=
  match bs with [] => 0 | b :: bs => Z_of_byte b + 256 * le_value bs end.

Fixpoint le_bytes (n : nat) (v : Z) : Bytes :=
  match n with O => [] | S n => byte_of_Z v :: le_bytes n (v / 256) end.

Lemma length_le_bytes n v : length (le_bytes n v) = n.
Proof. revert v. induction n; intros; simpl; auto. Qed.

Lemma le_value_range bs : 0 ≤ le_value bs < 256 ^ zlen bs.
Proof.
  induction bs as [|b bs IH]; [done|].
  rewrite zlen_cons, Z.pow_add_r by (pose proof (zlen_nonneg bs); lia). simpl.
  pose proof (Z_of_byte_range b) as [? ?]. lia.
Qed.

Lemma le_value_bytes n v : 0 ≤ v < 256 ^ Z.of_nat n → le_value (le_bytes n v) = v.
Proof.
  revert v. induction n as [|n IH]; intros v Hv; [simpl in *; lia|].
  simpl. rewrite Z_of_byte_of_Z, IH.
  - pose proof (Z.div_mod v 256). lia.
  - rewrite Nat2Z.inj_succ, Z.pow_succ_r in Hv by lia.
    split; [apply Z.div_pos; lia | apply Z.div_lt_upper_bound; lia].
Qed.

Lemma le_bytes_value bs : le_bytes (length bs) (le_value bs) = bs.
Proof.
  induction bs as [|b bs IH]; [done|]. simpl.
  pose proof (Z_of_byte_range b) as [? ?].
  replace ((Z_of_byte b + 256 * le_value bs) / 256) with (le_value bs)
    by (Z.to_euclidean_division_equations; lia).
  rewrite IH. f_equal. apply Z_of_byte_inj. rewrite Z_of_byte_of_Z.
  Z.to_euclidean_division_equations; lia.
Qed.

(** The loops of the code, one shift at a time, against [le_bytes]/[le_value]. *)
Fixpoint byte_shifts (n : nat) (s : Z) : list Z :=
  match n with O => [] | S n => s :: byte_shifts n (s + 8) end.

Lemma push_shifts_spec n s v w :
  0 ≤ s → Writer.push_shifts (byte_shifts n s) v w = w ++ le_bytes n (v / 2 ^ s).
Proof.
  revert s w. induction n as [|n IH]; intros s w Hs; simpl; [by rewrite app_nil_r|].
  change (foldl _ ?w' (byte_shifts n (s + 8))) with (Writer.push_shifts (byte_shifts n (s + 8)) v w').
  rewrite IH by lia. unfold Writer.push_back. rewrite <- app_assoc. simpl. do 2 f_equal.
  - apply Z_of_byte_inj. rewrite !Z_of_byte_of_Z, Z.shiftr_div_pow2 by lia.
    change 255 with (Z.ones 8). rewrite Z.land_ones by lia. apply Z.mod_mod. lia.
  - rewrite Z.pow_add_r by lia. by rewrite <- Z.div_div by lia.
Qed.

Lemma or_shifts_spec n s v pre bs suf :
  length bs = n → 0 ≤ s → 0 ≤ v < 2 ^ s →
  Reader.or_shifts (byte_shifts n s) v (at_cursor pre (bs ++ suf)) =
  (Ret (v + le_value bs * 2 ^ s), at_cursor (pre ++ bs) suf).
Proof.
  revert s v pre bs. induction n as [|n IH]; intros s v pre bs Hn Hs Hv.
  - destruct bs; [|done]. simpl. unfold mret, M_ret.
    rewrite app_nil_r. do 2 f_equal. lia.
  - destruct bs as [|b bs]; [done|]. simpl in *.
    unfold mbind, M_bind. rewrite at_cursor_cons.
    pose proof (Z_of_byte_range b) as [Hb0 Hb1].
    rewrite lor_shiftl_add by lia.
    assert (2 ^ (s + 8) = 256 * 2 ^ s) as Hp by (rewrite Z.pow_add_r; lia).
    rewrite IH; [|lia|lia|nia].
    rewrite <- app_assoc. simpl. do 2 f_equal. rewrite Hp. lia.
Qed.

(** What [n]-byte little-endian reads and writes do, at any width. *)
Lemma le_codec (n : nat) (write : Z → Writer.t → Writer.t) (read : M Reader.t Z) :
  (∀ v w, write v w = w ++ le_bytes n v) →
  (∀ pre bs suf, length bs = n →
     read (at_cursor pre (bs ++ suf)) = (Ret (le_value bs), at_cursor (pre ++ bs) suf)) →
  (∀ pre suf, zlen suf < Z.of_nat n → (read (at_cursor pre suf)).1 = Throw Reader.throw_truncated) →
  Codec write read (λ v, 0 ≤ v < 256 ^ Z.of_nat n).
Proof.
  intros Hw Hr Ht. split.
  - intros x w. by rewrite !Hw.
  - intros x pre tl Hx. rewrite Hw. simpl.
    rewrite Hr by apply length_le_bytes. by rewrite le_value_bytes.
  - intros pre suf x r' Hrd.
    destruct (decide (zlen suf < Z.of_nat n)) as [Hlt|Hge].
    { specialize (Ht pre suf Hlt). rewrite Hrd in Ht. done. }
    destruct (zlen_ge (Z.of_nat n) suf) as (bs & tl & -> & Hlen); [lia|].
    rewrite Nat2Z.id in Hlen. subst n. rewrite Hr in Hrd by done.
    injection Hrd as <- <-. rewrite Hw, le_bytes_value. simpl.
    split; [apply le_value_range | by exists tl].
Qed.

Lemma read_shifts_codec n (read : M Reader.t Z) :
  read = (_ ← Reader.require (Z.of_nat n); Reader.or_shifts (byte_shifts n 0) 0) →
  (∀ pre bs suf, length bs = n →
     read (at_cursor pre (bs ++ suf)) = (Ret (le_value bs), at_cursor (pre ++ bs) suf)) ∧
  (∀ pre suf, zlen suf < Z.of_nat n → (read (at_cursor pre suf)).1 = Throw Reader.throw_truncated).
Proof.
  intros ->. split.
  - intros pre bs suf Hn. unfold mbind, M_bind. rewrite require_at, zlen_app.
    destruct (Z.leb_spec (Z.of_nat n) (zlen bs + zlen suf));
      [|unfold zlen in *; lia].
    rewrite or_shifts_spec by (done || lia). do 2 f_equal; lia.
  - intros pre suf Hlt. unfold mbind, M_bind. rewrite require_at.
    destruct (Z.leb_spec (Z.of_nat n) (zlen suf)); [lia|done].
Qed.

#[export] Instance u8_codec : Codec Writer.u8 Reader.u8 in_u8.
Proof.
  apply (le_codec 1).
  - done.
  - intros pre bs suf Hn. destruct bs as [|b [|]]; try done.
    unfold Reader.u8, mbind, M_bind. rewrite require_at.
    simpl app. rewrite zlen_cons. destruct (Z.leb_spec 1 (1 + zlen suf));
      [|pose proof (zlen_nonneg suf); lia].
    rewrite at_cursor_cons. simpl. do 2 f_equal. lia.
  - intros pre suf Hlt. unfold Reader.u8, mbind, M_bind. rewrite require_at.
    destruct (Z.leb_spec 1 (zlen suf)); [simpl in Hlt; lia|done].
Qed.

#[export] Instance u16_codec : Codec Writer.u16 Reader.u16 in_u16.
Proof.
  destruct (read_shifts_codec 2 Reader.u16 eq_refl) as [Hr Ht].
  apply (le_codec 2); [|done..].
  intros v w. pose proof (push_shifts_spec 2 0 v w ltac:(lia)) as Hp.
  rewrite Z.div_1_r in Hp. rewrite <- Hp. unfold Writer.u16. simpl. by rewrite Z.shiftr_0_r.
Qed.

#[export] Instance u32_codec : Codec Writer.u32 Reader.u32 in_u32.
Proof.
  destruct (read_shifts_codec 4 Reader.u32 eq_refl) as [Hr Ht].
  apply (le_codec 4); [|done..].
  intros v w. unfold Writer.u32. rewrite (push_shifts_spec 4 0) by lia. by rewrite Z.div_1_r.
Qed.

#[export] Instance u64_codec : Codec Writer.u64 Reader.u64 in_u64.
Proof.
  destruct (read_shifts_codec 8 Reader.u64 eq_refl) as [Hr Ht].
  apply (le_codec 8); [|done..].
  intros v w. unfold Writer.u64. rewrite (push_shifts_spec 8 0) by lia. by rewrite Z.div_1_r.
Qed.

(** ** Length-prefixed bytes and strings *)
Definition len32 {A} (l : list A) : Prop := zlen l < 4294967296.

Lemma u32_of_len {A} (l : list A) : len32 l → u32 (zlen l) = zlen l.
Proof. unfold len32. intros. apply u32_small. split; [apply zlen_nonneg | done]. Qed.

Lemma len32_u32 {A} (l : list A) : len32 l → in_u32 (zlen l).
Proof. unfold len32, in_u32. pose proof (zlen_nonneg l). lia. Qed.

Lemma take_bytes_at pre bs suf :
  Reader.take_bytes (zlen bs) (at_cursor pre (bs ++ suf)) = (Ret bs, at_cursor (pre ++ bs) suf).
Proof.
  unfold Reader.take_bytes, at_cursor; simpl. rewrite zlen_to_nat, drop_app_length, take_app_length.
  do 2 f_equal; [by rewrite <- app_assoc | by rewrite length_app].
Qed.

Lemma bytes_append (v : Bytes) w : Writer.bytes v w = w ++ Writer.bytes v [].
Proof. unfold Writer.bytes. rewrite (codec_append Writer.u32). by rewrite app_assoc. Qed.

Lemma bytes_read (v pre tl : Bytes) :
  len32 v →
  Reader.bytes (at_cursor pre (Writer.bytes v [] ++ tl)) = (Ret v, at_cursor (pre ++ Writer.bytes v []) tl).
Proof.
  intros Hv. unfold Reader.bytes, Writer.bytes. rewrite u32_of_len by done.
  rewrite <- app_assoc. rewrite (bind_at Writer.u32) by (by apply len32_u32).
  unfold mbind, M_bind. rewrite require_at, zlen_app.
  destruct (Z.leb_spec (zlen v) (zlen v + zlen tl)); [|pose proof (zlen_nonneg tl); lia].
  by rewrite take_bytes_at, <- app_assoc.
Qed.

Lemma bytes_sound (pre suf v : Bytes) r' :
  Reader.bytes (at_cursor pre suf) = (Ret v, r') →
  len32 v ∧ ∃ tl, suf = Writer.bytes v [] ++ tl ∧ r' = at_cursor (pre ++ Writer.bytes v []) tl.
Proof.
  unfold Reader.bytes. intros H. inv_bind.
  destruct (codec_sound Reader.u32 _ _ _ _ E) as (Hlen & tl & -> & ->).
  rewrite require_at in E0. destruct (Z.leb_spec a (zlen tl)) as [Hle|]; [|done].
  injection E0 as <- <-. destruct Hlen as [Hl0 Hl1].
  destruct (zlen_ge a tl Hle) as (bs & tl' & -> & Hbs).
  assert (a = zlen bs) as -> by (unfold zlen; lia).
  rewrite take_bytes_at in H. injection H as <- <-.
  split; [done|]. exists tl'. unfold Writer.bytes. rewrite u32_of_len by done.
  by rewrite <- !app_assoc.
Qed.

#[export] Instance bytes_codec : Codec Writer.bytes Reader.bytes len32.
Proof. split; eauto using bytes_append, bytes_read, bytes_sound. Qed.

Definition strlen32 (s : string) : Prop := len32 (String.list_byte_of_string s).

Lemma reader_string_bytes r :
  Reader.string r = (bs ← Reader.bytes; mret (String.string_of_list_byte bs)) r.
Proof.
  unfold Reader.string, Reader.bytes, mbind, M_bind.
  destruct (Reader.u32 r) as [[len|] r1]; [|done].
  by destruct (Reader.require len r1) as [[|] r2].
Qed.

#[export] Instance string_codec : Codec Writer.string Reader.string strlen32.
Proof.
  split.
  - intros x w. apply bytes_append.
  - intros x pre tl Hx. rewrite reader_string_bytes. unfold Writer.string.
    rewrite (bind_at Writer.bytes) by done.
    unfold mret, M_ret. by rewrite String.string_of_list_byte_of_string.
  - intros pre suf x r' H. rewrite reader_string_bytes in H. inv_bind.
    apply bytes_sound in E as (Hok & tl & -> & ->). injection H as <- <-.
    unfold strlen32, Writer.string. rewrite String.list_byte_of_string_of_list_byte. eauto.
Qed.

(** ** Vectors: a [u32] count and that many elements *)

(** [for (i = 0; i < count; ++i) push_back(read(reader))], by recursion on the
    binary count so that a huge count with a short input stops at the first
    element that throws. *)
Fixpoint read_pos {A} (read : M Reader.t A) (count : positive) : M Reader.t (list A) :=
  match count with
  | xH => x ← read; mret [x]
  | xO p => l ← read_pos read p; k ← read_pos read p; mret (l ++ k)
  | xI p => x ← read; l ← read_pos read p; k ← read_pos read p; mret (x :: l ++ k)
  end.

Definition read_loop {A} (read : M Reader.t A) (count : Z) : M Reader.t (list A) :=
  match count with Zpos p => read_pos read p | _ => mret [] end.

Definition read_vec {A} (read : M Reader.t A) : M Reader.t (list A) :=
  count ← Reader.u32; read_loop read count.

(** [for (const auto& x : l) write(writer, x)]. *)
Definition write_loop {A} (write : A → Writer.t → Writer.t) (l : list A) (w : Writer.t) : Writer.t :=
  foldl (λ w x, write x w) w l.

Definition write_vec {A} (write : A → Writer.t → Writer.t) (l : list A) (w : Writer.t) : Writer.t :=
  w |> Writer.u32 (u32 (zlen l)) |> write_loop write l.

Section vectors.
Context {A : Type} (write : A → Writer.t → Writer.t) (read : M Reader.t A) (ok : A → Prop).
Context `{HC : !Codec write read ok}.

Lemma write_loop_append l w : write_loop write l w = w ++ write_loop write l [].
Proof.
  revert w. unfold write_loop. induction l as [|x l IH]; intros w; simpl; [by rewrite app_nil_r|].
  rewrite IH, (IH (write x [])), (codec_append write). by rewrite app_assoc.
Qed.

Lemma write_loop_cons x l : write_loop write (x :: l) [] = write x [] ++ write_loop write l [].
Proof. unfold write_loop at 1. simpl. apply write_loop_append. Qed.

Lemma write_loop_app l k :
  write_loop write (l ++ k) [] = write_loop write l [] ++ write_loop write k [].
Proof.
  induction l as [|x l IH]; [done|].
  rewrite <- app_comm_cons, !write_loop_cons, IH. by rewrite app_assoc.
Qed.

Lemma read_pos_at p l pre tl :
  length l = Pos.to_nat p → Forall ok l →
  read_pos read p (at_cursor pre (write_loop write l [] ++ tl)) =
  (Ret l, at_cursor (pre ++ write_loop write l []) tl).
Proof.
  revert l pre tl.
  assert (∀ q l pre tl, (∀ l pre tl, length l = Pos.to_nat q → Forall ok l →
      read_pos read q (at_cursor pre (write_loop write l [] ++ tl)) =
      (Ret l, at_cursor (pre ++ write_loop write l []) tl)) →
    length l = (Pos.to_nat q + Pos.to_nat q)%nat → Forall ok l →
    (l1 ← read_pos read q; l2 ← read_pos read q; mret (l1 ++ l2))
      (at_cursor pre (write_loop write l [] ++ tl)) =
    (Ret l, at_cursor (pre ++ write_loop write l []) tl)) as Hdouble.
  { intros q l pre tl IH Hl Hok.
    apply split_length in Hl as (l1 & l2 & -> & Hl1 & Hl2).
    apply Forall_app in Hok as [Hok1 Hok2].
    rewrite write_loop_app, <- app_assoc. unfold mbind, M_bind.
    rewrite IH by done. rewrite IH by done.
    unfold mret, M_ret. by rewrite <- app_assoc. }
  induction p as [p IH|p IH|]; intros l pre tl Hl Hok.
  - destruct l as [|x l]; [simpl in Hl; lia|]. apply Forall_cons in Hok as [Hx Hok].
    rewrite write_loop_cons, <- app_assoc. simpl. rewrite (bind_at write) by done.
    pose proof (Hdouble p l (pre ++ write x []) tl IH ltac:(simpl in Hl; lia) Hok) as Hd.
    unfold mbind, M_bind in Hd |- *. revert Hd.
    destruct (read_pos read p _) as [[l1|] r1]; [|done].
    destruct (read_pos read p r1) as [[l2|] r2]; [|done].
    unfold mret, M_ret. intros [= -> ->]. by rewrite <- app_assoc.
  - apply Hdouble; [done|lia|done].
  - destruct l as [|x [|]]; try done. apply Forall_cons in Hok as [Hx _].
    rewrite write_loop_cons. simpl. rewrite <- app_assoc. simpl.
    rewrite (bind_at write) by done. by rewrite app_nil_r.
Qed.

Lemma read_pos_sound p pre suf l r' :
  read_pos read p (at_cursor pre suf) = (Ret l, r') →
  length l = Pos.to_nat p ∧ Forall ok l ∧
  ∃ tl, suf = write_loop write l [] ++ tl ∧ r' = at_cursor (pre ++ write_loop write l []) tl.
Proof.
  revert pre suf l r'. induction p as [p IH|p IH|]; simpl; intros pre suf l r' H; inv_bind.
  - destruct (codec_sound read _ _ _ _ E) as (Hx & tl & -> & ->).
    apply IH in E0 as (Hl1 & Hok1 & tl1 & -> & ->).
    apply IH in E1 as (Hl2 & Hok2 & tl2 & -> & ->).
    injection H as <- <-. split; [simpl; rewrite length_app; lia|].
    split; [by constructor; [|apply Forall_app]|].
    exists tl2. rewrite write_loop_cons, write_loop_app. by rewrite !app_assoc.
  - apply IH in E as (Hl1 & Hok1 & tl1 & -> & ->).
    apply IH in E0 as (Hl2 & Hok2 & tl2 & -> & ->).
    injection H as <- <-. split; [rewrite length_app; lia|].
    split; [by apply Forall_app|].
    exists tl2. rewrite write_loop_app. by rewrite !app_assoc.
  - destruct (codec_sound read _ _ _ _ E) as (Hx & tl & -> & ->). injection H as <- <-.
    split; [done|]. split; [by constructor|]. exists tl. by rewrite write_loop_cons, app_nil_r.
Qed.

Definition vec_ok (l : list A) : Prop := len32 l ∧ Forall ok l.

Lemma write_vec_eq l : write_vec write l [] = Writer.u32 (u32 (zlen l)) [] ++ write_loop write l [].
Proof. unfold write_vec. by rewrite write_loop_append. Qed.

#[export] Instance vec_codec : Codec (write_vec write) (read_vec read) vec_ok.
Proof.
  split.
  - intros l w. rewrite write_vec_eq. unfold write_vec.
    rewrite write_loop_append, (codec_append Writer.u32). by rewrite app_assoc.
  - intros l pre tl [Hl Hok]. rewrite write_vec_eq, u32_of_len, <- app_assoc by done.
    unfold read_vec. rewrite (bind_at Writer.u32) by (by apply len32_u32).
    unfold read_loop. destruct (zlen l) as [|p|p] eqn:E.
    + destruct l; [by rewrite !app_nil_r | by rewrite zlen_cons in E; pose proof (zlen_nonneg l); lia].
    + rewrite read_pos_at by first [done | unfold zlen in E; lia]. by rewrite app_assoc.
    + pose proof (zlen_nonneg l). lia.
  - intros pre suf l r' H. unfold read_vec in H. inv_bind.
    destruct (codec_sound Reader.u32 _ _ _ _ E) as ([Hn0 Hn1] & tl & -> & ->).
    destruct a as [|p|p]; simpl in H; [| |lia].
    + injection H as <- <-. split; [split; [done|constructor]|]. by exists tl.
    + apply read_pos_sound in H as (Hl & Hok & tl' & -> & ->).
      assert (zlen l = Z.pos p) as Hz by (unfold zlen; lia).
      split; [split; [unfold len32; lia|done]|].
      exists tl'. rewrite write_vec_eq, Hz, u32_small by (split; lia). by rewrite !app_assoc.
Qed.
End vectors.

(** ** Enumerations carried as one byte

    A C++ [enum class E : std::uint8_t] holds every [uint8_t] value, named or
    not; [static_cast] maps between the two. *)
Class WireEnum (E : Type) := {
  to_u8 : E → Z;
  of_u8 : Z → E;
  to_of_u8 v : in_u8 v → to_u8 (of_u8 v) = v
}.

(** The values that a [uint8_t] denotes. *)
Definition enum_ok {E} `{WireEnum E} (e : E) : Prop := in_u8 (to_u8 e) ∧ of_u8 (to_u8 e) = e.

Definition write_enum {E} `{WireEnum E} (e : E) (w : Writer.t) : Writer.t := Writer.u8 (to_u8 e) w.
Definition read_enum {E} `{WireEnum E} : M Reader.t E := v ← Reader.u8; mret (of_u8 v).

#[export] Instance enum_codec {E} `{WireEnum E} : Codec (write_enum (E:=E)) read_enum enum_ok.
Proof.
  split.
  - intros x w. apply (codec_append Writer.u8).
  - intros x pre tl [Hr He]. unfold read_enum, write_enum.
    rewrite (bind_at Writer.u8) by done. unfold mret, M_ret. by rewrite He.
  - intros pre suf x r' H1. unfold read_enum in H1. inv_bind.
    destruct (codec_sound Reader.u8 _ _ _ _ E0) as (Hr & tl & -> & ->).
    injection H1 as <- <-. unfold enum_ok, write_enum. rewrite to_of_u8 by done.
    split; [done|]. by exists tl.
Qed.

(** ** Records: automation for field-by-field codecs *)
Lemma append_step {A} (write : A → Writer.t → Writer.t) (read : M Reader.t A) ok
    `{!Codec write read ok} x r w r0 :
  r = w ++ r0 → write x r = w ++ write x r0.
Proof.
  intros ->. rewrite (codec_append write x (w ++ r0)), (codec_append write x r0).
  by rewrite app_assoc.
Qed.
Arguments append_step {A} write {read ok _} x r w r0 _.

(** [f x r = w ++ f x r0], through every field written. *)
Ltac solve_append :=
  intros;
  repeat match goal with
  | |- ?f ?x ?r = ?w ++ ?f ?x ?r0 => apply (append_step f x r w r0)
  end; by rewrite ?app_nil_r.

(** Bring the bytes of a record to the form [f1 a [] ++ f2 b [] ++ ...]. *)
Ltac flatten_writes :=
  repeat match goal with
  | |- context [?f ?x (?g ?y ?r)] => rewrite (codec_append f x (g y r))
  end; rewrite <- ?app_assoc.

(** Read the next field, whose bytes come first. *)
Ltac read_field :=
  match goal with
  | |- context [(?rd ≫= ?k) (at_cursor ?pre (?f ?x [] ++ ?tl))] =>
      rewrite (bind_at f (read:=rd) k x pre tl) by eauto with yisync; cbv beta
  end.

(** Turn every successful field read of the hypotheses into the bytes read. *)
Ltac sound_fields :=
  repeat match goal with
  | E : ?rd (at_cursor ?pre ?suf) = (Ret ?a, ?s) |- _ =>
      let Hok := fresh "Hok" in let tl := fresh "tl" in
      destruct (codec_sound rd pre suf a s E) as (Hok & tl & -> & ->); clear E
  end.

(** Both sides are the same bytes up to reassociation. *)
Ltac same_bytes := flatten_writes; rewrite <- ?app_assoc; reflexivity.

Ltac solve_record_read x :=
  flatten_writes; repeat read_field;
  unfold mret, M_ret; rewrite <- ?app_assoc; destruct x; reflexivity.

(** Prove a conjunction whose conjuncts are hypotheses, without unfolding them. *)
Ltac conj_assumption := repeat (apply conj; [assumption|]); assumption.

Ltac solve_record_sound H :=
  inv_bind; sound_fields; injection H as <- <-;
  split; [cbn beta iota; conj_assumption|]; eexists; split; same_bytes.

(** [Codec wr rd ok] for a record written and read field by field. *)
Tactic Notation "solve_record_codec" reference(wr) reference(rd) reference(ok) :=
  split;
  [ unfold wr; solve_append
  | let x := fresh "x" in let H := fresh "H" in
    intros x ? ? H; unfold ok in H; destruct_and? H; unfold rd, wr; solve_record_read x
  | let H := fresh "H" in
    intros ? ? ? ? H; unfold rd in H; unfold ok, wr; solve_record_sound H ].

Lemma in_u32_zlen {A} (l : list A) : in_u32 (u32 (zlen l)).
Proof. apply u32_range. Qed.
#[export] Hint Resolve in_u32_zlen : yisync.

#[global] Arguments Writer.u8 : simpl never.
#[global] Arguments Writer.u16 : simpl never.
#[global] Arguments Writer.u32 : simpl never.
#[global] Arguments Writer.u64 : simpl never.
#[global] Arguments Writer.bytes : simpl never.
#[global] Arguments Writer.string : simpl never.
#[global] Arguments write_enum : simpl never.
#[global] Arguments write_vec : simpl never.
