(* ===== verification/Protocol.v ===== *)
(** * The wire protocol: [include/core/yisync_protocol.hpp], [src/core/yisync_protocol.cpp]

    Message types, their body encoders and decoders, frames.  A struct [T_X] of
    the header is the module [T_X] with its record [T_X.t] (fields under the
    source's names) and the predicate [T_X.ok] (each field within its C++
    type); an [enum class EM_X : std::uint8_t] is the module [EM_X], whose
    constructor [Unnamed] holds the values that have no enumerator. *)
From S2P Require Import Prelude Wire.
#[local] Open Scope Z_scope.

(** ** Enumerations *)
Module EM_MessageType.
Inductive t : Type :=
  | HELLO | MANIFEST1 | CREATE | DATA | HEARTBEAT | NACK | FILE_BEGIN | CHUNK
  | FILE_COMMIT | MANIFEST2
  | Unnamed (v : Z).
Definition to_u8 (e : t) : Z :=
  match e with
  | HELLO => 1 | MANIFEST1 => 2 | CREATE => 3 | DATA => 4 | HEARTBEAT => 5 | NACK => 6
  | FILE_BEGIN => 7 | CHUNK => 8 | FILE_COMMIT => 9 | MANIFEST2 => 10
  | Unnamed v => v
  end.
Definition of_u8 (v : Z) : t :=
  match v with
  | 1 => HELLO | 2 => MANIFEST1 | 3 => CREATE | 4 => DATA | 5 => HEARTBEAT | 6 => NACK
  | 7 => FILE_BEGIN | 8 => CHUNK | 9 => FILE_COMMIT | 10 => MANIFEST2
  | _ => Unnamed v
  end.
#[export] Instance eq_dec : EqDecision t.
Proof. solve_decision. Defined.
#[export] Instance wire : WireEnum t.
Proof.
  refine {| Wire.to_u8 := to_u8; Wire.of_u8 := of_u8 |}.
  intros v _. unfold of_u8. repeat case_match; by simplify_eq/=.
Defined.
End EM_MessageType.
Export (hints) EM_MessageType.

Module EM_Role.
Inductive t : Type :=
  | SENDER | RECEIVER
  | Unnamed (v : Z).
Definition to_u8 (e : t) : Z :=
  match e with
  | SENDER => 1 | RECEIVER => 2
  | Unnamed v => v
  end.
Definition of_u8 (v : Z) : t :=
  match v with
  | 1 => SENDER | 2 => RECEIVER
  | _ => Unnamed v
  end.
#[export] Instance eq_dec : EqDecision t.
Proof. solve_decision. Defined.
#[export] Instance wire : WireEnum t.
Proof.
  refine {| Wire.to_u8 := to_u8; Wire.of_u8 := of_u8 |}.
  intros v _. unfold of_u8. repeat case_match; by simplify_eq/=.
Defined.
End EM_Role.
Export (hints) EM_Role.

Module EM_Compression.
Inductive t : Type :=
  | NONE | LZ4 | ZSTD
  | Unnamed (v : Z).
Definition to_u8 (e : t) : Z :=
  match e with
  | NONE => 0 | LZ4 => 1 | ZSTD => 2
  | Unnamed v => v
  end.
Definition of_u8 (v : Z) : t :=
  match v with
  | 0 => NONE | 1 => LZ4 | 2 => ZSTD
  | _ => Unnamed v
  end.
#[export] Instance eq_dec : EqDecision t.
Proof. solve_decision. Defined.
#[export] Instance wire : WireEnum t.
Proof.
  refine {| Wire.to_u8 := to_u8; Wire.of_u8 := of_u8 |}.
  intros v _. unfold of_u8. repeat case_match; by simplify_eq/=.
Defined.
End EM_Compression.
Export (hints) EM_Compression.

Module EM_ChecksumAlgo.
Inductive t : Type :=
  | NONE | CRC32C | MD5
  | Unnamed (v : Z).
Definition to_u8 (e : t) : Z :=
  match e with
  | NONE => 0 | CRC32C => 1 | MD5 => 2
  | Unnamed v => v
  end.
Definition of_u8 (v : Z) : t :=
  match v with
  | 0 => NONE | 1 => CRC32C | 2 => MD5
  | _ => Unnamed v
  end.
#[export] Instance eq_dec : EqDecision t.
Proof. solve_decision. Defined.
#[export] Instance wire : WireEnum t.
Proof.
  refine {| Wire.to_u8 := to_u8; Wire.of_u8 := of_u8 |}.
  intros v _. unfold of_u8. repeat case_match; by simplify_eq/=.
Defined.
End EM_ChecksumAlgo.
Export (hints) EM_ChecksumAlgo.

Module EM_EntryKind.
Inductive t : Type :=
  | REGULAR_FILE | DIRECTORY | SYMLINK
  | Unnamed (v : Z).
Definition to_u8 (e : t) : Z :=
  match e with
  | REGULAR_FILE => 1 | DIRECTORY => 2 | SYMLINK => 3
  | Unnamed v => v
  end.
Definition of_u8 (v : Z) : t :=
  match v with
  | 1 => REGULAR_FILE | 2 => DIRECTORY | 3 => SYMLINK
  | _ => Unnamed v
  end.
#[export] Instance eq_dec : EqDecision t.
Proof. solve_decision. Defined.
#[export] Instance wire : WireEnum t.
Proof.
  refine {| Wire.to_u8 := to_u8; Wire.of_u8 := of_u8 |}.
  intros v _. unfold of_u8. repeat case_match; by simplify_eq/=.
Defined.
End EM_EntryKind.
Export (hints) EM_EntryKind.

Module EM_NackReason.
Inductive t : Type :=
  | BAD_SESSION | BAD_SEQ | BAD_OFFSET | BAD_CHECKSUM | BAD_FILE_ORDER
  | BAD_CREATE | FILE_EXISTS | PREV_FILE_INCOMPLETE | SIZE_CONFLICT
  | CHECKSUM_MISMATCH | UNSUPPORTED_COMPRESSION | DECODE_ERROR | IO_ERROR
  | BAD_CHUNK | BAD_COMMIT
  | Unnamed (v : Z).
Definition to_u8 (e : t) : Z :=
  match e with
  | BAD_SESSION => 1 | BAD_SEQ => 2 | BAD_OFFSET => 3 | BAD_CHECKSUM => 4
  | BAD_FILE_ORDER => 5 | BAD_CREATE => 6 | FILE_EXISTS => 7
  | PREV_FILE_INCOMPLETE => 8 | SIZE_CONFLICT => 9 | CHECKSUM_MISMATCH => 10
  | UNSUPPORTED_COMPRESSION => 11 | DECODE_ERROR => 12 | IO_ERROR => 13
  | BAD_CHUNK => 14 | BAD_COMMIT => 15
  | Unnamed v => v
  end.
Definition of_u8 (v : Z) : t :=
  match v with
  | 1 => BAD_SESSION | 2 => BAD_SEQ | 3 => BAD_OFFSET | 4 => BAD_CHECKSUM
  | 5 => BAD_FILE_ORDER | 6 => BAD_CREATE | 7 => FILE_EXISTS
  | 8 => PREV_FILE_INCOMPLETE | 9 => SIZE_CONFLICT | 10 => CHECKSUM_MISMATCH
  | 11 => UNSUPPORTED_COMPRESSION | 12 => DECODE_ERROR | 13 => IO_ERROR
  | 14 => BAD_CHUNK | 15 => BAD_COMMIT
  | _ => Unnamed v
  end.
#[export] Instance eq_dec : EqDecision t.
Proof. solve_decision. Defined.
#[export] Instance wire : WireEnum t.
Proof.
  refine {| Wire.to_u8 := to_u8; Wire.of_u8 := of_u8 |}.
  intros v _. unfold of_u8. repeat case_match; by simplify_eq/=.
Defined.
End EM_NackReason.
Export (hints) EM_NackReason.

Module EM_Manifest2Action.
Inductive t : Type :=
  | IN_SYNC | RESUME_EXISTING | CREATE_MISSING
  | Unnamed (v : Z).
Definition to_u8 (e : t) : Z :=
  match e with
  | IN_SYNC => 0 | RESUME_EXISTING => 1 | CREATE_MISSING => 2
  | Unnamed v => v
  end.
Definition of_u8 (v : Z) : t :=
  match v with
  | 0 => IN_SYNC | 1 => RESUME_EXISTING | 2 => CREATE_MISSING
  | _ => Unnamed v
  end.
#[export] Instance eq_dec : EqDecision t.
Proof. solve_decision. Defined.
#[export] Instance wire : WireEnum t.
Proof.
  refine {| Wire.to_u8 := to_u8; Wire.of_u8 := of_u8 |}.
  intros v _. unfold of_u8. repeat case_match; by simplify_eq/=.
Defined.
End EM_Manifest2Action.
Export (hints) EM_Manifest2Action.

(** ** Structures *)
Module T_FileChecksum.
Record t : Type := mk {
  algo : EM_ChecksumAlgo.t; offset : Z; len : Z; value : Bytes
}.
#[export] Instance eq_dec : EqDecision t.
Proof. solve_decision. Defined.
Definition ok (m : t) : Prop :=
  enum_ok m.(algo) ∧ in_u64 m.(offset) ∧ in_u64 m.(len) ∧ len32 m.(value).
End T_FileChecksum.
Export (hints) T_FileChecksum.

Module T_MessageHeader.
Record t : Type := mk {
  magic : Z; version : Z; msg_type : EM_MessageType.t; header_len : Z; body_len : Z
}.
#[export] Instance eq_dec : EqDecision t.
Proof. solve_decision. Defined.
Definition ok (m : t) : Prop :=
  in_u32 m.(magic) ∧ in_u8 m.(version) ∧ enum_ok m.(msg_type) ∧ in_u16 m.(header_len) ∧
  in_u32 m.(body_len).
End T_MessageHeader.
Export (hints) T_MessageHeader.

Module T_Hello.
Record t : Type := mk {
  node_id : string; role : EM_Role.t; min_version : Z; max_version : Z; feature_flags : Z;
  required_feature_flags : Z; chunk_size : Z; max_inflight_bytes : Z;
  supported_compression : list EM_Compression.t; supported_checksum : list EM_ChecksumAlgo.t
}.
#[export] Instance eq_dec : EqDecision t.
Proof. solve_decision. Defined.
Definition ok (m : t) : Prop :=
  strlen32 m.(node_id) ∧ enum_ok m.(role) ∧ in_u16 m.(min_version) ∧ in_u16 m.(max_version) ∧
  in_u64 m.(feature_flags) ∧ in_u64 m.(required_feature_flags) ∧ in_u32 m.(chunk_size) ∧
  in_u64 m.(max_inflight_bytes) ∧ vec_ok enum_ok m.(supported_compression) ∧
  vec_ok enum_ok m.(supported_checksum).
End T_Hello.
Export (hints) T_Hello.

Module T_ManifestEntry.
Record t : Type := mk {
  file_id : Z; seq : Z; kind : EM_EntryKind.t; name : string; link_target : string; size : Z;
  checksum : T_FileChecksum.t
}.
#[export] Instance eq_dec : EqDecision t.
Proof. solve_decision. Defined.
Definition ok (m : t) : Prop :=
  in_u64 m.(file_id) ∧ in_u64 m.(seq) ∧ enum_ok m.(kind) ∧ strlen32 m.(name) ∧
  strlen32 m.(link_target) ∧ in_u64 m.(size) ∧ T_FileChecksum.ok m.(checksum).
End T_ManifestEntry.
Export (hints) T_ManifestEntry.

Module T_Manifest1Stream.
Record t : Type := mk {
  stream_id : Z; root : string; entries : list T_ManifestEntry.t
}.
#[export] Instance eq_dec : EqDecision t.
Proof. solve_decision. Defined.
Definition ok (m : t) : Prop :=
  in_u64 m.(stream_id) ∧ strlen32 m.(root) ∧ vec_ok T_ManifestEntry.ok m.(entries).
End T_Manifest1Stream.
Export (hints) T_Manifest1Stream.

Module T_Manifest1.
Record t : Type := mk {
  manifest_id : Z; streams : list T_Manifest1Stream.t
}.
#[export] Instance eq_dec : EqDecision t.
Proof. solve_decision. Defined.
Definition ok (m : t) : Prop :=
  in_u64 m.(manifest_id) ∧ vec_ok T_Manifest1Stream.ok m.(streams).
End T_Manifest1.
Export (hints) T_Manifest1.

Module T_Manifest2Stream.
Record t : Type := mk {
  stream_id : Z; action : EM_Manifest2Action.t; start_file_id : Z; start_offset : Z
}.
#[export] Instance eq_dec : EqDecision t.
Proof. solve_decision. Defined.
Definition ok (m : t) : Prop :=
  in_u64 m.(stream_id) ∧ enum_ok m.(action) ∧ in_u64 m.(start_file_id) ∧
  in_u64 m.(start_offset).
End T_Manifest2Stream.
Export (hints) T_Manifest2Stream.

Module T_Manifest2.
Record t : Type := mk {
  manifest_id : Z; streams : list T_Manifest2Stream.t
}.
#[export] Instance eq_dec : EqDecision t.
Proof. solve_decision. Defined.
Definition ok (m : t) : Prop :=
  in_u64 m.(manifest_id) ∧ vec_ok T_Manifest2Stream.ok m.(streams).
End T_Manifest2.
Export (hints) T_Manifest2.

Module T_Create.
Record t : Type := mk {
  stream_id : Z; seq : Z; file_id : Z; kind : EM_EntryKind.t; name : string;
  link_target : string; final_size : Z; prev_file_id : Z; prev_final_size : Z;
  prev_checksum : T_FileChecksum.t
}.
#[export] Instance eq_dec : EqDecision t.
Proof. solve_decision. Defined.
Definition ok (m : t) : Prop :=
  in_u64 m.(stream_id) ∧ in_u64 m.(seq) ∧ in_u64 m.(file_id) ∧ enum_ok m.(kind) ∧
  strlen32 m.(name) ∧ strlen32 m.(link_target) ∧ in_u64 m.(final_size) ∧
  in_u64 m.(prev_file_id) ∧ in_u64 m.(prev_final_size) ∧ T_FileChecksum.ok m.(prev_checksum).
End T_Create.
Export (hints) T_Create.

Module T_Data.
Record t : Type := mk {
  stream_id : Z; seq : Z; file_id : Z; offset : Z; final_size : Z; raw_len : Z;
  compression : EM_Compression.t; checksum_algo : EM_ChecksumAlgo.t; checksum : Bytes;
  payload : Bytes
}.
#[export] Instance eq_dec : EqDecision t.
Proof. solve_decision. Defined.
Definition ok (m : t) : Prop :=
  in_u64 m.(stream_id) ∧ in_u64 m.(seq) ∧ in_u64 m.(file_id) ∧ in_u64 m.(offset) ∧
  in_u64 m.(final_size) ∧ in_u32 m.(raw_len) ∧ enum_ok m.(compression) ∧
  enum_ok m.(checksum_algo) ∧ len32 m.(checksum) ∧ len32 m.(payload).
End T_Data.
Export (hints) T_Data.

Module T_FileBegin.
Record t : Type := mk {
  stream_id : Z; seq : Z; file_id : Z; name : string; final_size : Z; chunk_size : Z;
  chunk_count : Z; file_checksum : T_FileChecksum.t; prev_file_id : Z; prev_final_size : Z;
  prev_checksum : T_FileChecksum.t
}.
#[export] Instance eq_dec : EqDecision t.
Proof. solve_decision. Defined.
Definition ok (m : t) : Prop :=
  in_u64 m.(stream_id) ∧ in_u64 m.(seq) ∧ in_u64 m.(file_id) ∧ strlen32 m.(name) ∧
  in_u64 m.(final_size) ∧ in_u64 m.(chunk_size) ∧ in_u64 m.(chunk_count) ∧
  T_FileChecksum.ok m.(file_checksum) ∧ in_u64 m.(prev_file_id) ∧
  in_u64 m.(prev_final_size) ∧ T_FileChecksum.ok m.(prev_checksum).
End T_FileBegin.
Export (hints) T_FileBegin.

Module T_Chunk.
Record t : Type := mk {
  stream_id : Z; seq : Z; file_id : Z; chunk_index : Z; offset : Z; raw_len : Z;
  compression : EM_Compression.t; checksum_algo : EM_ChecksumAlgo.t; checksum : Bytes;
  payload : Bytes
}.
#[export] Instance eq_dec : EqDecision t.
Proof. solve_decision. Defined.
Definition ok (m : t) : Prop :=
  in_u64 m.(stream_id) ∧ in_u64 m.(seq) ∧ in_u64 m.(file_id) ∧ in_u64 m.(chunk_index) ∧
  in_u64 m.(offset) ∧ in_u32 m.(raw_len) ∧ enum_ok m.(compression) ∧
  enum_ok m.(checksum_algo) ∧ len32 m.(checksum) ∧ len32 m.(payload).
End T_Chunk.
Export (hints) T_Chunk.

Module T_FileCommit.
Record t : Type := mk {
  stream_id : Z; seq : Z; file_id : Z
}.
#[export] Instance eq_dec : EqDecision t.
Proof. solve_decision. Defined.
Definition ok (m : t) : Prop :=
  in_u64 m.(stream_id) ∧ in_u64 m.(seq) ∧ in_u64 m.(file_id).
End T_FileCommit.
Export (hints) T_FileCommit.

Module T_ReceivedChunk.
Record t : Type := mk {
  seq : Z; file_id : Z; chunk_index : Z
}.
#[export] Instance eq_dec : EqDecision t.
Proof. solve_decision. Defined.
Definition ok (m : t) : Prop :=
  in_u64 m.(seq) ∧ in_u64 m.(file_id) ∧ in_u64 m.(chunk_index).
End T_ReceivedChunk.
Export (hints) T_ReceivedChunk.

Module T_MissingChunkRange.
Record t : Type := mk {
  seq : Z; file_id : Z; first_chunk_index : Z; last_chunk_index : Z
}.
#[export] Instance eq_dec : EqDecision t.
Proof. solve_decision. Defined.
Definition ok (m : t) : Prop :=
  in_u64 m.(seq) ∧ in_u64 m.(file_id) ∧ in_u64 m.(first_chunk_index) ∧
  in_u64 m.(last_chunk_index).
End T_MissingChunkRange.
Export (hints) T_MissingChunkRange.

Module T_Heartbeat.
Record t : Type := mk {
  stream_id : Z; next_seq : Z; file_id : Z; offset : Z; durable_offset : Z;
  recv_window_bytes : Z; received_chunks : list T_ReceivedChunk.t;
  missing_ranges : list T_MissingChunkRange.t
}.
#[export] Instance eq_dec : EqDecision t.
Proof. solve_decision. Defined.
Definition ok (m : t) : Prop :=
  in_u64 m.(stream_id) ∧ in_u64 m.(next_seq) ∧ in_u64 m.(file_id) ∧ in_u64 m.(offset) ∧
  in_u64 m.(durable_offset) ∧ in_u64 m.(recv_window_bytes) ∧
  vec_ok T_ReceivedChunk.ok m.(received_chunks) ∧
  vec_ok T_MissingChunkRange.ok m.(missing_ranges).
End T_Heartbeat.
Export (hints) T_Heartbeat.

Module T_Nack.
Record t : Type := mk {
  stream_id : Z; got_seq : Z; expected_seq : Z; file_id : Z; offset : Z;
  expected_file_id : Z; expected_offset : Z; reason : EM_NackReason.t; detail : string
}.
#[export] Instance eq_dec : EqDecision t.
Proof. solve_decision. Defined.
Definition ok (m : t) : Prop :=
  in_u64 m.(stream_id) ∧ in_u64 m.(got_seq) ∧ in_u64 m.(expected_seq) ∧ in_u64 m.(file_id) ∧
  in_u64 m.(offset) ∧ in_u64 m.(expected_file_id) ∧ in_u64 m.(expected_offset) ∧
  enum_ok m.(reason) ∧ strlen32 m.(detail).
End T_Nack.
Export (hints) T_Nack.

(** ** Body encoders and decoders

    [write_x] is the [encode_body] overload (or the [write_x] helper) of the
    struct, on the writer it is given; [decode_x] / [read_x] read it back. *)
Definition write_checksum (m : T_FileChecksum.t) (writer : Writer.t) : Writer.t :=
  writer
  |> write_enum m.(T_FileChecksum.algo) |> Writer.u64 m.(T_FileChecksum.offset)
  |> Writer.u64 m.(T_FileChecksum.len) |> Writer.bytes m.(T_FileChecksum.value).

Definition read_checksum : M Reader.t T_FileChecksum.t :=
  algo ← read_enum; offset ← Reader.u64; len ← Reader.u64; value ← Reader.bytes;
  mret (T_FileChecksum.mk algo offset len value).

Definition write_header_prefix (m : T_MessageHeader.t) (writer : Writer.t) : Writer.t :=
  writer
  |> Writer.u32 m.(T_MessageHeader.magic) |> Writer.u8 m.(T_MessageHeader.version)
  |> write_enum m.(T_MessageHeader.msg_type) |> Writer.u16 m.(T_MessageHeader.header_len)
  |> Writer.u32 m.(T_MessageHeader.body_len).

Definition read_header_prefix : M Reader.t T_MessageHeader.t :=
  magic ← Reader.u32; version ← Reader.u8; msg_type ← read_enum; header_len ← Reader.u16;
  body_len ← Reader.u32;
  mret (T_MessageHeader.mk magic version msg_type header_len body_len).

Definition write_hello (m : T_Hello.t) (writer : Writer.t) : Writer.t :=
  writer
  |> Writer.string m.(T_Hello.node_id) |> write_enum m.(T_Hello.role)
  |> Writer.u16 m.(T_Hello.min_version) |> Writer.u16 m.(T_Hello.max_version)
  |> Writer.u64 m.(T_Hello.feature_flags) |> Writer.u64 m.(T_Hello.required_feature_flags)
  |> Writer.u32 m.(T_Hello.chunk_size) |> Writer.u64 m.(T_Hello.max_inflight_bytes)
  |> write_vec write_enum m.(T_Hello.supported_compression)
  |> write_vec write_enum m.(T_Hello.supported_checksum).

Definition decode_hello : M Reader.t T_Hello.t :=
  node_id ← Reader.string; role ← read_enum; min_version ← Reader.u16;
  max_version ← Reader.u16; feature_flags ← Reader.u64; required_feature_flags ← Reader.u64;
  chunk_size ← Reader.u32; max_inflight_bytes ← Reader.u64;
  supported_compression ← read_vec read_enum; supported_checksum ← read_vec read_enum;
  mret (T_Hello.mk node_id role min_version max_version feature_flags required_feature_flags
    chunk_size max_inflight_bytes supported_compression supported_checksum).

Definition write_manifest_entry (m : T_ManifestEntry.t) (writer : Writer.t) : Writer.t :=
  writer
  |> Writer.u64 m.(T_ManifestEntry.file_id) |> Writer.u64 m.(T_ManifestEntry.seq)
  |> write_enum m.(T_ManifestEntry.kind) |> Writer.string m.(T_ManifestEntry.name)
  |> Writer.string m.(T_ManifestEntry.link_target) |> Writer.u64 m.(T_ManifestEntry.size)
  |> write_checksum m.(T_ManifestEntry.checksum).

Definition read_manifest_entry : M Reader.t T_ManifestEntry.t :=
  file_id ← Reader.u64; seq ← Reader.u64; kind ← read_enum; name ← Reader.string;
  link_target ← Reader.string; size ← Reader.u64; checksum ← read_checksum;
  mret (T_ManifestEntry.mk file_id seq kind name link_target size checksum).

Definition write_manifest1_stream (m : T_Manifest1Stream.t) (writer : Writer.t) : Writer.t :=
  writer
  |> Writer.u64 m.(T_Manifest1Stream.stream_id) |> Writer.string m.(T_Manifest1Stream.root)
  |> write_vec write_manifest_entry m.(T_Manifest1Stream.entries).

Definition read_manifest1_stream : M Reader.t T_Manifest1Stream.t :=
  stream_id ← Reader.u64; root ← Reader.string; entries ← read_vec read_manifest_entry;
  mret (T_Manifest1Stream.mk stream_id root entries).

Definition write_manifest1 (m : T_Manifest1.t) (writer : Writer.t) : Writer.t :=
  writer
  |> Writer.u64 m.(T_Manifest1.manifest_id)
  |> write_vec write_manifest1_stream m.(T_Manifest1.streams).

Definition decode_manifest1 : M Reader.t T_Manifest1.t :=
  manifest_id ← Reader.u64; streams ← read_vec read_manifest1_stream;
  mret (T_Manifest1.mk manifest_id streams).

Definition write_manifest2_stream (m : T_Manifest2Stream.t) (writer : Writer.t) : Writer.t :=
  writer
  |> Writer.u64 m.(T_Manifest2Stream.stream_id) |> write_enum m.(T_Manifest2Stream.action)
  |> Writer.u64 m.(T_Manifest2Stream.start_file_id)
  |> Writer.u64 m.(T_Manifest2Stream.start_offset).

Definition read_manifest2_stream : M Reader.t T_Manifest2Stream.t :=
  stream_id ← Reader.u64; action ← read_enum; start_file_id ← Reader.u64;
  start_offset ← Reader.u64;
  mret (T_Manifest2Stream.mk stream_id action start_file_id start_offset).

Definition write_manifest2 (m : T_Manifest2.t) (writer : Writer.t) : Writer.t :=
  writer
  |> Writer.u64 m.(T_Manifest2.manifest_id)
  |> write_vec write_manifest2_stream m.(T_Manifest2.streams).

Definition decode_manifest2 : M Reader.t T_Manifest2.t :=
  manifest_id ← Reader.u64; streams ← read_vec read_manifest2_stream;
  mret (T_Manifest2.mk manifest_id streams).

Definition write_create (m : T_Create.t) (writer : Writer.t) : Writer.t :=
  writer
  |> Writer.u64 m.(T_Create.stream_id) |> Writer.u64 m.(T_Create.seq)
  |> Writer.u64 m.(T_Create.file_id) |> write_enum m.(T_Create.kind)
  |> Writer.string m.(T_Create.name) |> Writer.string m.(T_Create.link_target)
  |> Writer.u64 m.(T_Create.final_size) |> Writer.u64 m.(T_Create.prev_file_id)
  |> Writer.u64 m.(T_Create.prev_final_size) |> write_checksum m.(T_Create.prev_checksum).

Definition decode_create : M Reader.t T_Create.t :=
  stream_id ← Reader.u64; seq ← Reader.u64; file_id ← Reader.u64; kind ← read_enum;
  name ← Reader.string; link_target ← Reader.string; final_size ← Reader.u64;
  prev_file_id ← Reader.u64; prev_final_size ← Reader.u64; prev_checksum ← read_checksum;
  mret (T_Create.mk stream_id seq file_id kind name link_target final_size prev_file_id
    prev_final_size prev_checksum).

Definition write_data (m : T_Data.t) (writer : Writer.t) : Writer.t :=
  writer
  |> Writer.u64 m.(T_Data.stream_id) |> Writer.u64 m.(T_Data.seq)
  |> Writer.u64 m.(T_Data.file_id) |> Writer.u64 m.(T_Data.offset)
  |> Writer.u64 m.(T_Data.final_size) |> Writer.u32 m.(T_Data.raw_len)
  |> Writer.u32 (u32 (zlen m.(T_Data.payload))) |> write_enum m.(T_Data.compression)
  |> write_enum m.(T_Data.checksum_algo) |> Writer.bytes m.(T_Data.checksum)
  |> Writer.bytes m.(T_Data.payload).

Definition decode_data : M Reader.t T_Data.t :=
  stream_id ← Reader.u64; seq ← Reader.u64; file_id ← Reader.u64; offset ← Reader.u64;
  final_size ← Reader.u64; raw_len ← Reader.u32; payload_len ← Reader.u32;
  compression ← read_enum; checksum_algo ← read_enum; checksum ← Reader.bytes;
  payload ← Reader.bytes;
  if negb (zlen payload =? payload_len) then throw "DATA payload length mismatch"
  else mret (T_Data.mk stream_id seq file_id offset final_size raw_len compression checksum_algo
    checksum payload).

Definition write_file_begin (m : T_FileBegin.t) (writer : Writer.t) : Writer.t :=
  writer
  |> Writer.u64 m.(T_FileBegin.stream_id) |> Writer.u64 m.(T_FileBegin.seq)
  |> Writer.u64 m.(T_FileBegin.file_id) |> Writer.string m.(T_FileBegin.name)
  |> Writer.u64 m.(T_FileBegin.final_size) |> Writer.u64 m.(T_FileBegin.chunk_size)
  |> Writer.u64 m.(T_FileBegin.chunk_count) |> write_checksum m.(T_FileBegin.file_checksum)
  |> Writer.u64 m.(T_FileBegin.prev_file_id) |> Writer.u64 m.(T_FileBegin.prev_final_size)
  |> write_checksum m.(T_FileBegin.prev_checksum).

Definition decode_file_begin : M Reader.t T_FileBegin.t :=
  stream_id ← Reader.u64; seq ← Reader.u64; file_id ← Reader.u64; name ← Reader.string;
  final_size ← Reader.u64; chunk_size ← Reader.u64; chunk_count ← Reader.u64;
  file_checksum ← read_checksum; prev_file_id ← Reader.u64; prev_final_size ← Reader.u64;
  prev_checksum ← read_checksum;
  mret (T_FileBegin.mk stream_id seq file_id name final_size chunk_size chunk_count file_checksum
    prev_file_id prev_final_size prev_checksum).

Definition write_chunk (m : T_Chunk.t) (writer : Writer.t) : Writer.t :=
  writer
  |> Writer.u64 m.(T_Chunk.stream_id) |> Writer.u64 m.(T_Chunk.seq)
  |> Writer.u64 m.(T_Chunk.file_id) |> Writer.u64 m.(T_Chunk.chunk_index)
  |> Writer.u64 m.(T_Chunk.offset) |> Writer.u32 m.(T_Chunk.raw_len)
  |> Writer.u32 (u32 (zlen m.(T_Chunk.payload))) |> write_enum m.(T_Chunk.compression)
  |> write_enum m.(T_Chunk.checksum_algo) |> Writer.bytes m.(T_Chunk.checksum)
  |> Writer.bytes m.(T_Chunk.payload).

Definition decode_chunk : M Reader.t T_Chunk.t :=
  stream_id ← Reader.u64; seq ← Reader.u64; file_id ← Reader.u64; chunk_index ← Reader.u64;
  offset ← Reader.u64; raw_len ← Reader.u32; payload_len ← Reader.u32; compression ← read_enum;
  checksum_algo ← read_enum; checksum ← Reader.bytes; payload ← Reader.bytes;
  if negb (zlen payload =? payload_len) then throw "CHUNK payload length mismatch"
  else mret (T_Chunk.mk stream_id seq file_id chunk_index offset raw_len compression checksum_algo
    checksum payload).

Definition write_file_commit (m : T_FileCommit.t) (writer : Writer.t) : Writer.t :=
  writer
  |> Writer.u64 m.(T_FileCommit.stream_id) |> Writer.u64 m.(T_FileCommit.seq)
  |> Writer.u64 m.(T_FileCommit.file_id).

Definition decode_file_commit : M Reader.t T_FileCommit.t :=
  stream_id ← Reader.u64; seq ← Reader.u64; file_id ← Reader.u64;
  mret (T_FileCommit.mk stream_id seq file_id).

Definition write_received_chunk (m : T_ReceivedChunk.t) (writer : Writer.t) : Writer.t :=
  writer
  |> Writer.u64 m.(T_ReceivedChunk.seq) |> Writer.u64 m.(T_ReceivedChunk.file_id)
  |> Writer.u64 m.(T_ReceivedChunk.chunk_index).

Definition read_received_chunk : M Reader.t T_ReceivedChunk.t :=
  seq ← Reader.u64; file_id ← Reader.u64; chunk_index ← Reader.u64;
  mret (T_ReceivedChunk.mk seq file_id chunk_index).

Definition write_missing_chunk_range (m : T_MissingChunkRange.t) (writer : Writer.t) : Writer.t :=
  writer
  |> Writer.u64 m.(T_MissingChunkRange.seq) |> Writer.u64 m.(T_MissingChunkRange.file_id)
  |> Writer.u64 m.(T_MissingChunkRange.first_chunk_index)
  |> Writer.u64 m.(T_MissingChunkRange.last_chunk_index).

Definition read_missing_chunk_range : M Reader.t T_MissingChunkRange.t :=
  seq ← Reader.u64; file_id ← Reader.u64; first_chunk_index ← Reader.u64;
  last_chunk_index ← Reader.u64;
  mret (T_MissingChunkRange.mk seq file_id first_chunk_index last_chunk_index).

Definition write_heartbeat (m : T_Heartbeat.t) (writer : Writer.t) : Writer.t :=
  writer
  |> Writer.u64 m.(T_Heartbeat.stream_id) |> Writer.u64 m.(T_Heartbeat.next_seq)
  |> Writer.u64 m.(T_Heartbeat.file_id) |> Writer.u64 m.(T_Heartbeat.offset)
  |> Writer.u64 m.(T_Heartbeat.durable_offset) |> Writer.u64 m.(T_Heartbeat.recv_window_bytes)
  |> write_vec write_received_chunk m.(T_Heartbeat.received_chunks)
  |> write_vec write_missing_chunk_range m.(T_Heartbeat.missing_ranges).

Definition decode_heartbeat : M Reader.t T_Heartbeat.t :=
  stream_id ← Reader.u64; next_seq ← Reader.u64; file_id ← Reader.u64; offset ← Reader.u64;
  durable_offset ← Reader.u64; recv_window_bytes ← Reader.u64;
  received_chunks ← read_vec read_received_chunk;
  missing_ranges ← read_vec read_missing_chunk_range;
  mret (T_Heartbeat.mk stream_id next_seq file_id offset durable_offset recv_window_bytes
    received_chunks missing_ranges).

Definition write_nack (m : T_Nack.t) (writer : Writer.t) : Writer.t :=
  writer
  |> Writer.u64 m.(T_Nack.stream_id) |> Writer.u64 m.(T_Nack.got_seq)
  |> Writer.u64 m.(T_Nack.expected_seq) |> Writer.u64 m.(T_Nack.file_id)
  |> Writer.u64 m.(T_Nack.offset) |> Writer.u64 m.(T_Nack.expected_file_id)
  |> Writer.u64 m.(T_Nack.expected_offset) |> write_enum m.(T_Nack.reason)
  |> Writer.string m.(T_Nack.detail).

Definition decode_nack : M Reader.t T_Nack.t :=
  stream_id ← Reader.u64; got_seq ← Reader.u64; expected_seq ← Reader.u64;
  file_id ← Reader.u64; offset ← Reader.u64; expected_file_id ← Reader.u64;
  expected_offset ← Reader.u64; reason ← read_enum; detail ← Reader.string;
  mret (T_Nack.mk stream_id got_seq expected_seq file_id offset expected_file_id expected_offset
    reason detail).

(** ** The message variant *)
Inductive T_Message : Type :=
  | M_Hello (m : T_Hello.t)
  | M_Manifest1 (m : T_Manifest1.t)
  | M_Manifest2 (m : T_Manifest2.t)
  | M_Create (m : T_Create.t)
  | M_Data (m : T_Data.t)
  | M_FileBegin (m : T_FileBegin.t)
  | M_Chunk (m : T_Chunk.t)
  | M_FileCommit (m : T_FileCommit.t)
  | M_Heartbeat (m : T_Heartbeat.t)
  | M_Nack (m : T_Nack.t).

#[export] Instance T_Message_eq_dec : EqDecision T_Message.
Proof. solve_decision. Defined.

Definition message_ok (message : T_Message) : Prop :=
  match message with
  | M_Hello m => T_Hello.ok m
  | M_Manifest1 m => T_Manifest1.ok m
  | M_Manifest2 m => T_Manifest2.ok m
  | M_Create m => T_Create.ok m
  | M_Data m => T_Data.ok m
  | M_FileBegin m => T_FileBegin.ok m
  | M_Chunk m => T_Chunk.ok m
  | M_FileCommit m => T_FileCommit.ok m
  | M_Heartbeat m => T_Heartbeat.ok m
  | M_Nack m => T_Nack.ok m
  end.

Definition kMagic : Z := 0x59495359.
Definition kVersion : Z := 1.
Definition kHeaderLen : Z := 12.

Module T_Frame.
Record t : Type := mk { header : T_MessageHeader.t; body : Bytes }.
#[export] Instance eq_dec : EqDecision t.
Proof. solve_decision. Defined.
End T_Frame.

(** [std::visit(encode_body, message)]. *)
Definition encode_body (message : T_Message) : Bytes :=
  match message with
  | M_Hello m => write_hello m []
  | M_Manifest1 m => write_manifest1 m []
  | M_Manifest2 m => write_manifest2 m []
  | M_Create m => write_create m []
  | M_Data m => write_data m []
  | M_FileBegin m => write_file_begin m []
  | M_Chunk m => write_chunk m []
  | M_FileCommit m => write_file_commit m []
  | M_Heartbeat m => write_heartbeat m []
  | M_Nack m => write_nack m []
  end.

Definition message_type (message : T_Message) : EM_MessageType.t :=
  match message with
  | M_Hello _ => EM_MessageType.HELLO
  | M_Manifest1 _ => EM_MessageType.MANIFEST1
  | M_Manifest2 _ => EM_MessageType.MANIFEST2
  | M_Create _ => EM_MessageType.CREATE
  | M_Data _ => EM_MessageType.DATA
  | M_FileBegin _ => EM_MessageType.FILE_BEGIN
  | M_Chunk _ => EM_MessageType.CHUNK
  | M_FileCommit _ => EM_MessageType.FILE_COMMIT
  | M_Heartbeat _ => EM_MessageType.HEARTBEAT
  | M_Nack _ => EM_MessageType.NACK
  end.

Definition encode_message (message : T_Message) : T_Frame.t :=
  let body := encode_body message in
  T_Frame.mk
    (T_MessageHeader.mk kMagic kVersion (message_type message) kHeaderLen (u32 (zlen body)))
    body.

(** The [switch] of [decode_message] on the message type. *)
Definition decode_body (msg_type : EM_MessageType.t) : M Reader.t T_Message :=
  match msg_type with
  | EM_MessageType.HELLO => m ← decode_hello; mret (M_Hello m)
  | EM_MessageType.MANIFEST1 => m ← decode_manifest1; mret (M_Manifest1 m)
  | EM_MessageType.MANIFEST2 => m ← decode_manifest2; mret (M_Manifest2 m)
  | EM_MessageType.CREATE => m ← decode_create; mret (M_Create m)
  | EM_MessageType.DATA => m ← decode_data; mret (M_Data m)
  | EM_MessageType.FILE_BEGIN => m ← decode_file_begin; mret (M_FileBegin m)
  | EM_MessageType.CHUNK => m ← decode_chunk; mret (M_Chunk m)
  | EM_MessageType.FILE_COMMIT => m ← decode_file_commit; mret (M_FileCommit m)
  | EM_MessageType.HEARTBEAT => m ← decode_heartbeat; mret (M_Heartbeat m)
  | EM_MessageType.NACK => m ← decode_nack; mret (M_Nack m)
  | EM_MessageType.Unnamed _ => throw "unsupported message type"
  end.

Definition decode_message (frame : T_Frame.t) : exc T_Message :=
  let header := frame.(T_Frame.header) in
  if negb (header.(T_MessageHeader.magic) =? kMagic) then Throw "bad frame magic"
  else if negb (header.(T_MessageHeader.version) =? kVersion) then Throw "unsupported frame version"
  else
    ((message ← decode_body header.(T_MessageHeader.msg_type); _ ← Reader.done; mret message)
       (Reader.mk frame.(T_Frame.body) 0)).1.

Definition encode_frame (message : T_Message) : Bytes :=
  let frame := encode_message message in
  write_header_prefix frame.(T_Frame.header) [] ++ frame.(T_Frame.body).

(** [header_len + body_len] is a sum of a [uint16_t] and a [uint32_t]: it wraps
    at 2^32 before the comparison with [bytes.size()]. *)
Definition decode_frame (bytes : Bytes) : exc T_Frame.t :=
  if zlen bytes <? kHeaderLen then Throw "truncated frame header"
  else
    header ← ((header ← read_header_prefix; _ ← Reader.done; mret header)
                (Reader.mk (take (Z.to_nat kHeaderLen) bytes) 0)).1;
    if negb (header.(T_MessageHeader.header_len) =? kHeaderLen) then Throw "unsupported header length"
    else if negb (zlen bytes =?
                  u32 (header.(T_MessageHeader.header_len) + header.(T_MessageHeader.body_len)))
    then Throw "frame length mismatch"
    else Ret (T_Frame.mk header (drop (Z.to_nat header.(T_MessageHeader.header_len)) bytes)).

(** ** Every wire type is a codec *)
Lemma data_read m pre tl : T_Data.ok m →
  decode_data (at_cursor pre (write_data m [] ++ tl)) = (Ret m, at_cursor (pre ++ write_data m []) tl).
Proof.
  intros (?&?&?&?&?&?&?&?&?&?). unfold decode_data, write_data.
  flatten_writes; repeat read_field. rewrite u32_of_len, Z.eqb_refl by done.
  unfold negb, mret, M_ret. rewrite <- ?app_assoc. by destruct m.
Qed.

Lemma chunk_read m pre tl : T_Chunk.ok m →
  decode_chunk (at_cursor pre (write_chunk m [] ++ tl)) = (Ret m, at_cursor (pre ++ write_chunk m []) tl).
Proof.
  intros (?&?&?&?&?&?&?&?&?&?). unfold decode_chunk, write_chunk.
  flatten_writes; repeat read_field. rewrite u32_of_len, Z.eqb_refl by done.
  unfold negb, mret, M_ret. rewrite <- ?app_assoc. by destruct m.
Qed.

Lemma payload_len_check {A} (payload : Bytes) (payload_len : Z) (e : string) (x y : A) (r r' : Reader.t) :
  (if negb (zlen payload =? payload_len) then throw e else mret x) r = (Ret y, r') →
  len32 payload → payload_len = u32 (zlen payload) ∧ x = y ∧ r = r'.
Proof.
  destruct (Z.eqb_spec (zlen payload) payload_len) as [<-|]; simpl; [|done].
  intros [= -> ->] Hl. by rewrite u32_of_len.
Qed.

Lemma data_sound pre suf m r' : decode_data (at_cursor pre suf) = (Ret m, r') →
  T_Data.ok m ∧ ∃ tl, suf = write_data m [] ++ tl ∧ r' = at_cursor (pre ++ write_data m []) tl.
Proof.
  unfold decode_data, T_Data.ok, write_data. intros H. inv_bind. sound_fields.
  apply payload_len_check in H as (-> & <- & <-); [|done]. simpl.
  split; [conj_assumption|]. eexists; split; same_bytes.
Qed.

Lemma chunk_sound pre suf m r' : decode_chunk (at_cursor pre suf) = (Ret m, r') →
  T_Chunk.ok m ∧ ∃ tl, suf = write_chunk m [] ++ tl ∧ r' = at_cursor (pre ++ write_chunk m []) tl.
Proof.
  unfold decode_chunk, T_Chunk.ok, write_chunk. intros H. inv_bind. sound_fields.
  apply payload_len_check in H as (-> & <- & <-); [|done]. simpl.
  split; [conj_assumption|]. eexists; split; same_bytes.
Qed.

#[export] Instance checksum_codec : Codec write_checksum read_checksum T_FileChecksum.ok.
Proof. solve_record_codec write_checksum read_checksum T_FileChecksum.ok. Qed.

#[export] Instance header_prefix_codec : Codec write_header_prefix read_header_prefix T_MessageHeader.ok.
Proof. solve_record_codec write_header_prefix read_header_prefix T_MessageHeader.ok. Qed.

#[export] Instance hello_codec : Codec write_hello decode_hello T_Hello.ok.
Proof. solve_record_codec write_hello decode_hello T_Hello.ok. Qed.

#[export] Instance manifest_entry_codec : Codec write_manifest_entry read_manifest_entry T_ManifestEntry.ok.
Proof. solve_record_codec write_manifest_entry read_manifest_entry T_ManifestEntry.ok. Qed.

#[export] Instance manifest1_stream_codec : Codec write_manifest1_stream read_manifest1_stream T_Manifest1Stream.ok.
Proof. solve_record_codec write_manifest1_stream read_manifest1_stream T_Manifest1Stream.ok. Qed.

#[export] Instance manifest1_codec : Codec write_manifest1 decode_manifest1 T_Manifest1.ok.
Proof. solve_record_codec write_manifest1 decode_manifest1 T_Manifest1.ok. Qed.

#[export] Instance manifest2_stream_codec : Codec write_manifest2_stream read_manifest2_stream T_Manifest2Stream.ok.
Proof. solve_record_codec write_manifest2_stream read_manifest2_stream T_Manifest2Stream.ok. Qed.

#[export] Instance manifest2_codec : Codec write_manifest2 decode_manifest2 T_Manifest2.ok.
Proof. solve_record_codec write_manifest2 decode_manifest2 T_Manifest2.ok. Qed.

#[export] Instance create_codec : Codec write_create decode_create T_Create.ok.
Proof. solve_record_codec write_create decode_create T_Create.ok. Qed.

#[export] Instance data_codec : Codec write_data decode_data T_Data.ok.
Proof. split; [unfold write_data; solve_append | apply data_read | apply data_sound]. Qed.

#[export] Instance file_begin_codec : Codec write_file_begin decode_file_begin T_FileBegin.ok.
Proof. solve_record_codec write_file_begin decode_file_begin T_FileBegin.ok. Qed.

#[export] Instance chunk_codec : Codec write_chunk decode_chunk T_Chunk.ok.
Proof. split; [unfold write_chunk; solve_append | apply chunk_read | apply chunk_sound]. Qed.

#[export] Instance file_commit_codec : Codec write_file_commit decode_file_commit T_FileCommit.ok.
Proof. solve_record_codec write_file_commit decode_file_commit T_FileCommit.ok. Qed.

#[export] Instance received_chunk_codec : Codec write_received_chunk read_received_chunk T_ReceivedChunk.ok.
Proof. solve_record_codec write_received_chunk read_received_chunk T_ReceivedChunk.ok. Qed.

#[export] Instance missing_chunk_range_codec : Codec write_missing_chunk_range read_missing_chunk_range T_MissingChunkRange.ok.
Proof. solve_record_codec write_missing_chunk_range read_missing_chunk_range T_MissingChunkRange.ok. Qed.

#[export] Instance heartbeat_codec : Codec write_heartbeat decode_heartbeat T_Heartbeat.ok.
Proof. solve_record_codec write_heartbeat decode_heartbeat T_Heartbeat.ok. Qed.

#[export] Instance nack_codec : Codec write_nack decode_nack T_Nack.ok.
Proof. solve_record_codec write_nack decode_nack T_Nack.ok. Qed.


(** ** Messages and frames *)
Lemma read_done_inv {A} (write : A → Writer.t → Writer.t) (read : M Reader.t A) ok bs m :
  Codec write read ok →
  ((message ← read; _ ← Reader.done; mret message) (Reader.mk bs 0)).1 = Ret m →
  ok m ∧ bs = write m [].
Proof.
  intros HC. change (Reader.mk bs 0) with (at_cursor [] bs).
  unfold mbind, M_bind.
  destruct (read (at_cursor [] bs)) as [[x|] r] eqn:E; [|done].
  destruct (codec_sound read _ _ _ _ E) as (Hok & tl & -> & ->).
  unfold Reader.done, at_cursor; simpl.
  destruct (decide _) as [Hl|]; [|done]. intros [= ->].
  rewrite length_app in Hl. assert (tl = []) as -> by (destruct tl; [done|simpl in Hl; lia]).
  by rewrite app_nil_r.
Qed.

(** The codec of the body of the message constructor [C]. *)
Lemma body_read {A} (write : A → Writer.t → Writer.t) (read : M Reader.t A) ok (C : A → T_Message) m :
  Codec write read ok → ok m →
  ((message ← (m ← read; mret (C m)); _ ← Reader.done; mret message)
     (Reader.mk (write m []) 0)).1 = Ret (C m).
Proof.
  intros HC Hok. change (Reader.mk (write m []) 0) with (at_cursor [] (write m [])).
  rewrite <- (app_nil_r (write m [])) at 1.
  unfold mbind, M_bind. rewrite (codec_read write) by done.
  unfold mret, M_ret, Reader.done, at_cursor; simpl.
  rewrite app_nil_r. by rewrite decide_True.
Qed.

Lemma body_sound {A} (write : A → Writer.t → Writer.t) (read : M Reader.t A) ok
    (C : A → T_Message) bs message :
  Codec write read ok →
  ((message ← (m ← read; mret (C m)); _ ← Reader.done; mret message) (Reader.mk bs 0)).1
    = Ret message →
  ∃ m, message = C m ∧ ok m ∧ bs = write m [].
Proof.
  intros HC H.
  assert (∃ m, ((m ← read; _ ← Reader.done; mret m) (Reader.mk bs 0)).1 = Ret m ∧ message = C m)
    as (m & Hm & ->).
  { revert H. unfold mbind, M_bind, mret, M_ret.
    destruct (read _) as [[x|] r]; [|done]. destruct (Reader.done r) as [[|] r']; [|done].
    intros [= <-]. eauto. }
  destruct (read_done_inv write read ok bs m HC Hm). eauto.
Qed.

Lemma body_roundtrip m t :
  t = message_type m → message_ok m →
  ((message ← decode_body t; _ ← Reader.done; mret message) (Reader.mk (encode_body m) 0)).1 = Ret m.
Proof.
  intros -> Hok.
  destruct m; cbn [message_ok message_type decode_body encode_body] in Hok |- *;
    (eapply body_read; [apply _|exact Hok]).
Qed.

Lemma body_canonical t bs m :
  ((message ← decode_body t; _ ← Reader.done; mret message) (Reader.mk bs 0)).1 = Ret m →
  message_ok m ∧ t = message_type m ∧ bs = encode_body m.
Proof.
  intros H. destruct t; cbn [decode_body] in H; try discriminate H;
    (eapply body_sound in H as (x & -> & Hok & ->); [|apply _]); done.
Qed.

Lemma header_prefix_length h : zlen (write_header_prefix h []) = kHeaderLen.
Proof. done. Qed.

(** The header that [encode_message] builds is within its field types. *)
Lemma encode_header_ok m : T_MessageHeader.ok (encode_message m).(T_Frame.header).
Proof.
  unfold T_MessageHeader.ok; simpl. split_and!; [done..| | |apply u32_range]; by destruct m.
Qed.

Lemma read_done_write {A} (write : A → Writer.t → Writer.t) (read : M Reader.t A) ok m :
  Codec write read ok → ok m →
  ((x ← read; _ ← Reader.done; mret x) (Reader.mk (write m []) 0)).1 = Ret m.
Proof.
  intros HC Hok. change (Reader.mk (write m []) 0) with (at_cursor [] (write m [])).
  rewrite <- (app_nil_r (write m [])) at 1. rewrite (bind_at write) by done.
  unfold mbind, M_bind, Reader.done, at_cursor; simpl.
  rewrite app_nil_r. by rewrite decide_True.
Qed.

Lemma decode_frame_eq h body :
  T_MessageHeader.ok h → h.(T_MessageHeader.header_len) = kHeaderLen →
  decode_frame (write_header_prefix h [] ++ body) =
  if zlen body + kHeaderLen =? u32 (kHeaderLen + h.(T_MessageHeader.body_len))
  then Ret (T_Frame.mk h body) else Throw "frame length mismatch".
Proof.
  intros Hok Hlen. unfold decode_frame. rewrite zlen_app, header_prefix_length.
  destruct (Z.ltb_spec (kHeaderLen + zlen body) kHeaderLen) as [Hlt|_];
    [pose proof (zlen_nonneg body); lia|].
  replace (Z.to_nat kHeaderLen) with (length (write_header_prefix h [])) by done.
  rewrite take_app_length.
  rewrite (read_done_write write_header_prefix read_header_prefix T_MessageHeader.ok h _ Hok).
  cbn [mbind exc_bind]. rewrite Hlen, Z.eqb_refl. cbn [negb].
  rewrite (Z.add_comm kHeaderLen (zlen body)).
  destruct (zlen body + kHeaderLen =? _); cbn [negb]; [|done].
  change (Z.to_nat kHeaderLen) with (length (write_header_prefix h [])).
  by rewrite drop_app_length.
Qed.

Lemma decode_frame_inv bs f :
  decode_frame bs = Ret f →
  bs = write_header_prefix f.(T_Frame.header) [] ++ f.(T_Frame.body) ∧
  T_MessageHeader.ok f.(T_Frame.header) ∧
  f.(T_Frame.header).(T_MessageHeader.header_len) = kHeaderLen ∧
  f.(T_Frame.header).(T_MessageHeader.body_len) = zlen f.(T_Frame.body).
Proof.
  unfold decode_frame. destruct (Z.ltb_spec (zlen bs) kHeaderLen) as [|Hlen]; [done|].
  intros H. inv_bind.
  apply (read_done_inv write_header_prefix read_header_prefix T_MessageHeader.ok) in E
    as [Hok Htake]; [|apply _].
  destruct (Z.eqb_spec a.(T_MessageHeader.header_len) kHeaderLen) as [Hh|]; [|done].
  cbn [negb] in H. rewrite Hh in H.
  destruct (Z.eqb_spec (zlen bs) (u32 (kHeaderLen + a.(T_MessageHeader.body_len)))) as [Hs|];
    [|done].
  cbn [negb] in H. injection H as <-. cbn [T_Frame.header T_Frame.body].
  pose proof (take_drop (Z.to_nat kHeaderLen) bs) as Hbs. rewrite Htake in Hbs.
  split_and!; [by rewrite Hbs | done..|].
  destruct Hok as (_ & _ & _ & _ & Hb).
  pose proof (f_equal zlen Hbs) as Hl. rewrite zlen_app, header_prefix_length in Hl.
  unfold kHeaderLen in *. uint_lia.
Qed.

Lemma decode_message_own m : message_ok m → decode_message (encode_message m) = Ret m.
Proof. intros Hok. unfold decode_message. simpl. by apply body_roundtrip. Qed.

Lemma decode_frame_own m :
  zlen (encode_body m) + kHeaderLen < 4294967296 →
  decode_frame (encode_frame m) = Ret (encode_message m).
Proof.
  unfold kHeaderLen. intros Hl. pose proof (zlen_nonneg (encode_body m)).
  unfold encode_frame. rewrite decode_frame_eq by (apply encode_header_ok || done).
  cbn [encode_message T_Frame.header T_Frame.body T_MessageHeader.body_len]. unfold kHeaderLen.
  destruct (Z.eqb_spec (zlen (encode_body m) + 12) (u32 (12 + u32 (zlen (encode_body m)))));
    [done | exfalso; uint_lia].
Qed.

(** What is known of bytes that both decoders accept. *)
Lemma decode_bytes_inv bs m :
  (f ← decode_frame bs; decode_message f) = Ret m → message_ok m ∧ encode_frame m = bs.
Proof.
  intros H. inv_bind. rename a into f. apply decode_frame_inv in E as (-> & Hhok & Hlen & Hbody).
  unfold decode_message in H.
  destruct (Z.eqb_spec f.(T_Frame.header).(T_MessageHeader.magic) kMagic) as [Hmag|];
    [cbn [negb] in H|done].
  destruct (Z.eqb_spec f.(T_Frame.header).(T_MessageHeader.version) kVersion) as [Hver|];
    [cbn [negb] in H|done].
  apply body_canonical in H as (Hok & Htype & Hbytes). split; [done|].
  unfold encode_frame. cbn [encode_message T_Frame.header T_Frame.body].
  rewrite <- Hbytes. f_equal.
  assert (zlen f.(T_Frame.body) = u32 (zlen f.(T_Frame.body))) as Hw
    by (rewrite <- Hbody; symmetry; apply u32_small; apply Hhok).
  rewrite <- Hw. destruct f as [[]]; simpl in *; congruence.
Qed.

(** ** Properties *)

(** C16: decoding a message's own bytes gives the message back: for every
    message of the ten kinds whose fields are within their C++ types, and whose
    frame is shorter than 2^32 bytes, [decode_frame] of [encode_frame] succeeds
    and [decode_message] of the result returns the message unchanged. *)
Theorem decode_encode_roundtrip m :
  message_ok m → zlen (encode_body m) + kHeaderLen < 4294967296 →
  (frame ← decode_frame (encode_frame m); decode_message frame) = Ret m.
Proof.
  intros Hok Hlen. rewrite decode_frame_own by done. by apply decode_message_own.
Qed.

(** C22: the wire format is canonical: when [decode_frame] and [decode_message]
    both accept some bytes, the message is well formed and re-encoding it gives
    back exactly those bytes (so two byte strings never decode to one message,
    and every decoder rejects truncated, oversized and trailing input). *)
Theorem decode_canonical bs f m :
  decode_frame bs = Ret f → decode_message f = Ret m → message_ok m ∧ encode_frame m = bs.
Proof. intros Hf Hm. apply decode_bytes_inv. by rewrite Hf. Qed.

(** The length check of [decode_frame] is exact although its 32-bit sum
    [header_len + body_len] wraps: the bytes of [encode_frame] come back as the
    frame exactly when header and body together are shorter than 2^32 bytes,
    and at that size or above it throws instead of returning a wrong frame. *)
Theorem decode_frame_length_exact m :
  decode_frame (encode_frame m) =
  if decide (zlen (encode_body m) + kHeaderLen < 4294967296)
  then Ret (encode_message m) else Throw "frame length mismatch".
Proof.
  case_decide as Hl; [by apply decode_frame_own|].
  unfold encode_frame. rewrite decode_frame_eq by (apply encode_header_ok || done).
  cbn [encode_message T_Frame.header T_Frame.body T_MessageHeader.body_len].
  unfold kHeaderLen in *. pose proof (zlen_nonneg (encode_body m)).
  destruct (Z.eqb_spec (zlen (encode_body m) + 12) (u32 (12 + u32 (zlen (encode_body m)))));
    [exfalso; uint_lia | done].
Qed.

Definition sample_nack : T_Message :=
  M_Nack (T_Nack.mk 1 9 8 7 6 5 4 EM_NackReason.BAD_OFFSET "offset").

Lemma decode_encode_roundtrip_witness :
  message_ok sample_nack ∧
  (frame ← decode_frame (encode_frame sample_nack); decode_message frame) = Ret sample_nack.
Proof.
  assert (message_ok sample_nack) as H by (repeat split; vm_compute; congruence).
  exact (conj H (decode_encode_roundtrip sample_nack H eq_refl)).
Defined.

Lemma decode_canonical_witness :
  message_ok sample_nack ∧ encode_frame sample_nack = encode_frame sample_nack.
Proof.
  exact (decode_canonical (encode_frame sample_nack) (encode_message sample_nack) sample_nack
    eq_refl eq_refl).
Defined.
