(* ===== verification/Framing.v ===== *)
(** * The connection layer: [include/network/yisync_async.hpp], [src/network/yisync_async.cpp]

    [EventLoop] models the poll loop's watcher and timer tables;
    [AsyncFrameConnection] the framing of messages over a byte stream: the
    write queue, the read buffer and [parse_frames].  What the kernel answers
    to [recv] and [send] is an explicit script. *)
From S2P Require Import Prelude Wire Protocol.
#[local] Open Scope Z_scope.

(** An address, as the command line and the configuration name it. *)
Module Endpoint.
Record t := mk { host : string; port : Z }.
End Endpoint.

(** ** The event loop *)
Module EventLoop.
(** [CB] names the client's closures. *)
Record Watcher {CB} := mkWatcher { fd : Z; events : Z; callback : CB }.
Arguments Watcher : clear implicits.
Record Timer {CB} := mkTimer { id : Z; deadline : Z; timer_callback : CB }.
Arguments Timer : clear implicits.
Record t {CB} := mk {
  stopped_ : bool; next_timer_id_ : Z; watchers_ : list (Watcher CB); timers_ : list (Timer CB)
}.
Arguments t : clear implicits.

Definition POLLIN : Z := 1.
Definition POLLOUT : Z := 4.
Definition POLLERR : Z := 8.
Definition POLLHUP : Z := 16.
Definition POLLNVAL : Z := 32.

Section ops.
Context {CB : Type}.

Definition unwatch_fd (f : Z) (l : t CB) : t CB :=
  mk CB l.(stopped_) l.(next_timer_id_) (filter (λ w, w.(fd) ≠ f) l.(watchers_)) l.(timers_).

Definition watch_fd (f ev : Z) (cb : CB) : M (t CB) unit := λ l,
  if f <? 0 then (Throw "invalid fd", l)
  else
    let l := unwatch_fd f l in
    (Ret tt, mk CB l.(stopped_) l.(next_timer_id_)
               (l.(watchers_) ++ [mkWatcher CB f ev cb]) l.(timers_)).

(** [std::find_if] updates the first watcher of [f]. *)
Fixpoint update_first (f ev : Z) (ws : list (Watcher CB)) : list (Watcher CB) :=
  match ws with
  | [] => []
  | w :: ws =>
      if w.(fd) =? f then mkWatcher CB w.(fd) ev w.(callback) :: ws
      else w :: update_first f ev ws
  end.

Definition update_fd (f ev : Z) (l : t CB) : t CB :=
  mk CB l.(stopped_) l.(next_timer_id_) (update_first f ev l.(watchers_)) l.(timers_).

(** The clock counts nanoseconds, a delay is in milliseconds. *)
Definition call_later (now delay : Z) (cb : CB) (l : t CB) : t CB :=
  mk CB l.(stopped_) (u64 (l.(next_timer_id_) + 1)) l.(watchers_)
    (l.(timers_) ++ [mkTimer CB l.(next_timer_id_) (now + delay * 1000000) cb]).

Definition stop (l : t CB) : t CB := mk CB true l.(next_timer_id_) l.(watchers_) l.(timers_).

(** The [remove_if] of [run]: the due timers, in order, and the others. *)
Definition take_due (now : Z) (l : t CB) : list (Timer CB) * t CB :=
  (filter (λ x, x.(deadline) ≤ now) l.(timers_),
   mk CB l.(stopped_) l.(next_timer_id_) l.(watchers_)
     (filter (λ x, ¬ x.(deadline) ≤ now) l.(timers_))).

(** The events [poll] is asked for on [f]. *)
Definition events_of (f : Z) (l : t CB) : list Z :=
  events <$> filter (λ w, w.(fd) = f) l.(watchers_).

(** No descriptor has two watchers. *)
Definition wf (l : t CB) : Prop := NoDup (fd <$> l.(watchers_)).
End ops.
End EventLoop.

(** ** A framed connection *)
Module AsyncFrameConnection.
Module PendingWrite.
Record t := mk { bytes : Bytes; offset : nat }.
End PendingWrite.

(** What the connection tells its client, through its three callbacks. *)
Inductive Event :=
  | OnMessage (m : T_Message)
  | OnClose
  | OnError (what : string).

(** [fd_] is negative when closed.  [loop_] is the state of the loop it was
    started on (its own watcher carries no closure here).  [events_] records
    the callbacks made and [sent_] the bytes handed to the kernel. *)
Record t := mk {
  fd_ : Z;
  max_frame_bytes_ : Z;
  loop_ : option (EventLoop.t unit);
  read_buffer_ : Bytes;
  write_queue_ : list PendingWrite.t;
  events_ : list Event;
  sent_ : Bytes
}.

Definition set_fd (v : Z) (c : t) : t :=
  mk v c.(max_frame_bytes_) c.(loop_) c.(read_buffer_) c.(write_queue_) c.(events_) c.(sent_).
Definition set_loop (v : option (EventLoop.t unit)) (c : t) : t :=
  mk c.(fd_) c.(max_frame_bytes_) v c.(read_buffer_) c.(write_queue_) c.(events_) c.(sent_).
Definition set_read_buffer (v : Bytes) (c : t) : t :=
  mk c.(fd_) c.(max_frame_bytes_) c.(loop_) v c.(write_queue_) c.(events_) c.(sent_).
Definition set_write_queue (v : list PendingWrite.t) (c : t) : t :=
  mk c.(fd_) c.(max_frame_bytes_) c.(loop_) c.(read_buffer_) v c.(events_) c.(sent_).
Definition emit (e : Event) (c : t) : t :=
  mk c.(fd_) c.(max_frame_bytes_) c.(loop_) c.(read_buffer_) c.(write_queue_)
    (c.(events_) ++ [e]) c.(sent_).
Definition add_sent (bs : Bytes) (c : t) : t :=
  mk c.(fd_) c.(max_frame_bytes_) c.(loop_) c.(read_buffer_) c.(write_queue_) c.(events_)
    (c.(sent_) ++ bs).

(** The constructor, after the socket options are set. *)
Definition create (fd max_frame_bytes : Z) : exc t :=
  if fd <? 0 then Throw "invalid async TCP fd"
  else Ret (mk fd max_frame_bytes None [] [] [] []).

Definition closed (c : t) : bool := c.(fd_) <? 0.

Definition update_watch (c : t) : t :=
  if closed c then c
  else match c.(loop_) with
       | None => c
       | Some loop =>
           let events := match c.(write_queue_) with
                         | [] => EventLoop.POLLIN
                         | _ => Z.lor EventLoop.POLLIN EventLoop.POLLOUT
                         end in
           set_loop (Some (EventLoop.update_fd c.(fd_) events loop)) c
       end.

Definition start (loop : EventLoop.t unit) (c : t) : exc t :=
  if closed c then Throw "connection is closed"
  else match EventLoop.watch_fd c.(fd_) EventLoop.POLLIN tt loop with
       | (Ret _, loop) => Ret (update_watch (set_loop (Some loop) c))
       | (Throw e, _) => Throw e
       end.

Definition send (message : T_Message) (c : t) : exc t :=
  if closed c then Throw "connection is closed"
  else Ret (update_watch
         (set_write_queue (c.(write_queue_) ++ [PendingWrite.mk (encode_frame message) 0]) c)).

Definition close (c : t) : t :=
  if closed c then c
  else
    let loop := EventLoop.unwatch_fd c.(fd_) <$> c.(loop_) in
    emit OnClose (set_fd (-1) (set_loop loop c)).

Definition fail (message : string) (c : t) : t := close (emit (OnError message) c).

(** [read_le_u16(header, kHeaderLenOffset)], [read_le_u32(header, kBodyLenOffset)]. *)
Definition byte_at (bs : Bytes) (i : nat) : Z := Z_of_byte (default x00 (bs !! i)).
Definition read_le_u16 (bs : Bytes) (offset : nat) : Z :=
  Z.lor (byte_at bs offset) (Z.shiftl (byte_at bs (offset + 1)) 8).
Definition read_le_u32 (bs : Bytes) (offset : nat) : Z :=
  Z.lor (Z.lor (Z.lor (byte_at bs offset) (Z.shiftl (byte_at bs (offset + 1)) 8))
    (Z.shiftl (byte_at bs (offset + 2)) 16)) (Z.shiftl (byte_at bs (offset + 3)) 24).

Definition kFrameHeaderLen : Z := 12.
Definition kHeaderLenOffset : nat := 6.
Definition kBodyLenOffset : nat := 8.

(** One turn of the [while] of [parse_frames]: [inl] returns, [inr] goes on.
    [message_callback_] is the client's; its exception is caught here. *)
Definition parse_frame (message_callback : T_Message → M t unit) (c : t) : t + t :=
  if closed c || (zlen c.(read_buffer_) <? kFrameHeaderLen) then inl c
  else
    let header_len := read_le_u16 c.(read_buffer_) kHeaderLenOffset in
    let body_len := read_le_u32 c.(read_buffer_) kBodyLenOffset in
    if negb (header_len =? kFrameHeaderLen) then inl (fail "unsupported frame header length" c)
    else if u32 (header_len + body_len) >? c.(max_frame_bytes_)
    then inl (fail "frame exceeds max_frame_bytes" c)
    else
      let frame_len := u32 (header_len + body_len) in
      if zlen c.(read_buffer_) <? frame_len then inl c
      else
        let frame_bytes := take (Z.to_nat frame_len) c.(read_buffer_) in
        let c := set_read_buffer (drop (Z.to_nat frame_len) c.(read_buffer_)) c in
        match (frame ← decode_frame frame_bytes; decode_message frame) with
        | Throw what => inl (fail what c)
        | Ret message =>
            match message_callback message c with
            | (Throw what, c) => inl (fail what c)
            | (Ret _, c) => inr c
            end
        end.

Fixpoint parse_loop (fuel : nat) (message_callback : T_Message → M t unit) (c : t) : t :=
  match fuel with
  | O => c
  | S fuel =>
      match parse_frame message_callback c with
      | inl c => c
      | inr c => parse_loop fuel message_callback c
      end
  end.

(** Every turn that goes on takes a frame of at least 12 bytes off the buffer. *)
Definition parse_frames (message_callback : T_Message → M t unit) (c : t) : t :=
  parse_loop (S (length c.(read_buffer_))) message_callback c.

(** The kernel's answers to [recv]. *)
Inductive recv_result :=
  | Received (bs : Bytes)
  | Recv_eof
  | Recv_eintr
  | Recv_eagain
  | Recv_error (what : string).

(** [read_available]: the answers in order; past the script the socket has
    nothing more ([EAGAIN]). *)
Fixpoint read_available (cb : T_Message → M t unit) (script : list recv_result) (c : t) : t :=
  if closed c then parse_frames cb c
  else match script with
  | [] => parse_frames cb c
  | r :: script =>
      match r with
      | Received bs => read_available cb script (set_read_buffer (c.(read_buffer_) ++ bs) c)
      | Recv_eof => close c
      | Recv_eintr => read_available cb script c
      | Recv_eagain => parse_frames cb c
      | Recv_error what => fail what c
      end
  end.

(** The kernel's answers to [send]: [Sent k] takes [k + 1] of the remaining
    bytes, or all of them when there are fewer. *)
Inductive send_result :=
  | Sent (k : nat)
  | Send_zero
  | Send_eintr
  | Send_eagain
  | Send_error (what : string).

Fixpoint flush_writes (script : list send_result) (c : t) : t :=
  match c.(write_queue_), script with
  | [], _ | _, [] => update_watch c
  | front :: queue, r :: script =>
      match r with
      | Sent k =>
          let remaining := drop front.(PendingWrite.offset) front.(PendingWrite.bytes) in
          let n := Nat.min (S k) (length remaining) in
          let c := add_sent (take n remaining) c in
          let offset := (front.(PendingWrite.offset) + n)%nat in
          if decide (offset = length front.(PendingWrite.bytes))
          then flush_writes script (set_write_queue queue c)
          else flush_writes script
                 (set_write_queue (PendingWrite.mk front.(PendingWrite.bytes) offset :: queue) c)
      | Send_zero | Send_eagain => update_watch c
      | Send_eintr => flush_writes script c
      | Send_error what => fail what c
      end
  end.

Definition has_flag (revents flag : Z) : bool := negb (Z.land revents flag =? 0).

Definition handle_io (cb : T_Message → M t unit) (revents : Z)
    (recvs : list recv_result) (sends : list send_result) (c : t) : t :=
  if closed c then c
  else
    let c := if has_flag revents EventLoop.POLLIN then read_available cb recvs c else c in
    let c := if negb (closed c) && has_flag revents EventLoop.POLLOUT
             then flush_writes sends c else c in
    let c := if negb (closed c) &&
                has_flag revents (Z.lor EventLoop.POLLERR EventLoop.POLLNVAL)
             then fail "TCP connection error" c else c in
    if negb (closed c) && has_flag revents EventLoop.POLLHUP then close c else c.

(** The client that only takes note of the messages it is given. *)
Definition deliver (m : T_Message) : M t unit := λ c, (Ret tt, emit (OnMessage m) c).
End AsyncFrameConnection.

(** ** Header fields in the buffer *)
Module FramingFacts.
Import AsyncFrameConnection.

Lemma header_prefix_bytes h :
  write_header_prefix h [] =
  le_bytes 4 h.(T_MessageHeader.magic) ++ [byte_of_Z h.(T_MessageHeader.version);
    byte_of_Z (to_u8 h.(T_MessageHeader.msg_type))] ++
  le_bytes 2 h.(T_MessageHeader.header_len) ++ le_bytes 4 h.(T_MessageHeader.body_len).
Proof.
  unfold write_header_prefix.
  assert (∀ v w, Writer.u32 v w = w ++ le_bytes 4 v) as H32.
  { intros v w. unfold Writer.u32. rewrite (push_shifts_spec 4 0) by lia. by rewrite Z.div_1_r. }
  assert (∀ v w, Writer.u16 v w = w ++ le_bytes 2 v) as H16.
  { intros v w. pose proof (push_shifts_spec 2 0 v w ltac:(lia)) as Hp.
    rewrite Z.div_1_r in Hp. rewrite <- Hp. unfold Writer.u16. simpl. by rewrite Z.shiftr_0_r. }
  rewrite H32, H16, H32. by rewrite <- !app_assoc.
Qed.

Lemma read_header_at h tl :
  T_MessageHeader.ok h →
  read_le_u16 (write_header_prefix h [] ++ tl) kHeaderLenOffset = h.(T_MessageHeader.header_len) ∧
  read_le_u32 (write_header_prefix h [] ++ tl) kBodyLenOffset = h.(T_MessageHeader.body_len).
Proof.
  intros (_ & _ & _ & Hh & Hb). rewrite header_prefix_bytes.
  unfold read_le_u16, read_le_u32, byte_at. cbn.
  rewrite !Z_of_byte_of_Z. split.
  - rewrite lor_shiftl_add by uint_lia. uint_lia.
  - rewrite (lor_shiftl_add _ _ 8) by uint_lia. rewrite (lor_shiftl_add _ _ 16) by uint_lia.
    rewrite (lor_shiftl_add _ _ 24) by uint_lia. uint_lia.
Qed.

(** ** What one turn of [parse_frames] does *)

(** Fewer bytes than a header, or fewer than the frame its header announces. *)
Definition incomplete (max : Z) (buf : Bytes) : Prop :=
  zlen buf < kFrameHeaderLen ∨
  read_le_u16 buf kHeaderLenOffset = kFrameHeaderLen ∧
  zlen buf < u32 (kFrameHeaderLen + read_le_u32 buf kBodyLenOffset) ≤ max.

(** A message whose frame a connection limited to [max] bytes accepts. *)
Definition fits (max : Z) (m : T_Message) : Prop :=
  message_ok m ∧ zlen (encode_frame m) ≤ max ∧ zlen (encode_frame m) < 4294967296.

Definition frames (ms : list T_Message) : Bytes := concat (encode_frame <$> ms).

Lemma encode_frame_len m : zlen (encode_frame m) = kFrameHeaderLen + zlen (encode_body m).
Proof. unfold encode_frame. by rewrite zlen_app, header_prefix_length. Qed.

Lemma frame_header_at m tl :
  zlen (encode_frame m) < 4294967296 →
  read_le_u16 (encode_frame m ++ tl) kHeaderLenOffset = kFrameHeaderLen ∧
  u32 (kFrameHeaderLen + read_le_u32 (encode_frame m ++ tl) kBodyLenOffset)
    = zlen (encode_frame m).
Proof.
  intros Hl. rewrite encode_frame_len in *. unfold encode_frame. rewrite <- app_assoc.
  destruct (read_header_at (encode_message m).(T_Frame.header)
    ((encode_message m).(T_Frame.body) ++ tl) (encode_header_ok m)) as [-> ->].
  split; [done|]. cbn [encode_message T_Frame.header T_MessageHeader.body_len].
  pose proof (zlen_nonneg (encode_body m)). unfold kFrameHeaderLen in *.
  rewrite !u32_small; uint_lia.
Qed.

Definition notes (ms : list T_Message) : list Event := OnMessage <$> ms.

Section parse.
Context (c : t) (Hopen : closed c = false).

Lemma parse_frame_cases r :
  parse_frame deliver c = r →
  match r with
  | inr c' => ∃ m, message_ok m ∧ c.(read_buffer_) = encode_frame m ++ c'.(read_buffer_) ∧
      c' = emit (OnMessage m) (set_read_buffer c'.(read_buffer_) c)
  | inl c' => c' = c ∧ incomplete c.(max_frame_bytes_) c.(read_buffer_) ∨
      ∃ what n, c' = fail what (set_read_buffer (drop n c.(read_buffer_)) c)
  end.
Proof.
  intros <-. unfold parse_frame. rewrite Hopen. cbn [orb].
  destruct (Z.ltb_spec (zlen c.(read_buffer_)) kFrameHeaderLen) as [|Hlen];
    [by left; split; [|left]|].
  destruct (Z.eqb_spec (read_le_u16 c.(read_buffer_) kHeaderLenOffset) kFrameHeaderLen)
    as [Hh|]; cbn [negb].
  2:{ right. eexists _, 0%nat. destruct c; reflexivity. }
  rewrite Hh. destruct (Z.gtb_spec (u32 (kFrameHeaderLen +
    read_le_u32 c.(read_buffer_) kBodyLenOffset)) c.(max_frame_bytes_)) as [|Hmax].
  { right. eexists _, 0%nat. destruct c; reflexivity. }
  destruct (Z.ltb_spec (zlen c.(read_buffer_)) (u32 (kFrameHeaderLen +
    read_le_u32 c.(read_buffer_) kBodyLenOffset))); [left; split; [done|by right]|].
  destruct (_ ≫= _) as [m|what] eqn:E; [|right; by eexists _, _].
  apply decode_bytes_inv in E as [Hok E]. unfold deliver. exists m.
  split_and!; [done| |done]. cbn. rewrite E. by rewrite take_drop.
Qed.

Lemma parse_frame_complete m tl :
  fits c.(max_frame_bytes_) m → c.(read_buffer_) = encode_frame m ++ tl →
  parse_frame deliver c = inr (emit (OnMessage m) (set_read_buffer tl c)).
Proof.
  intros (Hok & Hmax & H32) Hbuf. unfold parse_frame. rewrite Hopen, Hbuf. cbn [orb].
  destruct (frame_header_at m tl H32) as [-> ->]. rewrite zlen_app.
  pose proof (encode_frame_len m). pose proof (zlen_nonneg (encode_body m)).
  pose proof (zlen_nonneg tl).
  destruct (Z.ltb_spec (zlen (encode_frame m) + zlen tl) kFrameHeaderLen); [lia|].
  rewrite Z.eqb_refl. cbn [negb].
  destruct (Z.gtb_spec (zlen (encode_frame m)) c.(max_frame_bytes_)); [lia|].
  destruct (Z.ltb_spec (zlen (encode_frame m) + zlen tl) (zlen (encode_frame m))); [lia|].
  rewrite zlen_to_nat, take_app_length, drop_app_length.
  rewrite decode_frame_own by (unfold kHeaderLen, kFrameHeaderLen in *; lia).
  cbn [mbind exc_bind]. by rewrite decode_message_own.
Qed.

Lemma parse_frame_incomplete :
  incomplete c.(max_frame_bytes_) c.(read_buffer_) → parse_frame deliver c = inl c.
Proof.
  unfold parse_frame, incomplete. rewrite Hopen. cbn [orb].
  destruct (Z.ltb_spec (zlen c.(read_buffer_)) kFrameHeaderLen); [done|].
  intros [|(-> & Hlt & Hle)]; [lia|]. rewrite Z.eqb_refl. cbn [negb].
  destruct (Z.gtb_spec (u32 (kFrameHeaderLen +
    read_le_u32 c.(read_buffer_) kBodyLenOffset)) c.(max_frame_bytes_)); [lia|].
  destruct (Z.ltb_spec (zlen c.(read_buffer_)) (u32 (kFrameHeaderLen +
    read_le_u32 c.(read_buffer_) kBodyLenOffset))); [done|lia].
Qed.
End parse.

(** A proper prefix of an acceptable frame is incomplete. *)
Lemma prefix_incomplete max m buf tl :
  fits max m → encode_frame m = buf ++ tl → tl ≠ [] → incomplete max buf.
Proof.
  intros (Hok & Hmax & H32) Hm Htl. unfold incomplete.
  destruct (Z.lt_ge_cases (zlen buf) kFrameHeaderLen) as [|Hge]; [by left|right].
  destruct (frame_header_at m [] H32) as [Hh Hb]. rewrite app_nil_r in Hh, Hb.
  assert (∀ i, (i < 12)%nat → encode_frame m !! i = buf !! i) as Hsame.
  { intros i Hi. rewrite Hm. apply lookup_app_l. unfold zlen, kFrameHeaderLen in Hge. lia. }
  unfold read_le_u16, read_le_u32, byte_at in *.
  rewrite !Hsame in Hh by (unfold kHeaderLenOffset; lia).
  rewrite !Hsame in Hb by (unfold kBodyLenOffset; lia).
  rewrite Hh, Hb. split_and!; [done| |done].
  rewrite Hm, zlen_app. destruct tl; [done|]. rewrite zlen_cons. pose proof (zlen_nonneg tl). lia.
Qed.

Lemma emit_open e c : closed (emit e c) = closed c.
Proof. done. Qed.

Lemma fail_closed what c : closed c = false →
  closed (fail what c) = true ∧ (fail what c).(events_) = c.(events_) ++ [OnError what; OnClose] ∧
  (fail what c).(read_buffer_) = c.(read_buffer_).
Proof.
  intros Ho. unfold fail, close. rewrite emit_open, Ho. cbn.
  split_and!; [done|by rewrite <- app_assoc|done].
Qed.

(** All of [parse_frames] on an arbitrary buffer. *)
Lemma parse_loop_sound fuel c :
  closed c = false → (length c.(read_buffer_) < fuel)%nat →
  ∃ ms tl, Forall message_ok ms ∧ c.(read_buffer_) = frames ms ++ tl ∧
    (parse_loop fuel deliver c =
       set_read_buffer tl (foldl (λ c m, emit (OnMessage m) c) c ms) ∧
       incomplete c.(max_frame_bytes_) tl ∨
     ∃ what n, parse_loop fuel deliver c =
       fail what (set_read_buffer (drop n tl) (foldl (λ c m, emit (OnMessage m) c) c ms))).
Proof.
  revert c. induction fuel as [|fuel IH]; intros c Ho Hf; [lia|].
  cbn [parse_loop]. pose proof (parse_frame_cases c Ho _ eq_refl) as Hc.
  destruct (parse_frame deliver c) as [c'|c'].
  - exists [], c.(read_buffer_). split_and!; [constructor|done|].
    destruct Hc as [[-> Hi]|(what & n & ->)]; [left; split; [by destruct c|done]|right; eauto].
  - destruct Hc as (m & Hm & Hbuf & Hc').
    assert (closed c' = false) as Ho' by (rewrite Hc'; done).
    assert (c'.(max_frame_bytes_) = c.(max_frame_bytes_)) as Hmax by (rewrite Hc'; done).
    destruct (IH c' Ho') as (ms & tl & Hms & Hb & Hcase).
    { rewrite Hbuf, length_app in Hf. pose proof (encode_frame_len m) as Hl.
      pose proof (zlen_nonneg (encode_body m)). unfold zlen, kFrameHeaderLen in *. lia. }
    exists (m :: ms), tl. split_and!; [by constructor| |].
    { rewrite Hbuf, Hb. unfold frames. cbn. by rewrite app_assoc. }
    rewrite Hmax in Hcase. clear IH.
    assert (∀ b, set_read_buffer b (foldl (λ c m, emit (OnMessage m) c) c' ms) =
      set_read_buffer b (foldl (λ c m, emit (OnMessage m) c) c (m :: ms))) as Heq.
    { intros b. rewrite Hc'. cbn. generalize (c'.(read_buffer_)). intros b'.
      assert (∀ c, set_read_buffer b (foldl (λ c m, emit (OnMessage m) c)
        (set_read_buffer b' c) ms) = set_read_buffer b (foldl (λ c m, emit (OnMessage m) c) c ms))
        as Hgen; [|apply (Hgen (emit (OnMessage m) c))].
      clear. induction ms as [|x ms IH]; intros c; [done|]. apply (IH (emit (OnMessage x) c)). }
    destruct Hcase as [[-> Hi]|(what & n & ->)]; [left|right]; rewrite Heq; eauto.
Qed.

Lemma foldl_emit ms c :
  foldl (λ c m, emit (OnMessage m) c) c ms =
  mk c.(fd_) c.(max_frame_bytes_) c.(loop_) c.(read_buffer_) c.(write_queue_)
    (c.(events_) ++ notes ms) c.(sent_).
Proof.
  revert c. induction ms as [|m ms IH]; intros c; cbn; [by rewrite app_nil_r; destruct c|].
  rewrite IH. cbn. by rewrite <- app_assoc.
Qed.

Lemma parse_loop_complete fuel ms tl c :
  closed c = false → c.(read_buffer_) = frames ms ++ tl → (length ms < fuel)%nat →
  Forall (fits c.(max_frame_bytes_)) ms → incomplete c.(max_frame_bytes_) tl →
  parse_loop fuel deliver c =
  mk c.(fd_) c.(max_frame_bytes_) c.(loop_) tl c.(write_queue_)
    (c.(events_) ++ notes ms) c.(sent_).
Proof.
  revert ms c. induction fuel as [|fuel IH]; intros ms c Ho Hb Hf Hfit Hi; [lia|].
  cbn [parse_loop]. destruct ms as [|m ms].
  - cbn in Hb. rewrite parse_frame_incomplete by (rewrite ?Hb; done).
    cbn. rewrite app_nil_r, <- Hb. by destruct c.
  - apply Forall_cons in Hfit as [Hm Hfit].
    rewrite (parse_frame_complete c Ho m (frames ms ++ tl)) by
      (done || rewrite Hb; unfold frames; cbn; by rewrite app_assoc).
    rewrite (IH ms) by (done || simpl in Hf; lia). cbn. by rewrite <- app_assoc.
Qed.

Lemma frames_length ms : (length ms <= length (frames ms))%nat.
Proof.
  unfold frames. induction ms as [|m ms IH]; cbn; [done|]. rewrite length_app.
  pose proof (encode_frame_len m). pose proof (zlen_nonneg (encode_body m)).
  unfold zlen, kFrameHeaderLen in *. lia.
Qed.

(** Cut a stream of frames at any byte. *)
Lemma frames_split ms buf rest :
  buf ++ rest = frames ms →
  ∃ ms1 ms2 tl, ms = ms1 ++ ms2 ∧ buf = frames ms1 ++ tl ∧ tl ++ rest = frames ms2 ∧
    match ms2 with [] => tl = [] | m :: _ => ∃ k, encode_frame m = tl ++ k ∧ k ≠ [] end.
Proof.
  revert buf. induction ms as [|m ms IH]; intros buf H.
  - apply app_eq_nil in H as [-> ->]. by exists [], [], [].
  - unfold frames in H. cbn in H. apply app_eq_app in H as (k & [[-> Hk]|[Hk ->]]).
    + destruct (IH k) as (ms1 & ms2 & tl & -> & -> & Ht & Hm); [by rewrite <- Hk|].
      exists (m :: ms1), ms2, tl. split_and!; [done| |done|done].
      unfold frames. cbn. by rewrite app_assoc.
    + destruct (decide (k = [])) as [->|Hne].
      * rewrite app_nil_r in Hk. exists [m], ms, [].
        split_and!; [done|by unfold frames; cbn; rewrite Hk, !app_nil_r|done|].
        destruct ms as [|m' ms]; [done|]. exists (encode_frame m'). split; [done|].
        intros E. pose proof (encode_frame_len m') as Hl. rewrite E in Hl.
        pose proof (zlen_nonneg (encode_body m')). unfold kFrameHeaderLen in Hl.
        rewrite zlen_nil in Hl. lia.
      * exists [], (m :: ms), buf. split_and!; [done|done| |by exists k].
        unfold frames. cbn. by rewrite Hk, <- app_assoc.
Qed.

(** What a script of successful [recv]s brings. *)
Definition received (script : list recv_result) : Bytes :=
  concat ((λ r, match r with Received bs => bs | _ => [] end) <$> script).
Definition healthy (script : list recv_result) : Prop :=
  Forall (λ r, match r with Received _ | Recv_eintr => True | _ => False end) script.

Lemma read_available_healthy cb script c :
  healthy script → closed c = false →
  read_available cb script c = parse_frames cb (set_read_buffer (c.(read_buffer_) ++ received script) c).
Proof.
  intros Hs. revert c. induction Hs as [|r script Hr Hs IH]; intros c Ho; cbn.
  - rewrite Ho, app_nil_r. by destruct c.
  - rewrite Ho. destruct r; try done; [|by apply IH].
    rewrite IH by done. cbn. by rewrite <- app_assoc.
Qed.

(** One readiness of the socket, with the answers [script]. *)
Definition readable (script : list recv_result) (c : t) : t :=
  handle_io deliver EventLoop.POLLIN script [] c.

Lemma readable_eq script c :
  closed c = false → readable script c = read_available deliver script c.
Proof.
  intros Ho. unfold readable, handle_io. rewrite Ho. cbn -[read_available].
  by rewrite !andb_false_r.
Qed.

Lemma readable_step c script rest ms :
  closed c = false → healthy script → Forall (fits c.(max_frame_bytes_)) ms →
  c.(read_buffer_) ++ received script ++ rest = frames ms →
  ∃ ms1 ms2 tl, ms = ms1 ++ ms2 ∧ tl ++ rest = frames ms2 ∧ (rest = [] → ms2 = [] ∧ tl = []) ∧
    readable script c = mk c.(fd_) c.(max_frame_bytes_) c.(loop_) tl c.(write_queue_)
      (c.(events_) ++ notes ms1) c.(sent_).
Proof.
  intros Ho Hs Hfit Hb. rewrite app_assoc in Hb.
  apply frames_split in Hb as (ms1 & ms2 & tl & -> & Hbuf & Hrest & Htl).
  exists ms1, ms2, tl. split_and!; [done|done| |].
  - intros ->. rewrite app_nil_r in Hrest. destruct ms2 as [|m ms2]; [done|exfalso].
    destruct Htl as (k & Hk & Hne). unfold frames in Hrest. cbn in Hrest.
    rewrite Hk in Hrest. apply (f_equal length) in Hrest. rewrite !length_app in Hrest.
    destruct k; [done|simpl in Hrest; lia].
  - rewrite readable_eq, read_available_healthy by done. rewrite Hbuf.
    apply Forall_app in Hfit as [Hf1 Hf2]. unfold parse_frames.
    rewrite (parse_loop_complete _ ms1 tl); [done..| |done|].
    + cbn. rewrite length_app. pose proof (frames_length ms1). lia.
    + cbn. destruct ms2 as [|m ms2]; [subst tl; left; done|].
      destruct Htl as (k & Hk & Hne). apply Forall_cons in Hf2 as [Hm _].
      by apply (prefix_incomplete _ m tl k).
Qed.
End FramingFacts.

Import AsyncFrameConnection FramingFacts.

(** C17: reassembly: however the network cuts the bytes of a sequence of
    acceptable messages into [recv] answers and poll wake-ups (empty reads and
    interrupted calls included), the connection calls back with exactly those
    messages, in order, each once, and is left open with an empty buffer. *)
Theorem stream_reassembly c ms scripts :
  closed c = false → c.(read_buffer_) = [] →
  Forall (fits c.(max_frame_bytes_)) ms → Forall healthy scripts →
  concat (received <$> scripts) = frames ms →
  foldl (λ c script, readable script c) c scripts =
  mk c.(fd_) c.(max_frame_bytes_) c.(loop_) [] c.(write_queue_)
    (c.(events_) ++ notes ms) c.(sent_).
Proof.
  intros Ho Hempty Hfit Hs Hbytes.
  assert (c.(read_buffer_) ++ concat (received <$> scripts) = frames ms) as Hb
    by (by rewrite Hempty). clear Hbytes.
  assert (scripts = [] → ms = [] ∧ c.(read_buffer_) = []) as Hend.
  { intros ->. split; [|done]. rewrite Hempty in Hb. cbn in Hb.
    pose proof (frames_length ms) as Hl. rewrite <- Hb in Hl. destruct ms; [done|simpl in Hl; lia]. }
  clear Hempty. revert c ms Ho Hfit Hb Hend.
  induction Hs as [|script scripts Hscript Hs IH]; intros c ms Ho Hfit Hb Hend.
  - destruct (Hend eq_refl) as [-> Hr]. cbn. rewrite app_nil_r, <- Hr. by destruct c.
  - cbn in Hb |- *.
    destruct (readable_step c script (concat (received <$> scripts)) ms)
      as (ms1 & ms2 & tl & -> & Hrest & Hlast & ->); [done..|].
    apply Forall_app in Hfit as [_ Hfit2].
    rewrite (IH _ ms2); [|done..|].
    + cbn. unfold notes. by rewrite fmap_app, app_assoc.
    + intros ->. by apply Hlast.
Qed.

(** C34: whatever bytes a peer sends, [parse_frames] hands the client only
    well-formed messages whose frames are, in order, the bytes taken off the
    buffer; then it either waits, keeping less than
    [max(12, max_frame_bytes)] bytes, or it has reported one error and closed. *)
Theorem parse_frames_sound c :
  closed c = false →
  let c' := parse_frames deliver c in
  ∃ ms tl, Forall message_ok ms ∧ c.(read_buffer_) = frames ms ++ tl ∧
    ((closed c' = false ∧ c'.(events_) = c.(events_) ++ notes ms ∧ c'.(read_buffer_) = tl ∧
      zlen tl < Z.max kFrameHeaderLen c.(max_frame_bytes_)) ∨
     (closed c' = true ∧
      ∃ what, c'.(events_) = c.(events_) ++ notes ms ++ [OnError what; OnClose])).
Proof.
  intros Ho. cbn zeta.
  destruct (parse_loop_sound (S (length c.(read_buffer_))) c Ho ltac:(lia))
    as (ms & tl & Hms & Hb & Hcase).
  exists ms, tl. split_and!; [done|done|].
  unfold parse_frames. rewrite foldl_emit in Hcase. destruct Hcase as [[-> Hi]|(what & n & ->)].
  - left. split_and!; [done..|]. destruct Hi as [|(_ & ? & ?)]; unfold kFrameHeaderLen in *; lia.
  - right. match goal with |- context [fail what ?x] => destruct (fail_closed what x) as (? & -> & _) end;
      [done|]. split; [done|]. exists what. cbn. by rewrite <- app_assoc.
Qed.

Definition sample_connection : t := mk 5 1024 None [] [] [] [].
Definition sample_messages : list T_Message :=
  [sample_nack; M_FileCommit (T_FileCommit.mk 1 2 3)].

Lemma stream_reassembly_witness :
  let reads := [[Received (take 5 (frames sample_messages)); Recv_eintr];
                []; [Received (drop 5 (frames sample_messages))]] in
  foldl (λ c script, readable script c) sample_connection reads =
  mk 5 1024 None [] [] (notes sample_messages) [].
Proof.
  apply (stream_reassembly sample_connection sample_messages); [done|done| | |vm_compute; reflexivity].
  - repeat constructor; vm_compute; congruence.
  - repeat constructor.
Defined.

Lemma parse_frames_sound_witness :
  ∃ ms tl, Forall message_ok ms ∧ frames sample_messages = frames ms ++ tl ∧
    zlen (A:=T_Message) ms = 2.
Proof.
  destruct (parse_frames_sound (set_read_buffer (frames sample_messages) sample_connection) eq_refl)
    as (ms & tl & Hms & Hb & [(_ & Hev & _)|(Hc & _)]); [|vm_compute in Hc; discriminate].
  exists ms, tl. split; [exact Hms|]. split; [exact Hb|].
  assert (notes ms = notes sample_messages) as E
    by (refine (eq_trans (eq_sym Hev) _); vm_compute; reflexivity).
  apply (f_equal length) in E. unfold notes in E. rewrite !length_fmap in E.
  unfold zlen. rewrite E. reflexivity.
Defined.

(** ** The write side *)
Module WriteFacts.
Section loop.
Context {CB : Type} (f : Z).
Implicit Types l : EventLoop.t CB.

Lemma events_of_unwatch l : EventLoop.events_of f (EventLoop.unwatch_fd f l) = [].
Proof.
  unfold EventLoop.events_of, EventLoop.unwatch_fd. cbn.
  induction (EventLoop.watchers_ l) as [|w ws IH]; [done|].
  rewrite filter_cons. case_decide; [|done]. by rewrite filter_cons_False by naive_solver.
Qed.

Lemma events_of_watch ev cb l :
  0 ≤ f → ∃ l', EventLoop.watch_fd f ev cb l = (Ret tt, l') ∧ EventLoop.events_of f l' = [ev].
Proof.
  intros Hf. unfold EventLoop.watch_fd. destruct (Z.ltb_spec f 0); [lia|].
  eexists; split; [done|]. unfold EventLoop.events_of. cbn. rewrite filter_app, fmap_app.
  pose proof (events_of_unwatch l) as Hu. unfold EventLoop.events_of in Hu. cbn in Hu.
  rewrite Hu. rewrite filter_cons_True by done. done.
Qed.

Lemma events_of_update ev l :
  EventLoop.events_of f (EventLoop.update_fd f ev l) =
  match EventLoop.events_of f l with [] => [] | _ :: es => ev :: es end.
Proof.
  unfold EventLoop.events_of, EventLoop.update_fd. cbn.
  induction (EventLoop.watchers_ l) as [|w ws IH]; [done|]. cbn [EventLoop.update_first].
  destruct (Z.eqb_spec (EventLoop.fd w) f) as [Heq|Hne].
  - by rewrite (filter_cons_True _ w ws Heq), filter_cons_True by exact Heq.
  - by rewrite !(filter_cons_False _ w) by exact Hne.
Qed.
End loop.

Definition pending (q : list PendingWrite.t) : Bytes :=
  concat ((λ w, drop w.(PendingWrite.offset) w.(PendingWrite.bytes)) <$> q).

(** What [poll] must be asked for, given the queue. *)
Definition interest (q : list PendingWrite.t) : Z :=
  match q with [] => EventLoop.POLLIN | _ => Z.lor EventLoop.POLLIN EventLoop.POLLOUT end.

(** The connection on descriptor [f], started on a loop. *)
Definition watched (f : Z) (c : t) : Prop :=
  ∃ l, c.(loop_) = Some l ∧
    if closed c then EventLoop.events_of f l = []
    else c.(fd_) = f ∧ ∃ ev, EventLoop.events_of f l = [ev].

(** ... and whose interest set is up to date. *)
Definition up_to_date (f : Z) (c : t) : Prop :=
  ∃ l, c.(loop_) = Some l ∧
    if closed c then EventLoop.events_of f l = []
    else c.(fd_) = f ∧ EventLoop.events_of f l = [interest c.(write_queue_)].

Definition partial_ok (q : list PendingWrite.t) : Prop :=
  Forall (λ w, (w.(PendingWrite.offset) < length w.(PendingWrite.bytes))%nat) q.

Lemma up_to_date_watched f c : up_to_date f c → watched f c.
Proof. intros (l & Hl & H). exists l. split; [done|]. destruct (closed c); [done|]. destruct H; eauto. Qed.

Lemma update_watch_up f c : watched f c → up_to_date f (update_watch c).
Proof.
  intros (l & Hl & H). unfold update_watch, up_to_date. destruct (closed c) eqn:Ho.
  { exists l. by rewrite Ho. }
  rewrite Hl. destruct H as (Hf & ev & Hev). eexists. split; [done|].
  change (closed (set_loop ?x c)) with (closed c). rewrite Ho. cbn [fd_ set_loop].
  split; [done|]. by rewrite Hf, events_of_update, Hev.
Qed.

Lemma close_up f c : watched f c → up_to_date f (close c).
Proof.
  intros (l & Hl & H). unfold close, up_to_date. destruct (closed c) eqn:Ho.
  { exists l. by rewrite Ho. }
  destruct H as (Hf & _). rewrite Hl. eexists. split; [done|]. rewrite Hf. apply events_of_unwatch.
Qed.

Lemma fail_up f what c : watched f c → up_to_date f (fail what c).
Proof. intros H. by apply close_up. Qed.

Lemma pending_app q w :
  pending (q ++ [w]) = pending q ++ drop w.(PendingWrite.offset) w.(PendingWrite.bytes).
Proof. unfold pending. rewrite fmap_app, concat_app. cbn. by rewrite app_nil_r. Qed.

(** [flush_writes] hands the kernel a prefix of what is pending. *)
Lemma flush_writes_spec f script c :
  watched f c → closed c = false → partial_ok c.(write_queue_) →
  let c' := flush_writes script c in
  up_to_date f c' ∧ partial_ok c'.(write_queue_) ∧
  c'.(sent_) ++ pending c'.(write_queue_) = c.(sent_) ++ pending c.(write_queue_).
Proof.
  cbn zeta. revert c. induction script as [|r script IH]; intros c Hw Ho Hq.
  { cbn. destruct (write_queue_ c) eqn:E; (split; [by apply update_watch_up|]);
      unfold update_watch; rewrite Ho; destruct (loop_ c); cbn; rewrite E; done. }
  assert (∀ c, closed c = false → up_to_date f (update_watch c) → partial_ok c.(write_queue_) →
    up_to_date f (update_watch c) ∧ partial_ok (update_watch c).(write_queue_) ∧
    (update_watch c).(sent_) ++ pending (update_watch c).(write_queue_) =
    c.(sent_) ++ pending c.(write_queue_)) as Hupd.
  { intros c0 Ho0 ? ?. split; [done|]. unfold update_watch. rewrite Ho0. by destruct (loop_ c0). }
  cbn. destruct (write_queue_ c) as [|w q] eqn:E.
  { rewrite <- E. apply Hupd; [done|by apply update_watch_up|by rewrite E]. }
  destruct r as [k| | | |what].
  - apply Forall_cons in Hq as [Hw0 Hq]. cbn in Hw0.
    set (n := Nat.min (S k) (length (drop w.(PendingWrite.offset) w.(PendingWrite.bytes)))).
    assert (n ≤ length w.(PendingWrite.bytes) - w.(PendingWrite.offset))%nat as Hn
      by (unfold n; rewrite length_drop; lia).
    assert (pending (w :: q) = take n (drop w.(PendingWrite.offset) w.(PendingWrite.bytes)) ++
      drop (w.(PendingWrite.offset) + n) w.(PendingWrite.bytes) ++ pending q) as Hp.
    { unfold pending at 1. cbn. rewrite app_assoc. f_equal.
      by rewrite <- drop_drop, take_drop. }
    rewrite Hp. case_decide as Hd.
    + match goal with |- up_to_date f (flush_writes script ?x) ∧ _ =>
        destruct (IH x) as (H1 & H2 & H3) end; [done..|].
      split_and!; [done..|]. rewrite H3. cbn. rewrite Hd, drop_all, <- app_assoc. done.
    + match goal with |- up_to_date f (flush_writes script ?x) ∧ _ =>
        destruct (IH x) as (H1 & H2 & H3) end; [done|done|constructor; [cbn in *; lia|done]|].
      split_and!; [done..|]. rewrite H3. cbn. by rewrite <- app_assoc.
  - rewrite <- E. apply Hupd; [done|by apply update_watch_up|by rewrite E].
  - rewrite <- E. apply IH; [done..|by rewrite E].
  - rewrite <- E. apply Hupd; [done|by apply update_watch_up|by rewrite E].
  - split; [by apply fail_up|]. unfold fail, close. rewrite emit_open, Ho. cbn. by rewrite E.
Qed.

(** The read side leaves the queue and the interest set alone. *)
Definition keeps (f : Z) (c c' : t) : Prop :=
  (up_to_date f c → up_to_date f c') ∧ c'.(write_queue_) = c.(write_queue_) ∧
  c'.(sent_) = c.(sent_).

Lemma fail_keeps f what c : keeps f c (fail what c).
Proof.
  split; [intros H; by apply fail_up, up_to_date_watched|].
  unfold fail, close. by destruct (closed _).
Qed.

Lemma close_keeps f c : keeps f c (close c).
Proof.
  split; [intros H; by apply close_up, up_to_date_watched|]. unfold close. by destruct (closed c).
Qed.

Lemma parse_frames_keeps f c : closed c = false → keeps f c (parse_frames deliver c).
Proof.
  intros Ho. destruct (parse_loop_sound (S (length c.(read_buffer_))) c Ho ltac:(lia))
    as (ms & tl & _ & _ & Hcase).
  unfold parse_frames. rewrite foldl_emit in Hcase.
  destruct Hcase as [[-> _]|(what & n & ->)]; [done|].
  apply (fail_keeps f what (set_read_buffer (drop n tl) (mk _ _ _ _ _ _ _))).
Qed.

Lemma read_available_keeps f script c :
  closed c = false → keeps f c (read_available deliver script c).
Proof.
  revert c. induction script as [|r script IH]; intros c Ho; cbn; rewrite Ho;
    [by apply parse_frames_keeps|].
  destruct r; [|apply close_keeps|by apply IH|by apply parse_frames_keeps|apply fail_keeps].
  apply (IH (set_read_buffer _ c)). done.
Qed.

(** The connection's use by the program: [send], or a poll wake-up. *)
Inductive op :=
  | Op_send (m : T_Message)
  | Op_io (revents : Z) (recvs : list recv_result) (sends : list send_result).

(** A [send] on a closed connection throws and changes nothing. *)
Definition run_op (c : t) (o : op) : t :=
  match o with
  | Op_send m => match send m c with Ret c' => c' | Throw _ => c end
  | Op_io revents recvs sends => handle_io deliver revents recvs sends c
  end.

Definition accepted (c : t) (o : op) : list T_Message :=
  match o with Op_send m => if closed c then [] else [m] | _ => [] end.

Fixpoint run_ops (c : t) (ms : list T_Message) (ops : list op) : t * list T_Message :=
  match ops with
  | [] => (c, ms)
  | o :: ops => run_ops (run_op c o) (ms ++ accepted c o) ops
  end.

Definition write_inv (f : Z) (c : t) (ms : list T_Message) : Prop :=
  up_to_date f c ∧ partial_ok c.(write_queue_) ∧
  c.(sent_) ++ pending c.(write_queue_) = frames ms.

Lemma keeps_inv f c c' ms : keeps f c c' → write_inv f c ms → write_inv f c' ms.
Proof. intros (Hu & Hq & Hs) (Hi1 & Hi2 & Hi3). unfold write_inv. rewrite Hq, Hs. auto. Qed.

Lemma start_inv f max loop c c' :
  create f max = Ret c → start loop c = Ret c' → write_inv f c' [].
Proof.
  unfold create. destruct (Z.ltb_spec f 0) as [|Hf]; [done|]. intros [= <-].
  unfold start, closed. cbn [fd_]. destruct (Z.ltb_spec f 0) as [|_]; [lia|].
  destruct (events_of_watch f EventLoop.POLLIN tt loop Hf) as (l' & -> & Hev).
  intros [= <-]. split; [|split].
  - apply update_watch_up. exists l'. split; [done|]. cbn.
    unfold closed. cbn. destruct (Z.ltb_spec f 0); [lia|]. eauto.
  - unfold update_watch. destruct (closed _); constructor.
  - unfold update_watch. by destruct (closed _).
Qed.

Lemma send_inv f c m ms :
  write_inv f c ms → write_inv f (run_op c (Op_send m)) (ms ++ accepted c (Op_send m)).
Proof.
  intros (Hu & Hq & Hs). cbn. unfold send. destruct (closed c) eqn:Ho.
  { by rewrite app_nil_r. }
  set (c1 := set_write_queue (c.(write_queue_) ++ [PendingWrite.mk (encode_frame m) 0]) c).
  assert (watched f c1) as Hw by (apply (up_to_date_watched f c Hu)).
  assert ((update_watch c1).(write_queue_) = c1.(write_queue_) ∧
    (update_watch c1).(sent_) = c1.(sent_)) as [Eq Es].
  { unfold update_watch. by destruct (closed c1), (loop_ c1). }
  split; [by apply update_watch_up|]. rewrite Eq, Es. subst c1. cbn [write_queue_ sent_ set_write_queue]. split.
  - apply Forall_app. split; [done|]. constructor; [|constructor]. cbn.
    pose proof (encode_frame_len m) as Hl. pose proof (zlen_nonneg (encode_body m)).
    unfold zlen, kFrameHeaderLen in *. lia.
  - rewrite pending_app, app_assoc, Hs. cbn. rewrite drop_0.
    unfold frames. rewrite fmap_app, concat_app. cbn. by rewrite app_nil_r.
Qed.

Lemma handle_io_inv f c revents recvs sends ms :
  write_inv f c ms → write_inv f (handle_io deliver revents recvs sends c) ms.
Proof.
  intros Hi. unfold handle_io. destruct (closed c) eqn:Ho; [done|].
  assert (∀ c1, write_inv f c1 ms →
    write_inv f (if negb (closed c1) && has_flag revents EventLoop.POLLOUT
                 then flush_writes sends c1 else c1) ms) as Hflush.
  { intros c1 (Hu & Hq & Hs). destruct (closed c1) eqn:Ho1; [done|]. cbn.
    destruct (has_flag _ _); [|done].
    destruct (flush_writes_spec f sends c1) as (H1 & H2 & H3);
      [by apply up_to_date_watched|done..|].
    split_and!; [done..|]. by rewrite H3. }
  assert (∀ c1 b, write_inv f c1 ms → write_inv f (if b : bool then fail "TCP connection error" c1 else c1) ms)
    as Hfail by (intros c1 [] ?; [by eapply keeps_inv; [apply fail_keeps|]|done]).
  assert (∀ c1 b, write_inv f c1 ms → write_inv f (if b : bool then close c1 else c1) ms)
    as Hclose by (intros c1 [] ?; [by eapply keeps_inv; [apply close_keeps|]|done]).
  apply Hclose, Hfail, Hflush.
  destruct (has_flag revents EventLoop.POLLIN); [|done].
  eapply keeps_inv; [by apply read_available_keeps|done].
Qed.
End WriteFacts.
Import WriteFacts.

(** C33: the write side, over any sequence of [send]s and poll wake-ups with any
    kernel answers (short writes, [EINTR], [EAGAIN], errors, hang-ups) from a
    started connection: the bytes handed to the kernel followed by the bytes
    still queued are exactly the frames of the accepted messages in order; and
    while it is open [poll] is asked for [POLLOUT] exactly when something is
    queued, whereas a closed connection is no longer watched. *)
Theorem write_queue_correct f max loop c c0 ops :
  create f max = Ret c → start loop c = Ret c0 →
  let '(c', ms) := run_ops c0 [] ops in
  c'.(sent_) ++ pending c'.(write_queue_) = frames ms ∧ up_to_date f c'.
Proof.
  intros Hc Hs. pose proof (start_inv f max loop c c0 Hc Hs) as Hi. clear Hc Hs c.
  revert c0 Hi. generalize (@nil T_Message).
  induction ops as [|o ops IH]; intros ms c Hi; cbn.
  - by destruct Hi as (? & ? & ?).
  - apply IH. destruct o; [by apply send_inv|].
    cbn [accepted]. rewrite app_nil_r. by apply handle_io_inv.
Qed.

Lemma write_queue_correct_witness :
  let loop := EventLoop.mk unit false 1 [] [] in
  let ops := [Op_send sample_nack; Op_io EventLoop.POLLOUT [] [Sent 6; Send_eagain];
              Op_send sample_nack] in
  ∃ c c0, create 5 1024 = Ret c ∧ start loop c = Ret c0 ∧
  let '(c', ms) := run_ops c0 [] ops in
  c'.(sent_) ++ pending c'.(write_queue_) = frames ms ∧ up_to_date 5 c'.
Proof.
  eexists _, _. split; [reflexivity|]. split; [reflexivity|].
  apply (write_queue_correct 5 1024 (EventLoop.mk unit false 1 [] [])
    (mk 5 1024 None [] [] [] [])); reflexivity.
Defined.
