(* ===== verification/AsyncLoop.v ===== *)
(** * The poll loop: [EventLoop::run] of [src/network/yisync_async.cpp]

    [EventLoop] of [Framing] models the tables of watchers and timers; this file
    the loop that polls the descriptors, runs the callbacks of those that are
    ready and of the timers that are due, and ends once it is stopped or has
    nothing to wait for; then the listener and the connector that run on it.
    What the kernel answers to a call, and the clock, are arguments. *)
From S2P Require Import Prelude Hoare Framing.

#[local] Open Scope Z_scope.

(** [static_cast<int>] of a 64-bit value. *)
Definition s32 (x : Z) : Z := (x + 2147483648) mod 4294967296 - 2147483648.

(** ** The loop *)
Module LoopRun.

(** What [poll] answers: the call was interrupted, failed, or returned the
    events of each descriptor it was asked for (none of them at a timeout). *)
Inductive poll_answer :=
  | Poll_eintr
  | Poll_error (what : string)
  | Poll_ready (revents : list Z).

(** One turn: the clock before [poll], its answer to the descriptors and the
    timeout it is given, and the clock after the callbacks of the descriptors. *)
Record turn := mk_turn { before : Z; answer : list (Z * Z) → Z → poll_answer; after : Z }.

Section run.
Context {CB W : Type}.

(** What was done, latest last: a timer registered, the callback of a timer
    run at a time, that of a descriptor run, the loop stopped. *)
Inductive entry :=
  | Registered (x : EventLoop.Timer CB)
  | Fired (x : EventLoop.Timer CB) (now : Z)
  | Ready (fd revents : Z)
  | Stopped.

(** The loop and the rest of the program; [log_] is what was done. *)
Record t := mk { loop_ : EventLoop.t CB; log_ : list entry; world_ : W }.
Definition set_loop (l : EventLoop.t CB) (s : t) : t := mk l s.(log_) s.(world_).
Definition set_world (w : W) (s : t) : t := mk s.(loop_) s.(log_) w.
Definition note (e : entry) (s : t) : t := mk s.(loop_) (s.(log_) ++ [e]) s.(world_).

(** *** What a callback may do to the loop *)
Definition call_later (now delay : Z) (cb : CB) (s : t) : t :=
  note (Registered (EventLoop.mkTimer CB s.(loop_).(EventLoop.next_timer_id_) (now + delay * 1000000) cb))
    (set_loop (EventLoop.call_later now delay cb s.(loop_)) s).
Definition stop (s : t) : t := note Stopped (set_loop (EventLoop.stop s.(loop_)) s).

Inductive calls : t → t → Prop :=
  | Calls_world w s : calls s (set_world w s)
  | Calls_later now delay cb s : calls s (call_later now delay cb s)
  | Calls_watch f events cb l s : EventLoop.watch_fd f events cb s.(loop_) = (Ret tt, l) → calls s (set_loop l s)
  | Calls_update f events s : calls s (set_loop (EventLoop.update_fd f events s.(loop_)) s)
  | Calls_unwatch f s : calls s (set_loop (EventLoop.unwatch_fd f s.(loop_)) s)
  | Calls_stop s : calls s (stop s).

(** *** [run] *)
Context (io_callback : CB → Z → M t unit) (timer_callback : CB → M t unit).

(** [std::min_element] of the deadlines. *)
Definition nearest (x : EventLoop.Timer CB) (timers : list (EventLoop.Timer CB)) : Z :=
  foldl (λ d y, if EventLoop.deadline y <? d then EventLoop.deadline y else d) (EventLoop.deadline x) timers.

Definition timeout_ms (now : Z) (l : EventLoop.t CB) : Z :=
  match l.(EventLoop.timers_) with
  | [] => -1
  | x :: timers => s32 (Z.max 0 (Z.quot (nearest x timers - now) 1000000))
  end.

Definition poll_fds (l : EventLoop.t CB) : list (Z * Z) :=
  (λ w, (EventLoop.fd w, EventLoop.events w)) <$> l.(EventLoop.watchers_).

(** The callbacks of the descriptors that are ready. *)
Fixpoint dispatch (fds : list (Z * Z)) : M t unit :=
  match fds with
  | [] => mret tt
  | (fd, revents) :: fds =>
      s ← get;
      (if (revents =? 0) || s.(loop_).(EventLoop.stopped_) then mret tt
       else match list_find (λ w, EventLoop.fd w = fd) s.(loop_).(EventLoop.watchers_) with
            | Some (_, w) => modify (note (Ready fd revents));; io_callback w.(EventLoop.callback) revents
            | None => mret tt
            end);;
      dispatch fds
  end.

Fixpoint run_due (now : Z) (due : list (EventLoop.Timer CB)) : M t unit :=
  match due with
  | [] => mret tt
  | x :: due =>
      s ← get;
      if s.(loop_).(EventLoop.stopped_) then mret tt
      else modify (note (Fired x now));; timer_callback x.(EventLoop.timer_callback);; run_due now due
  end.

(** The end of a turn, with the clock at [now]. *)
Definition fire (now : Z) : M t unit :=
  s ← get;
  let '(due, l) := EventLoop.take_due now s.(loop_) in
  modify (set_loop l);; run_due now due.

(** [Finished]: [run] has returned; [Polling]: it is in its next [poll]. *)
Inductive outcome := Finished | Polling.

Fixpoint turns (script : list turn) : M t outcome :=
  s ← get;
  let l := s.(loop_) in
  if l.(EventLoop.stopped_) || bool_decide (length l.(EventLoop.watchers_) = 0 ∧ length l.(EventLoop.timers_) = 0)%nat
  then mret Finished
  else match script with
       | [] => mret Polling
       | k :: script =>
           match k.(answer) (poll_fds l) (timeout_ms k.(before) l) with
           | Poll_eintr => turns script
           | Poll_error what => throw ("poll: " +:+ what)
           | Poll_ready revents =>
               dispatch (zip (poll_fds l).*1 revents);;
               fire k.(after);;
               turns script
           end
       end.

Definition run (script : list turn) : M t outcome :=
  modify (λ s, set_loop (EventLoop.mk CB false s.(loop_).(EventLoop.next_timer_id_) s.(loop_).(EventLoop.watchers_)
                           s.(loop_).(EventLoop.timers_)) s);;
  turns script.
End run.
Arguments t : clear implicits.
Arguments entry : clear implicits.

(** The program that runs on the loop: its callbacks reach the loop through
    its operations only. *)
Class LoopClient {CB W} (io_callback : CB → Z → M (t CB W) unit) (timer_callback : CB → M (t CB W) unit) := {
  io_calls cb revents s r s' : io_callback cb revents s = (r, s') → rtc calls s s';
  timer_calls cb s r s' : timer_callback cb s = (r, s') → rtc calls s s'
}.
End LoopRun.

(** ** What a run of the loop keeps *)
Module LoopFacts.
Import LoopRun.

Section facts.
Context {CB W : Type}.
Implicit Types (s : t CB W) (x : EventLoop.Timer CB).

Definition registered (log : list (entry CB)) : list (EventLoop.Timer CB) :=
  omap (λ e, match e with Registered x => Some x | _ => None end) log.
Definition fired (log : list (entry CB)) : list (EventLoop.Timer CB) :=
  omap (λ e, match e with Fired x _ => Some x | _ => None end) log.

(** No callback was run after the loop was stopped. *)
Definition is_call (e : entry CB) : Prop := match e with Fired _ _ | Ready _ _ => False | _ => True end.
Definition quiet (log : list (entry CB)) : Prop :=
  ∀ before after, log = before ++ Stopped :: after → Forall is_call after.

Definition on_time (e : entry CB) : Prop :=
  match e with Fired x now => EventLoop.deadline x ≤ now | _ => True end.

(** [due] are the timers taken out of the loop that have not been run. *)
Record Inv (due : list (EventLoop.Timer CB)) s : Prop := {
  accounted : registered s.(log_) ≡ₚ fired s.(log_) ++ due ++ s.(loop_).(EventLoop.timers_);
  timely : Forall on_time s.(log_);
  stop_noted : Stopped ∈ s.(log_) → s.(loop_).(EventLoop.stopped_) = true;
  stop_quiet : quiet s.(log_)
}.

Lemma registered_app log e : registered (log ++ [e]) = registered log ++ registered [e].
Proof. apply omap_app. Qed.
Lemma fired_app log e : fired (log ++ [e]) = fired log ++ fired [e].
Proof. apply omap_app. Qed.

Lemma quiet_call log e : is_call e → quiet log → quiet (log ++ [e]).
Proof.
  intros He Hq bef aft E. destruct aft as [|a aft _] using rev_ind; [constructor|].
  rewrite app_comm_cons, app_assoc in E. apply app_inj_tail in E as [-> ->].
  apply Forall_app. split; [by apply (Hq bef)|by constructor].
Qed.

Lemma quiet_running log e : Stopped ∉ log → quiet log → quiet (log ++ [e]).
Proof.
  intros Hn Hq bef aft E. destruct aft as [|a aft _] using rev_ind; [constructor|].
  rewrite app_comm_cons, app_assoc in E. apply app_inj_tail in E as [-> ->].
  destruct Hn. apply elem_of_app. right. left.
Qed.

Lemma elem_of_snoc {A} (l : list A) a b : a ∈ l ++ [b] ↔ a ∈ l ∨ a = b.
Proof. rewrite elem_of_app, list_elem_of_singleton. done. Qed.

(** *** The callbacks' calls *)
Lemma calls_inv due s s' : calls s s' → Inv due s → Inv due s'.
Proof.
  intros Hc [Ha Ht Hs Hq]. destruct Hc as [w s|now delay cb s|f ev cb l s Hw|f ev s|f s|s].
  - by constructor.
  - constructor; cbn [log_ loop_ call_later note set_loop].
    + rewrite registered_app, fired_app, Ha. cbn. rewrite app_nil_r, !app_assoc. done.
    + apply Forall_app. split; [done|by constructor].
    + intros [H|H]%elem_of_snoc; [by apply Hs|done].
    + by apply quiet_call.
  - unfold EventLoop.watch_fd in Hw. destruct (f <? 0); [done|]. injection Hw as <-. by constructor.
  - by constructor.
  - by constructor.
  - constructor; cbn [log_ loop_ stop note set_loop].
    + rewrite registered_app, fired_app, Ha. cbn. by rewrite !app_nil_r.
    + apply Forall_app. split; [done|by constructor].
    + done.
    + by apply quiet_call.
Qed.

Lemma rtc_calls_inv due s s' : rtc calls s s' → Inv due s → Inv due s'.
Proof. induction 1; eauto using calls_inv. Qed.

(** A timer stays until it is due, and a stopped loop stays stopped. *)
Lemma calls_mono s s' : calls s s' →
  s.(loop_).(EventLoop.timers_) ⊆ s'.(loop_).(EventLoop.timers_) ∧
  (s.(loop_).(EventLoop.stopped_) = true → s'.(loop_).(EventLoop.stopped_) = true).
Proof.
  intros Hc. destruct Hc as [w s|now delay cb s|f ev cb l s Hw|f ev s|f s|s]; [done| | |done..].
  - split; [|done]. cbn. apply list_subseteq_app_l. done.
  - unfold EventLoop.watch_fd in Hw. destruct (f <? 0); [done|]. by injection Hw as <-.
Qed.

Lemma rtc_calls_mono s s' : rtc calls s s' →
  s.(loop_).(EventLoop.timers_) ⊆ s'.(loop_).(EventLoop.timers_) ∧
  (s.(loop_).(EventLoop.stopped_) = true → s'.(loop_).(EventLoop.stopped_) = true).
Proof.
  induction 1 as [|s1 s2 s3 H1 _ [IH1 IH2]]; [done|]. destruct (calls_mono _ _ H1) as [H2 H3].
  split; [by etrans|auto].
Qed.

Lemma take_due_inv now s due l :
  EventLoop.take_due now s.(loop_) = (due, l) → Inv [] s → Inv due (set_loop l s).
Proof.
  intros [= <- <-] [Ha Ht Hs Hq]. constructor; cbn; [|done..].
  rewrite Ha. cbn. apply Permutation_app_head. rewrite filter_app_complement. done.
Qed.

Context (io_callback : CB → Z → M (t CB W) unit) (timer_callback : CB → M (t CB W) unit).
Context `{!LoopClient io_callback timer_callback}.

Lemma dispatch_calls fds due s r s' :
  dispatch io_callback fds s = (r, s') → Inv due s → Inv due s'.
Proof.
  revert s. induction fds as [|[f revents] fds IH]; intros s Hr HI.
  { injection Hr as <- <-. done. }
  cbn [dispatch] in Hr. rewrite (bind_ret get _ s s s eq_refl) in Hr.
  destruct ((revents =? 0) || s.(loop_).(EventLoop.stopped_)) eqn:Hb.
  { rewrite (bind_ret (mret tt) _ s tt s eq_refl) in Hr. by apply (IH s). }
  apply orb_false_iff in Hb as [_ Hstop].
  destruct (list_find _ _) as [[i w]|].
  2:{ rewrite (bind_ret (mret tt) _ s tt s eq_refl) in Hr. by apply (IH s). }
  assert (Inv due (note (Ready f revents) s)) as HI1.
  { destruct HI as [Ha Ht Hs Hq]. constructor; cbn.
    - rewrite registered_app, fired_app, Ha. cbn. by rewrite !app_nil_r.
    - apply Forall_app. split; [done|by constructor].
    - intros [H|H]%elem_of_snoc; [by apply Hs|done].
    - apply quiet_running; [intros H; apply Hs in H; congruence|done]. }
  apply bind_cases in Hr as [(u & s1 & Hm & Hr)|(e & Hm & ->)];
    rewrite (bind_ret (modify _) _ s tt (note (Ready f revents) s) eq_refl) in Hm;
    apply io_calls in Hm.
  - apply (IH s1 Hr). by eapply rtc_calls_inv.
  - by eapply rtc_calls_inv.
Qed.

Lemma fired_inv x now due s :
  s.(loop_).(EventLoop.stopped_) = false → EventLoop.deadline x ≤ now → Inv (x :: due) s →
  Inv due (note (Fired x now) s).
Proof.
  intros Hstop Hx [Ha Ht Hs Hq]. constructor; cbn.
  - rewrite registered_app, fired_app, Ha. cbn. rewrite app_nil_r, <- app_assoc. done.
  - apply Forall_app. split; [done|by constructor].
  - intros [H|H]%elem_of_snoc; [by apply Hs|done].
  - apply quiet_running; [intros H; apply Hs in H; congruence|done].
Qed.

Lemma run_due_inv now due s r s' :
  Forall (λ x, EventLoop.deadline x ≤ now) due → run_due timer_callback now due s = (r, s') → Inv due s →
  ∃ lost, Inv lost s' ∧ (r = Ret tt → lost = [] ∨ s'.(loop_).(EventLoop.stopped_) = true).
Proof.
  intros Hd. revert s. induction Hd as [|x due Hx Hd IH]; intros s Hr HI.
  { injection Hr as <- <-. exists []. auto. }
  cbn [run_due] in Hr. rewrite (bind_ret get _ s s s eq_refl) in Hr.
  destruct (s.(loop_).(EventLoop.stopped_)) eqn:Hstop.
  { injection Hr as <- <-. exists (x :: due). auto. }
  rewrite (bind_ret (modify _) _ s tt (note (Fired x now) s) eq_refl) in Hr.
  pose proof (fired_inv x now due s Hstop Hx HI) as HI1.
  apply bind_cases in Hr as [([] & s1 & Hm & Hr)|(e & Hm & ->)]; apply timer_calls in Hm.
  - apply (IH s1 Hr). by eapply rtc_calls_inv.
  - exists due. split; [by eapply rtc_calls_inv|done].
Qed.

Lemma take_due_on_time now (l : EventLoop.t CB) :
  Forall (λ x, EventLoop.deadline x ≤ now) (EventLoop.take_due now l).1.
Proof. apply Forall_forall. intros x. cbn. rewrite list_elem_of_filter. by intros [? _]. Qed.

Lemma fire_inv now s r s' :
  fire timer_callback now s = (r, s') → Inv [] s →
  ∃ lost, Inv lost s' ∧ (r = Ret tt → lost = [] ∨ s'.(loop_).(EventLoop.stopped_) = true).
Proof.
  intros Hr HI. unfold fire in Hr. rewrite (bind_ret get _ s s s eq_refl) in Hr.
  destruct (EventLoop.take_due now s.(loop_)) as [due l] eqn:E.
  rewrite (bind_ret (modify _) _ s tt (set_loop l s) eq_refl) in Hr.
  apply (run_due_inv now due (set_loop l s) r s'); [|done|by eapply take_due_inv].
  pose proof (take_due_on_time now s.(loop_)) as H. by rewrite E in H.
Qed.

Lemma turns_stopped script s :
  s.(loop_).(EventLoop.stopped_) = true → turns io_callback timer_callback script s = (Ret Finished, s).
Proof. intros Hs. destruct script; cbn [turns]; rewrite (bind_ret get _ s s s eq_refl), Hs; done. Qed.

Lemma turns_inv script s r s' :
  turns io_callback timer_callback script s = (r, s') → Inv [] s →
  ∃ lost, Inv lost s' ∧
    (∀ o, r = Ret o → lost = [] ∨ o = Finished ∧ s'.(loop_).(EventLoop.stopped_) = true).
Proof.
  revert s. induction script as [|k script IH]; intros s Hr HI; cbn [turns] in Hr;
    rewrite (bind_ret get _ s s s eq_refl) in Hr; destruct (orb _ _) eqn:Hend.
  1,3: injection Hr as <- <-; exists []; eauto.
  { injection Hr as <- <-. exists []. eauto. }
  destruct (answer k _ _) as [|what|revents].
  - by apply (IH s).
  - injection Hr as <- <-. exists []. eauto.
  - apply bind_cases in Hr as [([] & s1 & Hm & Hr)|(e & Hm & ->)].
    2:{ exists []. split; [by eapply dispatch_calls|done]. }
    apply dispatch_calls with (due := []) in Hm; [|done].
    apply bind_cases in Hr as [([] & s2 & Hf & Hr)|(e & Hf & ->)];
      destruct (fire_inv _ _ _ _ Hf Hm) as (lost & HI2 & Hl).
    2:{ by exists lost. }
    destruct (Hl eq_refl) as [->|Hstop]; [by apply (IH s2)|].
    rewrite turns_stopped in Hr by done. injection Hr as <- <-. exists lost.
    split; [done|]. intros o [= <-]. auto.
Qed.

(** *** A timer that ends the run *)
Context (J : W → bool → Prop).
Definition holds s : Prop := J s.(world_) s.(loop_).(EventLoop.stopped_).
Context (J_io : ∀ cb revents, triple holds (io_callback cb revents) (λ _, holds) (λ _, True)).
Context (J_timer : ∀ cb, triple holds (timer_callback cb) (λ _, holds) (λ _, True)).

(** The callback of [x] stops the loop. *)
Definition ends x : Prop := ∀ s s',
  holds s → timer_callback x.(EventLoop.timer_callback) s = (Ret tt, s') → s'.(loop_).(EventLoop.stopped_) = true.

Lemma dispatch_keeps x fds s s' :
  dispatch io_callback fds s = (Ret tt, s') → holds s → x ∈ s.(loop_).(EventLoop.timers_) →
  holds s' ∧ x ∈ s'.(loop_).(EventLoop.timers_).
Proof.
  revert s. induction fds as [|[f revents] fds IH]; intros s Hr Hh Hx.
  { by injection Hr as <-. }
  cbn [dispatch] in Hr. rewrite (bind_ret get _ s s s eq_refl) in Hr.
  apply M_bind_inv in Hr as ([] & s1 & Hm & Hr).
  assert (holds s1 ∧ x ∈ s1.(loop_).(EventLoop.timers_)) as [Hh1 Hx1]; [|by apply (IH s1)].
  destruct (_ || _); [by injection Hm as <-|].
  destruct (list_find _ _) as [[i w]|]; [|by injection Hm as <-].
  rewrite (bind_ret (modify _) _ s tt (note (Ready f revents) s) eq_refl) in Hm. split.
  - exact (J_io _ _ (note (Ready f revents) s) _ _ Hh Hm).
  - apply io_calls in Hm. by apply (rtc_calls_mono (note (Ready f revents) s) s1 Hm).
Qed.

Lemma run_due_ends x now due s s' :
  ends x → holds s → x ∈ due → run_due timer_callback now due s = (Ret tt, s') →
  s'.(loop_).(EventLoop.stopped_) = true.
Proof.
  intros He. revert s. induction due as [|y due IH]; intros s Hh Hx Hr; [by apply not_elem_of_nil in Hx|].
  cbn [run_due] in Hr. rewrite (bind_ret get _ s s s eq_refl) in Hr.
  destruct (s.(loop_).(EventLoop.stopped_)) eqn:Hstop; [by injection Hr as <-|].
  rewrite (bind_ret (modify _) _ s tt (note (Fired y now) s) eq_refl) in Hr.
  apply M_bind_inv in Hr as ([] & s1 & Hm & Hr).
  assert (holds (note (Fired y now) s)) as Hh0 by done.
  assert (holds s1) as Hh1 by exact (J_timer _ _ _ _ Hh0 Hm).
  apply elem_of_cons in Hx as [->|Hx]; [|by apply (IH s1)].
  apply (He _ _ Hh0) in Hm. destruct due as [|z due]; cbn [run_due] in Hr; [by injection Hr as <-|].
  rewrite (bind_ret get _ s1 s1 s1 eq_refl), Hm in Hr. by injection Hr as <-.
Qed.

Lemma run_due_keeps x now due s s' :
  run_due timer_callback now due s = (Ret tt, s') → holds s → x ∈ s.(loop_).(EventLoop.timers_) →
  holds s' ∧ x ∈ s'.(loop_).(EventLoop.timers_).
Proof.
  revert s. induction due as [|y due IH]; intros s Hr Hh Hx.
  { by injection Hr as <-. }
  cbn [run_due] in Hr. rewrite (bind_ret get _ s s s eq_refl) in Hr.
  destruct (s.(loop_).(EventLoop.stopped_)) eqn:Hstop; [by injection Hr as <-|].
  rewrite (bind_ret (modify _) _ s tt (note (Fired y now) s) eq_refl) in Hr.
  apply M_bind_inv in Hr as ([] & s1 & Hm & Hr). apply (IH s1); [done| |].
  - exact (J_timer _ (note (Fired y now) s) _ _ Hh Hm).
  - apply timer_calls in Hm. by apply (rtc_calls_mono (note (Fired y now) s) s1 Hm).
Qed.

(** A turn whose clock reaches the deadline, and whose [poll] is not interrupted. *)
Definition reaches (deadline : Z) (k : turn) : Prop :=
  (∀ fds timeout, k.(answer) fds timeout ≠ Poll_eintr) ∧ deadline ≤ k.(after).

Lemma turns_end x script s :
  ends x → holds s → x ∈ s.(loop_).(EventLoop.timers_) → Exists (reaches x.(EventLoop.deadline)) script →
  (turns io_callback timer_callback script s).1 ≠ Ret Polling.
Proof.
  intros He. revert s. induction script as [|k script IH]; intros s Hh Hx Hscript.
  { by apply Exists_nil in Hscript. }
  cbn [turns]. rewrite (bind_ret get _ s s s eq_refl). destruct (orb _ _); [done|].
  destruct (answer k _ _) as [|what|revents] eqn:Ek.
  - apply IH; [done..|]. apply Exists_cons in Hscript as [[Hk _]|H]; [by apply Hk in Ek|done].
  - done.
  - destruct (dispatch io_callback (zip (poll_fds s.(loop_)).*1 revents) s) as [[[]|e] s1] eqn:Ed; [|by erewrite bind_throw].
    erewrite bind_ret by done. destruct (dispatch_keeps x _ _ _ Ed Hh Hx) as [Hh1 Hx1].
    destruct (fire timer_callback (after k) s1) as [[[]|e] s2] eqn:Ef; [|by erewrite bind_throw].
    erewrite bind_ret by done. unfold fire in Ef. rewrite (bind_ret get _ s1 s1 s1 eq_refl) in Ef.
    cbn [EventLoop.take_due] in Ef.
    rewrite (bind_ret (modify _) _ s1 tt (set_loop (EventLoop.take_due (after k) s1.(loop_)).2 s1) eq_refl) in Ef.
    destruct (decide (EventLoop.deadline x ≤ after k)) as [Hdue|Hdue].
    + rewrite turns_stopped; [done|]. refine (run_due_ends x _ _ _ _ He _ _ Ef); [done|].
      by apply list_elem_of_filter.
    + apply Exists_cons in Hscript as [[_ Hk]|Hscript]; [done|].
      eapply run_due_keeps in Ef as [Hh2 Hx2]; [by apply IH|done|]. cbn. by apply list_elem_of_filter.
Qed.
End facts.
End LoopFacts.

(** ** How long [poll] may wait *)
Module TimeoutFacts.
Import LoopRun.
Section timeout.
Context {CB : Type}.
Implicit Types (x : EventLoop.Timer CB) (timers : list (EventLoop.Timer CB)).

Lemma nearest_spec x timers :
  (∃ y, y ∈ x :: timers ∧ nearest x timers = EventLoop.deadline y) ∧
  Forall (λ y, nearest x timers ≤ EventLoop.deadline y) (x :: timers).
Proof.
  unfold nearest. assert (∀ d, (foldl (λ d y, if EventLoop.deadline y <? d then EventLoop.deadline y else d) d timers = d ∨
    ∃ y, y ∈ timers ∧ foldl (λ d y, if EventLoop.deadline y <? d then EventLoop.deadline y else d) d timers =
      EventLoop.deadline y) ∧
    foldl (λ d y, if EventLoop.deadline y <? d then EventLoop.deadline y else d) d timers ≤ d ∧
    Forall (λ y, foldl (λ d y, if EventLoop.deadline y <? d then EventLoop.deadline y else d) d timers ≤
      EventLoop.deadline y) timers) as H.
  { induction timers as [|y timers IH]; intros d; cbn; [split; [by left|]; split; [lia|constructor]|].
    destruct (Z.ltb_spec (EventLoop.deadline y) d).
    - destruct (IH (EventLoop.deadline y)) as (H1 & H2 & H3). split; [right|split; [lia|by constructor]].
      destruct H1 as [->|(z & Hz & ->)]; [exists y; split; [by left|done]|exists z; split; [by right|done]].
    - destruct (IH d) as (H1 & H2 & H3). split; [|split; [lia|constructor; [lia|done]]].
      destruct H1 as [->|(z & Hz & Hez)]; [by left|]. right. exists z. split; [by right|done]. }
  destruct (H (EventLoop.deadline x)) as (H1 & H2 & H3). split; [|by constructor].
  destruct H1 as [->|(y & Hy & ->)]; [exists x; split; [by left|done]|exists y; split; [by right|done]].
Qed.

(** [poll] never waits past a deadline that is less than 2^31 milliseconds
    away: it wakes at most a millisecond early. *)
Lemma timeout_ms_bounds (l : EventLoop.t CB) x now :
  x ∈ l.(EventLoop.timers_) → Forall (λ y, EventLoop.deadline y < now + 2147483648 * 1000000) l.(EventLoop.timers_) →
  0 ≤ timeout_ms now l ∧ (now ≤ EventLoop.deadline x → now + timeout_ms now l * 1000000 ≤ EventLoop.deadline x).
Proof.
  unfold timeout_ms. destruct (EventLoop.timers_ l) as [|y timers]; [by intros ?%not_elem_of_nil|].
  intros Hx Hfar. destruct (nearest_spec y timers) as [(z & Hz & Ez) Hle].
  rewrite Forall_forall in Hfar, Hle. specialize (Hfar z Hz). specialize (Hle x Hx). rewrite <- Ez in Hfar.
  set (d := nearest y timers) in *. unfold s32.
  assert (0 ≤ Z.max 0 (Z.quot (d - now) 1000000) < 2147483648 ∧
    (now ≤ d → Z.max 0 (Z.quot (d - now) 1000000) * 1000000 ≤ d - now) ∧
    (d < now → Z.max 0 (Z.quot (d - now) 1000000) = 0)) as (H1 & H2 & H3).
  { Z.to_euclidean_division_equations. lia. }
  rewrite Z.mod_small by lia. split; [lia|]. intros Hn. destruct (Z.le_gt_cases now d); [|rewrite H3 by lia]; lia.
Qed.

(** From 2^31 milliseconds on the cast to [int] wraps: a loop whose only timer
    is 25 days away asks [poll] to wait for ever. *)
Lemma timeout_wraps cb : timeout_ms 0 (EventLoop.call_later 0 (25 * 86400000) cb (EventLoop.mk CB false 1 [] [])) < 0.
Proof. by vm_compute. Qed.
End timeout.
End TimeoutFacts.
Import LoopRun LoopFacts.

(** C12: the loop runs the callback of every timer exactly once: after any run,
    with any client that reaches the loop through its operations and any answers
    of [poll], the timers registered so far are those that were fired and those
    that still wait; only once the loop was stopped, or an exception left it, may
    due timers have been dropped.  No timer is fired before its deadline, and
    once a callback has called [stop] no further callback runs. *)
Theorem timers_fire_once {CB W} (io_callback : CB → Z → M (LoopRun.t CB W) unit)
    (timer_callback : CB → M (LoopRun.t CB W) unit) `{!LoopClient io_callback timer_callback}
    (script : list turn) (s : LoopRun.t CB W) r s' :
  s.(log_) = Registered <$> s.(loop_).(EventLoop.timers_) →
  run io_callback timer_callback script s = (r, s') →
  ∃ lost, registered s'.(log_) ≡ₚ fired s'.(log_) ++ s'.(loop_).(EventLoop.timers_) ++ lost ∧
    (∀ o, r = Ret o → lost = [] ∨ o = Finished ∧ s'.(loop_).(EventLoop.stopped_) = true) ∧
    Forall on_time s'.(log_) ∧ quiet s'.(log_).
Proof.
  intros Hlog Hr. unfold run in Hr. erewrite bind_ret in Hr by done. cbv beta in Hr.
  assert (∀ ts : list (EventLoop.Timer CB), registered (Registered <$> ts) = ts ∧ fired (Registered <$> ts) = [] ∧
    Forall on_time (Registered <$> ts) ∧ Stopped ∉ Registered <$> ts) as Hts.
  { induction ts as [|x ts (IH1 & IH2 & IH3 & IH4)]; cbn; [split_and!; [done..|constructor|set_solver]|].
    split_and!; [by f_equal|done|by constructor|]. by apply not_elem_of_cons. }
  destruct (Hts s.(loop_).(EventLoop.timers_)) as (H1 & H2 & H3 & H4). rewrite <- Hlog in *.
  apply turns_inv in Hr as (lost & [Ha Ht Hs Hq] & Hl); [|done|].
  - exists lost. split; [by rewrite Ha, (Permutation_app_comm lost)|]. done.
  - constructor; [|exact H3|by intros ?%H4|].
    { change (registered s.(log_) ≡ₚ fired s.(log_) ++ [] ++ s.(loop_).(EventLoop.timers_)). by rewrite H1, H2. }
    intros bef aft E. change (s.(log_) = bef ++ Stopped :: aft) in E. destruct H4. rewrite E. apply elem_of_app. right. left.
Qed.

(** A client with two timers: one that comes back every 10 milliseconds until
    it has run three times and stops the loop, one that is due before. *)
Module Sample.
Inductive closure := Again (n : nat) | Once.
Definition io_callback (cb : closure) (revents : Z) : M (LoopRun.t closure Z) unit := mret tt.
Definition timer_callback (cb : closure) : M (LoopRun.t closure Z) unit :=
  match cb with
  | Again O => modify stop
  | Again (S n) => modify (λ s, call_later s.(world_) 10 (Again n) s)
  | Once => mret tt
  end.
#[export] Instance client : LoopClient io_callback timer_callback.
Proof.
  split; [intros cb revents s r s' [= <- <-]; apply rtc_refl|].
  intros [[|n]|] s r s' [= <- <-]; [apply rtc_once, Calls_stop|apply rtc_once, Calls_later|apply rtc_refl].
Qed.
Definition start : LoopRun.t closure Z :=
  call_later 0 5 Once (call_later 0 10 (Again 1) (LoopRun.mk (EventLoop.mk closure false 1 [] []) [] 10000000)).
Definition script : list turn :=
  [mk_turn 0 (λ _ _, Poll_ready []) 5000000; mk_turn 5000000 (λ _ _, Poll_eintr) 6000000;
   mk_turn 6000000 (λ _ _, Poll_ready []) 10000000; mk_turn 10000000 (λ _ _, Poll_ready []) 20000000].
End Sample.
Export (hints) Sample.

Lemma timers_fire_once_witness :
  let '(r, s') := run Sample.io_callback Sample.timer_callback Sample.script Sample.start in
  r = Ret Finished ∧ length (fired s'.(log_)) = 3%nat ∧
  ∃ lost, registered s'.(log_) ≡ₚ fired s'.(log_) ++ s'.(loop_).(EventLoop.timers_) ++ lost.
Proof.
  destruct (run _ _ _ _) as [r s'] eqn:E. pose proof E as E2. vm_compute in E2.
  apply (timers_fire_once Sample.io_callback Sample.timer_callback) in E as (lost & H & _); [|reflexivity].
  injection E2 as <- <-. split; [done|]. split; [done|]. exists lost. exact H.
Defined.
