(* ===== verification/Sockets.v ===== *)
(** * Sockets made on the loop: the rest of [src/network/yisync_async.cpp]

    [AsyncTcpListener] takes in the connections of the receiver's lines,
    [PendingTcpConnect] makes those of the sender's.  What the kernel answers to
    [socket], [bind], [connect], [accept] and [fcntl], and the addresses that the
    resolver finds, are arguments; the descriptors the program holds open are
    part of the state, so that a leak shows. *)
From S2P Require Import Prelude Hoare Framing.
#[local] Open Scope Z_scope.

(** [set_nonblocking]: it throws when [fcntl] fails. *)
Abbreviation fcntl_answer := (option string).
Definition set_nonblocking {S} (fcntl : fcntl_answer) : M S unit :=
  match fcntl with None => mret tt | Some what => throw what end.

(** The descriptors a process has open: [socket] and [accept] add one,
    [close] takes it away. *)
Definition close_fd (fd : Z) (open : list Z) : list Z := filter (λ f, f ≠ fd) open.

(** ** A listener *)
Module AsyncTcpListener.
(** [loop_] is the loop it was started on; [open_] the open descriptors. *)
Record t := mk { fd_ : Z; local_ : Endpoint.t; loop_ : option (EventLoop.t unit); open_ : list Z }.

Definition set_fd (fd : Z) (l : t) : t := mk fd l.(local_) l.(loop_) l.(open_).
Definition set_loop (loop : option (EventLoop.t unit)) (l : t) : t := mk l.(fd_) l.(local_) loop l.(open_).
Definition set_open (open : list Z) (l : t) : t := mk l.(fd_) l.(local_) l.(loop_) open.

(** The constructor. *)
Definition create (fd : Z) (local : Endpoint.t) (fcntl : fcntl_answer) (open : list Z) : exc t :=
  if fd <? 0 then Throw "invalid async listener fd"
  else match fcntl with
       | None => Ret (mk fd local None open)
       | Some what => Throw what
       end.

Definition local_endpoint (l : t) : Endpoint.t := l.(local_).
Definition closed (l : t) : bool := l.(fd_) <? 0.

Definition start (loop : EventLoop.t unit) : M t unit :=
  l ← get;
  match EventLoop.watch_fd l.(fd_) EventLoop.POLLIN tt loop with
  | (Ret _, loop) => put (set_loop (Some loop) l)
  | (Throw e, _) => throw e
  end.

Definition close : M t unit :=
  modify (λ l,
    if closed l then l
    else
      let l := set_loop (EventLoop.unwatch_fd l.(fd_) <$> l.(loop_)) l in
      set_fd (-1) (set_open (close_fd l.(fd_) l.(open_)) l)).

(** What [accept] answers; a peer of an unknown family has no endpoint. *)
Inductive accept_answer :=
  | Accepted (client_fd : Z) (fcntl : fcntl_answer) (peer : option Endpoint.t)
  | Accept_eintr
  | Accept_eagain
  | Accept_error.

Section handle.
(** The client's callback, when it gave one; it may close the listener. *)
Context (accept_callback_ : option (Z → Endpoint.t → M t unit)).

(** The [while] of [handle_io], while the kernel has answers. *)
Fixpoint accept_all (script : list accept_answer) : M t unit :=
  l ← get;
  if closed l then mret tt
  else match script with
       | [] | Accept_eagain :: _ => mret tt
       | Accept_eintr :: script => accept_all script
       | Accept_error :: _ => close
       | Accepted client_fd fcntl peer :: script =>
           put (set_open (client_fd :: l.(open_)) l);;
           set_nonblocking fcntl;;
           match accept_callback_ with
           | Some callback =>
               match peer with
               | Some peer => callback client_fd peer
               | None => throw "unsupported socket address family"
               end
           | None => modify (λ l, set_open (close_fd client_fd l.(open_)) l)
           end;;
           accept_all script
       end.

Definition handle_io (revents : Z) (script : list accept_answer) : M t unit :=
  l ← get;
  if closed l then mret tt
  else if AsyncFrameConnection.has_flag revents (Z.lor EventLoop.POLLERR EventLoop.POLLNVAL) then close
  else if negb (AsyncFrameConnection.has_flag revents EventLoop.POLLIN) then mret tt
  else accept_all script.
End handle.

(** What the kernel answers for one of the addresses of [listen_async_tcp]:
    the descriptor (negative when there is none), then [fcntl], [bind],
    [listen], [getsockname], and [fcntl] again for the listener. *)
Record bind_answer := mk_bind {
  socket : Z; socket_fcntl : fcntl_answer; bind_ok : bool; listen_ok : bool; name : exc Endpoint.t;
  listener_fcntl : fcntl_answer
}.

(** [listen_async_tcp]; [errno] is the reason of the last failure.  The
    descriptors that are open go along. *)
Fixpoint listen_on (addresses : list bind_answer) (errno : string) : M (list Z) t :=
  match addresses with
  | [] => throw ("listen_async_tcp: " +:+ errno)
  | a :: addresses =>
      if a.(socket) <? 0 then listen_on addresses errno
      else
        modify (cons a.(socket));;
        set_nonblocking a.(socket_fcntl);;
        if a.(bind_ok) && a.(listen_ok) then
          local ← lift_exc a.(name);
          open ← get;
          lift_exc (create a.(socket) local a.(listener_fcntl) open)
        else
          modify (close_fd a.(socket));;
          listen_on addresses errno
  end.
Definition listen_async_tcp (addresses : exc (list bind_answer)) (errno : string) : M (list Z) t :=
  addresses ← lift_exc addresses;
  listen_on addresses errno.
End AsyncTcpListener.

(** ** A connection that is being made *)
Module PendingTcpConnect.
Inductive event :=
  | Connected (c : AsyncFrameConnection.t)
  | Failed (what : string).

(** [events_] records the calls of [connected_] and [error_]. *)
Record t := mk {
  loop_ : EventLoop.t unit; max_frame_bytes_ : Z; fd_ : Z; open_ : list Z; events_ : list event
}.
Definition create (loop : EventLoop.t unit) (max_frame_bytes : Z) (open : list Z) : t :=
  mk loop max_frame_bytes (-1) open [].

Definition set_loop (loop : EventLoop.t unit) (p : t) : t := mk loop p.(max_frame_bytes_) p.(fd_) p.(open_) p.(events_).
Definition set_fd (fd : Z) (p : t) : t := mk p.(loop_) p.(max_frame_bytes_) fd p.(open_) p.(events_).
Definition set_open (open : list Z) (p : t) : t := mk p.(loop_) p.(max_frame_bytes_) p.(fd_) open p.(events_).
Definition emit (e : event) (p : t) : t :=
  mk p.(loop_) p.(max_frame_bytes_) p.(fd_) p.(open_) (p.(events_) ++ [e]).

(** [close_fd(fd_)]. *)
Definition close_own (p : t) : t :=
  if p.(fd_) <? 0 then p else set_fd (-1) (set_open (close_fd p.(fd_) p.(open_)) p).

(** The destructor. *)
Definition destroy : t → t := close_own.

Definition finish_success (fcntl : fcntl_answer) : M t unit :=
  p ← get;
  let connected_fd := p.(fd_) in
  put (set_loop (EventLoop.unwatch_fd connected_fd p.(loop_)) (set_fd (-1) p));;
  connection ← lift_exc (AsyncFrameConnection.create connected_fd p.(max_frame_bytes_));
  set_nonblocking fcntl;;
  modify (emit (Connected connection)).

Definition finish_error (message : string) : M t unit :=
  modify (λ p, if p.(fd_) <? 0 then p else close_own (set_loop (EventLoop.unwatch_fd p.(fd_) p.(loop_)) p));;
  modify (emit (Failed message)).

(** What the kernel answers to [connect]. *)
Inductive connect_answer := Connect_ok | Connect_in_progress | Connect_fails.

(** ... and for one of the addresses: the descriptor (negative when there is
    none), [fcntl], [connect], and [fcntl] again for the connection. *)
Record address_answer := mk_address {
  socket : Z; socket_fcntl : fcntl_answer; connect : connect_answer; connection_fcntl : fcntl_answer
}.

Fixpoint try_addresses (addresses : list address_answer) (errno : string) : M t unit :=
  match addresses with
  | [] => finish_error ("async_connect_tcp: " +:+ errno)
  | a :: addresses =>
      modify (set_fd a.(socket));;
      if a.(socket) <? 0 then try_addresses addresses errno
      else
        modify (λ p, set_open (a.(socket) :: p.(open_)) p);;
        set_nonblocking a.(socket_fcntl);;
        match a.(connect) with
        | Connect_ok => finish_success a.(connection_fcntl)
        | Connect_in_progress =>
            p ← get;
            match EventLoop.watch_fd p.(fd_) EventLoop.POLLOUT tt p.(loop_) with
            | (Ret _, loop) => put (set_loop loop p)
            | (Throw e, _) => throw e
            end
        | Connect_fails => modify close_own;; try_addresses addresses errno
        end
  end.

Definition start (addresses : exc (list address_answer)) (errno : string) : M t unit :=
  addresses ← lift_exc addresses;
  try_addresses addresses errno.

(** What [getsockopt(SO_ERROR)] answers. *)
Inductive sockopt_answer :=
  | Sockopt_fails (what : string)
  | Sockopt_error (what : string)
  | Sockopt_none.

Definition settling_events : Z :=
  Z.lor (Z.lor (Z.lor EventLoop.POLLERR EventLoop.POLLNVAL) EventLoop.POLLHUP) EventLoop.POLLOUT.

Definition handle_io (revents : Z) (sockopt : sockopt_answer) (fcntl : fcntl_answer) : M t unit :=
  p ← get;
  if p.(fd_) <? 0 then mret tt
  else if negb (AsyncFrameConnection.has_flag revents settling_events) then mret tt
  else match sockopt with
       | Sockopt_fails what => finish_error ("getsockopt(SO_ERROR): " +:+ what)
       | Sockopt_error what => finish_error ("connect: " +:+ what)
       | Sockopt_none => finish_success fcntl
       end.
End PendingTcpConnect.

(** ** A connection attempt settles once *)
Module ConnectFacts.
Import PendingTcpConnect.

(** Where an attempt that began with [open] open descriptors is: pending, with
    one descriptor that the loop watches for [POLLOUT]; made, the descriptor now
    the connection's; or given up, with nothing left open. *)
Definition settled (open : list Z) (p : t) : Prop :=
  match p.(events_) with
  | [] => 0 ≤ p.(fd_) ∧ (p.(fd_) ∉ open) ∧ p.(open_) = p.(fd_) :: open ∧ EventLoop.events_of p.(fd_) p.(loop_) = [EventLoop.POLLOUT]
  | [Connected c] =>
      p.(fd_) = -1 ∧ p.(open_) = AsyncFrameConnection.fd_ c :: open ∧ AsyncFrameConnection.closed c = false ∧
      EventLoop.events_of (AsyncFrameConnection.fd_ c) p.(loop_) = []
  | [Failed _] => p.(fd_) < 0 ∧ p.(open_) = open
  | _ => False
  end.

(** Between two attempts: nothing is open, no callback was made. *)
Definition idle (open : list Z) (p : t) : Prop := p.(events_) = [] ∧ p.(fd_) < 0 ∧ p.(open_) = open.

(** A descriptor was made and is not watched yet. *)
Definition made (open : list Z) (p : t) : Prop := p.(events_) = [] ∧ 0 ≤ p.(fd_) ∧ p.(open_) = p.(fd_) :: open.

(** What an exception leaves is closed by the destructor. *)
Definition cleaned (open : list Z) (p : t) : Prop := p.(events_) = [] ∧ (destroy p).(open_) = open.

(** ... or is not: the attempt has forgotten its descriptor, nobody owns it, and
    the destructor leaves it open. *)
Definition leaked (open : list Z) (p : t) : Prop :=
  p.(events_) = [] ∧ p.(fd_) = -1 ∧
  ∃ fd, 0 ≤ fd ∧ (fd ∉ open) ∧ (destroy p).(open_) = fd :: open ∧ EventLoop.events_of fd p.(loop_) = [].

Lemma close_fd_fresh fd open : fd ∉ open → close_fd fd (fd :: open) = open.
Proof.
  intros Hf. unfold close_fd. rewrite filter_cons_False by (intros H; by apply H).
  induction open as [|f open IH]; [done|]. apply not_elem_of_cons in Hf as [Hne Hf].
  rewrite filter_cons_True by done. by rewrite IH.
Qed.

Lemma close_own_made open p : p.(fd_) ∉ open → made open p → (close_own p).(open_) = open.
Proof.
  intros Hf (_ & Hfd & Ho). unfold close_own. destruct (Z.ltb_spec p.(fd_) 0); [lia|].
  cbn. by rewrite Ho, close_fd_fresh.
Qed.

Lemma finish_success_settled open fcntl p r p' :
  made open p → p.(fd_) ∉ open → finish_success fcntl p = (r, p') →
  match fcntl with
  | None => r = Ret tt ∧ settled open p' ∧ p'.(events_) ≠ []
  | Some what => r = Throw what ∧ leaked open p'
  end.
Proof.
  intros (He & Hfd & Ho) Hf Hr. unfold finish_success in Hr. rewrite (bind_ret get _ p p p eq_refl) in Hr.
  unfold AsyncFrameConnection.create in Hr. destruct (Z.ltb_spec p.(fd_) 0); [lia|].
  destruct fcntl as [what|]; injection Hr as <- <-; (split; [done|]).
  - split; [done|]. split; [done|]. exists p.(fd_). cbn. by split_and!; [..|apply WriteFacts.events_of_unwatch].
  - unfold settled. cbn. rewrite He. cbn. split; [|done].
    split_and!; [done|done| |apply WriteFacts.events_of_unwatch].
    unfold AsyncFrameConnection.closed. cbn. by destruct (Z.ltb_spec p.(fd_) 0); [lia|].
Qed.

Lemma app_nonnil {A} (l : list A) x : l ++ [x] ≠ [].
Proof. by destruct l. Qed.

Lemma finish_error_eq what p :
  finish_error what p = (Ret tt, emit (Failed what)
    (if p.(fd_) <? 0 then p else close_own (set_loop (EventLoop.unwatch_fd p.(fd_) p.(loop_)) p))).
Proof. reflexivity. Qed.

Lemma finish_error_settled open what p r p' :
  (idle open p ∨ made open p ∧ p.(fd_) ∉ open) → finish_error what p = (r, p') → r = Ret tt ∧ settled open p'.
Proof.
  intros Hp Hr. rewrite finish_error_eq in Hr. injection Hr as <- <-. split; [done|]. unfold settled.
  destruct Hp as [(He & Hfd & Ho)|[(He & Hfd & Ho) Hf]]; destruct (Z.ltb_spec p.(fd_) 0) as [Hlt|Hge]; try lia.
  - cbn. by rewrite He.
  - unfold close_own. cbn. destruct (Z.ltb_spec p.(fd_) 0); [lia|]. cbn. rewrite He. cbn.
    split; [lia|]. fold (close_fd p.(fd_) p.(open_)). by rewrite Ho, close_fd_fresh.
Qed.

(** The answers for which the connection is made and its constructor throws. *)
Definition connection_throws (a : address_answer) : Prop :=
  a.(connect) = Connect_ok ∧ a.(connection_fcntl) ≠ None.

Lemma try_addresses_settled open addresses errno p r p' :
  Forall (λ a, a.(socket) ∉ open) addresses → idle open p →
  try_addresses addresses errno p = (r, p') →
  match r with
  | Ret _ => settled open p'
  | Throw _ => cleaned open p' ∨ leaked open p' ∧ Exists connection_throws addresses
  end.
Proof.
  intros Ha. revert p. induction Ha as [|a addresses Hf Ha IH]; intros p Hp Hr; cbn [try_addresses] in Hr.
  { by apply (finish_error_settled open) in Hr as [-> ?]; [|left]. }
  assert (∀ q, idle open q → try_addresses addresses errno q = (r, p') →
    match r with Ret _ => settled open p'
    | Throw _ => cleaned open p' ∨ leaked open p' ∧ Exists connection_throws (a :: addresses) end) as Hnext.
  { intros q Hq Hr2. specialize (IH q Hq Hr2). destruct r; [done|].
    destruct IH as [?|[? ?]]; [by left|right]. split; [done|by right]. }
  rewrite (bind_ret (modify _) _ p tt (set_fd a.(socket) p) eq_refl) in Hr.
  destruct Hp as (He & _ & Ho). destruct (Z.ltb_spec a.(socket) 0) as [Hlt|Hge].
  { by apply (Hnext (set_fd a.(socket) p)). }
  set (p1 := set_open (a.(socket) :: p.(open_)) (set_fd a.(socket) p)) in *.
  rewrite (bind_ret (modify (λ p, set_open (a.(socket) :: p.(open_)) p)) _ (set_fd a.(socket) p) tt p1 eq_refl) in Hr.
  assert (made open p1) as Hm by (split_and!; cbn; [done|done|by rewrite Ho]).
  destruct a.(socket_fcntl) as [what|]; cbn [set_nonblocking] in Hr.
  { injection Hr as <- <-. left. split; [done|]. by apply close_own_made. }
  rewrite (bind_ret (mret tt) _ p1 tt p1 eq_refl) in Hr.
  destruct a.(connect) eqn:Econnect.
  - apply (finish_success_settled open) in Hr; [|done..].
    destruct a.(connection_fcntl) as [what|] eqn:Efcntl; destruct Hr as [-> Hr]; [|by destruct Hr].
    right. split; [done|]. left. split; [done|]. by rewrite Efcntl.
  - rewrite (bind_ret get _ p1 p1 p1 eq_refl) in Hr.
    destruct (WriteFacts.events_of_watch a.(socket) EventLoop.POLLOUT tt p1.(loop_) Hge) as (l & El & Hev).
    change p1.(fd_) with a.(socket) in Hr. rewrite El in Hr. injection Hr as <- <-.
    unfold settled. cbn. rewrite He. cbn. by rewrite Ho.
  - rewrite (bind_ret (modify _) _ p1 tt (close_own p1) eq_refl) in Hr. apply (Hnext (close_own p1)); [|done].
    split_and!; [|..|by apply close_own_made]; unfold close_own; destruct (Z.ltb_spec p1.(fd_) 0); done.
Qed.

(** A wake-up that finds the attempt over changes nothing. *)
Lemma handle_io_over revents sockopt fcntl p :
  p.(fd_) < 0 → handle_io revents sockopt fcntl p = (Ret tt, p).
Proof.
  intros Hp. unfold handle_io. rewrite (bind_ret get _ p p p eq_refl).
  by destruct (Z.ltb_spec p.(fd_) 0); [|lia].
Qed.

Lemma settled_over open p : settled open p → p.(events_) ≠ [] → p.(fd_) < 0.
Proof. intros Hp He. unfold settled in Hp. by destruct p.(events_) as [|[] []]; [done|lia|done|lia|done]. Qed.

Lemma handle_io_settled open revents sockopt fcntl p r p' :
  settled open p → p.(events_) = [] → handle_io revents sockopt fcntl p = (r, p') →
  (settled open p' ∧ (p'.(events_) = [] → p' = p) ∧
     (AsyncFrameConnection.has_flag revents settling_events = true → p'.(events_) ≠ [])) ∨
  leaked open p' ∧ sockopt = Sockopt_none ∧ fcntl ≠ None.
Proof.
  intros Hp He Hr. unfold handle_io in Hr. rewrite (bind_ret get _ p p p eq_refl) in Hr.
  pose proof Hp as Hpend. unfold settled in Hpend. rewrite He in Hpend. destruct Hpend as (Hge & Hf & Ho & _).
  destruct (Z.ltb_spec p.(fd_) 0) as [|_]; [lia|]. assert (made open p) as Hm by done.
  destruct (AsyncFrameConnection.has_flag _ _); cbn [negb] in Hr.
  2:{ injection Hr as <- <-. left. by split_and!. }
  destruct sockopt as [what|what|].
  3:{ apply (finish_success_settled open) in Hr; [|done..]. destruct fcntl as [what|]; [right|left].
      - by destruct Hr as (_ & ?).
      - by destruct Hr as (_ & Hs & Hne). }
  all: assert (p'.(events_) ≠ []) as Hne
    by (rewrite finish_error_eq in Hr; apply (f_equal snd) in Hr; cbn [snd] in Hr; subst p'; apply app_nonnil).
  all: apply (finish_error_settled open) in Hr as [_ Hs]; [|by right]; left; by split_and!.
Qed.

(** The wake-ups of the loop, with what [getsockopt] and then [fcntl] answer. *)
Definition run_wakes (wakes : list (Z * sockopt_answer * fcntl_answer)) (p : t) : t :=
  foldl (λ p w, (handle_io w.1.1 w.1.2 w.2 p).2) p wakes.

Lemma run_wakes_over wakes p : p.(fd_) < 0 → run_wakes wakes p = p.
Proof.
  intros Hp. induction wakes as [|w wakes IH]; [done|]. cbn [run_wakes foldl]. by rewrite handle_io_over.
Qed.

Lemma run_wakes_settled open wakes p :
  settled open p →
  let p' := run_wakes wakes p in
  (settled open p' ∨ leaked open p' ∧ Exists (λ w, w.1.2 = Sockopt_none ∧ w.2 ≠ None) wakes) ∧
  (Exists (λ w, AsyncFrameConnection.has_flag w.1.1 settling_events = true) wakes →
     p'.(events_) ≠ [] ∨ leaked open p').
Proof.
  revert p. induction wakes as [|w wakes IH]; intros p Hp.
  { split; [by left|]. by intros H%Exists_nil. }
  destruct (decide (p.(events_) = [])) as [He|He]; cycle 1.
  { cbv zeta. rewrite run_wakes_over by (by eapply settled_over). split; [by left|]. intros _. by left. }
  cbn [run_wakes foldl]. destruct (handle_io w.1.1 w.1.2 w.2 p) as [r p1] eqn:Er. cbn [snd]. fold (run_wakes wakes p1).
  destruct (handle_io_settled _ _ _ _ _ _ _ Hp He Er) as [(Hp1 & Hsame & Hnew)|(Hl & Hsock & Hfcntl)]; cycle 1.
  { rewrite run_wakes_over by (destruct Hl as (_ & -> & _); lia). split; [|by right]. right. split; [done|by left]. }
  destruct (IH p1 Hp1) as (H1 & H2). split.
  { destruct H1 as [?|[? ?]]; [by left|right]. split; [done|by right]. }
  intros [Hw|Hw]%Exists_cons; [|by apply H2]. specialize (Hnew Hw). left.
  by rewrite run_wakes_over by (by eapply settled_over).
Qed.
End ConnectFacts.
Import PendingTcpConnect ConnectFacts.

(** C13: an attempt to connect settles at most once, whatever the kernel answers
    for each address of the peer and at each wake-up: it is pending, with the
    one descriptor that [poll] watches; or it has called [connected_] once, with
    a connection that owns the only new descriptor, no longer watched for the
    attempt; or it has called [error_] once with nothing left open.  An error, a
    hang-up or a writable socket settles it, nothing changes it afterwards, and
    what an exception of [start] or the end of a pending attempt leaves, the
    destructor closes.  The one exception to all this: when the connection is
    made and [fcntl] then fails in the constructor of the connection, that one
    descriptor is leaked, unwatched, and neither callback is ever called. *)
Theorem connect_settles_once (loop : EventLoop.t unit) (max_frame_bytes : Z) (open : list Z)
    (addresses : exc (list address_answer)) (errno : string)
    (wakes : list (Z * sockopt_answer * fcntl_answer)) r p :
  (∀ l, addresses = Ret l → Forall (λ a, a.(socket) ∉ open) l) →
  start addresses errno (create loop max_frame_bytes open) = (r, p) →
  match r with
  | Throw _ =>
      cleaned open p ∨ leaked open p ∧ ∃ l, addresses = Ret l ∧ Exists connection_throws l
  | Ret _ =>
      let p' := run_wakes wakes p in
      (settled open p' ∨ leaked open p' ∧ Exists (λ w, w.1.2 = Sockopt_none ∧ w.2 ≠ None) wakes) ∧
      (settled open p' → p'.(events_) = [] → cleaned open p') ∧ (p.(events_) ≠ [] → p' = p) ∧
      (Exists (λ w, AsyncFrameConnection.has_flag w.1.1 settling_events = true) wakes →
         p'.(events_) ≠ [] ∨ leaked open p')
  end.
Proof.
  intros Ha Hr. unfold start in Hr.
  apply bind_cases in Hr as [(l & s1 & [= -> <-] & Hr)|(e & [= -> <-] & ->)]; [|by left].
  apply (try_addresses_settled open) in Hr; [|by apply Ha|done].
  destruct r as [[]|e]; cycle 1.
  { destruct Hr as [Hr|[Hr Hl]]; [by left|right]. split; [done|by exists l]. }
  cbn zeta. destruct (run_wakes_settled open wakes p Hr) as (H1 & H2). split; [done|]. split; [|split; [|done]].
  - intros Hs He. split; [done|]. unfold settled in Hs. rewrite He in Hs. destruct Hs as (Hfd & Hf & Ho & _).
    by apply close_own_made.
  - intros He. apply run_wakes_over. by eapply settled_over.
Qed.

(** The first of two addresses refuses, the second is under way and then made. *)
Definition sample_addresses : list address_answer :=
  [mk_address 7 None Connect_fails None; mk_address 7 None Connect_in_progress None].

Lemma connect_settles_once_witness :
  let loop := EventLoop.mk unit false 1 [] [] in
  let '(r, p) := start (Ret sample_addresses) "" (create loop 1024 [3]) in
  let p' := run_wakes [(0, Sockopt_none, Some "early"%string); (EventLoop.POLLOUT, Sockopt_none, None)] p in
  r = Ret tt ∧ p'.(events_) ≠ [] ∧ p'.(open_) = [7; 3].
Proof.
  cbn zeta. destruct (start _ _ _) as [r p] eqn:E. pose proof E as E2. vm_compute in E2. injection E2 as <- <-.
  apply (connect_settles_once _ _ _ _ _
    [(0, Sockopt_none, Some "early"%string); (EventLoop.POLLOUT, Sockopt_none, None)]) in E as (_ & _ & _ & H).
  2:{ intros l [= <-]. repeat constructor; apply (bool_decide_unpack _); vm_compute; done. }
  split; [done|]. split; [|reflexivity]. destruct H as [H|(H & _)]; [|exact H|discriminate H].
  right. left. reflexivity.
Defined.

(** The connection is made, and the constructor of its connection throws: the
    attempt has already given its descriptor away, which stays open for good. *)
Lemma made_connection_leaked (loop : EventLoop.t unit) :
  let '(r, p) := start (Ret [mk_address 7 None Connect_ok (Some "fcntl"%string)]) "" (create loop 1024 []) in
  r = Throw "fcntl" ∧ p.(events_) = [] ∧ (destroy p).(open_) = [7].
Proof. done. Qed.

(** An attempt that is dropped while it is pending closes its descriptor, and
    leaves its watcher in the loop: [poll] is still asked about a closed
    descriptor. *)
Lemma dropped_attempt_still_watched (loop : EventLoop.t unit) :
  let p := (start (Ret [mk_address 7 None Connect_in_progress None]) "" (create loop 1024 [])).2 in
  (destroy p).(open_) = [] ∧ EventLoop.events_of 7 (destroy p).(loop_) = [EventLoop.POLLOUT].
Proof.
  cbn zeta. destruct (WriteFacts.events_of_watch 7 EventLoop.POLLOUT tt loop ltac:(lia)) as (l & El & Hev).
  assert ((start (Ret [mk_address 7 None Connect_in_progress None]) "" (create loop 1024 [])).2 =
    mk l 1024 7 [7] []) as ->; [|by split].
  injection El as <-. reflexivity.
Qed.

(** ** A listener is watched until it is closed *)
Module ListenerFacts.
Import AsyncTcpListener.

Definition watched (fd : Z) (l : t) : Prop :=
  ∃ loop, l.(loop_) = Some loop ∧
    if closed l then EventLoop.events_of fd loop = [] ∧ (fd ∉ l.(open_))
    else l.(fd_) = fd ∧ EventLoop.events_of fd loop = [EventLoop.POLLIN] ∧ fd ∈ l.(open_).

Lemma not_in_close_fd fd open : fd ∉ close_fd fd open.
Proof. unfold close_fd. rewrite list_elem_of_filter. intros [Hn _]. by apply Hn. Qed.

Lemma keeps_listener_close fd : keeps (watched fd) close.
Proof.
  apply keeps_modify. intros l (loop & Hl & Hw). destruct (closed l) eqn:Hc.
  { exists loop. split; [done|]. by rewrite Hc. }
  destruct Hw as (<- & _ & _). exists (EventLoop.unwatch_fd l.(fd_) loop). cbn. rewrite Hl.
  split; [done|]. split; [apply WriteFacts.events_of_unwatch|apply not_in_close_fd].
Qed.

(** A listening socket: the only descriptor that [listen_async_tcp] leaves open. *)
Lemma listen_on_spec addresses errno open l open' :
  Forall (λ a : bind_answer, a.(socket) ∉ open) addresses →
  listen_on addresses errno open = (Ret l, open') →
  closed l = false ∧ l.(loop_) = None ∧ l.(open_) = open' ∧ open' = l.(fd_) :: open.
Proof.
  intros Ha. revert open'. induction Ha as [|a addresses Hf Ha IH]; intros open' Hr; [done|].
  cbn [listen_on] in Hr. destruct (Z.ltb_spec a.(socket) 0) as [|Hs]; [by apply IH|].
  rewrite (bind_ret (modify _) _ open tt (a.(socket) :: open) eq_refl) in Hr.
  apply M_bind_inv in Hr as ([] & o1 & Hn & Hr). destruct a.(socket_fcntl); [done|].
  injection Hn as <-. destruct (a.(bind_ok) && a.(listen_ok)).
  - apply M_bind_inv in Hr as (local & o2 & Hname & Hr). injection Hname as _ <-.
    rewrite (bind_ret get _ _ _ _ eq_refl) in Hr. unfold create in Hr.
    destruct (Z.ltb_spec a.(socket) 0); [lia|]. destruct a.(listener_fcntl); [done|].
    injection Hr as <- <-. unfold closed. cbn. destruct (Z.ltb_spec a.(socket) 0); [lia|done].
  - rewrite (bind_ret (modify _) _ (a.(socket) :: open) tt (close_fd a.(socket) (a.(socket) :: open)) eq_refl) in Hr.
    rewrite ConnectFacts.close_fd_fresh in Hr by done. by apply IH.
Qed.

Lemma start_watched fd loop l r l' :
  l.(fd_) = fd → 0 ≤ fd → fd ∈ l.(open_) → start loop l = (r, l') → r = Ret tt ∧ watched fd l'.
Proof.
  intros Hfd Hge Ho Hr. unfold start in Hr. rewrite (bind_ret get _ l l l eq_refl) in Hr.
  destruct (WriteFacts.events_of_watch fd EventLoop.POLLIN tt loop Hge) as (lp & El & Hev).
  rewrite Hfd, El in Hr. injection Hr as <- <-. split; [done|]. exists lp. split; [done|].
  unfold closed. cbn. rewrite Hfd. by destruct (Z.ltb_spec fd 0); [lia|].
Qed.

Section callback.
Context (accept_callback_ : option (Z → Endpoint.t → M t unit)) (fd : Z).
Context (callback_keeps : ∀ f client peer, accept_callback_ = Some f → keeps (watched fd) (f client peer)).

(** The kernel does not give out a descriptor that is open. *)
Definition fresh_clients (script : list accept_answer) : Prop :=
  Forall (λ a, match a with Accepted client _ _ => client ≠ fd | _ => True end) script.

Lemma keeps_accept_all script : fresh_clients script → keeps (watched fd) (accept_all accept_callback_ script).
Proof.
  intros Hs. induction Hs as [|a script Ha Hs IH]; cbn [accept_all]; apply keeps_get; intros l Hl;
    destruct (closed l) eqn:Hc; try apply keeps_ret.
  destruct a as [client fcntl peer| | |]; [|exact IH|apply keeps_ret|apply keeps_listener_close].
  apply keeps_bind.
  { apply keeps_put. destruct Hl as (loop & El & Hw). exists loop. split; [done|].
    change (closed (set_open _ l)) with (closed l). rewrite Hc in *. cbn.
    destruct Hw as (? & ? & ?). split_and!; [done..|by right]. }
  intros _. apply keeps_bind; [destruct fcntl; [apply keeps_throw|apply keeps_ret]|]. intros _.
  apply keeps_bind; [|by intros _].
  destruct accept_callback_ as [f|] eqn:Ef.
  - destruct peer; [by apply (callback_keeps f)|apply keeps_throw].
  - apply keeps_modify. intros l1 (loop & El & Hw). exists loop. split; [done|].
    change (closed (set_open _ l1)) with (closed l1). cbn. unfold close_fd.
    destruct (closed l1); rewrite list_elem_of_filter; [by split; [apply Hw|intros [_ ?]; apply Hw]|].
    destruct Hw as (? & ? & ?). split_and!; [done..|congruence|done].
Qed.

(** Every wake-up keeps an open listener watched for [POLLIN], and a closed one
    out of the loop and out of the open descriptors. *)
Lemma keeps_handle_io revents script :
  fresh_clients script → keeps (watched fd) (handle_io accept_callback_ revents script).
Proof.
  intros Hs. unfold handle_io. apply keeps_get. intros l Hl. destruct (closed l); [apply keeps_ret|].
  destruct (AsyncFrameConnection.has_flag _ _); [apply keeps_listener_close|].
  destruct (negb _); [apply keeps_ret|by apply keeps_accept_all].
Qed.
End callback.
End ListenerFacts.
