(* ===== verification/Sync.v ===== *)
(** * Checksums, file names, manifests: [include/core/yisync_sync.hpp], [src/core/yisync_sync.cpp]

    Range checksums of files, the numeric names of append files, the scan of a
    stream's directory into a manifest, the comparison of two manifests, and
    the chunking arithmetic.  The checksum is the class [Crc32c]; what
    [std::regex] makes of an expression is a parameter of the scan. *)
From Stdlib Require Import Ascii.
From stdpp Require Import sorting.
From S2P Require Import Prelude Crc32c Filesystem Wire Protocol.
#[local] Open Scope Z_scope.

(** ** Calls on the file system in a program that throws *)

(** The [error_code] overload: the outcome is a value. *)
Definition with_ec {A} (io : IO A) : M fsys (res A) := λ w, let '(r, w) := io w in (Ret r, w).

(** The throwing overload. *)
Definition or_throw {A} (what : string) (io : IO A) : M fsys A := λ w,
  match io w with
  | (Ok a, w) => (Ret a, w)
  | (Err e, w) => (Throw (what ++ message e), w)
  end.

Definition file_size_or_zero (p : path) : M fsys Z :=
  r ← with_ec (file_size p);
  mret (match r with Ok size => size | Err _ => 0 end).

Definition bytes_equal (lhs rhs : Bytes) : bool := bool_decide (lhs = rhs).

Definition crc32c_value_bytes (value : Z) : Bytes :=
  [byte_of_Z (Z.land value 255); byte_of_Z (Z.land (Z.shiftr value 8) 255);
   byte_of_Z (Z.land (Z.shiftr value 16) 255); byte_of_Z (Z.land (Z.shiftr value 24) 255)].

Definition kChecksumBufferBytes : Z := 4 * 1024 * 1024.
Definition kChunkModeThresholdBytes : Z := 64 * 1024.
Definition kDefaultChunkSizeBytes : Z := 64 * 1024.

(** [std::streamoff] is signed: an offset of 2^63 or more is negative and the seek fails. *)
Definition seekable (offset : Z) : bool := offset <? 9223372036854775808.

Section checksums.
Context {CRC : Crc32c}.

(** The loop of [crc32c_file_range]; [rest] is the file from the read
    position on, and every turn reads at least a byte of it. *)
Fixpoint crc32c_range_loop (fuel : nat) (rest : Bytes) (remaining crc : Z) : exc Z :=
  if remaining >? 0 then
    match fuel with
    | O => Throw "out of fuel"
    | S fuel =>
        let wanted := Z.min remaining kChecksumBufferBytes in
        let read := Z.min wanted (zlen rest) in
        if read <=? 0 then Throw "failed to read requested checksum range"
        else crc32c_range_loop fuel (drop (Z.to_nat read) rest) (remaining - read)
               (Extend crc (take (Z.to_nat read) rest))
    end
  else Ret crc.

Definition crc32c_file_range (p : path) (offset len : Z) : M fsys Bytes :=
  data ← or_throw "failed to open file for checksum: " (read_file p);
  if negb (seekable offset) then throw "failed to seek file for checksum"
  else
    let rest := drop (Z.to_nat (Z.min offset (zlen data))) data in
    crc ← lift_exc (crc32c_range_loop (S (length data)) rest len 0);
    mret (crc32c_value_bytes crc).

Definition crc32c_bytes (bytes : Bytes) : Bytes := crc32c_value_bytes (Extend 0 bytes).

Definition checksums_equal (lhs rhs : T_FileChecksum.t) : bool :=
  bool_decide (lhs.(T_FileChecksum.algo) = rhs.(T_FileChecksum.algo)) &&
  (lhs.(T_FileChecksum.offset) =? rhs.(T_FileChecksum.offset)) &&
  (lhs.(T_FileChecksum.len) =? rhs.(T_FileChecksum.len)) &&
  bytes_equal lhs.(T_FileChecksum.value) rhs.(T_FileChecksum.value).

Definition checksum_matches (checksum : T_FileChecksum.t) (file_path : path) : M fsys bool :=
  if bool_decide (checksum.(T_FileChecksum.algo) = EM_ChecksumAlgo.NONE)
  then mret (checksum.(T_FileChecksum.len) =? 0)
  else if bool_decide (checksum.(T_FileChecksum.algo) ≠ EM_ChecksumAlgo.CRC32C)
  then throw "only CRC32C file checksums are implemented in this prototype"
  else
    size ← file_size_or_zero file_path;
    if (checksum.(T_FileChecksum.offset) >? size) || (checksum.(T_FileChecksum.len) >? size) ||
       (u64 (checksum.(T_FileChecksum.offset) + checksum.(T_FileChecksum.len)) >? size)
    then mret false
    else
      range ← crc32c_file_range file_path checksum.(T_FileChecksum.offset) checksum.(T_FileChecksum.len);
      mret (bytes_equal range checksum.(T_FileChecksum.value)).

Definition make_crc32c_range_checksum (file_path : path) (max_len : Z) : M fsys T_FileChecksum.t :=
  size ← file_size_or_zero file_path;
  let algo := if size =? 0 then EM_ChecksumAlgo.NONE else EM_ChecksumAlgo.CRC32C in
  let len := Z.min size max_len in
  let offset := size - len in
  if len >? 0 then
    value ← crc32c_file_range file_path offset len;
    mret (T_FileChecksum.mk algo offset len value)
  else mret (T_FileChecksum.mk algo offset len []).
End checksums.

(** ** Numeric file names *)

(** [std::to_string] of an unsigned 64-bit integer, which has at most 20 digits. *)
Definition digit (d : Z) : ascii := ascii_of_nat (Z.to_nat (48 + d)).

Fixpoint to_string_loop (fuel : nat) (n : Z) (acc : string) : string :=
  let acc := String (digit (n mod 10)) acc in
  if n / 10 =? 0 then acc
  else match fuel with O => acc | S fuel => to_string_loop fuel (n / 10) acc end.

Definition to_string (n : Z) : string := to_string_loop 20 n "".

Definition file_name_for_id (file_id : Z) : string := to_string file_id ++ ".file".
Arguments to_string : simpl never.
Arguments file_name_for_id : simpl never.

Definition digit_value (c : ascii) : option Z :=
  let d := Z.of_nat (nat_of_ascii c) - 48 in
  if (0 <=? d) && (d <=? 9) then Some d else None.

(** [std::from_chars] into a [uint64_t], when it must consume everything: all
    characters digits and no overflow. *)
Fixpoint from_chars (value : Z) (s : string) : option Z :=
  match s with
  | EmptyString => Some value
  | String c s =>
      d ← digit_value c;
      if value * 10 + d <=? UINT64_MAX then from_chars (value * 10 + d) s else None
  end.

Definition suffix : string := ".file".

Definition parse_file_id (name : string) : option Z :=
  let n := String.length name in
  if (n <=? String.length suffix)%nat ||
     negb (bool_decide (String.substring (n - String.length suffix) (String.length suffix) name = suffix))
  then None
  else from_chars 0 (String.substring 0 (n - String.length suffix) name).

(** FNV-1a over the characters, with the top bit set. *)
Definition stable_path_id (relative_name : string) : Z :=
  let hash := foldl (λ hash ch, u64 (Z.lxor hash (Z.of_nat (nat_of_ascii ch)) * 1099511628211))
                1469598103934665603 (String.list_ascii_of_string relative_name) in
  Z.lor 9223372036854775808 (Z.land hash (Z.lxor UINT64_MAX 9223372036854775808)).

(** ** Manifests *)
Module EM_StartAction.
Inductive t := RESUME_EXISTING | CREATE_MISSING.
#[export] Instance eq_dec : EqDecision t.
Proof. solve_decision. Defined.
End EM_StartAction.
Export (hints) EM_StartAction.

Module T_SyncStart.
Record t := mk {
  stream_id : Z; start_file_id : Z; start_offset : Z; start_action : EM_StartAction.t
}.
End T_SyncStart.

Definition is_yisync_internal_path (relative_name : string) : bool :=
  bool_decide (relative_name = ".yisync_tmp"%string) || String.prefix ".yisync_tmp/" relative_name.

Section manifests.
Import T_ManifestEntry.

Definition manifest_entries_same_identity (lhs rhs : t) : bool :=
  (lhs.(file_id) =? rhs.(file_id)) && bool_decide (lhs.(kind) = rhs.(kind)) &&
  bool_decide (lhs.(name) = rhs.(name)).

Definition manifest_entries_same_content (sender receiver : t) : bool :=
  if negb (bool_decide (sender.(kind) = receiver.(kind))) then false
  else match sender.(kind) with
       | EM_EntryKind.DIRECTORY => true
       | EM_EntryKind.SYMLINK => bool_decide (sender.(link_target) = receiver.(link_target))
       | _ => (sender.(size) =? receiver.(size)) && checksums_equal sender.(checksum) receiver.(checksum)
       end.

(** The two indices advance together: recursion over both lists. *)
Fixpoint diff_stream (stream_id : Z) (sender receiver : list t) : exc (option T_SyncStart.t) :=
  match sender with
  | [] => Ret None
  | sender_entry :: sender' =>
      match receiver with
      | [] => Ret (Some (T_SyncStart.mk stream_id sender_entry.(file_id) 0 EM_StartAction.CREATE_MISSING))
      | receiver_entry :: receiver' =>
          if negb (manifest_entries_same_identity sender_entry receiver_entry)
          then Throw ("receiver entry identity conflicts with sender for " ++ sender_entry.(name))
          else if bool_decide (sender_entry.(kind) = EM_EntryKind.DIRECTORY ∨
                               sender_entry.(kind) = EM_EntryKind.SYMLINK)
          then
            if negb (manifest_entries_same_content sender_entry receiver_entry)
            then Throw ("receiver entry content conflicts with sender for " ++ sender_entry.(name))
            else diff_stream stream_id sender' receiver'
          else if receiver_entry.(size) >? sender_entry.(size)
          then Throw ("receiver file is larger than sender for " ++ sender_entry.(name))
          else if receiver_entry.(size) <? sender_entry.(size)
          then Ret (Some (T_SyncStart.mk stream_id sender_entry.(file_id) receiver_entry.(size)
                            EM_StartAction.RESUME_EXISTING))
          else if negb (bytes_equal sender_entry.(checksum).(T_FileChecksum.value)
                          receiver_entry.(checksum).(T_FileChecksum.value)) ||
                  negb (bool_decide (sender_entry.(checksum).(T_FileChecksum.algo) =
                                     receiver_entry.(checksum).(T_FileChecksum.algo))) ||
                  negb (sender_entry.(checksum).(T_FileChecksum.offset) =?
                        receiver_entry.(checksum).(T_FileChecksum.offset)) ||
                  negb (sender_entry.(checksum).(T_FileChecksum.len) =?
                        receiver_entry.(checksum).(T_FileChecksum.len))
          then Throw ("checksum mismatch for " ++ sender_entry.(name))
          else diff_stream stream_id sender' receiver'
      end
  end.

Definition make_manifest2_stream (stream_id : Z) (start : option T_SyncStart.t) : T_Manifest2Stream.t :=
  match start with
  | None => T_Manifest2Stream.mk stream_id EM_Manifest2Action.IN_SYNC 0 0
  | Some start =>
      T_Manifest2Stream.mk stream_id
        (if decide (start.(T_SyncStart.start_action) = EM_StartAction.RESUME_EXISTING)
         then EM_Manifest2Action.RESUME_EXISTING else EM_Manifest2Action.CREATE_MISSING)
        start.(T_SyncStart.start_file_id) start.(T_SyncStart.start_offset)
  end.
End manifests.

(** ** The scan of a stream's directory *)
Section scan.
Context {CRC : Crc32c}.

(** [std::regex(expr, extended)] and [std::regex_search]: the predicate that
    an expression denotes, or the error of a malformed one. *)
Context (regex_extended : string → exc (string → bool)).

Definition empty_checksum : T_FileChecksum.t := T_FileChecksum.mk EM_ChecksumAlgo.NONE 0 0 [].

(** The entries below the directory [root], in some order, as the paths
    relative to it and what [lstat] finds there. *)
Definition descendants (t : gmap path node) (root : path) : list (path * node) :=
  omap (λ kn : path * node,
    if decide (root `prefix_of` kn.1 ∧ kn.1 ≠ root) then Some (drop (length root) kn.1, kn.2)
    else None) (map_to_list t).

(** [disable_recursion_pending] on an excluded top-level entry skips all
    below it; the iterator never descends through a symbolic link. *)
Definition visited (excluded : list string) (rel : path) : bool :=
  negb (is_yisync_internal_path (generic_string rel)) &&
  match rel with
  | top :: _ => negb (bool_decide (top ∈ excluded))
  | [] => false
  end.

Definition filter_accepts (entry_filter : option (string → bool)) (relative_name : string) : bool :=
  match entry_filter with Some search => search relative_name | None => true end.

Definition top_level (name : string) : bool := bool_decide (length (path_parts name) ≤ 1)%nat.

Definition entry_id (kind : EM_EntryKind.t) (relative_name : string) : Z :=
  let parsed_id := parse_file_id (default ""%string (last (path_parts relative_name))) in
  if bool_decide (kind = EM_EntryKind.REGULAR_FILE) && top_level relative_name
  then match parsed_id with Some id => id | None => stable_path_id relative_name end
  else stable_path_id relative_name.

(** The body of the loop for one directory entry; its [seq] comes later. *)
Definition scan_entry (root : path) (checksum_range_len : Z) (entry_filter : option (string → bool))
    (rel : path) (n : node) : M fsys (option T_ManifestEntry.t) :=
  let relative_name := generic_string rel in
  let entry kind link_target size checksum :=
    T_ManifestEntry.mk (entry_id kind relative_name) 0 kind relative_name link_target size checksum in
  match n with
  | Symlink target =>
      if negb (filter_accepts entry_filter relative_name) then mret None
      else mret (Some (entry EM_EntryKind.SYMLINK target 0 empty_checksum))
  | Dir => mret (Some (entry EM_EntryKind.DIRECTORY "" 0 empty_checksum))
  | File _ =>
      if negb (filter_accepts entry_filter relative_name) then mret None
      else
        size ← with_ec (file_size (root ++ rel));
        match size with
        | Err _ => mret None
        | Ok size =>
            checksum ← make_crc32c_range_checksum (root ++ rel) checksum_range_len;
            mret (Some (entry EM_EntryKind.REGULAR_FILE "" size checksum))
        end
  end.

Fixpoint scan_loop (root : path) (checksum_range_len : Z) (excluded : list string)
    (entry_filter : option (string → bool)) (es : list (path * node)) : M fsys (list T_ManifestEntry.t) :=
  match es with
  | [] => mret []
  | (rel, n) :: es =>
      if negb (visited excluded rel)
      then scan_loop root checksum_range_len excluded entry_filter es
      else
        e ← scan_entry root checksum_range_len entry_filter rel n;
        entries ← scan_loop root checksum_range_len excluded entry_filter es;
        mret (match e with Some e => e :: entries | None => entries end)
  end.

Definition legacy_numeric (e : T_ManifestEntry.t) : bool :=
  bool_decide (e.(T_ManifestEntry.kind) = EM_EntryKind.REGULAR_FILE) &&
  (e.(T_ManifestEntry.file_id) <? 9223372036854775808) && top_level e.(T_ManifestEntry.name).

(** The comparison of the first [std::sort]. *)
Definition entry_lt (lhs rhs : T_ManifestEntry.t) : bool :=
  if legacy_numeric lhs && legacy_numeric rhs
  then lhs.(T_ManifestEntry.file_id) <? rhs.(T_ManifestEntry.file_id)
  else if negb (eqb (legacy_numeric lhs) (legacy_numeric rhs)) then legacy_numeric lhs
  else String.ltb lhs.(T_ManifestEntry.name) rhs.(T_ManifestEntry.name).

(** A sorted list has no later element before an earlier one. *)
Definition entry_le (lhs rhs : T_ManifestEntry.t) : Prop := entry_lt rhs lhs = false.
#[export] Instance entry_le_dec : RelDecision entry_le.
Proof. unfold entry_le. intros x y. apply _. Defined.

Definition set_seq (seq : Z) (e : T_ManifestEntry.t) : T_ManifestEntry.t :=
  let '(T_ManifestEntry.mk file_id _ kind name link_target size checksum) := e in
  T_ManifestEntry.mk file_id seq kind name link_target size checksum.

(** [entries[i].seq = i + 1]. *)
Fixpoint number_entries (i : Z) (entries : list T_ManifestEntry.t) : list T_ManifestEntry.t :=
  match entries with
  | [] => []
  | e :: entries => set_seq (i + 1) e :: number_entries (i + 1) entries
  end.

(** The second [std::sort]. *)
Definition seq_le (lhs rhs : T_ManifestEntry.t) : Prop :=
  lhs.(T_ManifestEntry.seq) < rhs.(T_ManifestEntry.seq) ∨
  lhs.(T_ManifestEntry.seq) = rhs.(T_ManifestEntry.seq) ∧
  lhs.(T_ManifestEntry.file_id) ≤ rhs.(T_ManifestEntry.file_id).
#[export] Instance seq_le_dec : RelDecision seq_le.
Proof. unfold seq_le. intros x y. apply _. Defined.

Definition scan_manifest_stream (stream_id : Z) (root : path) (checksum_range_len : Z)
    (excluded_top_level_dirs : list string) (entry_name_regex : string) : M fsys T_Manifest1Stream.t :=
  let root_name := ("/" ++ generic_string root)%string in
  found ← with_ec (exists_ root);
  match found with
  | Ok true =>
      entry_filter ←
        (if bool_decide (entry_name_regex = ""%string) then mret None
         else match regex_extended entry_name_regex with
              | Ret search => mret (Some search)
              | Throw what => throw ("bad entry_name_regex for " ++ root_name ++ ": " ++ what)
              end);
      w ← get;
      let es := match resolve w.(nodes) root with
                | Ok q => match node_at w.(nodes) q with
                          | Some Dir => descendants w.(nodes) q | _ => [] end
                | Err _ => [] end in
      entries ← scan_loop root checksum_range_len excluded_top_level_dirs entry_filter es;
      mret (T_Manifest1Stream.mk stream_id root_name
        (merge_sort seq_le (number_entries 0 (merge_sort entry_le entries))))
  | _ => mret (T_Manifest1Stream.mk stream_id root_name [])
  end.
End scan.

(** ** Chunking *)
Definition should_use_chunk_mode (file_size : Z) : bool := file_size >? kChunkModeThresholdBytes.

(** [file_size + chunk_size - 1] wraps at 2^64. *)
Definition chunk_count_for_size (file_size chunk_size : Z) : exc Z :=
  if chunk_size =? 0 then Throw "chunk_size must be non-zero"
  else Ret (if file_size =? 0 then 0 else u64 (u64 (file_size + chunk_size) - 1) / chunk_size).

(** ** Checksums of files *)

(** [p] names a regular file holding [data], and the system makes no error. *)
Definition file_at (w : fsys) (p : path) (data : Bytes) : Prop :=
  status w.(nodes) p = Ok (File data) ∧ w.(faults) = [] ∧ zlen data < 9223372036854775808.

(** [len] bytes of [data] from [offset]. *)
Definition slice (data : Bytes) (offset len : Z) : Bytes :=
  take (Z.to_nat len) (drop (Z.to_nat offset) data).

Lemma syscall_ok {A} (f : gmap path node → res (A * gmap path node)) w a :
  w.(faults) = [] → f w.(nodes) = Ok (a, w.(nodes)) → syscall f w = (Ok a, w).
Proof. destruct w as [t fs]. cbn. intros -> Hf. unfold syscall. cbn. by rewrite Hf. Qed.

Lemma read_file_at w p data : file_at w p data → read_file p w = (Ok data, w).
Proof. intros (Hst & Hf & _). apply syscall_ok; [done|by rewrite Hst]. Qed.

Lemma file_size_at w p data : file_at w p data → file_size p w = (Ok (zlen data), w).
Proof. intros (Hst & Hf & _). apply syscall_ok; [done|by rewrite Hst]. Qed.

Lemma zlen_drop {A} (l : list A) n : 0 ≤ n ≤ zlen l → zlen (drop (Z.to_nat n) l) = zlen l - n.
Proof. unfold zlen. intros. rewrite length_drop. lia. Qed.

Lemma zlen_slice data offset len :
  0 ≤ offset → 0 ≤ len → offset + len ≤ zlen data → zlen (slice data offset len) = len.
Proof. unfold slice, zlen. intros. rewrite length_take, length_drop. lia. Qed.

Section checksum_facts.
Context {CRC : Crc32c}.

Lemma crc32c_range_loop_spec fuel rest remaining crc :
  0 ≤ remaining ≤ zlen rest → (length rest < fuel)%nat → in_u32 crc →
  crc32c_range_loop fuel rest remaining crc = Ret (Extend crc (take (Z.to_nat remaining) rest)).
Proof.
  revert rest remaining crc. induction fuel as [|fuel IH]; intros rest remaining crc Hr Hf Hc; [lia|].
  cbn [crc32c_range_loop]. destruct (Z.gtb_spec remaining 0) as [Hpos|Hz].
  - unfold kChecksumBufferBytes in *.
    set (read := Z.min (Z.min remaining (4 * 1024 * 1024)) (zlen rest)).
    assert (0 < read ≤ remaining ∧ read ≤ zlen rest) as [Hread Hle] by (unfold read; lia).
    destruct (Z.leb_spec read 0); [lia|].
    rewrite IH; [|rewrite zlen_drop; lia|rewrite length_drop; unfold zlen in *; lia|
      by apply Extend_range].
    rewrite <- Extend_app by done. do 2 f_equal.
    rewrite take_take_drop. f_equal. lia.
  - assert (remaining = 0) as -> by lia. cbn. by rewrite Extend_nil.
Qed.

Lemma crc32c_file_range_spec w p data offset len :
  file_at w p data → 0 ≤ offset → 0 ≤ len → offset + len ≤ zlen data →
  crc32c_file_range p offset len w = (Ret (crc32c_bytes (slice data offset len)), w).
Proof.
  intros Hw Ho Hl Hle. pose proof Hw as (_ & _ & Hsz). unfold crc32c_file_range, mbind, M_bind, or_throw.
  rewrite (read_file_at w p data) by done.
  unfold seekable. destruct (Z.ltb_spec offset 9223372036854775808); [|lia]. cbn [negb].
  rewrite Z.min_l by lia. unfold lift_exc.
  rewrite crc32c_range_loop_spec; [done|rewrite zlen_drop; lia|rewrite length_drop; lia|done].
Qed.

Lemma file_size_or_zero_spec w p data :
  file_at w p data → file_size_or_zero p w = (Ret (zlen data), w).
Proof.
  intros Hw. unfold file_size_or_zero, mbind, M_bind, with_ec.
  by rewrite (file_size_at w p data).
Qed.

Lemma checksum_matches_none c p w :
  c.(T_FileChecksum.algo) = EM_ChecksumAlgo.NONE →
  checksum_matches c p w = (Ret (c.(T_FileChecksum.len) =? 0), w).
Proof. intros H. unfold checksum_matches. by rewrite bool_decide_eq_true_2. Qed.

Lemma checksum_matches_crc c p w data :
  file_at w p data → T_FileChecksum.ok c → c.(T_FileChecksum.algo) = EM_ChecksumAlgo.CRC32C →
  checksum_matches c p w =
  (Ret (bool_decide
     (c.(T_FileChecksum.offset) + c.(T_FileChecksum.len) ≤ zlen data ∧
      c.(T_FileChecksum.value) =
        crc32c_bytes (slice data c.(T_FileChecksum.offset) c.(T_FileChecksum.len)))), w).
Proof.
  intros Hw (_ & Ho & Hl & _) Ha. pose proof Hw as (_ & _ & Hsz). unfold checksum_matches.
  rewrite bool_decide_eq_false_2 by (by rewrite Ha).
  rewrite bool_decide_eq_false_2 by (rewrite Ha; tauto).
  unfold mbind, M_bind. rewrite (file_size_or_zero_spec w p data) by done.
  destruct (Z.gtb_spec c.(T_FileChecksum.offset) (zlen data)) as [H1|H1];
    [cbn [orb]|destruct (Z.gtb_spec c.(T_FileChecksum.len) (zlen data)) as [H2|H2];
    [cbn [orb]|cbn [orb]; rewrite u64_small by uint_lia;
    destruct (Z.gtb_spec (c.(T_FileChecksum.offset) + c.(T_FileChecksum.len)) (zlen data)) as [H3|H3]]];
    try (unfold mret, M_ret; rewrite bool_decide_eq_false_2; [done|intros [? _]; uint_lia]).
  rewrite (crc32c_file_range_spec w p data) by (done || uint_lia).
  unfold mret, M_ret, bytes_equal. do 2 f_equal. apply bool_decide_ext. split; [|by intros [_ ->]].
  by intros <-.
Qed.

Lemma make_checksum_spec w p data max_len :
  file_at w p data → 0 < max_len →
  let len := Z.min (zlen data) max_len in
  make_crc32c_range_checksum p max_len w =
  (Ret (if zlen data =? 0 then empty_checksum
        else T_FileChecksum.mk EM_ChecksumAlgo.CRC32C (zlen data - len) len
               (crc32c_bytes (slice data (zlen data - len) len))), w).
Proof.
  intros Hw Hm. cbn zeta. pose proof (zlen_nonneg data). unfold make_crc32c_range_checksum.
  unfold mbind at 1, M_bind at 1. rewrite (file_size_or_zero_spec w p data) by done.
  destruct (Z.eqb_spec (zlen data) 0) as [->|Hne].
  - rewrite Z.min_l by lia. done.
  - destruct (Z.gtb_spec (Z.min (zlen data) max_len) 0); [|lia].
    unfold mbind, M_bind. by rewrite (crc32c_file_range_spec w p data) by (done || lia).
Qed.
End checksum_facts.

(** ** File names *)
Lemma digit_value_digit d : 0 ≤ d < 10 → digit_value (digit d) = Some d.
Proof.
  intros H. assert (d ∈ seqZ 0 10) as Hin by (apply elem_of_seqZ; lia).
  assert (Forall (λ d, digit_value (digit d) = Some d) (seqZ 0 10)) as Hall
    by (vm_compute; repeat constructor).
  by eapply (proj1 (Forall_forall _ _)) in Hall.
Qed.

Lemma from_chars_to_string fuel n acc :
  0 ≤ n ≤ UINT64_MAX → n < 10 ^ Z.of_nat (S fuel) →
  from_chars 0 (to_string_loop fuel n acc) = from_chars n acc.
Proof.
  assert (∀ n acc, 0 ≤ n ≤ UINT64_MAX →
    from_chars (n / 10) (String (digit (n mod 10)) acc) = from_chars n acc) as Hstep.
  { clear. intros n acc Hn. cbn [from_chars].
    rewrite digit_value_digit by (apply Z.mod_pos_bound; lia). cbn [mbind option_bind].
    replace (n / 10 * 10 + n mod 10) with n by (pose proof (Z.div_mod n 10); lia).
    by rewrite (proj2 (Z.leb_le n UINT64_MAX)) by lia. }
  revert n acc. induction fuel as [|fuel IH]; intros n acc Hn Hlt; cbn [to_string_loop];
    rewrite <- (Hstep n acc) by done; (destruct (Z.eqb_spec (n / 10) 0) as [E|E]; [by rewrite E|]).
  - exfalso. change (10 ^ Z.of_nat 1) with 10 in Hlt. apply E, Z.div_small. lia.
  - apply IH; [uint_lia|].
    rewrite Nat2Z.inj_succ, Z.pow_succ_r in Hlt by lia. apply Z.div_lt_upper_bound; lia.
Qed.

Lemma substring_all s : String.substring 0 (String.length s) s = s.
Proof. induction s as [|c s IH]; [done|]. cbn. by rewrite IH. Qed.

Lemma substring_app_l s1 s2 : String.substring 0 (String.length s1) (s1 ++ s2) = s1.
Proof. induction s1 as [|c s IH]; [by destruct s2|].
  change (String c s ++ s2)%string with (String c (s ++ s2)). cbn. f_equal. apply IH.
Qed.

Lemma substring_app_r s1 s2 :
  String.substring (String.length s1) (String.length s2) (s1 ++ s2) = s2.
Proof. induction s1 as [|c s IH]; [apply substring_all|apply IH]. Qed.

Lemma string_length_app s1 s2 : String.length (s1 ++ s2) = (String.length s1 + String.length s2)%nat.
Proof. induction s1 as [|c s IH]; [done|].
  change (String c s ++ s2)%string with (String c (s ++ s2)). cbn. by rewrite IH.
Qed.

Lemma to_string_nonempty fuel n acc : (0 < String.length (to_string_loop fuel n acc))%nat.
Proof.
  revert n acc. induction fuel as [|fuel IH]; intros n acc; cbn [to_string_loop];
    case_match; cbn; auto; lia.
Qed.

Lemma parse_file_id_suffix s :
  (0 < String.length s)%nat → parse_file_id (s ++ ".file") = from_chars 0 s.
Proof.
  intros Hs. unfold parse_file_id. rewrite string_length_app.
  change (String.length ".file") with 5%nat. change (String.length suffix) with 5%nat.
  destruct (Nat.leb_spec (String.length s + 5) 5); [lia|].
  replace (String.length s + 5 - 5)%nat with (String.length s) by lia.
  pose proof (substring_app_r s ".file") as Hr. cbn [String.length] in Hr. rewrite Hr.
  rewrite bool_decide_eq_true_2 by done. cbn [orb negb]. by rewrite substring_app_l.
Qed.

(** ** Comparing manifests *)

(** Two entries between which nothing has to be sent. *)
Definition entry_synced (s r : T_ManifestEntry.t) : bool :=
  manifest_entries_same_identity s r &&
  if bool_decide (s.(T_ManifestEntry.kind) = EM_EntryKind.DIRECTORY ∨
                  s.(T_ManifestEntry.kind) = EM_EntryKind.SYMLINK)
  then manifest_entries_same_content s r
  else (r.(T_ManifestEntry.size) =? s.(T_ManifestEntry.size)) &&
       checksums_equal s.(T_ManifestEntry.checksum) r.(T_ManifestEntry.checksum).

(** The receiver's copy is a shorter version of the sender's file. *)
Definition entry_behind (s r : T_ManifestEntry.t) : bool :=
  manifest_entries_same_identity s r &&
  negb (bool_decide (s.(T_ManifestEntry.kind) = EM_EntryKind.DIRECTORY ∨
                     s.(T_ManifestEntry.kind) = EM_EntryKind.SYMLINK)) &&
  (r.(T_ManifestEntry.size) <? s.(T_ManifestEntry.size)).

Lemma checksum_fields_differ (a b : T_FileChecksum.t) :
  negb (bytes_equal a.(T_FileChecksum.value) b.(T_FileChecksum.value)) ||
  negb (bool_decide (a.(T_FileChecksum.algo) = b.(T_FileChecksum.algo))) ||
  negb (a.(T_FileChecksum.offset) =? b.(T_FileChecksum.offset)) ||
  negb (a.(T_FileChecksum.len) =? b.(T_FileChecksum.len)) = negb (checksums_equal a b).
Proof.
  unfold checksums_equal. destruct (bytes_equal _ _), (bool_decide _), (_ =? _), (_ =? _); done.
Qed.

Lemma diff_stream_step id s r S R :
  diff_stream id (s :: S) (r :: R) =
  if entry_synced s r then diff_stream id S R
  else if entry_behind s r
  then Ret (Some (T_SyncStart.mk id s.(T_ManifestEntry.file_id) r.(T_ManifestEntry.size)
                    EM_StartAction.RESUME_EXISTING))
  else match diff_stream id (s :: S) (r :: R) with Throw e => Throw e | _ => Throw "" end.
Proof.
  cbn [diff_stream]. rewrite checksum_fields_differ. unfold entry_synced, entry_behind.
  destruct (manifest_entries_same_identity s r); cbn [negb andb]; [|done].
  destruct (bool_decide _); cbn [negb andb].
  - by destruct (manifest_entries_same_content s r).
  - destruct (Z.gtb_spec r.(T_ManifestEntry.size) s.(T_ManifestEntry.size)),
      (Z.ltb_spec r.(T_ManifestEntry.size) s.(T_ManifestEntry.size)),
      (Z.eqb_spec r.(T_ManifestEntry.size) s.(T_ManifestEntry.size)); try lia; cbn [andb]; try done.
    by destruct (checksums_equal _ _).
Qed.

Lemma entry_synced_not_behind s r : entry_synced s r = true → entry_behind s r = false.
Proof.
  unfold entry_synced, entry_behind. destruct (manifest_entries_same_identity s r); [|done].
  destruct (bool_decide _); [done|]. cbn [negb andb]. intros H. apply andb_prop in H as [H _].
  apply Z.eqb_eq in H. apply Z.ltb_ge. lia.
Qed.

Lemma diff_stream_prefix id S1 R1 S2 R2 :
  Forall2 (λ s r, entry_synced s r = true) S1 R1 →
  diff_stream id (S1 ++ S2) (R1 ++ R2) = diff_stream id S2 R2.
Proof.
  induction 1 as [|s r S1 R1 Hsr _ IH]; [done|]. cbn [app]. rewrite diff_stream_step, Hsr. done.
Qed.

(** Split two lists at the first pair that is not in sync. *)
Lemma synced_split S R :
  ∃ S1 R1 S2 R2, S = S1 ++ S2 ∧ R = R1 ++ R2 ∧ Forall2 (λ s r, entry_synced s r = true) S1 R1 ∧
    match S2, R2 with s :: _, r :: _ => entry_synced s r = false | _, _ => True end.
Proof.
  revert R. induction S as [|s S IH]; intros R; [by exists [], [], [], R|].
  destruct R as [|r R]; [by exists [], [], (s :: S), []|].
  destruct (entry_synced s r) eqn:E; [|by exists [], [], (s :: S), (r :: R)].
  destruct (IH R) as (S1 & R1 & S2 & R2 & -> & -> & Hs & Hm).
  exists (s :: S1), (r :: R1), S2, R2. split_and!; [done|done|by constructor|done].
Qed.

(** ** Numbering *)
Lemma set_seq_seq i e : (set_seq i e).(T_ManifestEntry.seq) = i.
Proof. by destruct e. Qed.

Lemma number_entries_lookup i es k e :
  number_entries i es !! k = Some e → e.(T_ManifestEntry.seq) = i + 1 + Z.of_nat k.
Proof.
  revert i k. induction es as [|x es IH]; intros i k H; [done|].
  destruct k as [|k]; cbn in H; [injection H as <-; rewrite set_seq_seq; lia|].
  apply IH in H. lia.
Qed.

Lemma number_entries_ge i es e : e ∈ number_entries i es → i < e.(T_ManifestEntry.seq).
Proof. intros [k Hk]%list_elem_of_lookup. apply number_entries_lookup in Hk. lia. Qed.

Lemma number_entries_sorted i es : StronglySorted seq_le (number_entries i es).
Proof.
  revert i. induction es as [|x es IH]; intros i; cbn; [constructor|]. constructor; [apply IH|].
  apply Forall_forall. intros e He%number_entries_ge. left. rewrite set_seq_seq. lia.
Qed.

#[export] Instance seq_le_total : Total seq_le.
Proof. intros x y. unfold seq_le. lia. Qed.
#[export] Instance seq_le_trans : Transitive seq_le.
Proof. intros x y z. unfold seq_le. lia. Qed.

Lemma sort_numbered i es : merge_sort seq_le (number_entries i es) = number_entries i es.
Proof.
  apply (StronglySorted_unique_strong seq_le).
  - intros x y Hx Hy Hxy Hyx. rewrite merge_sort_Permutation in Hx.
    apply list_elem_of_lookup in Hx as [k Hk], Hy as [k' Hk'].
    assert (k = k') as -> by (apply number_entries_lookup in Hk as E1, Hk' as E2;
      unfold seq_le in *; lia). congruence.
  - apply Sorted_StronglySorted; [apply _|]. apply (Sorted_merge_sort seq_le).
  - apply number_entries_sorted.
  - apply merge_sort_Permutation.
Qed.

Lemma entry_lt_set_seq i j x y : entry_lt (set_seq i x) (set_seq j y) = entry_lt x y.
Proof. by destruct x, y. Qed.

Lemma number_entries_entry_sorted i es : Sorted entry_le es → Sorted entry_le (number_entries i es).
Proof.
  intros Hs. revert i. induction Hs as [|x es Hs IH Hd]; intros i; cbn; [constructor|].
  constructor; [apply IH|]. destruct Hd; cbn; constructor.
  unfold entry_le in *. by rewrite entry_lt_set_seq.
Qed.

Lemma string_ltb_asym s1 s2 : String.ltb s1 s2 = true → String.ltb s2 s1 = false.
Proof.
  unfold String.ltb. pose proof (String.compare_antisym s1 s2) as H. revert H.
  by destruct (String.compare s1 s2), (String.compare s2 s1).
Qed.

#[export] Instance entry_le_total : Total entry_le.
Proof.
  intros x y. unfold entry_le. destruct (entry_lt y x) eqn:E1; [right|by left].
  revert E1. unfold entry_lt. destruct (legacy_numeric x), (legacy_numeric y); cbn; try done.
  - intros H%Z.ltb_lt. apply Z.ltb_ge. lia.
  - apply string_ltb_asym.
Qed.

Definition node_kind (n : node) : EM_EntryKind.t :=
  match n with
  | File _ => EM_EntryKind.REGULAR_FILE | Dir => EM_EntryKind.DIRECTORY
  | Symlink _ => EM_EntryKind.SYMLINK
  end.

Lemma number_entries_elem i es e :
  e ∈ number_entries i es → ∃ x j, x ∈ es ∧ e = set_seq j x.
Proof.
  revert i. induction es as [|x es IH]; intros i He; cbn in He; [by apply elem_of_nil in He|].
  apply elem_of_cons in He as [->|He]; [exists x, (i + 1); split; [left|done]|].
  destruct (IH _ He) as (y & j & ? & ->). exists y, j. split; [by right|done].
Qed.

Section scan_facts.
Context {CRC : Crc32c} (regex_extended : string → exc (string → bool)).

(** What the manifest records of the entry [rel], whose node is [n]. *)
Definition entry_of (rel : path) (n : node) (e : T_ManifestEntry.t) : Prop :=
  e.(T_ManifestEntry.name) = generic_string rel ∧
  e.(T_ManifestEntry.kind) = node_kind n ∧
  e.(T_ManifestEntry.file_id) = entry_id (node_kind n) (generic_string rel) ∧
  e.(T_ManifestEntry.link_target) = match n with Symlink target => target | _ => ""%string end.

Lemma scan_entry_of root len filt rel n w e w' :
  scan_entry root len filt rel n w = (Ret (Some e), w') → entry_of rel n e.
Proof.
  unfold scan_entry. destruct n as [data| |target].
  - destruct (negb _); [done|]. intros H. inv_bind. destruct a as [size|]; [|done].
    inv_bind. injection H as <- <-. done.
  - by intros [= <- <-].
  - destruct (negb _); [done|]. by intros [= <- <-].
Qed.

Lemma scan_loop_elem root len excl filt es w l w' e :
  scan_loop root len excl filt es w = (Ret l, w') → e ∈ l →
  ∃ rel n, (rel, n) ∈ es ∧ visited excl rel = true ∧ entry_of rel n e.
Proof.
  revert w l w'. induction es as [|[rel n] es IH]; intros w l w' H He; cbn in H.
  - injection H as <- <-. by apply elem_of_nil in He.
  - destruct (visited excl rel) eqn:Hv; cbn [negb] in H.
    + inv_bind. destruct a as [x|]; injection H as <- <-.
      * apply elem_of_cons in He as [->|He].
        { exists rel, n. split_and!; [left|done|by eapply scan_entry_of]. }
        destruct (IH _ _ _ E0 He) as (r & m & ? & ? & ?). exists r, m. split_and!; [by right|done..].
      * destruct (IH _ _ _ E0 He) as (r & m & ? & ? & ?). exists r, m. split_and!; [by right|done..].
    + destruct (IH _ _ _ H He) as (r & m & ? & ? & ?). exists r, m. split_and!; [by right|done..].
Qed.
End scan_facts.

Lemma stable_path_id_bit name : Z.testbit (stable_path_id name) 63 = true.
Proof.
  unfold stable_path_id. rewrite Z.lor_spec.
  assert (Z.testbit 9223372036854775808 63 = true) as -> by reflexivity. apply orb_true_l.
Qed.

Lemma testbit_small x : 0 ≤ x < 2 ^ 63 → Z.testbit x 63 = false.
Proof.
  intros Hx. destruct (decide (x = 0)) as [->|Hne]; [apply Z.bits_0|].
  apply Z.bits_above_log2; [lia|]. apply Z.log2_lt_pow2; lia.
Qed.

Lemma parse_file_name id : in_u64 id → parse_file_id (file_name_for_id id) = Some id.
Proof.
  intros Hid. unfold file_name_for_id. rewrite parse_file_id_suffix by apply to_string_nonempty.
  unfold to_string. rewrite from_chars_to_string; [done|uint_lia|].
  change (10 ^ Z.of_nat 21) with 1000000000000000000000. uint_lia.
Qed.

(** ** Properties *)
Section properties.
Context {CRC : Crc32c}.

(** The checksum the sender takes of the last [max_len] bytes of a file
    is accepted by [checksum_matches] on the same file, and rejected on any
    shorter one; so a receiver that checks it never takes a truncated
    previous file for a complete one. *)
Theorem range_checksum_roundtrip w p data max_len :
  file_at w p data → 0 < max_len < 18446744073709551616 →
  ∃ c, make_crc32c_range_checksum p max_len w = (Ret c, w) ∧
    checksum_matches c p w = (Ret true, w) ∧
    ∀ w' p' data', file_at w' p' data' → zlen data' < zlen data →
      checksum_matches c p' w' = (Ret false, w').
Proof.
  intros Hw Hm. pose proof Hw as (_ & _ & Hsz). pose proof (zlen_nonneg data).
  rewrite (make_checksum_spec w p data) by (done || lia). eexists. split; [done|].
  destruct (Z.eqb_spec (zlen data) 0) as [E|E].
  { split; [done|]. intros w' p' data' _ Hlt. pose proof (zlen_nonneg data'). lia. }
  set (c := T_FileChecksum.mk _ _ _ _).
  assert (T_FileChecksum.ok c) as Hc by (unfold c, T_FileChecksum.ok; split_and!; cbn; done || uint_lia).
  split.
  - rewrite (checksum_matches_crc c p w data) by done.
    rewrite bool_decide_eq_true_2; [done|]. cbn. split; [lia|done].
  - intros w' p' data' Hw' Hlt. rewrite (checksum_matches_crc c p' w' data') by done.
    rewrite bool_decide_eq_false_2; [done|]. cbn. intros [? _]. lia.
Qed.

(** C38: the manifest of a directory numbers its entries 1, 2, 3, ... in the
    order of [entry_lt], and each entry describes (by name, kind, id and link
    target) something that lies below the directory, outside the program's
    own [.yisync_tmp] and outside the excluded top-level entries. *)
Theorem scan_manifest_correct regex stream_id root len excl rx w s w' :
  scan_manifest_stream regex stream_id root len excl rx w = (Ret s, w') →
  (∀ i e, s.(T_Manifest1Stream.entries) !! i = Some e →
     e.(T_ManifestEntry.seq) = Z.of_nat i + 1) ∧
  Sorted entry_le s.(T_Manifest1Stream.entries) ∧
  ∀ e, e ∈ s.(T_Manifest1Stream.entries) →
    ∃ q rel n, resolve w.(nodes) root = Ok q ∧ (rel, n) ∈ descendants w.(nodes) q ∧
      visited excl rel = true ∧ entry_of rel n e.
Proof.
  unfold scan_manifest_stream. intros H. apply M_bind_inv in H as (found & w1 & E & H).
  assert (w1.(nodes) = w.(nodes)) as Hn.
  { unfold with_ec, exists_, syscall in E. destruct w as [t [|[]]]; cbn in E;
      destruct (status t root) as [|[]]; cbn in E; by injection E as <- <-. }
  assert (∀ s : T_Manifest1Stream.t, s.(T_Manifest1Stream.entries) = [] →
    (∀ (i : nat) e, s.(T_Manifest1Stream.entries) !! i = Some e → e.(T_ManifestEntry.seq) = Z.of_nat i + 1) ∧
    Sorted entry_le s.(T_Manifest1Stream.entries) ∧
    ∀ e, e ∈ s.(T_Manifest1Stream.entries) → ∃ q rel n, resolve w.(nodes) root = Ok q ∧
      (rel, n) ∈ descendants w.(nodes) q ∧ visited excl rel = true ∧ entry_of rel n e) as Hempty.
  { intros s0 ->. split_and!; [done|constructor|]. intros e He. by apply elem_of_nil in He. }
  destruct found as [[]|]; [|injection H as <- <-; by apply Hempty..].
  inv_bind. assert (s0.(nodes) = w.(nodes)) as Hn0.
  { rewrite <- Hn. destruct (bool_decide _); [by injection E0 as <- <-|].
    destruct (regex rx); [by injection E0 as <- <-|done]. }
  injection E1 as <- <-. rewrite Hn0 in E2. injection H as <- <-. cbn.
  rewrite sort_numbered. split_and!.
  - intros i e He. apply number_entries_lookup in He. lia.
  - apply number_entries_entry_sorted, (Sorted_merge_sort entry_le).
  - intros e He. apply number_entries_elem in He as (x & j & Hx & ->).
    rewrite merge_sort_Permutation in Hx.
    destruct (scan_loop_elem _ _ _ _ _ _ _ _ _ E2 Hx) as (rel & n & Hin & Hv & He).
    destruct (resolve w.(nodes) root) as [q|] eqn:Er; [|by apply elem_of_nil in Hin].
    destruct (node_at w.(nodes) q) as [[]|]; try by apply elem_of_nil in Hin.
    exists q, rel, n. split_and!; [done..|]. by destruct x.
Qed.
End properties.

(** An append file's name determines its id: [parse_file_id] of
    [file_name_for_id] gives back every 64-bit id, and an id below 2^63 is
    never the hashed id of any path. *)
Theorem file_id_roundtrip id :
  in_u64 id →
  parse_file_id (file_name_for_id id) = Some id ∧
  (id < 9223372036854775808 → ∀ name, stable_path_id name ≠ id).
Proof.
  intros Hid. split; [by apply parse_file_name|]. intros Hlt name E.
  pose proof (stable_path_id_bit name) as Hbit. rewrite E, testbit_small in Hbit; [done|].
  change (2 ^ 63) with 9223372036854775808. uint_lia.
Qed.

(** C28: [diff_stream] finds the first entry where the receiver is not in sync:
    the lists split after a common synchronised prefix; past it nothing is to
    be sent when the sender's list ends, the next entry is to be created when
    the receiver's list ends, a shorter regular file with the same identity is
    resumed at its size, and anything else is an error. *)
Theorem diff_stream_correct id sender receiver :
  ∃ S1 R1 S2 R2, sender = S1 ++ S2 ∧ receiver = R1 ++ R2 ∧
    Forall2 (λ s r, entry_synced s r = true) S1 R1 ∧
    match S2, R2 with
    | [], _ => diff_stream id sender receiver = Ret None
    | s :: _, [] => diff_stream id sender receiver =
        Ret (Some (T_SyncStart.mk id s.(T_ManifestEntry.file_id) 0 EM_StartAction.CREATE_MISSING))
    | s :: _, r :: _ => entry_synced s r = false ∧
        if entry_behind s r
        then diff_stream id sender receiver =
          Ret (Some (T_SyncStart.mk id s.(T_ManifestEntry.file_id) r.(T_ManifestEntry.size)
                       EM_StartAction.RESUME_EXISTING))
        else ∃ what, diff_stream id sender receiver = Throw what
    end.
Proof.
  destruct (synced_split sender receiver) as (S1 & R1 & S2 & R2 & -> & -> & Hs & Hm).
  exists S1, R1, S2, R2. split_and!; [done..|]. rewrite diff_stream_prefix by done.
  destruct S2 as [|s S2]; [done|]. destruct R2 as [|r R2]; [done|].
  split; [done|]. pose proof (diff_stream_step id s r S2 R2) as Hstep. rewrite Hm in Hstep.
  destruct (entry_behind s r); [done|].
  destruct (diff_stream id (s :: S2) (r :: R2)); [discriminate Hstep|by eexists].
Qed.

(** [chunk_count_for_size] is the ceiling [file_size / chunk_size]
    whenever the 64-bit sum [file_size + chunk_size] does not exceed 2^64;
    beyond that the sum wraps and the count is too small for the file. *)
Theorem chunk_count_exact file_size chunk_size :
  in_u64 file_size → 0 < chunk_size < 18446744073709551616 →
  ∃ n, chunk_count_for_size file_size chunk_size = Ret n ∧
    if decide (file_size + chunk_size ≤ 18446744073709551616)
    then (n - 1) * chunk_size < file_size ≤ n * chunk_size ∨ file_size = 0 ∧ n = 0
    else n * chunk_size < file_size.
Proof.
  intros Hf Hc. unfold chunk_count_for_size. destruct (Z.eqb_spec chunk_size 0); [lia|].
  eexists. split; [done|]. destruct (Z.eqb_spec file_size 0) as [->|Hne].
  - rewrite decide_True by lia. by right.
  - case_decide as Hd.
    + left. assert (u64 (u64 (file_size + chunk_size) - 1) = file_size + chunk_size - 1) as ->
        by uint_lia.
      pose proof (Z.div_mod (file_size + chunk_size - 1) chunk_size ltac:(lia)).
      pose proof (Z.mod_pos_bound (file_size + chunk_size - 1) chunk_size ltac:(lia)). nia.
    + assert (u64 (u64 (file_size + chunk_size) - 1) = file_size + chunk_size - 1 - 18446744073709551616)
        as -> by uint_lia.
      pose proof (Z.div_mod (file_size + chunk_size - 1 - 18446744073709551616) chunk_size ltac:(lia)).
      pose proof (Z.mod_pos_bound (file_size + chunk_size - 1 - 18446744073709551616) chunk_size ltac:(lia)).
      uint_lia || nia.
Qed.

(** ** Calls that only read *)

(** The tree is the same, and no error appears from nowhere. *)
Definition quiet (w w' : fsys) : Prop :=
  w'.(nodes) = w.(nodes) ∧ (w.(faults) = [] → w'.(faults) = []).

#[export] Instance quiet_preorder : PreOrder quiet.
Proof.
  split; [done|]. intros w1 w2 w3 [Hn1 Hf1] [Hn2 Hf2]. split; [congruence|auto].
Qed.

Definition read_only {A} (m : M fsys A) : Prop := ∀ w, quiet w (m w).2.

Lemma read_only_run {A} (m : M fsys A) w r w' : read_only m → m w = (r, w') → quiet w w'.
Proof. intros Hm E. specialize (Hm w). by rewrite E in Hm. Qed.

Lemma or_throw_inv {A} what (io : IO A) w a w' : or_throw what io w = (Ret a, w') → io w = (Ok a, w').
Proof. unfold or_throw. destruct (io w) as [[]]; congruence. Qed.

Lemma read_only_ret {A} (a : A) : read_only (mret a).
Proof. done. Qed.
Lemma read_only_throw {A} e : read_only (throw e : M fsys A).
Proof. done. Qed.
Lemma read_only_lift {A} (e : exc A) : read_only (lift_exc e).
Proof. done. Qed.
Lemma read_only_get : read_only get.
Proof. done. Qed.

Lemma read_only_bind {A B} (m : M fsys A) (k : A → M fsys B) :
  read_only m → (∀ a, read_only (k a)) → read_only (m ≫= k).
Proof.
  intros Hm Hk w. unfold mbind, M_bind. specialize (Hm w). destruct (m w) as [[a|e] w1]; [|done].
  transitivity w1; [done|apply Hk].
Qed.

Lemma next_fault_quiet w : quiet w (next_fault w).2.
Proof. unfold next_fault, quiet. by destruct (faults w) eqn:E. Qed.

Lemma syscall_quiet {A} (f : gmap path node → res (A * gmap path node)) w :
  (∀ t a n, f t = Ok (a, n) → n = t) → quiet w (syscall f w).2.
Proof.
  intros Hf. unfold syscall. pose proof (next_fault_quiet w) as Hn.
  destruct (next_fault w) as [flt w1]. cbn in Hn. destruct flt; cbn; [|done|];
    (destruct (f (nodes w1)) as [[a1 n1]|] eqn:E; cbn; [|done]; apply Hf in E as ->;
     transitivity w1; [done|by destruct w1]).
Qed.

Lemma read_only_with_ec {A} (io : IO A) : (∀ w, quiet w (io w).2) → read_only (with_ec io).
Proof. intros H w. unfold with_ec. specialize (H w). by destruct (io w). Qed.

Lemma read_only_or_throw {A} what (io : IO A) : (∀ w, quiet w (io w).2) → read_only (or_throw what io).
Proof. intros H w. unfold or_throw. specialize (H w). by destruct (io w) as [[]]. Qed.

Ltac solve_quiet :=
  apply syscall_quiet; intros ? ? ?; repeat case_match; by intros [= <- <-].

Lemma exists_quiet p w : quiet w (exists_ p w).2.
Proof. solve_quiet. Qed.
Lemma file_size_quiet p w : quiet w (file_size p w).2.
Proof. solve_quiet. Qed.
Lemma read_file_quiet p w : quiet w (read_file p w).2.
Proof. solve_quiet. Qed.
Lemma fsync_file_quiet p w : quiet w (fsync_file p w).2.
Proof. solve_quiet. Qed.
Lemma fsync_dir_quiet p w : quiet w (fsync_dir p w).2.
Proof. solve_quiet. Qed.

#[export] Hint Resolve read_only_ret read_only_throw read_only_lift read_only_get read_only_bind
  read_only_with_ec read_only_or_throw exists_quiet file_size_quiet read_file_quiet
  fsync_file_quiet fsync_dir_quiet : yisync.

(** Prove [read_only] of a program by its structure. *)
Ltac solve_read_only :=
  repeat match goal with
  | |- read_only (_ ≫= _) => apply read_only_bind; [|intros ?]
  | |- read_only (if ?b then _ else _) => destruct b
  | |- read_only (match ?x with _ => _ end) => destruct x
  | |- read_only (let _ := _ in _) => cbv zeta
  end; eauto with yisync.

Lemma read_only_file_size_or_zero p : read_only (file_size_or_zero p).
Proof. unfold file_size_or_zero. solve_read_only. Qed.
#[export] Hint Resolve read_only_file_size_or_zero : yisync.

Section read_only_facts.
Context {CRC : Crc32c}.

Lemma read_only_file_range p offset len : read_only (crc32c_file_range p offset len).
Proof. unfold crc32c_file_range. solve_read_only. Qed.
#[local] Hint Resolve read_only_file_range : yisync.

Lemma read_only_matches c p : read_only (checksum_matches c p).
Proof. unfold checksum_matches. solve_read_only. Qed.

Lemma read_only_make_checksum p n : read_only (make_crc32c_range_checksum p n).
Proof. unfold make_crc32c_range_checksum. solve_read_only. Qed.
#[local] Hint Resolve read_only_make_checksum : yisync.

Lemma read_only_scan regex id root len excl rx :
  read_only (scan_manifest_stream regex id root len excl rx).
Proof.
  assert (∀ filt es, read_only (scan_loop root len excl filt es)) as Hloop.
  { intros filt es. induction es as [|[rel n] es IH]; cbn; [eauto with yisync|].
    destruct (negb _); [done|]. apply read_only_bind; [|intros e; apply read_only_bind; eauto with yisync].
    unfold scan_entry. solve_read_only. }
  unfold scan_manifest_stream. solve_read_only.
Qed.
End read_only_facts.
#[export] Hint Resolve read_only_matches read_only_scan : yisync.

(** *** The sizes a scan records *)
Lemma syscall_Ok {A} (f : gmap path node → res (A * gmap path node)) w a w' :
  syscall f w = (Ok a, w') → ∃ n, f w.(nodes) = Ok (a, n) ∧ w'.(nodes) = n.
Proof.
  unfold syscall, next_fault. destruct w as [t [|[] fs]]; cbn;
    destruct (f t) as [[a' t']|]; intros H; try discriminate;
    injection H as <- <-; by exists t'.
Qed.

Lemma file_size_inv p w size w' :
  with_ec (file_size p) w = (Ret (Ok size), w') → ∃ data, status w.(nodes) p = Ok (File data) ∧ size = zlen data.
Proof.
  unfold with_ec, file_size. destruct (syscall _ w) as [r w1] eqn:E. intros [= -> <-].
  apply syscall_Ok in E as (t' & E & _). destruct (status _ _) as [[]|]; try done. injection E as <- _. by eexists.
Qed.

Lemma file_size_or_zero_inv p w size w' :
  file_size_or_zero p w = (Ret size, w') →
  size = 0 ∨ ∃ data, status w.(nodes) p = Ok (File data) ∧ size = zlen data.
Proof.
  unfold file_size_or_zero. intros H. inv_bind. destruct a as [n|]; injection H as <- <-; [right|by left].
  by apply file_size_inv in E.
Qed.

(** The entry is of something below [root]: the size of a regular file is that
    of the file its path leads to, anything else has the size zero. *)
Definition measured (t : gmap path node) (root : path) (e : T_ManifestEntry.t) : Prop :=
  ∃ rel n, entry_of rel n e ∧
    match n with
    | File _ => ∃ data, status t (root ++ rel) = Ok (File data) ∧ e.(T_ManifestEntry.size) = zlen data
    | Dir | Symlink _ => e.(T_ManifestEntry.size) = 0
    end.

Section measures.
Context {CRC : Crc32c} (regex_extended : string → exc (string → bool)).

Lemma read_only_entry root len filt rel n : read_only (scan_entry root len filt rel n).
Proof. pose proof (λ q, read_only_make_checksum q len). unfold scan_entry. solve_read_only. Qed.

Lemma scan_entry_measured root len filt rel n w e w' :
  scan_entry root len filt rel n w = (Ret (Some e), w') → measured w.(nodes) root e.
Proof.
  intros Hr. exists rel, n. split; [by eapply scan_entry_of|]. unfold scan_entry in Hr. destruct n as [data| |target].
  - destruct (negb _); [done|]. inv_bind. destruct a as [size|]; [|done]. inv_bind. injection Hr as <- <-.
    apply file_size_inv in E as (data' & Hs & ->). by exists data'.
  - by injection Hr as <- <-.
  - destruct (negb _); [done|]. by injection Hr as <- <-.
Qed.

Lemma scan_loop_measured root len excl filt es w l w' e :
  scan_loop root len excl filt es w = (Ret l, w') → e ∈ l → measured w.(nodes) root e.
Proof.
  revert w l w'. induction es as [|[rel n] es IH]; intros w l w' Hr He; cbn in Hr.
  { injection Hr as <- <-. by apply elem_of_nil in He. }
  destruct (visited excl rel); cbn [negb] in Hr; [|by eapply IH]. inv_bind.
  destruct (read_only_run _ _ _ _ (read_only_entry root len filt rel n) E) as [Hw _].
  destruct a as [x|]; injection Hr as <- <-; [|rewrite <- Hw; by eapply IH].
  apply elem_of_cons in He as [->|He]; [by eapply scan_entry_measured|]. rewrite <- Hw. by eapply IH.
Qed.

Lemma measured_seq t root e j : measured t root e → measured t root (set_seq j e).
Proof. intros (rel & n & He & Hn). exists rel, n. by destruct e. Qed.

Lemma scan_measured sid root len excl rx w s w' e :
  scan_manifest_stream regex_extended sid root len excl rx w = (Ret s, w') →
  e ∈ s.(T_Manifest1Stream.entries) → measured w.(nodes) root e.
Proof.
  intros Hr He. unfold scan_manifest_stream in Hr. apply M_bind_inv in Hr as (found & w1 & E & Hr).
  assert (w1.(nodes) = w.(nodes)) as Hw1.
  { assert (read_only (with_ec (exists_ root))) as Hq by eauto with yisync. by destruct (read_only_run _ _ _ _ Hq E) as [-> _]. }
  destruct found as [[]|]; try (injection Hr as <- <-; by apply elem_of_nil in He).
  apply M_bind_inv in Hr as (filt & w2 & Ef & Hr). apply M_bind_inv in Hr as (w3 & w4 & Eg & Hr).
  injection Eg as <- <-. apply M_bind_inv in Hr as (l & w5 & El & Hr). injection Hr as <- <-. cbn in He.
  assert (w2.(nodes) = w.(nodes)) as Hw2.
  { destruct (bool_decide _); [by injection Ef as _ <-|]. destruct (regex_extended rx); [by injection Ef as _ <-|done]. }
  rewrite merge_sort_Permutation in He. apply number_entries_elem in He as (x & j & Hx & ->).
  rewrite merge_sort_Permutation in Hx. apply measured_seq. rewrite <- Hw2. by eapply scan_loop_measured.
Qed.
End measures.

Definition sample_tree : gmap path node :=
  <[["s"] := Dir]> (<[["s"; "1.file"] := File [x01; x02; x03]]> (<[["s"; "sub"] := Dir]>
  (<[["s"; "sub"; "a"] := File [x07]]> (<[["s"; ".yisync_tmp"] := Dir]> ∅)))).
Definition sample_fsys : fsys := mk_fsys sample_tree [].

Lemma range_checksum_roundtrip_witness :
  file_at sample_fsys ["s"; "1.file"] [x01; x02; x03] ∧
  ∃ c, make_crc32c_range_checksum ["s"; "1.file"] 2 sample_fsys = (Ret c, sample_fsys) ∧
    checksum_matches c ["s"; "1.file"] sample_fsys = (Ret true, sample_fsys) ∧
    checksum_matches c ["s"; "sub"; "a"] sample_fsys = (Ret false, sample_fsys).
Proof.
  assert (file_at sample_fsys ["s"; "1.file"] [x01; x02; x03]) as H by (split_and!; vm_compute; reflexivity).
  split; [exact H|].
  destruct (range_checksum_roundtrip sample_fsys ["s"; "1.file"] [x01; x02; x03] 2 H ltac:(lia))
    as (c & Hc & Hm & Hs).
  exists c. split; [exact Hc|]. split; [exact Hm|].
  apply (Hs sample_fsys ["s"; "sub"; "a"] [x07]); [split_and!; vm_compute; reflexivity|].
  vm_compute. reflexivity.
Defined.

Lemma scan_manifest_correct_witness :
  ∃ s w', scan_manifest_stream (λ _, Throw "") 1 ["s"] 4 [] "" sample_fsys = (Ret s, w') ∧
    T_ManifestEntry.name <$> s.(T_Manifest1Stream.entries) = ["1.file"; "sub"; "sub/a"] ∧
    ∀ i e, s.(T_Manifest1Stream.entries) !! i = Some e → e.(T_ManifestEntry.seq) = Z.of_nat i + 1.
Proof.
  eexists _, _.
  assert (∀ s w', scan_manifest_stream (λ _, Throw "") 1 ["s"] 4 [] "" sample_fsys = (Ret s, w') →
    ∀ i e, s.(T_Manifest1Stream.entries) !! i = Some e → e.(T_ManifestEntry.seq) = Z.of_nat i + 1)
    as Hseq.
  { intros s w' H.
    exact (proj1 (scan_manifest_correct (λ _, Throw "") 1 ["s"] 4 [] "" sample_fsys s w' H)). }
  split; [vm_compute; reflexivity|]. split; [vm_compute; reflexivity|].
  apply Hseq with (w' := sample_fsys). vm_compute. reflexivity.
Defined.

Lemma file_id_roundtrip_witness :
  parse_file_id (file_name_for_id 18446744073709551615) = Some 18446744073709551615 ∧
  stable_path_id "sub/a" ≠ 7.
Proof.
  split; [apply (file_id_roundtrip 18446744073709551615); uint_lia|].
  apply (proj2 (file_id_roundtrip 7 ltac:(uint_lia))). lia.
Defined.

Lemma chunk_count_exact_witness :
  (∃ n, chunk_count_for_size 65537 65536 = Ret n) ∧
  chunk_count_for_size 65537 18446744073709551615 = Ret 0.
Proof.
  split; [|reflexivity].
  destruct (chunk_count_exact 65537 65536 ltac:(uint_lia) ltac:(lia)) as (n & Hn & _). by exists n.
Defined.

(** The wrap of [chunk_count_for_size]: a file of 65537 bytes in no chunks. *)
Lemma chunk_count_overflow :
  chunk_count_for_size 65537 18446744073709551615 = Ret 0 ∧ should_use_chunk_mode 65537 = true.
Proof. by vm_compute. Qed.

(** Two file names with one id. *)
Lemma parse_file_id_not_injective : parse_file_id "01.file" = parse_file_id "1.file".
Proof. by vm_compute. Qed.
