(* ===== verification/Scheduler.v ===== *)
(** * Line scheduling: [include/network/yisync_scheduler.hpp], [src/network/yisync_scheduler.cpp]

    [TokenBucket] limits the rate of a line; [T_MultiLineScheduler] grants sends
    to the best line within its receive window and its tokens, and keeps what
    is in flight until a heartbeat completes it or the line loses it.  All
    arithmetic is that of [std::uint64_t]. *)
From S2P Require Import Prelude Wire Protocol.
#[local] Open Scope Z_scope.

(** ** Token bucket *)
Module T_TokenBucketConfig.
Record t := mk { tokens_per_tick : Z; capacity : Z; tick : Z }.
Definition ok (c : t) : Prop :=
  in_u64 c.(tokens_per_tick) ∧ in_u64 c.(capacity).
End T_TokenBucketConfig.

Module TokenBucket.
Record t := mk { config_ : T_TokenBucketConfig.t; tokens_ : Z }.

Definition create (config : T_TokenBucketConfig.t) : exc t :=
  if config.(T_TokenBucketConfig.tick) <=? 0 then Throw "token bucket tick must be positive"
  else if config.(T_TokenBucketConfig.capacity) =? 0
  then Throw "token bucket capacity must be positive"
  else if config.(T_TokenBucketConfig.tokens_per_tick) =? 0
  then Throw "token bucket tokens_per_tick must be positive"
  else Ret (mk config config.(T_TokenBucketConfig.capacity)).

Definition available (b : t) : Z := b.(tokens_).
Definition capacity (b : t) : Z := b.(config_).(T_TokenBucketConfig.capacity).

Definition refill_ticks (ticks : Z) (b : t) : t :=
  if ticks =? 0 then b
  else
    let tokens_per_tick := b.(config_).(T_TokenBucketConfig.tokens_per_tick) in
    let added := if ticks >? UINT64_MAX / tokens_per_tick then UINT64_MAX
                 else u64 (ticks * tokens_per_tick) in
    mk b.(config_)
      (Z.min (capacity b)
         (if b.(tokens_) >? UINT64_MAX - added then UINT64_MAX else u64 (b.(tokens_) + added))).

Definition can_consume (bytes : Z) (b : t) : bool := bytes <=? b.(tokens_).

Definition try_consume (bytes : Z) (b : t) : bool * t :=
  if negb (can_consume bytes b) then (false, b)
  else (true, mk b.(config_) (u64 (b.(tokens_) - bytes))).
End TokenBucket.

(** ** Data *)
Module T_LineConfig.
Record t := mk {
  id : Z; name : string; limiter : T_TokenBucketConfig.t;
  initial_recv_window_bytes : Z; heartbeat_timeout_ticks : Z; initially_connected : bool
}.
End T_LineConfig.

Module EM_SendKind.
Inductive t := CREATE | DATA | FILE_BEGIN | CHUNK | FILE_COMMIT | Unnamed (v : Z).
#[export] Instance eq_dec : EqDecision t.
Proof. solve_decision. Defined.
End EM_SendKind.
Export (hints) EM_SendKind.

Module T_SendRequest.
Record t := mk {
  stream_id : Z; file_id : Z; seq : Z; offset : Z; end_offset : Z; bytes : Z;
  split_allowed : bool; kind : EM_SendKind.t; chunk_index : Z
}.
End T_SendRequest.

Module T_SendGrant.
Record t := mk { line_id : Z; bytes : Z }.
End T_SendGrant.

Module T_PendingSend.
Record t := mk {
  kind : EM_SendKind.t; stream_id : Z; file_id : Z; seq : Z; offset : Z; end_offset : Z;
  chunk_index : Z; bytes : Z
}.
#[export] Instance eq_dec : EqDecision t.
Proof. solve_decision. Defined.
End T_PendingSend.
Export (hints) T_PendingSend.

Module T_LostSend.
Record t := mk {
  line_id : Z; kind : EM_SendKind.t; stream_id : Z; file_id : Z; seq : Z; offset : Z;
  end_offset : Z; chunk_index : Z; bytes : Z
}.
End T_LostSend.

Module T_LineSnapshot.
Record t := mk {
  id : Z; name : string; tokens : Z; inflight_bytes : Z; recv_window_bytes : Z; connected : bool;
  negotiated : bool; healthy : bool; stale : bool; missed_heartbeat_ticks : Z;
  consecutive_failures : Z; pending_sends : Z; last_completed_bytes : Z
}.
End T_LineSnapshot.

Module LineState.
Record t := mk {
  config : T_LineConfig.t; bucket : TokenBucket.t; inflight_bytes : Z; recv_window_bytes : Z;
  missed_heartbeat_ticks : Z; consecutive_failures : Z; last_completed_bytes : Z;
  connected : bool; negotiated : bool; healthy : bool; stale : bool;
  pending : list T_PendingSend.t
}.
End LineState.

(** ** The scheduler *)
Module T_MultiLineScheduler.
Import LineState.

Record t := mk_sched { lines_ : list LineState.t; lost_sends_ : list T_LostSend.t }.

(** The index of the first line with that id. *)
Definition find_line (line_id : Z) (ls : list LineState.t) : option nat :=
  fst <$> list_find (λ line, line.(config).(T_LineConfig.id) = line_id) ls.

Fixpoint add_lines (ls : list LineState.t) (configs : list T_LineConfig.t) : exc (list LineState.t) :=
  match configs with
  | [] => Ret ls
  | config :: configs =>
      if config.(T_LineConfig.id) =? 0 then Throw "line id must be non-zero"
      else match find_line config.(T_LineConfig.id) ls with
           | Some _ => Throw "duplicate line id"
           | None =>
               bucket ← TokenBucket.create config.(T_LineConfig.limiter);
               let up := config.(T_LineConfig.initially_connected) in
               add_lines
                 (ls ++ [mk config bucket 0 config.(T_LineConfig.initial_recv_window_bytes)
                           0 0 0 up up up false []]) configs
           end
  end.

Definition create (configs : list T_LineConfig.t) : exc t :=
  match configs with
  | [] => Throw "at least one line is required"
  | _ => ls ← add_lines [] configs; Ret (mk_sched ls [])
  end.

Definition refill_line (ticks : Z) (line : LineState.t) : LineState.t :=
  let bucket := TokenBucket.refill_ticks ticks line.(bucket) in
  if negb line.(connected) || (ticks =? 0) then
    mk line.(config) bucket line.(inflight_bytes) line.(recv_window_bytes)
      line.(missed_heartbeat_ticks) line.(consecutive_failures) line.(last_completed_bytes)
      line.(connected) line.(negotiated) line.(healthy) line.(stale) line.(pending)
  else
    let missed := if line.(missed_heartbeat_ticks) >? UINT64_MAX - ticks then UINT64_MAX
                  else u64 (line.(missed_heartbeat_ticks) + ticks) in
    let timeout := line.(config).(T_LineConfig.heartbeat_timeout_ticks) in
    let stale := if negb (bool_decide (line.(pending) = [])) && (timeout >? 0) && (missed >? timeout)
                 then true else line.(stale) in
    mk line.(config) bucket line.(inflight_bytes) line.(recv_window_bytes)
      missed line.(consecutive_failures) line.(last_completed_bytes)
      line.(connected) line.(negotiated) line.(healthy) stale line.(pending).

Definition refill_ticks (ticks : Z) (s : t) : t :=
  mk_sched (refill_line ticks <$> s.(lines_)) s.(lost_sends_).

Definition score_line (line : LineState.t) (request : T_SendRequest.t) : Z :=
  let window_headroom := u64 (line.(recv_window_bytes) - line.(inflight_bytes)) in
  let token_headroom := u64 (TokenBucket.available line.(bucket) - request.(T_SendRequest.bytes)) in
  let failure_penalty := u64 (u64 (Z.min line.(consecutive_failures) 16 * 1024) * 1024) in
  let inflight_penalty := line.(inflight_bytes) / 2 in
  let stale_penalty := u64 (line.(missed_heartbeat_ticks) * 1024) in
  let completed_bonus := Z.min line.(last_completed_bytes) (1024 * 1024) in
  let raw_score := u64 (u64 (window_headroom + token_headroom) + completed_bonus) in
  let penalty := u64 (u64 (failure_penalty + inflight_penalty) + stale_penalty) in
  if raw_score >? penalty then u64 (raw_score - penalty) else 1.

(** The [continue]s of the loop of [try_acquire]. *)
Definition eligible (line : LineState.t) (request : T_SendRequest.t) : bool :=
  if negb line.(connected) || negb line.(negotiated) || negb line.(healthy) || line.(stale) then false
  else if line.(recv_window_bytes) <=? line.(inflight_bytes) then false
  else if u64 (line.(recv_window_bytes) - line.(inflight_bytes)) <? request.(T_SendRequest.bytes)
  then false
  else TokenBucket.can_consume request.(T_SendRequest.bytes) line.(bucket).

(** [best] is the index of the best line so far with its score. *)
Fixpoint choose_best {A} (ok : A → bool) (score : A → Z) (i : nat) (best : option (nat * Z))
    (ls : list A) : option (nat * Z) :=
  match ls with
  | [] => best
  | line :: ls =>
      let best :=
        if negb (ok line) then best
        else match best with
             | None => Some (i, score line)
             | Some (_, best_score) => if score line >? best_score then Some (i, score line) else best
             end in
      choose_best ok score (S i) best ls
  end.

Definition pending_of (request : T_SendRequest.t) : T_PendingSend.t :=
  T_PendingSend.mk request.(T_SendRequest.kind) request.(T_SendRequest.stream_id)
    request.(T_SendRequest.file_id) request.(T_SendRequest.seq) request.(T_SendRequest.offset)
    request.(T_SendRequest.end_offset) request.(T_SendRequest.chunk_index)
    request.(T_SendRequest.bytes).

Definition grant_line (request : T_SendRequest.t) (bucket : TokenBucket.t) (best : LineState.t) : LineState.t :=
  let fresh := bool_decide (best.(pending) = []) in
  mk best.(config) bucket (u64 (best.(inflight_bytes) + request.(T_SendRequest.bytes)))
    best.(recv_window_bytes) (if fresh then 0 else best.(missed_heartbeat_ticks))
    best.(consecutive_failures) best.(last_completed_bytes) best.(connected) best.(negotiated)
    best.(healthy) (if fresh then false else best.(stale)) (best.(pending) ++ [pending_of request]).

Definition try_acquire (request : T_SendRequest.t) (s : t) : option T_SendGrant.t * t :=
  if request.(T_SendRequest.bytes) =? 0 then (None, s)
  else match choose_best (λ line, eligible line request) (λ line, score_line line request) 0 None s.(lines_) with
       | None => (None, s)
       | Some (i, _) =>
           match s.(lines_) !! i with
           | None => (None, s)
           | Some best =>
               match TokenBucket.try_consume request.(T_SendRequest.bytes) best.(bucket) with
               | (false, _) => (None, s)
               | (true, bucket) =>
                   (Some (T_SendGrant.mk best.(config).(T_LineConfig.id) request.(T_SendRequest.bytes)),
                    mk_sched (<[i := grant_line request bucket best]> s.(lines_)) s.(lost_sends_))
               end
           end
       end.

(** [clear_inflight] reports every pending send of the line as lost. *)
Definition lost_of (line : LineState.t) (send : T_PendingSend.t) : T_LostSend.t :=
  T_LostSend.mk line.(config).(T_LineConfig.id) send.(T_PendingSend.kind)
    send.(T_PendingSend.stream_id) send.(T_PendingSend.file_id) send.(T_PendingSend.seq)
    send.(T_PendingSend.offset) send.(T_PendingSend.end_offset) send.(T_PendingSend.chunk_index)
    send.(T_PendingSend.bytes).

Definition clear_inflight (line : LineState.t) : LineState.t * list T_LostSend.t :=
  (mk line.(config) line.(bucket) 0 line.(recv_window_bytes) line.(missed_heartbeat_ticks)
     line.(consecutive_failures) 0 line.(connected) line.(negotiated) line.(healthy)
     line.(stale) [],
   lost_of line <$> line.(pending)).

(** Find the line, change it, append what it lost. *)
Definition with_line (line_id : Z) (f : LineState.t → LineState.t * list T_LostSend.t) : M t unit := λ s,
  match find_line line_id s.(lines_) with
  | None => (Throw "unknown line id", s)
  | Some i =>
      match s.(lines_) !! i with
      | None => (Throw "unknown line id", s)
      | Some line =>
          let '(line, lost) := f line in
          (Ret tt, mk_sched (<[i := line]> s.(lines_)) (s.(lost_sends_) ++ lost))
      end
  end.

Definition on_line_connected (line_id : Z) : M t unit :=
  with_line line_id (λ line, clear_inflight
    (mk line.(config) line.(bucket) line.(inflight_bytes)
       line.(config).(T_LineConfig.initial_recv_window_bytes) 0 line.(consecutive_failures) 0
       true false false false line.(pending))).

Definition on_line_negotiated (line_id recv_window_bytes : Z) : M t unit :=
  with_line line_id (λ line,
    (mk line.(config) line.(bucket) line.(inflight_bytes)
       (if recv_window_bytes =? 0 then line.(config).(T_LineConfig.initial_recv_window_bytes)
        else recv_window_bytes) 0 0 0 true true true false line.(pending), [])).

Definition fail_line (connected negotiated : bool) (line : LineState.t) : LineState.t * list T_LostSend.t :=
  clear_inflight
    (mk line.(config) line.(bucket) line.(inflight_bytes) line.(recv_window_bytes)
       line.(missed_heartbeat_ticks) (u64 (line.(consecutive_failures) + 1))
       line.(last_completed_bytes) connected negotiated false true line.(pending)).

Definition on_line_disconnected (line_id : Z) : M t unit := with_line line_id (fail_line false false).
Definition on_line_protocol_error (line_id : Z) : M t unit := with_line line_id (fail_line false false).
Definition on_line_failure (line_id : Z) : M t unit :=
  with_line line_id (λ line, fail_line line.(connected) line.(negotiated) line).
Definition on_nack (line_id : Z) : M t unit :=
  with_line line_id (λ line, fail_line line.(connected) line.(negotiated) line).

(** The condition of [remove_if] in [on_heartbeat]. *)
Definition completed (heartbeat : T_Heartbeat.t) (send : T_PendingSend.t) : bool :=
  let same_stream := send.(T_PendingSend.stream_id) =? heartbeat.(T_Heartbeat.stream_id) in
  let same_file := send.(T_PendingSend.file_id) =? heartbeat.(T_Heartbeat.file_id) in
  let passed := send.(T_PendingSend.seq) <? heartbeat.(T_Heartbeat.next_seq) in
  match send.(T_PendingSend.kind) with
  | EM_SendKind.CHUNK =>
      existsb (λ chunk,
        same_stream &&
        (send.(T_PendingSend.file_id) =? chunk.(T_ReceivedChunk.file_id)) &&
        (send.(T_PendingSend.seq) =? chunk.(T_ReceivedChunk.seq)) &&
        (send.(T_PendingSend.chunk_index) =? chunk.(T_ReceivedChunk.chunk_index)))
        heartbeat.(T_Heartbeat.received_chunks)
  | EM_SendKind.FILE_BEGIN | EM_SendKind.FILE_COMMIT | EM_SendKind.CREATE =>
      same_stream && same_file && passed
  | EM_SendKind.DATA =>
      same_stream && same_file &&
      (passed || (heartbeat.(T_Heartbeat.offset) >=? send.(T_PendingSend.end_offset)) ||
       (heartbeat.(T_Heartbeat.durable_offset) >=? send.(T_PendingSend.end_offset)))
  | EM_SendKind.Unnamed _ => same_stream && passed
  end.

Definition sum_bytes (sends : list T_PendingSend.t) : Z :=
  foldl (λ acc send, u64 (acc + send.(T_PendingSend.bytes))) 0 sends.

Definition heartbeat_line (heartbeat : T_Heartbeat.t) (line : LineState.t) : LineState.t :=
  let completed_bytes := sum_bytes (filter (λ send, completed heartbeat send = true) line.(pending)) in
  let pending := filter (λ send, completed heartbeat send = false) line.(pending) in
  let inflight := if completed_bytes >=? line.(inflight_bytes) then 0
                  else u64 (line.(inflight_bytes) - completed_bytes) in
  mk line.(config) line.(bucket) inflight heartbeat.(T_Heartbeat.recv_window_bytes) 0 0
    completed_bytes true true true false pending.

Definition on_heartbeat (line_id : Z) (heartbeat : T_Heartbeat.t) : M t unit :=
  with_line line_id (λ line, (heartbeat_line heartbeat line, [])).

Definition choose_control_line (s : t) : option Z :=
  match choose_best
          (λ line, negb (negb line.(connected) || negb line.(negotiated) || negb line.(healthy) || line.(stale)))
          (λ line, if line.(recv_window_bytes) >? line.(inflight_bytes)
                   then u64 (line.(recv_window_bytes) - line.(inflight_bytes)) else 1)
          0 None s.(lines_) with
  | None => None
  | Some (i, _) => (λ line, line.(config).(T_LineConfig.id)) <$> (s.(lines_) !! i)
  end.

Definition snapshots (s : t) : list T_LineSnapshot.t :=
  (λ line, T_LineSnapshot.mk line.(config).(T_LineConfig.id) line.(config).(T_LineConfig.name)
     (TokenBucket.available line.(bucket)) line.(inflight_bytes) line.(recv_window_bytes)
     line.(connected) line.(negotiated) line.(healthy) line.(stale) line.(missed_heartbeat_ticks)
     line.(consecutive_failures) (zlen line.(pending)) line.(last_completed_bytes)) <$> s.(lines_).

Definition take_lost_sends (s : t) : list T_LostSend.t * t :=
  (s.(lost_sends_), mk_sched s.(lines_) []).
End T_MultiLineScheduler.

(** ** Invariants *)
Module SchedulerFacts.
Import LineState T_MultiLineScheduler.

Definition bucket_ok (b : TokenBucket.t) : Prop :=
  T_TokenBucketConfig.ok b.(TokenBucket.config_) ∧
  0 < b.(TokenBucket.config_).(T_TokenBucketConfig.tokens_per_tick) ∧
  0 ≤ b.(TokenBucket.tokens_) ≤ TokenBucket.capacity b.

Definition pending_bytes (sends : list T_PendingSend.t) : Z :=
  foldr (λ send acc, send.(T_PendingSend.bytes) + acc) 0 sends.

#[global] Arguments pending_bytes : simpl never.

Definition line_ok (l : LineState.t) : Prop :=
  bucket_ok l.(bucket) ∧ l.(bucket).(TokenBucket.config_) = l.(config).(T_LineConfig.limiter) ∧
  in_u64 l.(recv_window_bytes) ∧ in_u64 l.(config).(T_LineConfig.initial_recv_window_bytes) ∧
  Forall (λ send, in_u64 send.(T_PendingSend.bytes)) l.(pending) ∧
  l.(inflight_bytes) = pending_bytes l.(pending) ∧ in_u64 l.(inflight_bytes).

Definition ids (s : t) : list Z := (λ l, l.(config).(T_LineConfig.id)) <$> s.(lines_).

Definition sched_ok (s : t) : Prop := Forall line_ok s.(lines_) ∧ NoDup (ids s).

Definition config_ok (c : T_LineConfig.t) : Prop :=
  T_TokenBucketConfig.ok c.(T_LineConfig.limiter) ∧ in_u64 c.(T_LineConfig.initial_recv_window_bytes).

(** *** The bucket *)
Lemma bucket_create_ok c b : T_TokenBucketConfig.ok c → TokenBucket.create c = Ret b →
  bucket_ok b ∧ b.(TokenBucket.config_) = c ∧ b.(TokenBucket.tokens_) = c.(T_TokenBucketConfig.capacity).
Proof.
  intros [Ht Hc]. unfold TokenBucket.create. case_cond; [done|].
  destruct (Z.eqb_spec c.(T_TokenBucketConfig.capacity) 0); [done|].
  destruct (Z.eqb_spec c.(T_TokenBucketConfig.tokens_per_tick) 0); [done|]. intros [= <-].
  unfold bucket_ok, T_TokenBucketConfig.ok, TokenBucket.capacity. cbn. split_and!; done || uint_lia.
Qed.

Lemma refill_ok ticks b : in_u64 ticks → bucket_ok b →
  bucket_ok (TokenBucket.refill_ticks ticks b) ∧
  b.(TokenBucket.tokens_) ≤ (TokenBucket.refill_ticks ticks b).(TokenBucket.tokens_) ≤
    b.(TokenBucket.tokens_) + ticks * b.(TokenBucket.config_).(T_TokenBucketConfig.tokens_per_tick) ∧
  (TokenBucket.refill_ticks ticks b).(TokenBucket.config_) = b.(TokenBucket.config_).
Proof.
  intros Ht ([Hr Hc] & Hpos & Htok). unfold bucket_ok, TokenBucket.refill_ticks, TokenBucket.capacity in *.
  destruct (Z.eqb_spec ticks 0) as [->|Hne]; [unfold T_TokenBucketConfig.ok; split_and!; done || uint_lia|]. cbn.
  set (tpt := b.(TokenBucket.config_).(T_TokenBucketConfig.tokens_per_tick)) in *.
  set (cap := b.(TokenBucket.config_).(T_TokenBucketConfig.capacity)) in *.
  destruct (Z.gtb_spec ticks (UINT64_MAX / tpt)) as [Hbig|Hsmall].
  - assert (UINT64_MAX < ticks * tpt) as Hm.
    { pose proof (Z.div_mod UINT64_MAX tpt ltac:(lia)).
      pose proof (Z.mod_pos_bound UINT64_MAX tpt ltac:(lia)). nia. }
    clear Hbig. generalize dependent (ticks * tpt). intros m Hm.
    assert (∀ x, Z.min cap (if b.(TokenBucket.tokens_) >? UINT64_MAX - UINT64_MAX then UINT64_MAX
      else u64 (b.(TokenBucket.tokens_) + UINT64_MAX)) = x → x = cap) as Hx.
    { intros x <-. destruct (Z.gtb_spec b.(TokenBucket.tokens_) (UINT64_MAX - UINT64_MAX)); uint_lia. }
    rewrite (Hx _ eq_refl). split_and!; try done; uint_lia.
  - assert (0 ≤ ticks * tpt ≤ UINT64_MAX) as Hm.
    { pose proof (Z.mul_div_le UINT64_MAX tpt ltac:(lia)). uint_unfold. nia. }
    clear Hsmall. generalize dependent (ticks * tpt). intros m Hm. rewrite (u64_small m) by uint_lia.
    destruct (Z.gtb_spec b.(TokenBucket.tokens_) (UINT64_MAX - m)); [|rewrite u64_small by uint_lia];
      split_and!; try done; uint_lia.
Qed.

(** *** Sums of bytes *)
Lemma pending_bytes_cons x l : pending_bytes (x :: l) = x.(T_PendingSend.bytes) + pending_bytes l.
Proof. done. Qed.

Lemma pending_bytes_nonneg l : Forall (λ s, in_u64 s.(T_PendingSend.bytes)) l → 0 ≤ pending_bytes l.
Proof. induction 1 as [|x l Hx _ IH]; [done|]. rewrite pending_bytes_cons. uint_lia. Qed.

Lemma sum_bytes_spec l : Forall (λ s, in_u64 s.(T_PendingSend.bytes)) l →
  pending_bytes l ≤ UINT64_MAX → sum_bytes l = pending_bytes l.
Proof.
  intros Hl Hs. unfold sum_bytes.
  assert (∀ acc, 0 ≤ acc → acc + pending_bytes l ≤ UINT64_MAX →
    foldl (λ acc s, u64 (acc + s.(T_PendingSend.bytes))) acc l = acc + pending_bytes l) as H;
    [|rewrite H; lia].
  clear Hs. induction Hl as [|x l Hx Hl IH]; intros acc Ha Hle; [unfold pending_bytes; cbn; lia|].
  cbn [foldl]. rewrite pending_bytes_cons in *.
  assert (0 ≤ pending_bytes l) by (by apply pending_bytes_nonneg).
  rewrite IH; rewrite u64_small by uint_lia; uint_lia.
Qed.

Lemma pending_bytes_app l k : pending_bytes (l ++ k) = pending_bytes l + pending_bytes k.
Proof. induction l as [|x l IH]; [done|]. cbn [app]. rewrite !pending_bytes_cons. lia. Qed.

Lemma pending_bytes_snoc l x : pending_bytes (l ++ [x]) = pending_bytes l + x.(T_PendingSend.bytes).
Proof. rewrite pending_bytes_app. unfold pending_bytes at 2. cbn. lia. Qed.

Lemma pending_bytes_split hb l :
  pending_bytes l = pending_bytes (filter (λ s, completed hb s = true) l) +
                    pending_bytes (filter (λ s, completed hb s = false) l).
Proof.
  induction l as [|x l IH]; [done|]. rewrite !filter_cons. destruct (completed hb x) eqn:E.
  - rewrite decide_True, decide_False by done. rewrite !pending_bytes_cons. lia.
  - rewrite decide_False, decide_True by done. rewrite !pending_bytes_cons. lia.
Qed.

(** *** Lines *)
Lemma find_line_lookup id ls i :
  find_line id ls = Some i → ∃ l, ls !! i = Some l ∧ l.(config).(T_LineConfig.id) = id.
Proof.
  unfold find_line. intros H. apply fmap_Some in H as ([j l] & H & ->).
  apply list_find_Some in H as (? & ? & _). eauto.
Qed.

Lemma with_line_cases id f s :
  (∃ i l, find_line id s.(lines_) = Some i ∧ s.(lines_) !! i = Some l ∧
     l.(config).(T_LineConfig.id) = id ∧
     with_line id f s = (Ret tt, mk_sched (<[i := (f l).1]> s.(lines_)) (s.(lost_sends_) ++ (f l).2))) ∨
  find_line id s.(lines_) = None ∧ with_line id f s = (Throw "unknown line id", s).
Proof.
  unfold with_line. destruct (find_line id s.(lines_)) as [i|] eqn:E; [left|by right].
  destruct (find_line_lookup _ _ _ E) as (l & Hl & Hid). exists i, l. rewrite Hl.
  by destruct (f l).
Qed.

Lemma choose_best_spec {A} (ok : A → bool) (score : A → Z) ls i best :
  match choose_best ok score i best ls with
  | None => best = None ∧ Forall (λ x, ok x = false) ls
  | Some (j, sc) =>
      (best = Some (j, sc) ∨
       ∃ k x, j = (i + k)%nat ∧ ls !! k = Some x ∧ ok x = true ∧ sc = score x) ∧
      Forall (λ x, ok x = true → score x ≤ sc) ls ∧
      match best with Some (_, b) => b ≤ sc | None => True end
  end.
Proof.
  revert i best. induction ls as [|x ls IH]; intros i best; cbn [choose_best].
  { destruct best as [[j sc]|]; [|by split]. split_and!; [by left|constructor|lia]. }
  set (best' := if negb (ok x) then best else _). specialize (IH (S i) best').
  assert (∀ k y, ls !! k = Some y → (x :: ls) !! S k = Some y) as Hcons by done.
  destruct (choose_best ok score (S i) best' ls) as [[j sc]|].
  - destruct IH as (Hj & Hall & Hb). unfold best' in *. destruct (ok x) eqn:Hx; cbn [negb] in *.
    + destruct best as [[jb b]|].
      * revert Hj Hb. destruct (Z.gtb_spec (score x) b); intros Hj Hb; split_and!.
        -- destruct Hj as [[= <- <-]|(k & y & -> & Hk & Hy & ->)]; right;
             [exists 0%nat, x; split_and!; [lia|done..]|exists (S k), y; split_and!; [lia|done..]].
        -- constructor; [lia|done].
        -- lia.
        -- destruct Hj as [Hj|(k & y & -> & Hk & Hy & ->)]; [by left|right].
           exists (S k), y. split_and!; [lia|done..].
        -- constructor; [lia|done].
        -- lia.
      * split_and!; [|constructor; [lia|done]|done].
        destruct Hj as [[= <- <-]|(k & y & -> & Hk & Hy & ->)]; right;
          [exists 0%nat, x; split_and!; [lia|done..]|exists (S k), y; split_and!; [lia|done..]].
    + split_and!; [|constructor; [congruence|done]|done].
      destruct Hj as [Hj|(k & y & -> & Hk & Hy & ->)]; [by left|right].
      exists (S k), y. split_and!; [lia|done..].
  - destruct IH as [Hb Hall]. unfold best' in Hb. destruct (ok x) eqn:Hx; cbn [negb] in Hb.
    + destruct best as [[jb b]|]; [by destruct (score x >? b)|done].
    + split; [done|by constructor].
Qed.
End SchedulerFacts.

(** ** Histories *)
Module SchedulerHistory.
Import LineState T_MultiLineScheduler SchedulerFacts.

(** The calls the program makes. *)
Inductive op :=
  | Refill (ticks : Z)
  | Acquire (request : T_SendRequest.t)
  | Connected (line_id : Z)
  | Negotiated (line_id window : Z)
  | Disconnected (line_id : Z)
  | ProtocolError (line_id : Z)
  | Failure (line_id : Z)
  | Heartbeat (line_id : Z) (heartbeat : T_Heartbeat.t)
  | Nack (line_id : Z)
  | TakeLost.

(** The arguments are 64-bit integers. *)
Definition op_ok (o : op) : Prop :=
  match o with
  | Refill ticks => in_u64 ticks
  | Acquire request => in_u64 request.(T_SendRequest.bytes)
  | Negotiated _ window => in_u64 window
  | Heartbeat _ hb => in_u64 hb.(T_Heartbeat.recv_window_bytes)
  | _ => True
  end.

(** The state after a call; one on an unknown line throws and changes nothing. *)
Definition step (o : op) (s : t) : t :=
  match o with
  | Refill ticks => refill_ticks ticks s
  | Acquire request => (try_acquire request s).2
  | Connected id => (on_line_connected id s).2
  | Negotiated id window => (on_line_negotiated id window s).2
  | Disconnected id => (on_line_disconnected id s).2
  | ProtocolError id => (on_line_protocol_error id s).2
  | Failure id => (on_line_failure id s).2
  | Heartbeat id hb => (on_heartbeat id hb s).2
  | Nack id => (on_nack id s).2
  | TakeLost => (take_lost_sends s).2
  end.

(** Sends are tracked as [T_LostSend]s: with the line that carries them. *)
Definition in_flight (s : t) : list T_LostSend.t :=
  concat ((λ l, lost_of l <$> l.(pending)) <$> s.(lines_)).

Definition granted_by (o : op) (s : t) : list T_LostSend.t :=
  match o with
  | Acquire request =>
      match (try_acquire request s).1 with
      | Some grant =>
          let p := pending_of request in
          [T_LostSend.mk grant.(T_SendGrant.line_id) p.(T_PendingSend.kind)
             p.(T_PendingSend.stream_id) p.(T_PendingSend.file_id) p.(T_PendingSend.seq)
             p.(T_PendingSend.offset) p.(T_PendingSend.end_offset) p.(T_PendingSend.chunk_index)
             grant.(T_SendGrant.bytes)]
      | None => []
      end
  | _ => []
  end.

Definition completed_by (o : op) (s : t) : list T_LostSend.t :=
  match o with
  | Heartbeat id hb =>
      match find_line id s.(lines_) ≫= λ i, s.(lines_) !! i with
      | Some l => lost_of l <$> filter (λ send, completed hb send = true) l.(pending)
      | None => []
      end
  | _ => []
  end.

Definition taken_by (o : op) (s : t) : list T_LostSend.t :=
  match o with TakeLost => (take_lost_sends s).1 | _ => [] end.

(** *** Every call keeps the invariant *)
Lemma line_ok_clear l : line_ok l → line_ok (clear_inflight l).1.
Proof.
  intros (Hb & Hc & Hw & Hi & Hp & Hf & Hr). unfold line_ok, clear_inflight. cbn.
  split_and!; done.
Qed.

Lemma ids_insert s i l l' lost :
  s.(lines_) !! i = Some l → l'.(config) = l.(config) →
  ids (mk_sched (<[i := l']> s.(lines_)) lost) = ids s.
Proof.
  intros Hl Hc. unfold ids. cbn. rewrite list_fmap_insert, Hc.
  apply list_insert_id. by rewrite list_lookup_fmap, Hl.
Qed.

Lemma sched_ok_insert s i l l' lost :
  sched_ok s → s.(lines_) !! i = Some l → l'.(config) = l.(config) → line_ok l' →
  sched_ok (mk_sched (<[i := l']> s.(lines_)) lost).
Proof.
  intros [Hl Hn] Hi Hc Hok. split; [by apply Forall_insert|]. by rewrite (ids_insert s i l).
Qed.

Lemma with_line_ok id f s :
  sched_ok s → (∀ l, line_ok l → line_ok (f l).1 ∧ (f l).1.(config) = l.(config)) →
  sched_ok (with_line id f s).2.
Proof.
  intros Hs Hf. destruct (with_line_cases id f s) as [(i & l & _ & Hl & _ & ->)|[_ ->]]; [|done].
  assert (line_ok l) as Hok by (destruct Hs as [Hs _]; by eapply Forall_lookup_1 in Hs).
  destruct (Hf l Hok). by eapply sched_ok_insert.
Qed.

Lemma refill_line_ok ticks l : in_u64 ticks → line_ok l →
  line_ok (refill_line ticks l) ∧ (refill_line ticks l).(config) = l.(config) ∧
  (refill_line ticks l).(pending) = l.(pending) ∧
  (refill_line ticks l).(bucket) = TokenBucket.refill_ticks ticks l.(bucket).
Proof.
  intros Ht (Hb & Hc & Hw & Hi & Hp & Hf & Hr).
  destruct (refill_ok ticks l.(bucket) Ht Hb) as (Hb' & _ & Hc').
  unfold refill_line. destruct (_ || _); (split; [|done]); split_and!; cbn; try done;
    by rewrite Hc'.
Qed.

Lemma fail_line_ok b1 b2 l : line_ok l → line_ok (fail_line b1 b2 l).1.
Proof. intros H. by apply (line_ok_clear (mk _ _ _ _ _ _ _ _ _ _ _ _)). Qed.

Lemma heartbeat_line_ok hb l :
  in_u64 hb.(T_Heartbeat.recv_window_bytes) → line_ok l → line_ok (heartbeat_line hb l).
Proof.
  intros Hhb (Hb & Hc & Hw & Hi & Hp & Hf & Hr).
  pose proof (pending_bytes_split hb l.(pending)) as Hsplit.
  assert (∀ b, Forall (λ s, in_u64 s.(T_PendingSend.bytes))
    (filter (λ s, completed hb s = b) l.(pending))) as Hfil by (intros b; apply Forall_forall; intros x [_ Hx]%list_elem_of_filter;
      by apply (proj1 (Forall_forall _ _) Hp)).
  pose proof (pending_bytes_nonneg _ (Hfil true)). pose proof (pending_bytes_nonneg _ (Hfil false)).
  unfold line_ok, heartbeat_line. cbn. rewrite sum_bytes_spec by (done || uint_lia).
  split_and!; try done; try apply Hfil;
    destruct (Z.geb_spec (pending_bytes (filter (λ s, completed hb s = true) l.(pending)))
                l.(inflight_bytes)); try rewrite u64_small; uint_lia.
Qed.

(** What a grant means. *)
Lemma try_acquire_cases request s :
  sched_ok s → in_u64 request.(T_SendRequest.bytes) →
  (∃ i l, s.(lines_) !! i = Some l ∧ eligible l request = true ∧ request.(T_SendRequest.bytes) ≠ 0 ∧
     Forall (λ l', eligible l' request = true → score_line l' request ≤ score_line l request) s.(lines_) ∧
     l.(inflight_bytes) + request.(T_SendRequest.bytes) ≤ l.(recv_window_bytes) ∧
     request.(T_SendRequest.bytes) ≤ l.(bucket).(TokenBucket.tokens_) ∧
     try_acquire request s =
       (Some (T_SendGrant.mk l.(config).(T_LineConfig.id) request.(T_SendRequest.bytes)),
        mk_sched (<[i := grant_line request
          (TokenBucket.mk l.(bucket).(TokenBucket.config_)
            (l.(bucket).(TokenBucket.tokens_) - request.(T_SendRequest.bytes))) l]> s.(lines_))
          s.(lost_sends_))) ∨
  (request.(T_SendRequest.bytes) = 0 ∨ Forall (λ l, eligible l request = false) s.(lines_)) ∧
    try_acquire request s = (None, s).
Proof.
  intros [Hs _] Hreq. unfold try_acquire.
  destruct (Z.eqb_spec request.(T_SendRequest.bytes) 0) as [|Hne]; [by right; split; [left|]|].
  pose proof (choose_best_spec (λ line, eligible line request) (λ line, score_line line request)
    s.(lines_) 0 None) as Hbest.
  destruct (choose_best _ _ 0 None s.(lines_)) as [[j sc]|]; [|right; split; [right; apply Hbest|done]].
  destruct Hbest as ([?|(k & l & -> & Hk & Hel & ->)] & Hall & _); [done|]. left.
  cbn [Nat.add]. rewrite Hk. exists k, l. pose proof Hel as Hel'.
  assert (line_ok l) as ((Hbc & _ & Hbt) & _ & Hw & _ & _ & _ & Hr) by (by eapply Forall_lookup_1 in Hs).
  unfold eligible, TokenBucket.can_consume in Hel.
  destruct (_ || _); [done|].
  destruct (Z.leb_spec l.(recv_window_bytes) l.(inflight_bytes)); [done|].
  rewrite u64_small in Hel by uint_lia.
  destruct (Z.ltb_spec (l.(recv_window_bytes) - l.(inflight_bytes)) request.(T_SendRequest.bytes)); [done|].
  unfold TokenBucket.try_consume, TokenBucket.can_consume. rewrite Hel. cbn [negb].
  apply Z.leb_le in Hel. unfold TokenBucket.capacity, T_TokenBucketConfig.ok in *.
  rewrite u64_small by uint_lia. split_and!; try done; uint_lia.
Qed.

Lemma step_ok o s : op_ok o → sched_ok s → sched_ok (step o s).
Proof.
  intros Ho Hs. destruct o as [ticks|request|id|id window|id|id|id|id hb|id|]; cbn [step].
  - destruct Hs as [Hs Hn]. split.
    + cbn. apply Forall_fmap. eapply Forall_impl; [done|]. intros l Hl.
      by apply refill_line_ok.
    + unfold ids, refill_ticks. cbn. rewrite <- list_fmap_compose.
      erewrite list_fmap_ext; [done|]. intros i l Hl. cbn. unfold refill_line.
      by destruct (_ || _).
  - destruct (try_acquire_cases request s Hs Ho)
      as [(i & l & Hl & Hel & Hne & _ & Hwin & Htok & ->)|[_ ->]]; [|done]. cbn.
    eapply sched_ok_insert; [done..|].
    assert (line_ok l) as ((Hbc & Hbp & Hbt) & Hc & Hw & Hi & Hp & Hf & Hr)
      by (destruct Hs as [Hs _]; by eapply Forall_lookup_1 in Hs).
    unfold line_ok, grant_line, bucket_ok, TokenBucket.capacity in *. cbn in *.
    rewrite pending_bytes_snoc, u64_small by uint_lia.
    change (pending_of request).(T_PendingSend.bytes) with request.(T_SendRequest.bytes).
    split_and!; try done; try uint_lia. apply Forall_app. split; [done|]. by constructor.
  - apply with_line_ok; [done|]. intros l (Hb & Hc & Hw & Hi & Hp & Hf & Hr). split; [|done].
    by apply line_ok_clear.
  - apply with_line_ok; [done|]. intros l (Hb & Hc & Hw & Hi & Hp & Hf & Hr). cbn. split; [|done].
    split_and!; try done. cbn. by destruct (_ =? _).
  - apply with_line_ok; [done|]. intros l Hl. split; [by apply fail_line_ok|done].
  - apply with_line_ok; [done|]. intros l Hl. split; [by apply fail_line_ok|done].
  - apply with_line_ok; [done|]. intros l Hl. split; [by apply fail_line_ok|done].
  - apply with_line_ok; [done|]. intros l Hl. split; [by apply heartbeat_line_ok|done].
  - apply with_line_ok; [done|]. intros l Hl. split; [by apply fail_line_ok|done].
  - done.
Qed.
End SchedulerHistory.

(** ** Accounting *)
Module SchedulerLedger.
Import LineState T_MultiLineScheduler SchedulerFacts SchedulerHistory.

Definition run (s : t) (ops : list op) : t := foldl (λ s o, step o s) s ops.

(** What [f] reports of every call of a history. *)
Fixpoint history (f : op → t → list T_LostSend.t) (s : t) (ops : list op) : list T_LostSend.t :=
  match ops with
  | [] => []
  | o :: ops => f o s ++ history f (step o s) ops
  end.

Definition carried (l : LineState.t) : list T_LostSend.t := lost_of l <$> l.(pending).

Lemma carried_config l p : l.(config) = p.(config) → l.(pending) = p.(pending) → carried l = carried p.
Proof. intros Hc Hp. unfold carried, lost_of. by rewrite Hc, Hp. Qed.

Lemma in_flight_insert s i l :
  s.(lines_) !! i = Some l →
  ∃ X, in_flight s ≡ₚ X ++ carried l ∧
    ∀ l' lost, in_flight (mk_sched (<[i := l']> s.(lines_)) lost) ≡ₚ X ++ carried l'.
Proof.
  intros Hl. pose proof (take_drop_middle _ _ _ Hl) as Hsplit.
  exists (concat (carried <$> take i s.(lines_)) ++ concat (carried <$> drop (S i) s.(lines_))).
  assert (∀ l', concat (carried <$> take i s.(lines_) ++ l' :: drop (S i) s.(lines_)) ≡ₚ
    (concat (carried <$> take i s.(lines_)) ++ concat (carried <$> drop (S i) s.(lines_))) ++ carried l')
    as Hgen.
  { intros l'. rewrite fmap_app, fmap_cons, concat_app. cbn [concat].
    rewrite <- app_assoc. by rewrite (Permutation_app_comm (carried l')). }
  split.
  - rewrite <- Hgen. unfold in_flight. by rewrite Hsplit.
  - intros l' lost. rewrite <- Hgen. unfold in_flight. cbn [lines_].
    rewrite insert_take_drop by (by eapply lookup_lt_Some). done.
Qed.

(** A call on one line that loses what [f] reports. *)
Lemma with_line_ledger id f s done_ :
  (∀ l, l.(config).(T_LineConfig.id) = id → (f l).1.(config) = l.(config) ∧
     carried l ≡ₚ carried (f l).1 ++ (f l).2 ++ done_ l) →
  in_flight s ++ s.(lost_sends_) ≡ₚ
  in_flight (with_line id f s).2 ++ (with_line id f s).2.(lost_sends_) ++
    match find_line id s.(lines_) ≫= λ i, s.(lines_) !! i with Some l => done_ l | None => [] end.
Proof.
  intros Hf. destruct (with_line_cases id f s) as [(i & l & Hfind & Hl & Hid & ->)|[Hnone ->]].
  - rewrite Hfind. cbn [mbind option_bind snd]. rewrite Hl.
    destruct (Hf l Hid) as [_ Hc]. destruct (in_flight_insert s i l Hl) as (X & -> & ->).
    rewrite Hc. cbn [lost_sends_]. solve_Permutation.
  - rewrite Hnone. cbn. by rewrite app_nil_r.
Qed.

Lemma fail_line_ledger b1 b2 l :
  (fail_line b1 b2 l).1.(config) = l.(config) ∧
  carried l ≡ₚ carried (fail_line b1 b2 l).1 ++ (fail_line b1 b2 l).2 ++ [].
Proof. split; [done|]. cbn. by rewrite app_nil_r. Qed.

Lemma no_done id (s : t) :
  match find_line id s.(lines_) ≫= λ i, s.(lines_) !! i with
  | Some _ => [] | None => [] end = @nil T_LostSend.t.
Proof. by destruct (_ ≫= _). Qed.

Lemma step_ledger o s : op_ok o → sched_ok s →
  in_flight s ++ s.(lost_sends_) ++ granted_by o s ≡ₚ
  in_flight (step o s) ++ (step o s).(lost_sends_) ++ completed_by o s ++ taken_by o s.
Proof.
  intros Ho Hs.
  assert (∀ id f, (∀ l, l.(config).(T_LineConfig.id) = id → (f l).1.(config) = l.(config) ∧
      carried l ≡ₚ carried (f l).1 ++ (f l).2 ++ []) →
    in_flight s ++ s.(lost_sends_) ++ [] ≡ₚ
    in_flight (with_line id f s).2 ++ (with_line id f s).2.(lost_sends_) ++ [] ++ []) as Hline.
  { intros id f Hf. pose proof (with_line_ledger id f s (λ _, []) Hf) as H.
    rewrite no_done in H. by rewrite app_nil_r. }
  destruct o as [ticks|request|id|id window|id|id|id|id hb|id|]; cbn [step granted_by completed_by taken_by];
    try (apply Hline; intros l _; apply fail_line_ledger).
  - rewrite !app_nil_r. unfold in_flight, refill_ticks. cbn. rewrite <- list_fmap_compose.
    assert (((λ l, lost_of l <$> l.(pending)) ∘ refill_line ticks <$> s.(lines_)) =
      ((λ l, lost_of l <$> l.(pending)) <$> s.(lines_))) as ->; [|done].
    apply list_fmap_ext. intros i l _. cbn.
    apply carried_config; unfold refill_line; by destruct (_ || _).
  - destruct (try_acquire_cases request s Hs Ho) as [(i & l & Hl & _ & _ & _ & _ & _ & ->)|[_ ->]].
    + cbn [fst snd lost_sends_]. destruct (in_flight_insert s i l Hl) as (X & -> & ->).
      unfold carried at 2. cbn. rewrite fmap_app. cbn. rewrite app_nil_r.
      change (carried l) with (lost_of l <$> l.(pending)).
      unfold lost_of at 2. cbn. solve_Permutation.
    + cbn. by rewrite !app_nil_r.
  - apply Hline. intros l _. split; [done|]. cbn. by rewrite app_nil_r.
  - apply Hline. intros l _. split; [done|]. cbn. by rewrite app_nil_r.
  - rewrite !app_nil_r. apply (with_line_ledger id (λ line, (heartbeat_line hb line, [])) s
      (λ l, lost_of l <$> filter (λ send, completed hb send = true) l.(pending))).
    intros l _. split; [done|]. unfold carried, heartbeat_line. cbn. rewrite <- fmap_app.
    change (lost_of (mk _ _ _ _ _ _ _ _ _ _ _ _)) with (lost_of l). apply fmap_Permutation.
    clear. induction l.(pending) as [|x p IH]; [done|]. rewrite !filter_cons.
    destruct (completed hb x) eqn:E; repeat case_decide; try congruence.
    + by rewrite <- Permutation_middle, <- IH.
    + by rewrite <- app_comm_cons, <- IH.
  - rewrite !app_nil_r. cbn. done.
Qed.

(** *** Tokens *)
Definition ticks_of (o : op) : Z := match o with Refill ticks => ticks | _ => 0 end.

Definition granted_bytes (id : Z) (sends : list T_LostSend.t) : Z :=
  foldr (λ send acc, (if send.(T_LostSend.line_id) =? id then send.(T_LostSend.bytes) else 0) + acc) 0 sends.

Lemma granted_bytes_app id l k : granted_bytes id (l ++ k) = granted_bytes id l + granted_bytes id k.
Proof.
  induction l as [|x l IH]; [done|]. unfold granted_bytes in *. cbn [app foldr]. lia.
Qed.

Lemma with_line_lookup id f s i l :
  (∀ l, (f l).1.(config) = l.(config) ∧ (f l).1.(bucket) = l.(bucket)) →
  s.(lines_) !! i = Some l →
  ∃ l', (with_line id f s).2.(lines_) !! i = Some l' ∧ l'.(config) = l.(config) ∧ l'.(bucket) = l.(bucket).
Proof.
  intros Hf Hl. destruct (with_line_cases id f s) as [(j & m & _ & Hm & _ & ->)|[_ ->]]; [|by exists l].
  cbn. destruct (decide (i = j)) as [->|Hne].
  - rewrite list_lookup_insert_eq by (by eapply lookup_lt_Some).
    rewrite Hl in Hm. injection Hm as <-. destruct (Hf l). eauto.
  - rewrite list_lookup_insert_ne by done. eauto.
Qed.

Lemma step_tokens o s i l : op_ok o → sched_ok s → s.(lines_) !! i = Some l →
  ∃ l', (step o s).(lines_) !! i = Some l' ∧ l'.(config) = l.(config) ∧
    granted_bytes l.(config).(T_LineConfig.id) (granted_by o s) + l'.(bucket).(TokenBucket.tokens_) ≤
    l.(bucket).(TokenBucket.tokens_) +
    ticks_of o * l.(config).(T_LineConfig.limiter).(T_TokenBucketConfig.tokens_per_tick).
Proof.
  intros Ho Hs Hl.
  assert (∀ id f, (∀ l, (f l).1.(config) = l.(config) ∧ (f l).1.(bucket) = l.(bucket)) →
    ∃ l', (with_line id f s).2.(lines_) !! i = Some l' ∧ l'.(config) = l.(config) ∧
      0 + l'.(bucket).(TokenBucket.tokens_) ≤ l.(bucket).(TokenBucket.tokens_) +
      0 * l.(config).(T_LineConfig.limiter).(T_TokenBucketConfig.tokens_per_tick)) as Hline.
  { intros id f Hf. destruct (with_line_lookup id f s i l Hf Hl) as (l' & H1 & H2 & H3).
    exists l'. rewrite H3. split_and!; [done..|lia]. }
  destruct o as [ticks|request|id|id window|id|id|id|id hb|id|];
    cbn [step granted_by ticks_of]; try (apply Hline; done).
  - assert (line_ok l) as Hok by (destruct Hs as [Hs _]; by eapply Forall_lookup_1 in Hs).
    destruct (refill_line_ok ticks l Ho Hok) as (_ & Hc & _ & Hb).
    exists (refill_line ticks l). unfold refill_ticks. cbn [lines_].
    rewrite list_lookup_fmap, Hl, Hb. split_and!; [done..|].
    destruct Hok as (Hbok & Hcfg & _). destruct (refill_ok ticks l.(bucket) Ho Hbok) as (_ & Ht & _).
    rewrite Hcfg in Ht. cbn. lia.
  - destruct (try_acquire_cases request s Hs Ho) as [(j & m & Hm & _ & _ & _ & _ & Htok & ->)|[_ ->]];
      [|exists l; split_and!; [done..|cbn; lia]].
    cbn [fst snd lines_]. destruct (decide (i = j)) as [->|Hne].
    + rewrite Hl in Hm. injection Hm as <-.
      rewrite list_lookup_insert_eq by (by eapply lookup_lt_Some).
      eexists. split_and!; [done..|]. cbn. rewrite Z.eqb_refl. lia.
    + rewrite list_lookup_insert_ne by done. exists l. split_and!; [done..|]. cbn.
      destruct (Z.eqb_spec m.(config).(T_LineConfig.id) l.(config).(T_LineConfig.id)) as [E|]; [|lia].
      exfalso. apply Hne. destruct Hs as [_ Hn]. eapply NoDup_lookup; [exact Hn| |];
        unfold ids; rewrite list_lookup_fmap; [by rewrite Hl|]. rewrite Hm. cbn. by rewrite E.
  - exists l. split_and!; [done..|cbn; lia].
Qed.

(** *** Construction *)
Lemma create_ok configs s :
  Forall config_ok configs → create configs = Ret s →
  sched_ok s ∧ s.(lost_sends_) = [] ∧ in_flight s = [] ∧
  Forall (λ l, l.(bucket).(TokenBucket.tokens_) =
    l.(config).(T_LineConfig.limiter).(T_TokenBucketConfig.capacity)) s.(lines_).
Proof.
  intros Hcfg. unfold create. destruct configs as [|c0 cs]; [done|].
  intros H. apply exc_bind_inv in H as (ls & H & [= <-]).
  assert (∀ acc, Forall line_ok acc → NoDup ((λ l, l.(config).(T_LineConfig.id)) <$> acc) →
    Forall (λ l, l.(pending) = []) acc →
    Forall (λ l, l.(bucket).(TokenBucket.tokens_) =
      l.(config).(T_LineConfig.limiter).(T_TokenBucketConfig.capacity)) acc →
    add_lines acc (c0 :: cs) = Ret ls →
    Forall line_ok ls ∧ NoDup ((λ l, l.(config).(T_LineConfig.id)) <$> ls) ∧
    Forall (λ l, l.(pending) = []) ls ∧
    Forall (λ l, l.(bucket).(TokenBucket.tokens_) =
      l.(config).(T_LineConfig.limiter).(T_TokenBucketConfig.capacity)) ls) as Hadd.
  { clear H. revert ls. induction Hcfg as [|c cs' [Hlim Hwin] _ IH]; intros ls acc Ha Hn Hp Ht H.
    { injection H as <-. done. }
    cbn [add_lines] in H. destruct (_ =? 0); [done|].
    destruct (find_line c.(T_LineConfig.id) acc) as [|] eqn:Efind; [done|].
    apply exc_bind_inv in H as (b & Hb & H).
    destruct (bucket_create_ok _ _ Hlim Hb) as (Hbok & Hbc & Hbt).
    eapply IH in H; [done|..]; rewrite ?Forall_app, ?Forall_singleton; try (split; [done|]); try done.
    rewrite fmap_app. apply NoDup_app. split_and!; [done| |apply NoDup_singleton].
    intros x Hx [->|Hx']%elem_of_cons; [|by apply elem_of_nil in Hx'].
    apply list_elem_of_fmap in Hx as (l & Hid & Hl). unfold find_line in Efind.
    apply fmap_None, list_find_None in Efind. rewrite Forall_forall in Efind.
    by apply (Efind l Hl). }
  destruct (Hadd [] ltac:(constructor) ltac:(constructor) ltac:(constructor) ltac:(constructor) H)
    as (H1 & H2 & H3 & H4).
  split_and!; [done|done| |done]. unfold in_flight. cbn. clear -H3.
  induction H3 as [|l ls Hl _ IH]; [done|]. cbn. by rewrite Hl, IH.
Qed.
End SchedulerLedger.

(** ** Properties *)
Import T_MultiLineScheduler SchedulerFacts SchedulerHistory SchedulerLedger.

Lemma run_ok s ops : Forall op_ok ops → sched_ok s → sched_ok (run s ops).
Proof.
  intros Ho. revert s. induction Ho as [|o ops Ho _ IH]; intros s Hs; [done|].
  apply IH. by apply step_ok.
Qed.

(** C19: over any history of calls from the constructor, every line keeps its
    invariant: its tokens stay between 0 and its capacity, its in-flight
    counter is exactly the sum of its pending sends (no 64-bit wrap ever
    happens), and line ids stay distinct. *)
Theorem scheduler_invariant configs s ops :
  Forall config_ok configs → create configs = Ret s → Forall op_ok ops →
  sched_ok (run s ops).
Proof.
  intros Hc Hs Ho. apply run_ok; [done|]. by apply (create_ok configs).
Qed.

(** C27: [try_acquire] in every reachable state: it grants exactly when some
    line is eligible (connected, negotiated, healthy, not stale, with window
    and tokens left), the line granted has the best score, the send then fits
    its receive window and its tokens, which drop by the bytes granted, and
    no other line changes; otherwise it changes nothing. *)
Theorem try_acquire_correct configs s0 ops request :
  Forall config_ok configs → create configs = Ret s0 → Forall op_ok ops →
  in_u64 request.(T_SendRequest.bytes) →
  let s := run s0 ops in
  (∃ i l, s.(lines_) !! i = Some l ∧ eligible l request = true ∧
     Forall (λ l', eligible l' request = true → score_line l' request ≤ score_line l request) s.(lines_) ∧
     l.(LineState.inflight_bytes) + request.(T_SendRequest.bytes) ≤ l.(LineState.recv_window_bytes) ∧
     request.(T_SendRequest.bytes) ≤ l.(LineState.bucket).(TokenBucket.tokens_) ∧
     try_acquire request s =
       (Some (T_SendGrant.mk l.(LineState.config).(T_LineConfig.id) request.(T_SendRequest.bytes)),
        mk_sched (<[i := grant_line request
          (TokenBucket.mk l.(LineState.bucket).(TokenBucket.config_)
            (l.(LineState.bucket).(TokenBucket.tokens_) - request.(T_SendRequest.bytes))) l]> s.(lines_))
          s.(lost_sends_))) ∨
  (request.(T_SendRequest.bytes) = 0 ∨ Forall (λ l, eligible l request = false) s.(lines_)) ∧
    try_acquire request s = (None, s).
Proof.
  intros Hc Hs Ho Hr. cbn zeta.
  assert (sched_ok (run s0 ops)) as Hok by (apply run_ok; [done|by apply (create_ok configs)]).
  destruct (try_acquire_cases request _ Hok Hr) as [(i & l & ? & ? & _ & ? & ? & ? & ?)|?];
    [left; by exists i, l|by right].
Qed.

(** C26: no send is forgotten and none is reported twice: over any history, the
    sends granted are, as a multiset, those completed by heartbeats, those
    handed out by [take_lost_sends], those waiting to be handed out and those
    still in flight, each with the line that carried it. *)
Theorem sends_conserved configs s ops :
  Forall config_ok configs → create configs = Ret s → Forall op_ok ops →
  history granted_by s ops ≡ₚ
  in_flight (run s ops) ++ (run s ops).(lost_sends_) ++
    history completed_by s ops ++ history taken_by s ops.
Proof.
  intros Hc Hs Ho. destruct (create_ok configs s Hc Hs) as (Hok & Hlost & Hfl & _).
  assert (∀ s, sched_ok s → in_flight s ++ s.(lost_sends_) ++ history granted_by s ops ≡ₚ
    in_flight (run s ops) ++ (run s ops).(lost_sends_) ++
      history completed_by s ops ++ history taken_by s ops) as Hgen.
  { clear s Hs Hok Hlost Hfl. induction Ho as [|o ops Ho _ IH]; intros s Hok; [done|].
    pose proof (step_ledger o s Ho Hok) as Hstep. specialize (IH _ (step_ok o s Ho Hok)).
    change (run s (o :: ops)) with (run (step o s) ops). cbn [history].
    transitivity ((in_flight s ++ s.(lost_sends_) ++ granted_by o s) ++ history granted_by (step o s) ops);
      [solve_Permutation|]. rewrite Hstep.
    transitivity ((completed_by o s ++ taken_by o s) ++
      (in_flight (step o s) ++ lost_sends_ (step o s) ++ history granted_by (step o s) ops));
      [solve_Permutation|].
    rewrite IH. solve_Permutation. }
  specialize (Hgen s Hok). by rewrite Hfl, Hlost in Hgen.
Qed.

(** C40: the rate limit: over any history with [ticks] refill ticks in all, the
    bytes granted on a line are at most its bucket's capacity plus
    [ticks * tokens_per_tick]. *)
Theorem line_rate_limited configs s ops i l :
  Forall config_ok configs → create configs = Ret s → Forall op_ok ops →
  s.(lines_) !! i = Some l →
  let limiter := l.(LineState.config).(T_LineConfig.limiter) in
  granted_bytes l.(LineState.config).(T_LineConfig.id) (history granted_by s ops) ≤
  limiter.(T_TokenBucketConfig.capacity) +
  foldr Z.add 0 (ticks_of <$> ops) * limiter.(T_TokenBucketConfig.tokens_per_tick).
Proof.
  intros Hc Hs Ho Hl. cbn zeta. destruct (create_ok configs s Hc Hs) as (Hok & _ & _ & Hfull).
  eapply Forall_lookup_1 in Hfull; [|exact Hl]. cbn in Hfull. rewrite <- Hfull.
  clear Hc Hs Hfull configs. revert s l Hok Hl.
  induction Ho as [|o ops Ho _ IH]; intros s l Hok Hl.
  - assert (line_ok l) as ((_ & _ & ? & _) & _) by (destruct Hok as [Hok _]; by eapply Forall_lookup_1 in Hok).
    cbn. lia.
  - destruct (step_tokens o s i l Ho Hok Hl) as (l' & Hl' & Hcfg & Hle).
    specialize (IH _ _ (step_ok o s Ho Hok) Hl'). rewrite Hcfg in IH.
    cbn [history fmap list_fmap foldr]. rewrite granted_bytes_app. lia.
Qed.

Definition sample_lines : list T_LineConfig.t :=
  [T_LineConfig.mk 1 "a" (T_TokenBucketConfig.mk 100 1000 10) 5000 300 true;
   T_LineConfig.mk 2 "b" (T_TokenBucketConfig.mk 100 2000 10) 5000 300 true].
Definition sample_request : T_SendRequest.t :=
  T_SendRequest.mk 1 1 1 0 600 600 false EM_SendKind.DATA 0.
Definition sample_heartbeat : T_Heartbeat.t := T_Heartbeat.mk 1 2 1 600 600 4000 [] [].
Definition sample_history : list op :=
  [Acquire sample_request; Refill 3; Acquire sample_request; Heartbeat 2 sample_heartbeat;
   Acquire sample_request; Disconnected 2; Nack 9; TakeLost].

Definition sample_scheduler : t :=
  match create sample_lines with Ret s => s | Throw _ => mk_sched [] [] end.

Lemma sample_history_ok :
  Forall config_ok sample_lines ∧ Forall op_ok sample_history ∧
  create sample_lines = Ret sample_scheduler.
Proof.
  split; [repeat constructor; vm_compute; congruence|].
  split; [repeat constructor; vm_compute; congruence|]. reflexivity.
Defined.

Lemma scheduler_invariant_witness : sched_ok (run sample_scheduler sample_history).
Proof.
  destruct sample_history_ok as (Hc & Ho & Hs).
  exact (scheduler_invariant sample_lines sample_scheduler sample_history Hc Hs Ho).
Defined.

Lemma try_acquire_correct_witness :
  ∃ l, (run sample_scheduler [Refill 3]).(lines_) !! 1%nat = Some l ∧ eligible l sample_request = true ∧
    (try_acquire sample_request (run sample_scheduler [Refill 3])).1 = Some (T_SendGrant.mk 2 600).
Proof.
  destruct sample_history_ok as (Hc & _ & Hs).
  destruct (try_acquire_correct sample_lines sample_scheduler [Refill 3] sample_request Hc Hs
    ltac:(repeat constructor; vm_compute; congruence) ltac:(vm_compute; split; congruence))
    as [(i & l & Hl & He & _ & _ & _ & Ht)|[_ H]].
  - assert ((try_acquire sample_request (run sample_scheduler [Refill 3])).1 = Some (T_SendGrant.mk 2 600))
      as E by (vm_compute; reflexivity).
    destruct i as [|[|i]].
    + exfalso. rewrite Ht in E. vm_compute in Hl. injection Hl as <-. vm_compute in E. discriminate E.
    + exists l. split; [exact Hl|]. split; [exact He|exact E].
    + vm_compute in Hl. discriminate Hl.
  - vm_compute in H. discriminate H.
Defined.

Lemma sends_conserved_witness :
  length (history granted_by sample_scheduler sample_history) = 3%nat ∧
  history granted_by sample_scheduler sample_history ≡ₚ
  in_flight (run sample_scheduler sample_history) ++ (run sample_scheduler sample_history).(lost_sends_) ++
    history completed_by sample_scheduler sample_history ++
    history taken_by sample_scheduler sample_history.
Proof.
  destruct sample_history_ok as (Hc & Ho & Hs). split; [vm_compute; reflexivity|].
  exact (sends_conserved sample_lines sample_scheduler sample_history Hc Hs Ho).
Defined.

Lemma line_rate_limited_witness :
  granted_bytes 2 (history granted_by sample_scheduler sample_history) ≤ 2000 + 3 * 100.
Proof.
  destruct sample_history_ok as (Hc & Ho & Hs).
  exact (line_rate_limited sample_lines sample_scheduler sample_history 1 _ Hc Hs Ho eq_refl).
Defined.
