(* ===== verification/ReceiverPaths.v ===== *)
(** * What both receivers share: the anonymous namespace of [src/receiver/yisync_receiver.cpp]

    Payload extraction, [fsync], safe relative names and the lookup of a file by
    its id. *)
From Stdlib Require Import Ascii.
From S2P Require Import Prelude Crc32c Filesystem Wire Protocol Sync.
#[local] Open Scope Z_scope.

Definition raw_data_for_data_message (data : T_Data.t) : exc Bytes :=
  if negb (bool_decide (data.(T_Data.compression) = EM_Compression.NONE))
  then Throw "compression is not implemented in this prototype"
  else if negb (zlen data.(T_Data.payload) =? data.(T_Data.raw_len))
  then Throw "raw_len does not match uncompressed payload length"
  else Ret data.(T_Data.payload).

Definition raw_data_for_chunk_message (chunk : T_Chunk.t) : exc Bytes :=
  if negb (bool_decide (chunk.(T_Chunk.compression) = EM_Compression.NONE))
  then Throw "compression is not implemented in this prototype"
  else if negb (zlen chunk.(T_Chunk.payload) =? chunk.(T_Chunk.raw_len))
  then Throw "raw_len does not match uncompressed chunk payload length"
  else Ret chunk.(T_Chunk.payload).

Definition fsync_path (p : path) (what : string) : M fsys unit :=
  or_throw ("failed to fsync " ++ what ++ ": ") (fsync_file p).

Definition fsync_directory (p : path) : M fsys unit :=
  or_throw "failed to fsync directory: " (fsync_dir p).

Definition is_safe_relative_name (name : string) : bool :=
  if bool_decide (name = ""%string) then false
  else if is_absolute name then false
  else forallb (λ part, negb (bool_decide (part = ""%string)) && negb (bool_decide (part = "."%string)) &&
                        negb (bool_decide (part = ".."%string))) (path_parts name).

Lemma read_only_fsync_path p what : read_only (fsync_path p what).
Proof. unfold fsync_path. eauto with yisync. Qed.
Lemma read_only_fsync_directory p : read_only (fsync_directory p).
Proof. unfold fsync_directory. eauto with yisync. Qed.
#[export] Hint Resolve read_only_fsync_path read_only_fsync_directory : yisync.

(** The scan for an id uses no expression. *)
Definition no_regex (_ : string) : exc (string → bool) := Throw "".

Section lookup.
Context {CRC : Crc32c}.

Definition scan (stream_id : Z) (root : path) : M fsys T_Manifest1Stream.t :=
  scan_manifest_stream no_regex stream_id root (4 * 1024 * 1024) [] "".

Definition path_from_manifest_or_legacy (stream_id : Z) (root : path) (file_id : Z) : M fsys path :=
  manifest ← scan stream_id root;
  mret (match list_find (λ e, e.(T_ManifestEntry.file_id) = file_id) manifest.(T_Manifest1Stream.entries) with
        | Some (_, entry) =>
            if is_safe_relative_name entry.(T_ManifestEntry.name)
            then root ++ path_parts entry.(T_ManifestEntry.name)
            else root ++ [file_name_for_id file_id]
        | None => root ++ [file_name_for_id file_id]
        end).
End lookup.

(** ** Objects that hold the file system *)

(** The state of an object, of which the file system is a part. *)
Class HasWorld (S : Type) := {
  the_world : S → fsys;
  with_world : fsys → S → S;
  the_with_world w s : the_world (with_world w s) = w;
  with_the_world s : with_world (the_world s) s = s;
  with_with_world w w' s : with_world w (with_world w' s) = with_world w s
}.

(** A call on the file system. *)
Definition on_world {S A} `{HasWorld S} (m : M fsys A) : M S A := λ s,
  let '(r, w) := m (the_world s) in (r, with_world w s).

(** The check of the previous file, the same in both receivers: [None] when it
    is complete. *)
Definition check_previous {CRC : Crc32c} (prev_path : path) (prev_final_size : Z)
    (prev_checksum : T_FileChecksum.t) : M fsys (option (EM_NackReason.t * string)) :=
  found ← or_throw "" (exists_ prev_path);
  if negb found then mret (Some (EM_NackReason.PREV_FILE_INCOMPLETE, "previous file does not exist"%string))
  else
    prev_size ← file_size_or_zero prev_path;
    if negb (prev_size =? prev_final_size)
    then mret (Some (EM_NackReason.PREV_FILE_INCOMPLETE, "previous file size mismatch"%string))
    else
      matches ← checksum_matches prev_checksum prev_path;
      if negb matches
      then mret (Some (EM_NackReason.CHECKSUM_MISMATCH, "previous file checksum mismatch"%string))
      else mret None.

Lemma read_only_check_previous {CRC : Crc32c} p size sum : read_only (check_previous p size sum).
Proof. unfold check_previous. solve_read_only. Qed.
#[export] Hint Resolve read_only_check_previous : yisync.

Section world_facts.
Context {S : Type} `{HasWorld S}.

(** Nothing but the system's pending answers. *)
Definition untouched (s s' : S) : Prop :=
  ∃ w, s' = with_world w s ∧ quiet (the_world s) w.

Lemma untouched_refl s : untouched s s.
Proof. exists (the_world s). split; [by rewrite with_the_world|reflexivity]. Qed.

Lemma untouched_trans s s1 s2 : untouched s s1 → untouched s1 s2 → untouched s s2.
Proof.
  intros (w & -> & Hw) (w' & -> & Hw'). exists w'. rewrite with_with_world, the_with_world in *.
  split; [done|]. by transitivity w.
Qed.

Lemma on_world_untouched {A} (m : M fsys A) s r s' :
  read_only m → on_world m s = (r, s') → untouched s s'.
Proof.
  intros Hm. unfold on_world. specialize (Hm (the_world s)). destruct (m (the_world s)) as [r1 w].
  intros [= <- <-]. by exists w.
Qed.

Lemma ret_untouched {A} (a : A) s r s' : (mret a : M S A) s = (r, s') → untouched s s'.
Proof. intros [= <- <-]. apply untouched_refl. Qed.

Lemma on_world_self {A} (m : M fsys A) s a :
  m (the_world s) = (a, the_world s) → on_world m s = (a, s).
Proof. intros E. unfold on_world. by rewrite E, with_the_world. Qed.

Lemma on_world_step {A} (m : M fsys A) s a w :
  m (the_world s) = (a, w) → on_world m s = (a, with_world w s).
Proof. intros E. unfold on_world. by rewrite E. Qed.

Lemma on_world_inv {A} (m : M fsys A) s r s' :
  on_world m s = (r, s') → ∃ w, m (the_world s) = (r, w) ∧ s' = with_world w s.
Proof. unfold on_world. destruct (m (the_world s)) as [r1 w]. intros [= <- <-]. eauto. Qed.
End world_facts.

(** ** Files without links on the way *)

(** [p] is a file of [content] in a directory reached through directories. *)
Definition plain_file (w : fsys) (p : path) (content : Bytes) : Prop :=
  ∃ d c, p = d ++ [c] ∧ dir_path w.(nodes) d ∧ name_ok c ∧ w.(nodes) !! p = Some (File content).

Lemma plain_file_resolve w p content :
  plain_file w p content → resolve w.(nodes) p = Ok p ∧ node_at w.(nodes) p = Some (File content).
Proof.
  intros (d & c & -> & Hd & Hc & Hn). rewrite node_at_snoc. split; [|done].
  apply resolve_in_dir; [done..|]. by rewrite node_at_snoc, Hn.
Qed.

Lemma plain_file_at w p content :
  plain_file w p content → w.(faults) = [] → zlen content < 9223372036854775808 → file_at w p content.
Proof.
  intros Hp Hf Hz. destruct (plain_file_resolve w p content Hp) as [Hr Hn].
  split_and!; [|done..]. unfold status. by rewrite Hr, Hn.
Qed.

Lemma plain_file_insert w p content content' fs :
  plain_file w p content → plain_file (mk_fsys (<[p := File content']> w.(nodes)) fs) p content'.
Proof.
  intros (d & c & -> & Hd & Hc & Hn). exists d, c. split_and!; [done| |done|cbn; by rewrite lookup_insert_eq].
  apply dir_path_insert; [done|]. by rewrite node_at_snoc, Hn.
Qed.

Lemma exists_plain w p content :
  plain_file w p content → w.(faults) = [] → or_throw "" (exists_ p) w = (Ret true, w).
Proof.
  intros Hp Hf. destruct (plain_file_resolve w p content Hp) as [Hr Hn].
  unfold or_throw, exists_. by rewrite (syscall_ok _ w true) by (done || unfold status; by rewrite Hr, Hn).
Qed.

Lemma exists_true p w w' :
  or_throw "" (exists_ p) w = (Ret true, w') →
  w'.(nodes) = w.(nodes) ∧ ∃ n, status w.(nodes) p = Ok n.
Proof.
  unfold or_throw, exists_, syscall. pose proof (proj1 (next_fault_quiet w)) as Hn.
  destruct (next_fault w) as [flt w1]. cbn in Hn. rewrite <- Hn.
  destruct flt; try done; (destruct (status (nodes w1) p) as [n1|[]]; intros [=]; subst; cbn; eauto).
Qed.

(** ** Safe names stay below the root *)
Lemma split_slash_no_slash s seg : seg ∈ split_slash s → seg ≠ "/".
Proof.
  assert (∀ s, Forall (λ seg, ∀ c, c ∈ String.list_ascii_of_string seg → c ≠ "/"%char) (split_slash s)) as H.
  { clear. induction s as [|c s IH]; cbn.
    - constructor; [|constructor]. intros c Hc. by apply elem_of_nil in Hc.
    - case_decide as Hc.
      + constructor; [|done]. intros d Hd. by apply elem_of_nil in Hd.
      + destruct (split_slash s) as [|seg segs].
        * constructor; [|constructor]. intros d [->|Hd]%elem_of_cons; [done|by apply elem_of_nil in Hd].
        * apply Forall_cons in IH as [Hseg Hsegs]. constructor; [|done].
          intros d [->|Hd]%elem_of_cons; [done|auto]. }
  intros Hin ->. specialize (H s). rewrite Forall_forall in H. specialize (H _ Hin "/"%char).
  apply H; [|done]. cbn. left.
Qed.

Lemma safe_name_parts name :
  is_safe_relative_name name = true → Forall name_ok (path_parts name) ∧ path_parts name ≠ [].
Proof.
  unfold is_safe_relative_name. destruct (bool_decide_reflect (name = ""%string)) as [|Hne]; [done|].
  destruct (is_absolute name) eqn:Habs; [done|]. intros Hall. split.
  - rewrite forallb_forall in Hall. apply Forall_forall. intros part Hp.
    specialize (Hall part (proj1 (list_elem_of_In _ _) Hp)). unfold name_ok.
    destruct (bool_decide_reflect (part = ""%string)); [done|].
    destruct (bool_decide_reflect (part = "."%string)); [done|].
    destruct (bool_decide_reflect (part = ".."%string)); [done|]. split_and!; try done.
    unfold path_parts in Hp. rewrite Habs in Hp. cbn [app] in Hp.
    apply elem_of_app in Hp as [[_ Hp]%list_elem_of_filter|Hp]; [by eapply split_slash_no_slash|].
    destruct (bool_decide _); [|by apply elem_of_nil in Hp].
    apply elem_of_cons in Hp as [->|Hp]; [done|by apply elem_of_nil in Hp].
  - unfold path_parts. rewrite Habs. destruct name as [|c s]; [done|]. cbn [app].
    intros [Hf _]%app_eq_nil. cbn in Habs, Hf.
    destruct (decide (c = "/"%char)) as [->|Hc]; [by rewrite bool_decide_eq_true_2 in Habs|].
    destruct (split_slash s) as [|seg segs]; rewrite filter_cons_True in Hf; done.
Qed.
