(* ===== verification/AppendReceiver.v ===== *)
(** * The append receiver: [T_ReceiverStream] of [include/receiver/yisync_receiver.hpp], [src/receiver/yisync_receiver.cpp]

    One stream's directory, extended by CREATE and DATA in sequence.  The state
    of the object and of the file system are threaded together; a handler
    returns the NACK to send, nothing, or leaves with an exception. *)
From S2P Require Import Prelude Crc32c Filesystem Wire Protocol Sync ReceiverPaths.
#[local] Open Scope Z_scope.

Module T_ReceiverStreamState.
Record t := mk {
  active : bool; expected_seq : Z; current_file_id : Z; current_offset : Z;
  current_final_size : Z; next_create_file_id : Z
}.
Definition initial : t := mk false 1 0 0 0 0.
End T_ReceiverStreamState.

Module T_ReceiverStream.
Import T_ReceiverStreamState.

(** [current_path_] is [None] when empty. *)
Record t := mk {
  stream_id_ : Z; root_ : path; state_ : T_ReceiverStreamState.t;
  current_kind_ : EM_EntryKind.t; current_path_ : option path; world : fsys
}.

Definition set_world (w : fsys) (s : t) : t :=
  mk s.(stream_id_) s.(root_) s.(state_) s.(current_kind_) s.(current_path_) w.
Definition set_current (st : T_ReceiverStreamState.t) (kind : EM_EntryKind.t) (p : option path) (s : t) : t :=
  mk s.(stream_id_) s.(root_) st kind p s.(world).
Definition set_state (st : T_ReceiverStreamState.t) (s : t) : t :=
  mk s.(stream_id_) s.(root_) st s.(current_kind_) s.(current_path_) s.(world).

#[export] Instance has_world : HasWorld t.
Proof. refine {| the_world := world; with_world := set_world |}; first [by intros []|by intros ? []|by intros ? ? []]. Defined.

Definition nack (stream_id got_seq file_id offset : Z) (reason : EM_NackReason.t) (detail : string)
    : M t (option T_Nack.t) := λ s,
  (Ret (Some (T_Nack.mk stream_id got_seq s.(state_).(expected_seq) file_id offset
     s.(state_).(current_file_id) s.(state_).(current_offset) reason detail)), s).

Section handlers.
Context {CRC : Crc32c}.

Definition path_for_name (name : string) : M t path := λ s,
  if negb (is_safe_relative_name name) then (Throw ("unsafe receiver path: " ++ name), s)
  else (Ret (s.(root_) ++ path_parts name), s).

Definition path_for_file (file_id : Z) : M t path :=
  s ← get; on_world (path_from_manifest_or_legacy s.(stream_id_) s.(root_) file_id).

Definition reset_session_from_disk : M t unit :=
  _ ← modify (set_state (T_ReceiverStreamState.mk true 1 0 0 0 0));
  s ← get;
  manifest ← on_world (scan s.(stream_id_) s.(root_));
  match last manifest.(T_Manifest1Stream.entries) with
  | None => modify (set_current (T_ReceiverStreamState.mk true 1 0 0 0 1) EM_EntryKind.REGULAR_FILE None)
  | Some latest =>
      let st := T_ReceiverStreamState.mk true (u64 (latest.(T_ManifestEntry.seq) + 1))
                  latest.(T_ManifestEntry.file_id) latest.(T_ManifestEntry.size)
                  latest.(T_ManifestEntry.size) (u64 (latest.(T_ManifestEntry.file_id) + 1)) in
      _ ← modify (λ s, set_current st latest.(T_ManifestEntry.kind) s.(current_path_) s);
      p ← path_for_name latest.(T_ManifestEntry.name);
      modify (set_current st latest.(T_ManifestEntry.kind) (Some p))
  end.

(** The constructor. *)
Definition create (stream_id : Z) (root : path) (w : fsys) : exc t * fsys :=
  let s := mk stream_id root T_ReceiverStreamState.initial EM_EntryKind.REGULAR_FILE None w in
  match (_ ← on_world (or_throw "" (create_directories root)); reset_session_from_disk) s with
  | (Ret _, s) => (Ret s, s.(world))
  | (Throw e, s) => (Throw e, s.(world))
  end.

Definition refresh_committed_from_disk : M t unit :=
  s ← get;
  let st := s.(state_) in
  _ ← modify (set_state (T_ReceiverStreamState.mk true st.(expected_seq) st.(current_file_id)
                st.(current_offset) st.(current_final_size) st.(next_create_file_id)));
  manifest ← on_world (scan s.(stream_id_) s.(root_));
  match last manifest.(T_Manifest1Stream.entries) with
  | None =>
      modify (set_current (T_ReceiverStreamState.mk true st.(expected_seq) 0 0 0 1)
                EM_EntryKind.REGULAR_FILE None)
  | Some latest =>
      let st := T_ReceiverStreamState.mk true
                  (Z.max st.(expected_seq) (u64 (latest.(T_ManifestEntry.seq) + 1)))
                  latest.(T_ManifestEntry.file_id) latest.(T_ManifestEntry.size)
                  latest.(T_ManifestEntry.size) (u64 (latest.(T_ManifestEntry.file_id) + 1)) in
      _ ← modify (λ s, set_current st latest.(T_ManifestEntry.kind) s.(current_path_) s);
      p ← path_for_name latest.(T_ManifestEntry.name);
      modify (set_current st latest.(T_ManifestEntry.kind) (Some p))
  end.

Definition heartbeat (recv_window_bytes durable_offset : Z) (s : t) : T_Heartbeat.t :=
  T_Heartbeat.mk s.(stream_id_) s.(state_).(expected_seq) s.(state_).(current_file_id)
    s.(state_).(current_offset) durable_offset recv_window_bytes [] [].

(** The file system part of CREATE, by kind; an error becomes a NACK. *)
Definition make_entry (create : T_Create.t) (p : path) : M fsys (option string) :=
  match create.(T_Create.kind) with
  | EM_EntryKind.DIRECTORY =>
      r ← with_ec (create_directory p);
      mret (match r with Ok _ => None | Err e => Some ("failed to create directory: " ++ message e)%string end)
  | EM_EntryKind.SYMLINK =>
      r ← with_ec (create_symlink create.(T_Create.link_target) p);
      mret (match r with Ok _ => None | Err e => Some ("failed to create symlink: " ++ message e)%string end)
  | _ =>
      r ← with_ec (open_trunc p);
      mret (match r with Ok _ => None | Err e => Some "failed to create target file"%string end)
  end.

Definition apply_create (create : T_Create.t) : M t (option T_Nack.t) :=
  let refuse := nack create.(T_Create.stream_id) create.(T_Create.seq) create.(T_Create.file_id) in
  s ← get;
  let st := s.(state_) in
  if negb st.(active) || negb (create.(T_Create.stream_id) =? s.(stream_id_))
  then refuse 0 EM_NackReason.BAD_SESSION "inactive or wrong stream"
  else if create.(T_Create.seq) <? st.(expected_seq) then mret None
  else if create.(T_Create.seq) >? st.(expected_seq)
  then refuse 0 EM_NackReason.BAD_SEQ "future seq"
  else if negb (bool_decide (create.(T_Create.kind) = EM_EntryKind.REGULAR_FILE)) &&
          negb (bool_decide (create.(T_Create.kind) = EM_EntryKind.DIRECTORY)) &&
          negb (bool_decide (create.(T_Create.kind) = EM_EntryKind.SYMLINK))
  then refuse 0 EM_NackReason.BAD_CREATE "unsupported create entry kind"
  else if negb (is_safe_relative_name create.(T_Create.name))
  then refuse 0 EM_NackReason.BAD_CREATE "unsafe target path"
  else
    previous ←
      (if negb (create.(T_Create.prev_file_id) =? 0) then
         prev_path ← path_for_file create.(T_Create.prev_file_id);
         on_world (check_previous prev_path create.(T_Create.prev_final_size) create.(T_Create.prev_checksum))
       else mret None);
    match previous with
    | Some (reason, detail) => refuse 0 reason detail
    | None =>
        p ← path_for_name create.(T_Create.name);
        found ← on_world (or_throw "" (exists_ p));
        if found : bool then
          existing_size ← on_world (file_size_or_zero p);
          refuse existing_size EM_NackReason.FILE_EXISTS "target file already exists"
        else
          r ← on_world (with_ec (create_directories (parent_path p)));
          match r with
          | Err e => refuse 0 EM_NackReason.IO_ERROR ("failed to create parent directories: " ++ message e)%string
          | Ok _ =>
              failed ← on_world (make_entry create p);
              match failed with
              | Some detail => refuse 0 EM_NackReason.IO_ERROR detail
              | None =>
                  let expected :=
                    if negb (bool_decide (create.(T_Create.kind) = EM_EntryKind.REGULAR_FILE)) ||
                       (create.(T_Create.final_size) =? 0)
                    then Z.max st.(expected_seq) (u64 (create.(T_Create.seq) + 1))
                    else st.(expected_seq) in
                  _ ← modify (set_current
                        (T_ReceiverStreamState.mk st.(active) expected create.(T_Create.file_id) 0
                           create.(T_Create.final_size) (u64 (create.(T_Create.file_id) + 1)))
                        create.(T_Create.kind) (Some p));
                  mret None
              end
          end
    end.

(** A DATA of the sequence number just passed that continues the current file. *)
Definition append_resume_for_current_file (st : T_ReceiverStreamState.t) (data : T_Data.t) : bool :=
  (data.(T_Data.file_id) =? st.(current_file_id)) &&
  (u64 (data.(T_Data.seq) + 1) =? st.(expected_seq)) &&
  (data.(T_Data.offset) =? st.(current_offset)) &&
  (st.(current_offset) <? data.(T_Data.final_size)).

Definition restoring_final_size_from_resume (st : T_ReceiverStreamState.t) (data : T_Data.t) : bool :=
  (u64 (data.(T_Data.seq) + 1) =? st.(expected_seq)) &&
  (data.(T_Data.file_id) =? st.(current_file_id)) &&
  (data.(T_Data.offset) =? st.(current_offset)) &&
  (st.(current_final_size) =? st.(current_offset)) &&
  (data.(T_Data.final_size) >=? st.(current_offset)).

(** The state after a DATA was written. *)
Definition data_state (st : T_ReceiverStreamState.t) (data : T_Data.t) : T_ReceiverStreamState.t :=
  let offset := u64 (data.(T_Data.offset) + data.(T_Data.raw_len)) in
  T_ReceiverStreamState.mk st.(active)
    (if offset >=? data.(T_Data.final_size)
     then Z.max st.(expected_seq) (u64 (data.(T_Data.seq) + 1)) else st.(expected_seq))
    st.(current_file_id) offset data.(T_Data.final_size) st.(next_create_file_id).

(** The end of [apply(const T_Data&)]: the target [p], which has [size] bytes,
    is known. *)
Definition write_data (data : T_Data.t) (p : path) (size : Z) : M t (option T_Nack.t) :=
  let refuse := nack data.(T_Data.stream_id) data.(T_Data.seq) data.(T_Data.file_id)
                  data.(T_Data.offset) in
  s ← get;
  let st := s.(state_) in
  if negb (data.(T_Data.offset) =? size)
  then refuse EM_NackReason.BAD_OFFSET "offset mismatch"
  else if data.(T_Data.raw_len) =? 0
  then refuse EM_NackReason.DECODE_ERROR "empty DATA"
  else if negb (st.(current_final_size) =? 0) &&
          negb (data.(T_Data.final_size) =? st.(current_final_size)) &&
          negb (restoring_final_size_from_resume st data)
  then refuse EM_NackReason.SIZE_CONFLICT "final_size mismatch"
  else if u64 (data.(T_Data.offset) + data.(T_Data.raw_len)) >? data.(T_Data.final_size)
  then refuse EM_NackReason.BAD_OFFSET "DATA exceeds final_size"
  else
    match raw_data_for_data_message data with
    | Throw what => refuse EM_NackReason.DECODE_ERROR what
    | Ret raw =>
        if negb (bool_decide (data.(T_Data.checksum_algo) = EM_ChecksumAlgo.CRC32C))
        then refuse EM_NackReason.BAD_CHECKSUM "only CRC32C DATA checksum is implemented"
        else if negb (bytes_equal (crc32c_bytes raw) data.(T_Data.checksum))
        then refuse EM_NackReason.BAD_CHECKSUM "DATA checksum mismatch"
        else
          opened ← on_world (with_ec (open_app p));
          match opened with
          | Err _ => refuse EM_NackReason.IO_ERROR "failed to open target file"
          | Ok file =>
              written ← on_world (with_ec (write_append file raw));
              match written with
              | Err _ => refuse EM_NackReason.IO_ERROR "failed to append target file"
              | Ok _ => _ ← modify (λ s, set_state (data_state st data) s); mret None
              end
          end
    end.

Definition apply_data (data : T_Data.t) : M t (option T_Nack.t) :=
  let refuse := nack data.(T_Data.stream_id) data.(T_Data.seq) data.(T_Data.file_id)
                  data.(T_Data.offset) in
  s ← get;
  let st := s.(state_) in
  if negb st.(active) || negb (data.(T_Data.stream_id) =? s.(stream_id_))
  then refuse EM_NackReason.BAD_SESSION "inactive or wrong stream"
  else if (data.(T_Data.seq) <? st.(expected_seq)) && negb (append_resume_for_current_file st data)
  then mret None
  else if data.(T_Data.seq) >? st.(expected_seq)
  then refuse EM_NackReason.BAD_SEQ "future seq"
  else if negb (data.(T_Data.file_id) =? st.(current_file_id))
  then refuse EM_NackReason.BAD_FILE_ORDER "wrong file id"
  else if negb (bool_decide (s.(current_kind_) = EM_EntryKind.REGULAR_FILE))
  then refuse EM_NackReason.BAD_FILE_ORDER "DATA target is not a regular file"
  else
    p ← (match s.(current_path_) with
         | None => path_for_file data.(T_Data.file_id)
         | Some p => mret p
         end);
    found ← on_world (or_throw "" (exists_ p));
    if negb found then refuse EM_NackReason.BAD_OFFSET "target file missing"
    else
      size ← on_world (file_size_or_zero p);
      write_data data p size.
End handlers.
End T_ReceiverStream.

(** ** Accepting DATA *)
Module AppendFacts.
Import T_ReceiverStreamState T_ReceiverStream.

(** The receiver is in the middle of (or at the end of) the file [p]. *)
Definition at_file (s : t) (p : path) (content : Bytes) : Prop :=
  s.(state_).(active) = true ∧ s.(current_kind_) = EM_EntryKind.REGULAR_FILE ∧
  s.(current_path_) = Some p ∧ plain_file s.(world) p content ∧ s.(world).(faults) = [] ∧
  s.(state_).(current_offset) = zlen content ∧ zlen content < 9223372036854775808.

Lemma open_app_plain w p content :
  plain_file w p content → w.(faults) = [] → open_app p w = (Ok p, w).
Proof.
  intros Hp Hf. destruct (plain_file_resolve w p content Hp) as [Hr Hn].
  apply syscall_ok; [done|]. by rewrite Hr, Hn.
Qed.

Lemma write_append_plain w p content bytes :
  plain_file w p content → w.(faults) = [] →
  write_append p bytes w = (Ok tt, mk_fsys (<[p := File (content ++ bytes)]> w.(nodes)) []).
Proof.
  intros (d & c & _ & _ & _ & Hn) Hf. unfold write_append, stream_write, next_fault. rewrite Hf.
  unfold set_nodes, Filesystem.content. cbn. by rewrite Hn, Hf.
Qed.

Section accept.
Context {CRC : Crc32c}.

(** A DATA message as the protocol asks for it. *)
Definition well_formed (data : T_Data.t) : Prop :=
  data.(T_Data.compression) = EM_Compression.NONE ∧
  data.(T_Data.checksum_algo) = EM_ChecksumAlgo.CRC32C ∧
  data.(T_Data.raw_len) = zlen data.(T_Data.payload) ∧ data.(T_Data.payload) ≠ [] ∧
  data.(T_Data.checksum) = crc32c_bytes data.(T_Data.payload).

(** ... and as this state of the receiver expects it. *)
Definition expected (s : t) (data : T_Data.t) : Prop :=
  data.(T_Data.stream_id) = s.(stream_id_) ∧
  data.(T_Data.file_id) = s.(state_).(current_file_id) ∧
  data.(T_Data.offset) = s.(state_).(current_offset) ∧
  (data.(T_Data.seq) = s.(state_).(expected_seq) ∨
   append_resume_for_current_file s.(state_) data = true ∧ data.(T_Data.seq) ≤ s.(state_).(expected_seq)) ∧
  (s.(state_).(current_final_size) = 0 ∨
   data.(T_Data.final_size) = s.(state_).(current_final_size) ∨
   restoring_final_size_from_resume s.(state_) data = true) ∧
  data.(T_Data.offset) + data.(T_Data.raw_len) ≤ data.(T_Data.final_size) < 9223372036854775808.

Lemma apply_data_accept s p content data :
  at_file s p content → well_formed data → expected s data →
  apply_data data s =
  (Ret None, set_state (data_state s.(state_) data)
     (set_world (mk_fsys (<[p := File (content ++ data.(T_Data.payload))]> s.(world).(nodes)) []) s)).
Proof.
  intros (Hact & Hkind & Hpath & Hplain & Hfaults & Hoff & Hsz) (Hcomp & Halgo & Hraw & Hne & Hsum)
    (Hstream & Hfile & Hoffset & Hseq & Hfinal & Hend).
  pose proof (zlen_nonneg content). pose proof (zlen_nonneg data.(T_Data.payload)).
  assert (0 < zlen data.(T_Data.payload)) as Hpos
    by (destruct (T_Data.payload data); [done|rewrite zlen_cons; pose proof (zlen_nonneg l); lia]).
  unfold apply_data. rewrite (bind_ret get _ s s s eq_refl). cbv zeta.
  rewrite Hact, Hstream, Z.eqb_refl. cbn [negb orb].
  assert ((data.(T_Data.seq) <? s.(state_).(expected_seq)) &&
    negb (append_resume_for_current_file s.(state_) data) = false) as ->.
  { destruct Hseq as [->|[-> _]]; [by rewrite Z.ltb_irrefl|by rewrite andb_false_r]. }
  destruct (Z.gtb_spec data.(T_Data.seq) s.(state_).(expected_seq)); [lia|].
  rewrite Hfile, Z.eqb_refl, Hkind, bool_decide_eq_true_2 by done. cbn [negb].
  rewrite Hpath, (bind_ret (mret p) _ s p s eq_refl).
  rewrite (bind_ret _ _ s true s) by (apply on_world_self; by eapply exists_plain). cbn [negb].
  rewrite (bind_ret _ _ s (zlen content) s)
    by (apply on_world_self, (file_size_or_zero_spec _ p content); by apply plain_file_at).
  unfold write_data. rewrite (bind_ret get _ s s s eq_refl). cbv zeta.
  rewrite Hoffset, Hoff, Z.eqb_refl. cbn [negb].
  destruct (Z.eqb_spec data.(T_Data.raw_len) 0); [lia|].
  assert (negb (s.(state_).(current_final_size) =? 0) &&
    negb (data.(T_Data.final_size) =? s.(state_).(current_final_size)) &&
    negb (restoring_final_size_from_resume s.(state_) data) = false) as ->.
  { destruct Hfinal as [->|[->| ->]]; [done|by rewrite Z.eqb_refl, andb_false_r|by rewrite andb_false_r]. }
  rewrite u64_small by uint_lia.
  destruct (Z.gtb_spec (zlen content + data.(T_Data.raw_len)) data.(T_Data.final_size)); [lia|].
  unfold raw_data_for_data_message.
  rewrite Hcomp, Hraw, Z.eqb_refl, bool_decide_eq_true_2 by done. cbn [negb].
  rewrite Halgo, bool_decide_eq_true_2 by done. cbn [negb].
  unfold bytes_equal. rewrite Hsum, bool_decide_eq_true_2 by done. cbn [negb].
  rewrite (bind_ret _ _ s (Ok p) s)
    by (apply on_world_self; unfold with_ec; by rewrite (open_app_plain _ p content)).
  erewrite bind_ret; [|unfold on_world, with_ec; by rewrite (write_append_plain _ p content)].
  done.
Qed.
End accept.
End AppendFacts.

(** ** Transfers *)
Module AppendTransfer.
Import T_ReceiverStreamState T_ReceiverStream AppendFacts.

Section transfer.
Context {CRC : Crc32c}.

(** The DATA messages of a file cut into [pieces], from [offset] on. *)
Definition data_message (stream_id seq file_id final_size offset : Z) (piece : Bytes) : T_Data.t :=
  T_Data.mk stream_id seq file_id offset final_size (zlen piece) EM_Compression.NONE
    EM_ChecksumAlgo.CRC32C (crc32c_bytes piece) piece.

Fixpoint data_messages (stream_id seq file_id final_size offset : Z) (pieces : list Bytes) : list T_Data.t :=
  match pieces with
  | [] => []
  | piece :: pieces =>
      data_message stream_id seq file_id final_size offset piece ::
      data_messages stream_id seq file_id final_size (offset + zlen piece) pieces
  end.

Fixpoint apply_all (msgs : list T_Data.t) : M t (list (option T_Nack.t)) :=
  match msgs with
  | [] => mret []
  | m :: msgs => r ← apply_data m; rs ← apply_all msgs; mret (r :: rs)
  end.

(** The state is that of a file of [final] bytes with sequence number [seq],
    just created, resumed from the disk, or under way. *)
Definition receiving (seq final : Z) (s : t) : Prop :=
  s.(state_).(expected_seq) = seq ∧ s.(state_).(current_final_size) = final ∨
  s.(state_).(expected_seq) = seq + 1 ∧
    (s.(state_).(current_final_size) = final ∨
     s.(state_).(current_final_size) = s.(state_).(current_offset)).

Lemma data_message_well_formed stream_id seq file_id final offset piece :
  piece ≠ [] → well_formed (data_message stream_id seq file_id final offset piece).
Proof. done. Qed.

Lemma receiving_expected seq final s p content piece :
  at_file s p content → receiving seq final s → 0 ≤ seq → seq + 1 < 18446744073709551616 →
  piece ≠ [] → zlen content + zlen piece ≤ final < 9223372036854775808 →
  expected s (data_message s.(stream_id_) seq s.(state_).(current_file_id) final (zlen content) piece).
Proof.
  intros (_ & _ & _ & _ & _ & Hoff & _) Hrec Hs0 Hs1 Hne Hlen.
  assert (0 < zlen piece) by (destruct piece; [done|rewrite zlen_cons; pose proof (zlen_nonneg piece); lia]).
  pose proof (zlen_nonneg content).
  split_and!; cbn; try done; [| |lia..].
  - destruct Hrec as [[-> _]|[He _]]; [by left|right]. rewrite He. split; [|lia].
    unfold append_resume_for_current_file. cbn. rewrite He, Hoff, !Z.eqb_refl.
    rewrite u64_small, Z.eqb_refl by uint_lia. cbn. apply Z.ltb_lt. lia.
  - destruct Hrec as [[_ ->]|(He & [->|Hf])]; [by right; left|by right; left|right; right].
    unfold restoring_final_size_from_resume. cbn. rewrite He, Hf, Hoff, !Z.eqb_refl.
    rewrite u64_small, Z.eqb_refl by uint_lia. cbn. apply Z.geb_le. lia.
Qed.

(** One piece: the file grows by it. *)
Lemma apply_piece seq final s p content piece :
  at_file s p content → receiving seq final s → 0 ≤ seq → seq + 1 < 18446744073709551616 →
  piece ≠ [] → zlen content + zlen piece ≤ final < 9223372036854775808 →
  ∃ s', apply_data (data_message s.(stream_id_) seq s.(state_).(current_file_id) final
          (zlen content) piece) s = (Ret None, s') ∧
    at_file s' p (content ++ piece) ∧ receiving seq final s' ∧
    s'.(stream_id_) = s.(stream_id_) ∧
    s'.(state_).(current_file_id) = s.(state_).(current_file_id) ∧
    (zlen (content ++ piece) = final → s'.(state_).(expected_seq) = seq + 1) ∧
    s'.(world).(nodes) = <[p := File (content ++ piece)]> s.(world).(nodes).
Proof.
  intros Hs Hrec Hs0 Hs1 Hne Hlen.
  pose proof (receiving_expected seq final s p content piece Hs Hrec Hs0 Hs1 Hne Hlen) as Hexp.
  rewrite (apply_data_accept s p content _ Hs (data_message_well_formed _ _ _ _ _ _ Hne) Hexp).
  destruct Hs as (Hact & Hkind & Hpath & Hplain & Hfaults & Hoff & Hsz).
  pose proof (zlen_nonneg content). pose proof (zlen_nonneg piece).
  eexists. split; [done|]. unfold data_state. cbn. rewrite zlen_app.
  rewrite (u64_small (zlen content + zlen piece)), (u64_small (seq + 1)) by uint_lia.
  split_and!; try done.
  - split_and!; cbn; try done; [by eapply plain_file_insert|by rewrite zlen_app|rewrite zlen_app; lia].
  - unfold receiving in *. cbn.
    destruct (Z.geb_spec (zlen content + zlen piece) final) as [Hge|Hlt];
      [right; split; [lia|by left]|].
    destruct Hrec as [[-> _]|[-> _]]; [by left|right; split; [done|by left]].
  - intros Heq. destruct (Z.geb_spec (zlen content + zlen piece) final); [|lia].
    destruct Hrec as [[-> _]|[-> _]]; lia.
Qed.

Lemma data_run seq final s p content pieces :
  at_file s p content → receiving seq final s → 0 ≤ seq → seq + 1 < 18446744073709551616 →
  Forall (λ piece, piece ≠ []) pieces →
  zlen content + zlen (concat pieces) = final → final < 9223372036854775808 →
  ∃ s', apply_all (data_messages s.(stream_id_) seq s.(state_).(current_file_id) final
          (zlen content) pieces) s = (Ret (replicate (length pieces) None), s') ∧
    at_file s' p (content ++ concat pieces) ∧ receiving seq final s' ∧
    s'.(stream_id_) = s.(stream_id_) ∧
    s'.(state_).(current_file_id) = s.(state_).(current_file_id) ∧
    (pieces ≠ [] → s'.(state_).(expected_seq) = seq + 1) ∧
    s'.(world).(nodes) = <[p := File (content ++ concat pieces)]> s.(world).(nodes).
Proof.
  intros Hs Hrec Hs0 Hs1 Hne. revert s content Hs Hrec.
  induction Hne as [|piece pieces Hp Hne IH]; intros s content Hs Hrec Hlen Hfin.
  - exists s. cbn. rewrite app_nil_r. split_and!; try done.
    destruct Hs as (_ & _ & _ & (d & c & _ & _ & _ & Hn) & _). by rewrite insert_id.
  - cbn [concat] in Hlen |- *. rewrite zlen_app in Hlen.
    pose proof (zlen_nonneg (concat pieces)).
    destruct (apply_piece seq final s p content piece Hs Hrec Hs0 Hs1 Hp ltac:(lia))
      as (s1 & Hrun1 & Hs1' & Hrec1 & Hid1 & Hfile1 & Hdone1 & Hn1).
    destruct (IH s1 (content ++ piece) Hs1' Hrec1) as (s2 & Hrun2 & Hs2 & Hrec2 & Hid2 & Hfile2 & Hdone2 & Hn2);
      [rewrite zlen_app; lia|done|].
    exists s2. rewrite Hid1, Hfile1, zlen_app in Hrun2. split_and!.
    + cbn [data_messages apply_all length replicate].
      rewrite (bind_ret _ _ _ _ _ Hrun1), (bind_ret _ _ _ _ _ Hrun2). done.
    + by rewrite app_assoc.
    + done.
    + by rewrite Hid2.
    + by rewrite Hfile2.
    + intros _. destruct pieces as [|q pieces]; [|by apply Hdone2].
      cbn in Hrun2. injection Hrun2 as <-. apply Hdone1. rewrite zlen_app. cbn in Hlen.
      rewrite zlen_nil in Hlen. lia.
    + rewrite Hn2, Hn1, insert_insert_eq. by rewrite app_assoc.
Qed.

(** Messages of a completed file are ignored, in any order. *)
Lemma data_messages_elem stream_id seq file_id final offset pieces m :
  m ∈ data_messages stream_id seq file_id final offset pieces →
  m.(T_Data.seq) = seq ∧ m.(T_Data.final_size) = final ∧ m.(T_Data.stream_id) = stream_id.
Proof.
  revert offset. induction pieces as [|p pieces IH]; intros offset Hm; cbn in Hm;
    [by apply elem_of_nil in Hm|].
  apply elem_of_cons in Hm as [->|Hm]; [done|by eapply IH].
Qed.

Lemma completed_ignored s m seq :
  s.(state_).(active) = true → s.(state_).(expected_seq) = seq + 1 →
  m.(T_Data.seq) = seq → m.(T_Data.stream_id) = s.(stream_id_) →
  m.(T_Data.final_size) ≤ s.(state_).(current_offset) →
  apply_data m s = (Ret None, s).
Proof.
  intros Hact He Hm Hid Hf. unfold apply_data. rewrite (bind_ret get _ s s s eq_refl).
  rewrite Hact, Hid, Z.eqb_refl. cbn [negb orb].
  rewrite Hm, He, (proj2 (Z.ltb_lt seq (seq + 1))) by lia.
  unfold append_resume_for_current_file.
  rewrite (proj2 (Z.ltb_ge s.(state_).(current_offset) m.(T_Data.final_size))) by done.
  by rewrite andb_false_r.
Qed.
End transfer.
End AppendTransfer.

(** ** CREATE *)
Module CreateFacts.
Import T_ReceiverStreamState T_ReceiverStream AppendFacts AppendTransfer.

Section create.
Context {CRC : Crc32c}.

(** The entry that CREATE makes. *)
Definition created_node (create : T_Create.t) : node :=
  match create.(T_Create.kind) with
  | EM_EntryKind.DIRECTORY => Dir
  | EM_EntryKind.SYMLINK => Symlink create.(T_Create.link_target)
  | _ => File []
  end.

(** A CREATE that this state accepts, without a previous file to check. *)
Definition create_expected (s : t) (create : T_Create.t) : Prop :=
  s.(state_).(active) = true ∧ create.(T_Create.stream_id) = s.(stream_id_) ∧
  create.(T_Create.seq) = s.(state_).(expected_seq) ∧
  (create.(T_Create.kind) = EM_EntryKind.REGULAR_FILE ∨
   create.(T_Create.kind) = EM_EntryKind.DIRECTORY ∨
   create.(T_Create.kind) = EM_EntryKind.SYMLINK) ∧
  is_safe_relative_name create.(T_Create.name) = true ∧
  create.(T_Create.prev_file_id) = 0.

(** Nothing but directories is in the way of [root ++ ds ++ [c]]. *)
Definition place (s : t) (ds : path) (c : string) : Prop :=
  dir_path s.(world).(nodes) s.(root_) ∧ free_path s.(world).(nodes) s.(root_) ds ∧ name_ok c ∧
  s.(world).(faults) = [].

Definition created_state (st : T_ReceiverStreamState.t) (create : T_Create.t) : T_ReceiverStreamState.t :=
  T_ReceiverStreamState.mk st.(active)
    (if negb (bool_decide (create.(T_Create.kind) = EM_EntryKind.REGULAR_FILE)) ||
        (create.(T_Create.final_size) =? 0)
     then Z.max st.(expected_seq) (u64 (create.(T_Create.seq) + 1)) else st.(expected_seq))
    create.(T_Create.file_id) 0 create.(T_Create.final_size) (u64 (create.(T_Create.file_id) + 1)).

Lemma make_entry_plain create d c t :
  (create.(T_Create.kind) = EM_EntryKind.REGULAR_FILE ∨
   create.(T_Create.kind) = EM_EntryKind.DIRECTORY ∨
   create.(T_Create.kind) = EM_EntryKind.SYMLINK) →
  dir_path t d → name_ok c → t !! (d ++ [c]) = None →
  make_entry create (d ++ [c]) (mk_fsys t []) =
  (Ret None, mk_fsys (<[d ++ [c] := created_node create]> t) []).
Proof.
  intros Hk Hd Hc Hn. unfold make_entry, created_node.
  destruct Hk as [->|[->| ->]].
  - erewrite bind_ret; [|unfold with_ec; by rewrite open_trunc_new]. done.
  - erewrite bind_ret; [|unfold with_ec; by rewrite create_directory_new]. done.
  - erewrite bind_ret; [|unfold with_ec; by rewrite create_symlink_new]. done.
Qed.

Lemma apply_create_plain s create ds c :
  create_expected s create → path_parts create.(T_Create.name) = ds ++ [c] →
  place s ds c → s.(world).(nodes) !! (s.(root_) ++ ds ++ [c]) = None →
  apply_create create s =
  (Ret None, set_current (created_state s.(state_) create) create.(T_Create.kind)
     (Some (s.(root_) ++ ds ++ [c]))
     (set_world (mk_fsys (<[s.(root_) ++ ds ++ [c] := created_node create]>
        (add_dirs s.(world).(nodes) [] (s.(root_) ++ ds))) []) s)) ∧
  dir_path (add_dirs s.(world).(nodes) [] (s.(root_) ++ ds)) (s.(root_) ++ ds).
Proof.
  intros (Hact & Hid & Hseq & Hkind & Hsafe & Hprev) Hparts (Hroot & Hfree & Hc & Hfaults) Hnone.
  set (p := s.(root_) ++ ds ++ [c]) in *.
  pose proof (free_path_root _ _ _ Hroot Hfree) as Hfree0.
  destruct (make_directories_free _ [] _ (dir_path_nil _) Hfree0) as [Hmake Hdirs].
  cbn [app] in Hdirs. split; [|done].
  unfold apply_create. rewrite (bind_ret get _ s s s eq_refl).
  rewrite Hact, Hid, Z.eqb_refl. cbn [negb orb]. rewrite Hseq, Z.ltb_irrefl.
  destruct (Z.gtb_spec s.(state_).(expected_seq) s.(state_).(expected_seq)); [lia|].
  assert (negb (bool_decide (create.(T_Create.kind) = EM_EntryKind.REGULAR_FILE)) &&
    negb (bool_decide (create.(T_Create.kind) = EM_EntryKind.DIRECTORY)) &&
    negb (bool_decide (create.(T_Create.kind) = EM_EntryKind.SYMLINK)) = false) as ->
    by (by destruct Hkind as [->|[->| ->]]).
  rewrite Hsafe, Hprev. cbn [negb Z.eqb].
  rewrite (bind_ret (mret None) _ s None s eq_refl).
  rewrite (bind_ret _ _ s p s) by (unfold path_for_name; rewrite Hsafe, Hparts; done).
  rewrite (bind_ret _ _ s false s); cycle 1.
  { apply on_world_self. unfold or_throw, exists_.
    rewrite (syscall_ok _ _ false); [done..|].
    unfold p. by rewrite status_free by (done || by rewrite app_assoc, node_at_snoc, <- app_assoc). }
  assert (parent_path p = s.(root_) ++ ds) as Hparent
    by (unfold p, parent_path; rewrite app_assoc; apply removelast_last).
  rewrite (bind_ret _ _ s (Ok tt)
    (set_world (mk_fsys (add_dirs s.(world).(nodes) [] (s.(root_) ++ ds)) []) s)).
  2:{ rewrite Hparent. unfold on_world; cbn [the_world with_world has_world]; unfold with_ec, create_directories, syscall, next_fault.
      rewrite Hfaults, Hmake. unfold set_nodes. by rewrite Hfaults. }
  assert (add_dirs s.(world).(nodes) [] (s.(root_) ++ ds) !! p = None) as Hnone'.
  { apply add_dirs_none; [done|]. intros (r & [k Hr] & Heq). cbn [app] in Heq. subst r.
    unfold p in Hr. apply (f_equal length) in Hr. rewrite !length_app in Hr. cbn in Hr. lia. }
  rewrite (bind_ret _ _ _ None
    (set_world (mk_fsys (<[p := created_node create]> (add_dirs s.(world).(nodes) [] (s.(root_) ++ ds))) []) s)).
  2:{ unfold on_world. cbn [the_world with_world has_world world set_world]. unfold p in *. rewrite app_assoc in *.
      by rewrite make_entry_plain. }
  unfold created_state. rewrite Hseq, Hact. done.
Qed.

(** CREATE of a regular file that is not empty: the stream is at its beginning. *)
Lemma create_starts s create ds c :
  create_expected s create → create.(T_Create.kind) = EM_EntryKind.REGULAR_FILE →
  path_parts create.(T_Create.name) = ds ++ [c] → place s ds c →
  s.(world).(nodes) !! (s.(root_) ++ ds ++ [c]) = None → create.(T_Create.final_size) ≠ 0 →
  ∃ s1, apply_create create s = (Ret None, s1) ∧ at_file s1 (s.(root_) ++ ds ++ [c]) [] ∧
    receiving create.(T_Create.seq) create.(T_Create.final_size) s1 ∧ s1.(stream_id_) = s.(stream_id_) ∧
    s1.(state_).(current_file_id) = create.(T_Create.file_id) ∧
    s1.(world).(nodes) = <[s.(root_) ++ ds ++ [c] := File []]> (add_dirs s.(world).(nodes) [] (s.(root_) ++ ds)).
Proof.
  intros Hexp Hkind Hparts Hplace Hnone Hpos.
  destruct (apply_create_plain s create ds c Hexp Hparts Hplace Hnone) as [Hcreate Hdirs].
  destruct Hexp as (Hact & Hid & Hseq & _ & _ & _). destruct Hplace as (_ & _ & Hc & _).
  eexists. split; [exact Hcreate|]. split_and!; try done.
  - split_and!; try done. exists (s.(root_) ++ ds), c. split_and!; [by rewrite app_assoc| |done|].
    + apply dir_path_insert; [done|]. rewrite app_assoc, node_at_snoc, <- app_assoc.
      rewrite add_dirs_none; [done|done|]. intros (r & [k Hr] & Heq). cbn [app] in Heq. subst r.
      apply (f_equal length) in Hr. rewrite !length_app in Hr. cbn in Hr. lia.
    + cbn. rewrite lookup_insert_eq. unfold created_node. by rewrite Hkind.
  - left. split; [|done]. cbn. rewrite Hkind, bool_decide_eq_true_2 by done. cbn [negb orb].
    destruct (Z.eqb_spec create.(T_Create.final_size) 0); [done|]. by rewrite Hseq.
  - cbn. unfold created_node. by rewrite Hkind.
Qed.
End create.
End CreateFacts.

(** ** What a DATA can change, whatever the system answers *)
Module DataSafety.
Import T_ReceiverStreamState T_ReceiverStream.

Lemma nack_untouched a b c d e f s r s' : nack a b c d e f s = (r, s') → untouched s s'.
Proof. intros [= <- <-]. apply untouched_refl. Qed.

Lemma open_app_existing p w q w' n :
  open_app p w = (Ok q, w') → status w.(nodes) p = Ok n →
  quiet w w' ∧ resolve w.(nodes) p = Ok q.
Proof.
  unfold open_app, syscall, status. pose proof (next_fault_quiet w) as Hq.
  pose proof (proj1 Hq) as Hn. destruct (next_fault w) as [flt w1]. cbn in Hn, Hq.
  rewrite <- Hn. destruct (resolve (nodes w1) p) as [q'|]; [|by destruct flt].
  destruct (node_at (nodes w1) q') as [[]|] eqn:E; destruct flt; try done;
    intros [= <- <-] _; (split; [|done]); (transitivity w1; [done|by destruct w1]).
Qed.

(** A write leaves some beginning of the bytes at the end of the file. *)
Lemma write_append_cases q bytes w r w' :
  write_append q bytes w = (r, w') →
  quiet w w' ∧ (∃ e, r = Err e) ∨
  ∃ n, w'.(nodes) = <[q := File (content w.(nodes) q ++ take n bytes)]> w.(nodes).
Proof.
  unfold write_append, stream_write. pose proof (next_fault_quiet w) as Hq.
  pose proof (proj1 Hq) as Hn.
  destruct (next_fault w) as [[|e|n reported] w1]; cbn in Hn, Hq; intros [= <- <-]; cbn; rewrite ?Hn.
  - right. exists (length bytes). by rewrite take_ge.
  - left. eauto.
  - right. eauto.
Qed.

Section safety.
Context {CRC : Crc32c}.

(** What a DATA that reached the write has passed. *)
Definition verified (s : t) (data : T_Data.t) : Prop :=
  s.(state_).(active) = true ∧ data.(T_Data.stream_id) = s.(stream_id_) ∧
  data.(T_Data.file_id) = s.(state_).(current_file_id) ∧
  s.(current_kind_) = EM_EntryKind.REGULAR_FILE ∧
  (data.(T_Data.seq) = s.(state_).(expected_seq) ∨
   append_resume_for_current_file s.(state_) data = true) ∧
  data.(T_Data.compression) = EM_Compression.NONE ∧
  data.(T_Data.raw_len) = zlen data.(T_Data.payload) ∧
  data.(T_Data.checksum_algo) = EM_ChecksumAlgo.CRC32C ∧
  data.(T_Data.checksum) = crc32c_bytes data.(T_Data.payload) ∧
  u64 (data.(T_Data.offset) + data.(T_Data.raw_len)) ≤ data.(T_Data.final_size).

(** The last two calls of [apply_data]: open and append. *)
Definition append_payload (p : path) (data : T_Data.t) (st : T_ReceiverStreamState.t)
    (refuse : EM_NackReason.t → string → M t (option T_Nack.t)) : M t (option T_Nack.t) :=
  opened ← on_world (with_ec (open_app p));
  match opened with
  | Err _ => refuse EM_NackReason.IO_ERROR "failed to open target file"
  | Ok file =>
      written ← on_world (with_ec (write_append file data.(T_Data.payload)));
      match written with
      | Err _ => refuse EM_NackReason.IO_ERROR "failed to append target file"
      | Ok _ => _ ← modify (λ s, set_state (data_state st data) s); mret None
      end
  end.

Definition appended (s s' : t) (p : path) (data : T_Data.t) : Prop :=
  ∃ q n, resolve s.(world).(nodes) p = Ok q ∧
    s'.(world).(nodes) =
      <[q := File (content s.(world).(nodes) q ++ take n data.(T_Data.payload))]> s.(world).(nodes).

Lemma append_payload_safe p data s n r s' :
  status s.(world).(nodes) p = Ok n →
  append_payload p data s.(state_)
    (nack data.(T_Data.stream_id) data.(T_Data.seq) data.(T_Data.file_id) data.(T_Data.offset)) s = (r, s') →
  untouched s s' ∨ appended s s' p data.
Proof.
  intros Hst H. unfold append_payload in H.
  apply bind_cases in H as [(opened & s1 & E & H)|(e & E & ->)].
  2:{ unfold on_world, with_ec in E; cbn [the_world with_world has_world] in E. by destruct (open_app p (world s)). }
  unfold on_world, with_ec in E; cbn [the_world with_world has_world] in E. destruct (open_app p (world s)) as [[q|e] w1] eqn:Eo;
    injection E as <- <-.
  2:{ left. apply nack_untouched in H. eapply untouched_trans; [|exact H].
      exists w1. split; [done|]. unfold open_app, syscall in Eo.
      pose proof (next_fault_quiet s.(world)) as Hn.
      destruct (next_fault s.(world)) as [flt w2]. cbn in Hn.
      destruct flt; [|by injection Eo as _ <-|];
        (destruct (resolve (nodes w2) p) as [q|]; [|by injection Eo as _ <-];
         destruct (node_at (nodes w2) q) as [[]|]; try discriminate; by injection Eo as _ <-). }
  destruct (open_app_existing p _ q w1 n Eo Hst) as [Hq1 Hres].
  apply bind_cases in H as [(written & s2 & E & H)|(e & E & ->)].
  2:{ unfold on_world, with_ec in E; cbn [the_world with_world has_world] in E. by destruct (write_append q _ _). }
  unfold on_world, with_ec in E; cbn [the_world with_world has_world] in E. cbn [world set_world] in E.
  destruct (write_append q (T_Data.payload data) w1) as [rw w2] eqn:Ew. injection E as <- <-.
  destruct (write_append_cases _ _ _ _ _ Ew) as [[Hq2 (e & ->)]|(k & Hn2)].
  - left. apply nack_untouched in H. eapply untouched_trans; [|exact H]. exists w2.
    split; [done|by transitivity w1].
  - right. rewrite (proj1 Hq1) in Hn2. exists q, k. split; [done|]. rewrite <- Hn2. destruct rw as [|e].
    + by injection H as <- <-.
    + by injection H as <- <-.
Qed.

Lemma write_data_safe data p size s n r s' :
  status s.(world).(nodes) p = Ok n → write_data data p size s = (r, s') →
  untouched s s' ∨
  data.(T_Data.offset) = size ∧ data.(T_Data.compression) = EM_Compression.NONE ∧
    data.(T_Data.raw_len) = zlen data.(T_Data.payload) ∧
    data.(T_Data.checksum_algo) = EM_ChecksumAlgo.CRC32C ∧
    data.(T_Data.checksum) = crc32c_bytes data.(T_Data.payload) ∧
    u64 (data.(T_Data.offset) + data.(T_Data.raw_len)) ≤ data.(T_Data.final_size) ∧
    appended s s' p data.
Proof.
  intros Hst. unfold write_data. rewrite (bind_ret get _ s s s eq_refl). cbv zeta.
  destruct (Z.eqb_spec data.(T_Data.offset) size) as [Hoff|_]; cbn [negb];
    [|intros H; left; by apply nack_untouched in H].
  destruct (Z.eqb_spec data.(T_Data.raw_len) 0) as [_|_];
    [intros H; left; by apply nack_untouched in H|].
  destruct (_ && _); [intros H; left; by apply nack_untouched in H|].
  destruct (Z.gtb_spec (u64 (data.(T_Data.offset) + data.(T_Data.raw_len))) data.(T_Data.final_size))
    as [_|Hend]; [intros H; left; by apply nack_untouched in H|].
  unfold raw_data_for_data_message.
  destruct (bool_decide_reflect (data.(T_Data.compression) = EM_Compression.NONE)) as [Hc|_]; cbn [negb];
    [|intros H; left; by apply nack_untouched in H].
  destruct (Z.eqb_spec (zlen data.(T_Data.payload)) data.(T_Data.raw_len)) as [Hraw|_]; cbn [negb];
    [|intros H; left; by apply nack_untouched in H].
  destruct (bool_decide_reflect (data.(T_Data.checksum_algo) = EM_ChecksumAlgo.CRC32C)) as [Ha|_];
    cbn [negb]; [|intros H; left; by apply nack_untouched in H].
  unfold bytes_equal. destruct (bool_decide_reflect (crc32c_bytes data.(T_Data.payload) = data.(T_Data.checksum)))
    as [Hsum|_]; cbn [negb]; [|intros H; left; by apply nack_untouched in H].
  intros H. apply (append_payload_safe p data s n) in H as [H|H]; [by left|right|done].
  split_and!; done.
Qed.
End safety.
End DataSafety.

(** ** Properties *)
Import T_ReceiverStreamState T_ReceiverStream AppendFacts AppendTransfer CreateFacts DataSafety.

Section properties.
Context {CRC : Crc32c}.

(** A lookup by id only reads. *)
Lemma path_for_file_untouched id s r s' : path_for_file id s = (r, s') → untouched s s'.
Proof.
  unfold path_for_file. rewrite (bind_ret get _ s s s eq_refl). apply on_world_untouched.
  unfold path_from_manifest_or_legacy. apply read_only_bind; [apply read_only_scan|done].
Qed.

Lemma current_or_lookup_untouched id s r s' :
  (match s.(current_path_) with None => path_for_file id | Some p => mret p end) s = (r, s') →
  untouched s s'.
Proof. destruct (current_path_ s); [apply ret_untouched|apply path_for_file_untouched]. Qed.

(** C24: whatever the system answers (failed calls, short or silently lost
    writes), a DATA message changes nothing but, possibly, the end of the
    current file: and it does that only after its session, sequence, file,
    length, compression and CRC-32C have been verified, leaving there some
    beginning of its payload; without errors its offset is that file's size. *)
Theorem apply_data_safe s data r s' :
  apply_data data s = (r, s') →
  untouched s s' ∨
  verified s data ∧
  ∃ p, (∀ p', s.(current_path_) = Some p' → p = p') ∧ appended s s' p data ∧
    ∀ old, file_at s.(world) p old → data.(T_Data.offset) = zlen old.
Proof.
  unfold apply_data. rewrite (bind_ret get _ s s s eq_refl). cbv zeta.
  destruct (s.(state_).(active)) eqn:Hact; cbn [negb orb];
    [|intros H; left; by apply nack_untouched in H].
  destruct (Z.eqb_spec data.(T_Data.stream_id) s.(stream_id_)) as [Hid|_]; cbn [negb];
    [|intros H; left; by apply nack_untouched in H].
  destruct (_ && _) eqn:Hdup; [intros H; left; by apply ret_untouched in H|].
  destruct (Z.gtb_spec data.(T_Data.seq) s.(state_).(expected_seq)) as [_|Hseq];
    [intros H; left; by apply nack_untouched in H|].
  destruct (Z.eqb_spec data.(T_Data.file_id) s.(state_).(current_file_id)) as [Hfile|_]; cbn [negb];
    [|intros H; left; by apply nack_untouched in H].
  destruct (bool_decide_reflect (s.(current_kind_) = EM_EntryKind.REGULAR_FILE)) as [Hkind|_]; cbn [negb];
    [|intros H; left; by apply nack_untouched in H].
  intros H. apply bind_cases in H as [(p & s1 & E1 & H)|(e & E1 & ->)];
    pose proof (current_or_lookup_untouched _ _ _ _ E1) as U1; [|by left].
  assert (∀ p', s.(current_path_) = Some p' → p = p' ∧ s1 = s) as Hp
    by (intros p' Hp'; rewrite Hp' in E1; by injection E1 as <- <-).
  apply bind_cases in H as [(found & s2 & E2 & H)|(e & E2 & ->)];
    pose proof (on_world_untouched _ _ _ _ (read_only_or_throw _ _ (exists_quiet p)) E2) as U2;
    pose proof (untouched_trans _ _ _ U1 U2) as U12; [|by left].
  destruct found; cbn [negb] in H;
    [|left; apply nack_untouched in H; by eapply untouched_trans].
  apply bind_cases in H as [(size & s3 & E3 & H)|(e & E3 & ->)];
    pose proof (on_world_untouched _ _ _ _ (read_only_file_size_or_zero p) E3) as U3;
    pose proof (untouched_trans _ _ _ U12 U3) as U; [|by left].
  destruct U as (w3 & Hs3 & Hn3).
  assert (∃ n, status s3.(world).(nodes) p = Ok n) as [n Hst].
  { destruct U1 as (w1 & -> & Hn1). unfold on_world in E2. cbn [the_world with_world has_world world set_world] in E2.
    destruct (or_throw "" (exists_ p) w1) as [r2 w2] eqn:Ee. injection E2 as -> <-.
    destruct (exists_true _ _ _ Ee) as [_ [n Hn]]. exists n. rewrite Hs3. cbn.
    by rewrite (proj1 Hn3), <- (proj1 Hn1). }
  destruct (write_data_safe data p size s3 n r s' Hst H) as [U'|Hok].
  { left. eapply untouched_trans; [|exact U']. by exists w3. }
  destruct Hok as (Hoff & Hc & Hraw & Ha & Hsum & Hend & (q & k & Hres & Happ)).
  rewrite Hs3 in Hres, Happ. cbn [with_world has_world world set_world] in Hres, Happ. rewrite (proj1 Hn3) in Hres, Happ.
  right. split; [|exists p; split_and!].
  - unfold verified. split_and!; try done. apply andb_false_iff in Hdup as [Hlt|Hr].
    + left. apply Z.ltb_ge in Hlt. lia.
    + right. by destruct (append_resume_for_current_file _ _).
  - intros p' Hp'. by apply Hp.
  - by exists q, k.
  - intros old (Hsto & Hfo & Hzo). rewrite Hoff. destruct U12 as (w2 & -> & Hn2 & Hf2).
    assert (file_at w2 p old) as Hold by (split_and!; [by rewrite Hn2|auto|done]).
    unfold on_world in E3. cbn [the_world with_world has_world world set_world] in E3.
    rewrite (file_size_or_zero_spec w2 p old Hold) in E3. by injection E3 as <- _.
Qed.

(** CREATE without a previous file, for a safe name whose way is free:
    it makes the missing parent directories and the entry of the asked kind,
    empty, keeps every file and link there was, makes the entry current, and
    passes to the next sequence number unless DATA is to follow. *)
Theorem apply_create_correct s create ds c :
  create_expected s create → path_parts create.(T_Create.name) = ds ++ [c] → place s ds c →
  s.(world).(nodes) !! (s.(root_) ++ ds ++ [c]) = None →
  0 ≤ create.(T_Create.seq) → create.(T_Create.seq) + 1 < 18446744073709551616 →
  ∃ s', apply_create create s = (Ret None, s') ∧
    s'.(world).(nodes) !! (s.(root_) ++ ds ++ [c]) = Some (created_node create) ∧
    (∀ q n, s.(world).(nodes) !! q = Some n → s'.(world).(nodes) !! q = Some n) ∧
    s'.(current_path_) = Some (s.(root_) ++ ds ++ [c]) ∧
    s'.(state_).(expected_seq) =
      (if decide (create.(T_Create.kind) = EM_EntryKind.REGULAR_FILE ∧ create.(T_Create.final_size) ≠ 0)
       then create.(T_Create.seq) else create.(T_Create.seq) + 1).
Proof.
  intros Hexp Hparts Hplace Hnone Hseq0 Hseq1.
  destruct (apply_create_plain s create ds c Hexp Hparts Hplace Hnone) as [-> Hdirs].
  destruct Hexp as (_ & _ & Hseq & _ & _ & _).
  eexists. split; [done|]. cbn. rewrite lookup_insert_eq. split_and!; try done.
  - intros q n Hq. rewrite lookup_insert_ne by (intros <-; rewrite Hnone in Hq; done).
    by apply add_dirs_lookup.
  - rewrite <- Hseq, u64_small, Z.max_r by uint_lia.
    case_decide as Hd; case_bool_decide as Hb; cbn [negb orb]; try tauto;
      destruct (Z.eqb_spec create.(T_Create.final_size) 0); tauto.
Qed.

(** C14: a whole append file: CREATE followed by the DATA messages of the
    file cut into any non-empty pieces is accepted without a NACK, leaves
    exactly the file's bytes under its name, everything else there was as it
    was, and nothing new but the file and the missing directories on its way,
    and moves to the next sequence number; any of those DATA delivered again,
    in any order, is then ignored. *)
Theorem append_transfer s create ds c pieces :
  create_expected s create → create.(T_Create.kind) = EM_EntryKind.REGULAR_FILE →
  path_parts create.(T_Create.name) = ds ++ [c] → place s ds c →
  s.(world).(nodes) !! (s.(root_) ++ ds ++ [c]) = None →
  0 ≤ create.(T_Create.seq) → create.(T_Create.seq) + 1 < 18446744073709551616 →
  Forall (λ piece, piece ≠ []) pieces → pieces ≠ [] →
  create.(T_Create.final_size) = zlen (concat pieces) → zlen (concat pieces) < 9223372036854775808 →
  let msgs := data_messages create.(T_Create.stream_id) create.(T_Create.seq)
                create.(T_Create.file_id) create.(T_Create.final_size) 0 pieces in
  ∃ s1 s2, apply_create create s = (Ret None, s1) ∧
    apply_all msgs s1 = (Ret (replicate (length pieces) None), s2) ∧
    s2.(world).(nodes) !! (s.(root_) ++ ds ++ [c]) = Some (File (concat pieces)) ∧
    (∀ q n, s.(world).(nodes) !! q = Some n → s2.(world).(nodes) !! q = Some n) ∧
    (∀ q, s.(world).(nodes) !! q = None → q ≠ s.(root_) ++ ds ++ [c] → ¬ q `prefix_of` s.(root_) ++ ds →
       s2.(world).(nodes) !! q = None) ∧
    s2.(state_).(expected_seq) = create.(T_Create.seq) + 1 ∧
    ∀ m, m ∈ msgs → apply_data m s2 = (Ret None, s2).
Proof.
  intros Hexp Hkind Hparts Hplace Hnone Hs0 Hs1 Hne Hne' Hfin Hsz.
  assert (create.(T_Create.final_size) ≠ 0) as Hpos.
  { rewrite Hfin. destruct pieces as [|p pieces]; [done|]. apply Forall_cons in Hne as [Hp _].
    cbn [concat]. rewrite zlen_app. destruct p; [done|]. rewrite zlen_cons.
    pose proof (zlen_nonneg p). pose proof (zlen_nonneg (concat pieces)). lia. }
  destruct (create_starts s create ds c Hexp Hkind Hparts Hplace Hnone Hpos)
    as (s1 & Hcreate & Hat & Hrec & Hid1 & Hfile1 & Hn1). destruct Hexp as (_ & Hid & _).
  destruct (data_run create.(T_Create.seq) create.(T_Create.final_size) s1 _ [] pieces Hat Hrec)
    as (s2 & Hrun & Hat2 & Hrec2 & Hid2 & Hfile2 & Hdone & Hn2); [done..|lia|].
  cbv zeta. rewrite Hid. rewrite Hid1, Hfile1 in Hrun. exists s1, s2. cbn [app] in *.
  rewrite Hn1, insert_insert_eq in Hn2.
  split_and!; [done|done| | | |by apply Hdone|].
  - destruct Hat2 as (_ & _ & _ & (d & c' & _ & _ & _ & Hn) & _). done.
  - intros q n Hq. rewrite Hn2, lookup_insert_ne by (intros <-; rewrite Hnone in Hq; done).
    by apply add_dirs_lookup.
  - intros q Hq Hqp Hpre. rewrite Hn2, lookup_insert_ne by done. apply add_dirs_none; [done|].
    intros (r & Hr & Heq). cbn [app] in Heq. by subst r.
  - intros m Hm. apply data_messages_elem in Hm as (Hm1 & Hm2 & Hm3).
    destruct Hat2 as (Hact2 & _ & _ & _ & _ & Hoff2 & _).
    apply (completed_ignored s2 m create.(T_Create.seq)); try done.
    + by apply Hdone.
    + by rewrite Hm3, Hid2, Hid1.
    + rewrite Hm2, Hoff2. lia.
Qed.

(** C30: resumption: when the receiver stands, after a restart, at the end of
    a partial file whose sequence number is the one before [expected_seq],
    the remaining pieces are accepted with that number and complete the
    file; neither the bytes already there nor the sequence are disturbed. *)
Theorem append_resume s p content pieces seq final :
  at_file s p content → s.(state_).(expected_seq) = seq + 1 →
  s.(state_).(current_final_size) = s.(state_).(current_offset) →
  0 ≤ seq → seq + 1 < 18446744073709551616 →
  Forall (λ piece, piece ≠ []) pieces →
  zlen content + zlen (concat pieces) = final → final < 9223372036854775808 →
  ∃ s', apply_all (data_messages s.(stream_id_) seq s.(state_).(current_file_id) final
          (zlen content) pieces) s = (Ret (replicate (length pieces) None), s') ∧
    at_file s' p (content ++ concat pieces) ∧ s'.(state_).(expected_seq) = seq + 1.
Proof.
  intros Hat He Hf Hs0 Hs1 Hne Hlen Hfin.
  destruct (data_run seq final s p content pieces Hat) as (s' & Hrun & Hat' & Hrec' & _ & _ & Hdone);
    [right; split; [done|by right]|done..|].
  exists s'. split_and!; [done|done|].
  destruct pieces as [|x pieces]; [by injection Hrun as <-|by apply Hdone].
Qed.
End properties.

(** ** Witnesses *)
Section witnesses.
#[local] Existing Instance crc_ref_impl.

(** A stream directory ["s"] with one file, of which two bytes have come. *)
Definition sample_world : fsys :=
  mk_fsys (<[["s"] := Dir]> (<[["s"; "1.file"] := File [x01; x02]]> ∅)) [].
Definition sample_stream : T_ReceiverStream.t :=
  mk 3 ["s"] (T_ReceiverStreamState.mk true 2 1 2 2 2) EM_EntryKind.REGULAR_FILE
    (Some ["s"; "1.file"]) sample_world.
Definition sample_data : T_Data.t := data_message 3 1 1 4 2 [x03; x04].
Definition sample_create : T_Create.t :=
  T_Create.mk 3 2 2 EM_EntryKind.REGULAR_FILE "sub/2.file" "" 3 0 0
    (T_FileChecksum.mk EM_ChecksumAlgo.NONE 0 0 []).

Lemma apply_data_safe_witness :
  apply_data sample_data sample_stream = (Ret None, snd (apply_data sample_data sample_stream)) ∧
  verified sample_stream sample_data.
Proof.
  assert (apply_data sample_data sample_stream = (Ret None, snd (apply_data sample_data sample_stream))) as H
    by (vm_compute; reflexivity).
  split; [exact H|].
  destruct (apply_data_safe _ _ _ _ H) as [(w & Hw & Hn & _)|[Hv _]]; [|exact Hv].
  exfalso. apply (f_equal (λ s, s.(world).(nodes) !! ["s"; "1.file"])) in Hw.
  cbn [with_world has_world set_world world] in Hw. rewrite Hn in Hw. vm_compute in Hw. discriminate.
Defined.

Lemma sample_create_expected : create_expected sample_stream sample_create.
Proof. split_and!; try (vm_compute; reflexivity). by left. Qed.

Lemma sample_root : dir_path sample_world.(nodes) ["s"].
Proof. apply (dir_path_snoc _ [] "s"); [apply dir_path_nil|done|vm_compute; done]. Qed.

Lemma sample_place : place sample_stream ["sub"] "2.file".
Proof.
  split_and!; [apply sample_root| |done..].
  split; [by repeat constructor|]. intros q Hq. apply (prefix_snoc_inv q []) in Hq as [->|Hq]; [by right|].
  apply prefix_nil_inv in Hq as ->. by left.
Qed.

Lemma apply_create_correct_witness :
  create_expected sample_stream sample_create ∧ place sample_stream ["sub"] "2.file" ∧
  ∃ s', apply_create sample_create sample_stream = (Ret None, s') ∧
    s'.(world).(nodes) !! ["s"; "sub"; "2.file"] = Some (File []).
Proof.
  split; [apply sample_create_expected|]. split; [apply sample_place|].
  destruct (apply_create_correct sample_stream sample_create ["sub"] "2.file") as (s' & Hs & Hn & _).
  - apply sample_create_expected.
  - vm_compute; reflexivity.
  - apply sample_place.
  - vm_compute; reflexivity.
  - vm_compute; discriminate.
  - vm_compute; reflexivity.
  - exists s'. split; [exact Hs|exact Hn].
Defined.

Lemma append_transfer_witness :
  place sample_stream ["sub"] "2.file" ∧
  ∃ s1 s2, apply_create sample_create sample_stream = (Ret None, s1) ∧
    apply_all (data_messages 3 2 2 3 0 [[x05; x06]; [x07]]) s1 = (Ret [None; None], s2) ∧
    s2.(world).(nodes) !! ["s"; "sub"; "2.file"] = Some (File [x05; x06; x07]) ∧
    s2.(world).(nodes) !! ["s"; "1.file"] = Some (File [x01; x02]).
Proof.
  split; [apply sample_place|].
  destruct (append_transfer sample_stream sample_create ["sub"] "2.file" [[x05; x06]; [x07]])
    as (s1 & s2 & H1 & H2 & H3 & H4 & _).
  - apply sample_create_expected.
  - reflexivity.
  - vm_compute; reflexivity.
  - apply sample_place.
  - vm_compute; reflexivity.
  - vm_compute; discriminate.
  - vm_compute; reflexivity.
  - repeat constructor; discriminate.
  - discriminate.
  - vm_compute; reflexivity.
  - vm_compute; reflexivity.
  - exists s1, s2. split; [exact H1|]. split; [exact H2|].
    split; [exact H3|]. apply H4. vm_compute; reflexivity.
Defined.

Lemma sample_at_file : at_file sample_stream ["s"; "1.file"] [x01; x02].
Proof.
  split_and!; try done. exists ["s"], "1.file". split_and!; try done. apply sample_root.
Qed.

Lemma append_resume_witness :
  at_file sample_stream ["s"; "1.file"] [x01; x02] ∧
  ∃ s', apply_all (data_messages 3 1 1 4 2 [[x03]; [x04]]) sample_stream = (Ret [None; None], s') ∧
    at_file s' ["s"; "1.file"] [x01; x02; x03; x04].
Proof.
  split; [apply sample_at_file|].
  destruct (append_resume sample_stream ["s"; "1.file"] [x01; x02] [[x03]; [x04]] 1 4)
    as (s' & Hs & Hat & _).
  - apply sample_at_file.
  - reflexivity.
  - reflexivity.
  - lia.
  - lia.
  - repeat constructor; discriminate.
  - vm_compute; reflexivity.
  - lia.
  - exists s'. split; [exact Hs|exact Hat].
Defined.

(** docs/protocol.md asks that a target path may not leave the stream's
    directory through a symbolic link; CREATE of a link to ["/out"] followed
    by CREATE of a file below that link makes the file outside of it. *)
Definition link_world : fsys := mk_fsys (<[["s"] := Dir]> (<[["out"] := Dir]> ∅)) [].
Definition link_stream : T_ReceiverStream.t :=
  mk 3 ["s"] (T_ReceiverStreamState.mk true 1 0 0 0 1) EM_EntryKind.REGULAR_FILE None link_world.
Definition link_create (seq : Z) (kind : EM_EntryKind.t) (name target : string) : T_Create.t :=
  T_Create.mk 3 seq seq kind name target 0 0 0 (T_FileChecksum.mk EM_ChecksumAlgo.NONE 0 0 []).

Lemma create_escapes_root :
  let '(answers, s) :=
    (r1 ← apply_create (link_create 1 EM_EntryKind.SYMLINK "a" "/out");
     r2 ← apply_create (link_create 2 EM_EntryKind.REGULAR_FILE "a/f" "");
     mret (r1, r2)) link_stream in
  answers = Ret (None, None) ∧ s.(world).(nodes) !! ["out"; "f"] = Some (File []).
Proof. vm_compute. done. Qed.
End witnesses.
