(* ===== verification/ChunkReceiver.v ===== *)
(** * The chunked receiver: [T_ChunkedReceiverStream] of [include/receiver/yisync_receiver.hpp], [src/receiver/yisync_receiver.cpp]

    Large files come as FILE_BEGIN, CHUNKs in any order, FILE_COMMIT: the chunks
    are written into a file below [.yisync_tmp] and a bitmap remembers them;
    the commit verifies the whole, then renames it to its place. *)
From stdpp Require Import sorting.
From S2P Require Import Prelude Crc32c Filesystem Wire Protocol Sync ReceiverPaths.
#[local] Open Scope Z_scope.

Module T_ChunkCommitTask.
Record t := mk {
  root : path; temp_root : path; temp_path : path; final_path : path; stream_id : Z; seq : Z;
  file_id : Z; final_size : Z; file_checksum : T_FileChecksum.t
}.
Definition empty : t := mk [] [] [] [] 0 0 0 0 empty_checksum.
End T_ChunkCommitTask.

Module T_ChunkCommitResult.
Record t := mk { stream_id : Z; seq : Z; file_id : Z; final_size : Z; final_path : path }.
End T_ChunkCommitResult.

Module ActiveFile.
Record t := mk {
  seq : Z; file_id : Z; name : string; final_size : Z; chunk_size : Z; chunk_count : Z;
  file_checksum : T_FileChecksum.t; prev_file_id : Z; prev_final_size : Z;
  prev_checksum : T_FileChecksum.t; temp_path : path; final_path : path;
  received : list bool; received_count : Z; commit_pending : bool
}.
Definition set_pending (pending : bool) (f : t) : t :=
  mk f.(seq) f.(file_id) f.(name) f.(final_size) f.(chunk_size) f.(chunk_count) f.(file_checksum)
    f.(prev_file_id) f.(prev_final_size) f.(prev_checksum) f.(temp_path) f.(final_path)
    f.(received) f.(received_count) pending.
(** [received[index] = true; received_count += 1]. *)
Definition mark (index : Z) (f : t) : t :=
  mk f.(seq) f.(file_id) f.(name) f.(final_size) f.(chunk_size) f.(chunk_count) f.(file_checksum)
    f.(prev_file_id) f.(prev_final_size) f.(prev_checksum) f.(temp_path) f.(final_path)
    (<[Z.to_nat index := true]> f.(received)) (u64 (f.(received_count) + 1)) f.(commit_pending).
(** [received[index]], for an index of the vector. *)
Definition has (f : t) (index : nat) : bool := default false (f.(received) !! index).
End ActiveFile.

Module T_ChunkedReceiverStream.

(** [Impl]; [active] is keyed by sequence number. *)
Record t := mk {
  stream_id : Z; root : path; temp_root : path; expected_seq : Z; current_file_id : Z;
  current_offset : Z; active : gmap Z ActiveFile.t; world : fsys
}.

Definition set_world (w : fsys) (s : t) : t :=
  mk s.(stream_id) s.(root) s.(temp_root) s.(expected_seq) s.(current_file_id) s.(current_offset)
    s.(active) w.
Definition set_position (seq file_id offset : Z) (s : t) : t :=
  mk s.(stream_id) s.(root) s.(temp_root) seq file_id offset s.(active) s.(world).
Definition set_active (a : gmap Z ActiveFile.t) (s : t) : t :=
  mk s.(stream_id) s.(root) s.(temp_root) s.(expected_seq) s.(current_file_id) s.(current_offset)
    a s.(world).

#[export] Instance has_world : HasWorld t.
Proof. refine {| the_world := world; with_world := set_world |}; first [by intros []|by intros ? []|by intros ? ? []]. Defined.

(** The three [nack]s: CHUNK passes its offset, the others 0. *)
Definition nack (stream seq file_id offset : Z) (reason : EM_NackReason.t) (detail : string)
    : M t (option T_Nack.t) := λ s,
  (Ret (Some (T_Nack.mk stream seq s.(expected_seq) file_id offset s.(current_file_id)
     s.(current_offset) reason detail)), s).

Definition nack_begin (begin : T_FileBegin.t) :=
  nack begin.(T_FileBegin.stream_id) begin.(T_FileBegin.seq) begin.(T_FileBegin.file_id) 0.
Definition nack_chunk (chunk : T_Chunk.t) :=
  nack chunk.(T_Chunk.stream_id) chunk.(T_Chunk.seq) chunk.(T_Chunk.file_id) chunk.(T_Chunk.offset).
Definition nack_commit (commit : T_FileCommit.t) :=
  nack commit.(T_FileCommit.stream_id) commit.(T_FileCommit.seq) commit.(T_FileCommit.file_id) 0.

Section handlers.
Context {CRC : Crc32c}.

Definition restore_active_from_disk : M t unit :=
  s ← get;
  manifest ← on_world (scan s.(stream_id) s.(root));
  match last manifest.(T_Manifest1Stream.entries) with
  | None => mret tt
  | Some latest =>
      modify (set_position (u64 (latest.(T_ManifestEntry.seq) + 1)) latest.(T_ManifestEntry.file_id)
                latest.(T_ManifestEntry.size))
  end.

(** The constructor; what [remove_all] answers is ignored. *)
Definition create (stream_id : Z) (root : path) (w : fsys) : exc t * fsys :=
  let s := mk stream_id root (root ++ [".yisync_tmp"]) 1 0 0 ∅ w in
  match (_ ← on_world (or_throw "" (create_directories root));
         _ ← on_world (with_ec (remove_all s.(temp_root)));
         _ ← on_world (or_throw "" (create_directories s.(temp_root)));
         restore_active_from_disk) s with
  | (Ret _, s) => (Ret s, s.(world))
  | (Throw e, s) => (Throw e, s.(world))
  end.

Definition refresh_committed_from_disk : M t unit :=
  s ← get;
  manifest ← on_world (scan s.(stream_id) s.(root));
  match last manifest.(T_Manifest1Stream.entries) with
  | None => modify (set_position s.(expected_seq) 0 0)
  | Some latest =>
      modify (set_position (Z.max s.(expected_seq) (u64 (latest.(T_ManifestEntry.seq) + 1)))
                latest.(T_ManifestEntry.file_id) latest.(T_ManifestEntry.size))
  end.

Definition final_path_for (file_id : Z) (name : string) (s : t) : exc path :=
  if bool_decide (name = ""%string) then Ret (s.(root) ++ [file_name_for_id file_id])
  else if negb (is_safe_relative_name name) then Throw ("unsafe chunk final path: " ++ name)
  else Ret (s.(root) ++ path_parts name).

Definition temp_path_for (seq file_id : Z) (s : t) : path :=
  s.(temp_root) ++ [(to_string seq ++ "_" ++ file_name_for_id file_id ++ ".tmp")%string].

Definition make_commit_task (file : ActiveFile.t) (s : t) : T_ChunkCommitTask.t :=
  T_ChunkCommitTask.mk s.(root) s.(temp_root) file.(ActiveFile.temp_path) file.(ActiveFile.final_path)
    s.(stream_id) file.(ActiveFile.seq) file.(ActiveFile.file_id) file.(ActiveFile.final_size)
    file.(ActiveFile.file_checksum).

(** The answer and the task, which is only filled in on success. *)
Definition prepare_commit (commit : T_FileCommit.t) : M t (option T_Nack.t * T_ChunkCommitTask.t) :=
  let refuse reason detail :=
    n ← nack_commit commit reason detail; mret (n, T_ChunkCommitTask.empty) in
  s ← get;
  if negb (commit.(T_FileCommit.stream_id) =? s.(stream_id))
  then refuse EM_NackReason.BAD_SESSION "wrong stream"%string
  else if commit.(T_FileCommit.seq) <? s.(expected_seq) then mret (None, T_ChunkCommitTask.empty)
  else if commit.(T_FileCommit.seq) >? s.(expected_seq)
  then refuse EM_NackReason.BAD_SEQ "future seq"%string
  else
    match s.(active) !! commit.(T_FileCommit.seq) with
    | None => refuse EM_NackReason.BAD_COMMIT "commit received before FILE_BEGIN"%string
    | Some file =>
        if negb (commit.(T_FileCommit.file_id) =? file.(ActiveFile.file_id))
        then refuse EM_NackReason.BAD_FILE_ORDER "commit file_id mismatch"%string
        else if file.(ActiveFile.commit_pending)
        then refuse EM_NackReason.BAD_COMMIT "commit already pending"%string
        else if negb (file.(ActiveFile.received_count) =? file.(ActiveFile.chunk_count))
        then refuse EM_NackReason.BAD_COMMIT "not all chunks have been received"%string
        else
          found ← on_world (or_throw "" (exists_ file.(ActiveFile.final_path)));
          if found : bool then refuse EM_NackReason.FILE_EXISTS "final file already exists"%string
          else
            let file := ActiveFile.set_pending true file in
            _ ← modify (λ s, set_active (<[commit.(T_FileCommit.seq) := file]> s.(active)) s);
            mret (None, make_commit_task file s)
    end.

Definition abort_commit (seq : Z) (s : t) : t :=
  match s.(active) !! seq with
  | None => s
  | Some file => set_active (<[seq := ActiveFile.set_pending false file]> s.(active)) s
  end.

Definition finish_commit (result : T_ChunkCommitResult.t) : M t unit :=
  s ← get;
  if negb (result.(T_ChunkCommitResult.stream_id) =? s.(stream_id))
  then throw "commit result stream mismatch"
  else
    match s.(active) !! result.(T_ChunkCommitResult.seq) with
    | None => throw "commit result for inactive file"
    | Some file =>
        if negb (result.(T_ChunkCommitResult.file_id) =? file.(ActiveFile.file_id))
        then throw "commit result file mismatch"
        else
          modify (λ s, set_active (delete result.(T_ChunkCommitResult.seq) s.(active))
            (set_position (Z.max s.(expected_seq) (u64 (file.(ActiveFile.seq) + 1)))
               file.(ActiveFile.file_id) file.(ActiveFile.final_size) s))
    end.

Definition write_commit_task (task : T_ChunkCommitTask.t) : M fsys T_ChunkCommitResult.t :=
  let temp := task.(T_ChunkCommitTask.temp_path) in
  let final := task.(T_ChunkCommitTask.final_path) in
  matches ← checksum_matches task.(T_ChunkCommitTask.file_checksum) temp;
  if negb matches then throw "final file checksum mismatch"
  else
    _ ← fsync_path temp "chunk temp file";
    found ← with_ec (exists_ final);
    match found with
    | Ok true => throw "final file already exists"
    | _ =>
        _ ← or_throw "failed to create chunk final parent: " (create_directories (parent_path final));
        _ ← or_throw "failed to commit chunk temp file: " (rename temp final);
        _ ← fsync_path final "committed file";
        _ ← fsync_directory (parent_path final);
        _ ← fsync_directory task.(T_ChunkCommitTask.temp_root);
        mret (T_ChunkCommitResult.mk task.(T_ChunkCommitTask.stream_id) task.(T_ChunkCommitTask.seq)
                task.(T_ChunkCommitTask.file_id) task.(T_ChunkCommitTask.final_size) final)
    end.
End handlers.

(** The scan for the last received index. *)
Definition highest_received (file : ActiveFile.t) : option nat :=
  foldl (λ highest index, if ActiveFile.has file index then Some index else highest) None
    (seq 0 (Z.to_nat file.(ActiveFile.chunk_count))).

(** The inner loop: the first received index from [index] on, or [highest]. *)
Fixpoint skip_missing (fuel : nat) (file : ActiveFile.t) (highest index : nat) : nat :=
  match fuel with
  | O => index
  | S fuel =>
      if bool_decide (index < highest)%nat && negb (ActiveFile.has file index)
      then skip_missing fuel file highest (index + 1) else index
  end.

(** The outer loop; [room] is the number of ranges still wanted. *)
Fixpoint range_loop (fuel : nat) (file : ActiveFile.t) (highest index : nat) (room : Z)
    : list T_MissingChunkRange.t :=
  match fuel with
  | O => []
  | S fuel =>
      if bool_decide (index < highest)%nat && (0 <? room) then
        if ActiveFile.has file index then range_loop fuel file highest (index + 1) room
        else
          let next := skip_missing highest file highest index in
          T_MissingChunkRange.mk file.(ActiveFile.seq) file.(ActiveFile.file_id) (Z.of_nat index)
            (Z.of_nat next - 1) ::
          range_loop fuel file highest next (room - 1)
      else []
  end.

Definition missing_ranges (seq max_ranges : Z) (s : t) : list T_MissingChunkRange.t :=
  if max_ranges =? 0 then []
  else
    match s.(active) !! seq with
    | None => []
    | Some file =>
        match highest_received file with
        | None => []
        | Some highest => range_loop (S highest) file highest 0 max_ranges
        end
    end.

Section messages.
Context {CRC : Crc32c}.

Definition active_of_begin (begin : T_FileBegin.t) (temp_path final_path : path) : ActiveFile.t :=
  ActiveFile.mk begin.(T_FileBegin.seq) begin.(T_FileBegin.file_id) begin.(T_FileBegin.name)
    begin.(T_FileBegin.final_size) begin.(T_FileBegin.chunk_size) begin.(T_FileBegin.chunk_count)
    begin.(T_FileBegin.file_checksum) begin.(T_FileBegin.prev_file_id)
    begin.(T_FileBegin.prev_final_size) begin.(T_FileBegin.prev_checksum) temp_path final_path
    (replicate (Z.to_nat begin.(T_FileBegin.chunk_count)) false) 0 false.

Definition apply_begin (begin : T_FileBegin.t) : M t (option T_Nack.t) :=
  let refuse := nack_begin begin in
  s ← get;
  if negb (begin.(T_FileBegin.stream_id) =? s.(stream_id))
  then refuse EM_NackReason.BAD_SESSION "wrong stream"
  else if begin.(T_FileBegin.seq) <? s.(expected_seq) then mret None
  else if begin.(T_FileBegin.seq) >? s.(expected_seq)
  then refuse EM_NackReason.BAD_SEQ "future seq"
  else if negb (should_use_chunk_mode begin.(T_FileBegin.final_size))
  then refuse EM_NackReason.BAD_CHUNK "file size does not require chunk mode"
  else if begin.(T_FileBegin.chunk_size) =? 0
  then refuse EM_NackReason.BAD_CHUNK "chunk_size must be non-zero"
  else
    count ← lift_exc (chunk_count_for_size begin.(T_FileBegin.final_size) begin.(T_FileBegin.chunk_size));
    if negb (begin.(T_FileBegin.chunk_count) =? count)
    then refuse EM_NackReason.BAD_CHUNK "chunk_count does not match final_size"
    else if bool_decide (is_Some (s.(active) !! begin.(T_FileBegin.seq))) then mret None
    else
      previous ←
        (if negb (begin.(T_FileBegin.prev_file_id) =? 0) then
           prev_path ← on_world (path_from_manifest_or_legacy begin.(T_FileBegin.stream_id) s.(root)
                                   begin.(T_FileBegin.prev_file_id));
           on_world (check_previous prev_path begin.(T_FileBegin.prev_final_size)
                       begin.(T_FileBegin.prev_checksum))
         else mret None);
      match previous with
      | Some (reason, detail) => refuse reason detail
      | None =>
          match final_path_for begin.(T_FileBegin.file_id) begin.(T_FileBegin.name) s with
          | Throw what => refuse EM_NackReason.BAD_CREATE what
          | Ret final_path =>
              found ← on_world (or_throw "" (exists_ final_path));
              if found : bool then refuse EM_NackReason.FILE_EXISTS "final file already exists"
              else
                let temp_path := temp_path_for begin.(T_FileBegin.seq) begin.(T_FileBegin.file_id) s in
                opened ← on_world (with_ec (open_trunc temp_path));
                match opened with
                | Err _ => refuse EM_NackReason.IO_ERROR "failed to create chunk temp file"
                | Ok _ =>
                    _ ← modify (λ s, set_active
                          (<[begin.(T_FileBegin.seq) := active_of_begin begin temp_path final_path]>
                             s.(active)) s);
                    mret None
                end
          end
      end.

(** The length that the last chunk check asks for, a [uint32_t]. *)
Definition expected_len (file : ActiveFile.t) (chunk : T_Chunk.t) : Z :=
  u32 (Z.min file.(ActiveFile.chunk_size) (u64 (file.(ActiveFile.final_size) - chunk.(T_Chunk.offset)))).

(** The end of [apply(const T_Chunk&)]: verify the payload and write it. *)
Definition write_chunk_data (chunk : T_Chunk.t) (file : ActiveFile.t) : M t (option T_Nack.t) :=
  let refuse := nack_chunk chunk in
  match raw_data_for_chunk_message chunk with
  | Throw what => refuse EM_NackReason.DECODE_ERROR what
  | Ret raw =>
      if negb (bool_decide (chunk.(T_Chunk.checksum_algo) = EM_ChecksumAlgo.CRC32C))
      then refuse EM_NackReason.BAD_CHECKSUM "only CRC32C CHUNK checksum is implemented"
      else if negb (bytes_equal (crc32c_bytes raw) chunk.(T_Chunk.checksum))
      then refuse EM_NackReason.BAD_CHECKSUM "CHUNK checksum mismatch"
      else
        opened ← on_world (with_ec (open_inout file.(ActiveFile.temp_path)));
        match opened with
        | Err _ => refuse EM_NackReason.IO_ERROR "failed to open chunk temp file"
        | Ok temp =>
            if negb (seekable chunk.(T_Chunk.offset))
            then refuse EM_NackReason.IO_ERROR "failed to write chunk temp file"
            else
              written ← on_world (with_ec (write_at temp chunk.(T_Chunk.offset) raw));
              match written with
              | Err _ => refuse EM_NackReason.IO_ERROR "failed to write chunk temp file"
              | Ok _ =>
                  _ ← modify (λ s, set_active
                        (<[chunk.(T_Chunk.seq) := ActiveFile.mark chunk.(T_Chunk.chunk_index) file]>
                           s.(active)) s);
                  mret None
              end
        end
  end.

Definition apply_chunk (chunk : T_Chunk.t) : M t (option T_Nack.t) :=
  let refuse := nack_chunk chunk in
  s ← get;
  if negb (chunk.(T_Chunk.stream_id) =? s.(stream_id))
  then refuse EM_NackReason.BAD_SESSION "wrong stream"
  else if chunk.(T_Chunk.seq) <? s.(expected_seq) then mret None
  else if chunk.(T_Chunk.seq) >? s.(expected_seq)
  then refuse EM_NackReason.BAD_SEQ "future seq"
  else
    match s.(active) !! chunk.(T_Chunk.seq) with
    | None => refuse EM_NackReason.BAD_CHUNK "chunk received before FILE_BEGIN"
    | Some file =>
        if negb (chunk.(T_Chunk.file_id) =? file.(ActiveFile.file_id))
        then refuse EM_NackReason.BAD_FILE_ORDER "chunk file_id mismatch"
        else if chunk.(T_Chunk.chunk_index) >=? file.(ActiveFile.chunk_count)
        then refuse EM_NackReason.BAD_CHUNK "chunk_index out of range"
        else if negb (chunk.(T_Chunk.offset) =?
                      u64 (chunk.(T_Chunk.chunk_index) * file.(ActiveFile.chunk_size)))
        then refuse EM_NackReason.BAD_OFFSET "chunk offset mismatch"
        else if negb (chunk.(T_Chunk.raw_len) =? expected_len file chunk) ||
                (u64 (chunk.(T_Chunk.offset) + chunk.(T_Chunk.raw_len)) >? file.(ActiveFile.final_size))
        then refuse EM_NackReason.BAD_CHUNK "chunk raw_len mismatch"
        else if ActiveFile.has file (Z.to_nat chunk.(T_Chunk.chunk_index)) then mret None
        else write_chunk_data chunk file
    end.

(** What the [try] of [apply(const T_FileCommit&)] runs. *)
Definition commit_task (task : T_ChunkCommitTask.t) : M t (option T_Nack.t) :=
  result ← on_world (write_commit_task task);
  _ ← finish_commit result;
  mret None.

Definition apply_commit (commit : T_FileCommit.t) : M t (option T_Nack.t) :=
  prepared ← prepare_commit commit;
  let '(result, task) := prepared in
  if bool_decide (is_Some result) || (task.(T_ChunkCommitTask.seq) =? 0) then mret result
  else
    try_catch (commit_task task) (λ what,
      _ ← modify (abort_commit commit.(T_FileCommit.seq));
      nack_commit commit EM_NackReason.IO_ERROR what).
End messages.
End T_ChunkedReceiverStream.

(** ** Bytes at an offset *)
Lemma overwrite_before data off bytes k x :
  (k < off)%nat → data !! k = Some x → overwrite data off bytes !! k = Some x.
Proof.
  intros Hk Hx. unfold overwrite. destruct bytes as [|b bytes]; [done|].
  rewrite lookup_app_l by (rewrite length_take; apply lookup_lt_Some in Hx; lia).
  by rewrite lookup_take_lt.
Qed.

Lemma overwrite_inside data off bytes k :
  (off ≤ k < off + length bytes)%nat → overwrite data off bytes !! k = bytes !! (k - off)%nat.
Proof.
  intros Hk. unfold overwrite. destruct bytes as [|b bytes]; [cbn in Hk; lia|].
  rewrite lookup_app_r by (rewrite length_take; lia). rewrite length_take.
  rewrite lookup_app_r by (rewrite length_replicate; lia). rewrite length_replicate.
  rewrite lookup_app_l by lia. f_equal. lia.
Qed.

Lemma overwrite_after data off bytes k x :
  (off + length bytes ≤ k)%nat → data !! k = Some x → overwrite data off bytes !! k = Some x.
Proof.
  intros Hk Hx. pose proof (lookup_lt_Some _ _ _ Hx) as Hl. unfold overwrite.
  destruct bytes as [|b bytes]; [done|]. rewrite lookup_app_r by (rewrite length_take; lia).
  rewrite length_take. rewrite lookup_app_r by (rewrite length_replicate; lia).
  rewrite length_replicate. rewrite lookup_app_r by lia. rewrite lookup_drop. rewrite <- Hx. f_equal. lia.
Qed.

Lemma overwrite_length data off bytes :
  bytes ≠ [] → length (overwrite data off bytes) = (length data `max` (off + length bytes))%nat.
Proof.
  intros Hne. unfold overwrite. destruct bytes as [|b bytes]; [done|].
  rewrite !length_app, length_take, length_replicate, length_drop. cbn. lia.
Qed.

(** ** Collecting the chunks of a file *)
Module ChunkFacts.
Import T_ChunkedReceiverStream.

Definition trues (l : list bool) : nat := length (filter (λ b, b = true) l).

Arguments trues : simpl never.

Lemma trues_insert l i : l !! i = Some false → trues (<[i := true]> l) = S (trues l).
Proof.
  unfold trues. revert i. induction l as [|b l IH]; intros [|i] Hi; try done; cbn in Hi.
  - injection Hi as ->. done.
  - cbn [insert list_insert]. rewrite !filter_cons. destruct (decide (b = true)); cbn [length]; by rewrite IH.
Qed.

Lemma trues_all l : (∀ i, (i < length l)%nat → l !! i = Some true) → trues l = length l.
Proof.
  unfold trues. induction l as [|b l IH]; intros H; [done|].
  rewrite filter_cons. pose proof (H 0%nat ltac:(cbn; lia)) as Hb. cbn in Hb. injection Hb as ->.
  rewrite decide_True by done. cbn [length]. rewrite IH; [done|]. intros i Hi. apply (H (S i)). cbn. lia.
Qed.

Lemma trues_none n : trues (replicate n false) = 0%nat.
Proof. unfold trues. induction n as [|n IH]; [done|]. cbn [replicate]. by rewrite filter_cons. Qed.

Lemma trues_le l : (trues l ≤ length l)%nat.
Proof. apply length_filter. Qed.

(** ... of which all are set exactly when there are as many. *)
Lemma trues_full l i : trues l = length l → (i < length l)%nat → l !! i = Some true.
Proof.
  revert i. unfold trues. induction l as [|b l IH]; intros i Hl Hi; [cbn in Hi; lia|].
  rewrite filter_cons in Hl. pose proof (trues_le l) as Hle. unfold trues in Hle.
  case_decide as Hb; cbn [length] in Hl; [subst b|lia]. destruct i as [|i]; [done|]. apply IH; cbn in Hi; lia.
Qed.

Section file.
Context {CRC : Crc32c} (data : Bytes) (cs : Z).
Context (Hcs : 0 < cs < 4294967296) (Hsize : 65536 < zlen data < 4611686018427387904).

(** The file is cut into [count] pieces of [cs] bytes, the last one shorter. *)
Definition count : Z := (zlen data + cs - 1) / cs.
Definition piece (i : Z) : Bytes := slice data (i * cs) cs.

Definition chunk_message (stream_id seq file_id i : Z) : T_Chunk.t :=
  T_Chunk.mk stream_id seq file_id i (i * cs) (zlen (piece i)) EM_Compression.NONE
    EM_ChecksumAlgo.CRC32C (crc32c_bytes (piece i)) (piece i).

Lemma count_bounds : 0 < count ∧ (count - 1) * cs < zlen data ≤ count * cs.
Proof.
  unfold count. pose proof (Z.div_mod (zlen data + cs - 1) cs ltac:(lia)).
  pose proof (Z.mod_pos_bound (zlen data + cs - 1) cs ltac:(lia)). nia.
Qed.

Lemma chunk_count_data : chunk_count_for_size (zlen data) cs = Ret count.
Proof.
  unfold chunk_count_for_size, count. destruct (Z.eqb_spec cs 0); [lia|].
  destruct (Z.eqb_spec (zlen data) 0); [lia|].
  by rewrite (u64_small (zlen data + cs)), u64_small by uint_lia.
Qed.

Lemma piece_len i : 0 ≤ i < count → i * cs < zlen data ∧ zlen (piece i) = Z.min cs (zlen data - i * cs).
Proof.
  intros Hi. pose proof count_bounds. assert (i * cs < zlen data) as Hlt by nia.
  split; [done|]. unfold piece, slice, zlen in *. rewrite length_take, length_drop. nia.
Qed.

Lemma piece_lookup i k :
  0 ≤ i → (k < length (piece i))%nat → piece i !! k = data !! (Z.to_nat (i * cs) + k)%nat.
Proof.
  intros Hi Hk. unfold piece, slice in *. rewrite length_take in Hk.
  rewrite lookup_take_lt by lia. by rewrite lookup_drop.
Qed.

(** The bitmap and the bytes [content] of the temporary file agree with [data]. *)
Definition tracks (f : ActiveFile.t) (content : Bytes) : Prop :=
  f.(ActiveFile.final_size) = zlen data ∧ f.(ActiveFile.chunk_size) = cs ∧
  f.(ActiveFile.chunk_count) = count ∧ length f.(ActiveFile.received) = Z.to_nat count ∧
  f.(ActiveFile.received_count) = Z.of_nat (trues f.(ActiveFile.received)) ∧
  f.(ActiveFile.commit_pending) = false ∧ zlen content ≤ zlen data ∧
  ∀ i k, 0 ≤ i → ActiveFile.has f (Z.to_nat i) = true → i * cs ≤ Z.of_nat k < i * cs + cs →
    ∀ x, data !! k = Some x → content !! k = Some x.

(** The stream is collecting the file [f], sequence number [seq], with
    [content] written so far. *)
Definition collecting (s : t) (seq : Z) (f : ActiveFile.t) (content : Bytes) : Prop :=
  s.(expected_seq) = seq ∧ s.(active) !! seq = Some f ∧
  plain_file s.(world) f.(ActiveFile.temp_path) content ∧ s.(world).(faults) = [] ∧ tracks f content.

Definition got (f : ActiveFile.t) (i : Z) : ActiveFile.t :=
  if ActiveFile.has f (Z.to_nat i) then f else ActiveFile.mark i f.

Lemma has_mark f i j :
  0 ≤ i → (Z.to_nat i < length f.(ActiveFile.received))%nat →
  ActiveFile.has (ActiveFile.mark i f) j = bool_decide (j = Z.to_nat i) || ActiveFile.has f j.
Proof.
  intros Hi Hl. unfold ActiveFile.has, ActiveFile.mark. cbn [ActiveFile.received].
  destruct (decide (j = Z.to_nat i)) as [->|Hne].
  - by rewrite list_lookup_insert_eq, bool_decide_eq_true_2.
  - by rewrite list_lookup_insert_ne, bool_decide_eq_false_2.
Qed.

Lemma same_chunk i j k :
  0 ≤ i → 0 ≤ j → i * cs ≤ k < i * cs + cs → j * cs ≤ k < j * cs + cs → i = j.
Proof. intros. nia. Qed.

Lemma tracks_mark f content i :
  tracks f content → 0 ≤ i < count → ActiveFile.has f (Z.to_nat i) = false →
  tracks (ActiveFile.mark i f) (overwrite content (Z.to_nat (i * cs)) (piece i)).
Proof.
  intros (Hf & Hc & Hn & Hl & Hr & Hp & Hz & Ht) Hi Hhas.
  destruct (piece_len i Hi) as [Hoff Hlen].
  assert ((Z.to_nat i < length f.(ActiveFile.received))%nat) as Hil by lia.
  assert (f.(ActiveFile.received) !! Z.to_nat i = Some false) as Hfalse.
  { unfold ActiveFile.has in Hhas. apply lookup_lt_is_Some in Hil as [b Hb].
    rewrite Hb in Hhas |- *. cbn in Hhas. by rewrite Hhas. }
  assert (piece i ≠ []) as Hne by (intros E; rewrite E, zlen_nil in Hlen; lia).
  unfold tracks. cbn [ActiveFile.mark ActiveFile.final_size ActiveFile.chunk_size ActiveFile.chunk_count
    ActiveFile.received ActiveFile.received_count ActiveFile.commit_pending].
  split_and!; try done.
  - by rewrite length_insert.
  - rewrite trues_insert by done. rewrite Hr, u64_small; [lia|].
    pose proof (trues_le f.(ActiveFile.received)). pose proof count_bounds.
    assert (count ≤ zlen data) by nia. uint_lia.
  - unfold zlen in *. rewrite overwrite_length by done. nia.
  - intros j k Hj Hhasj Hk x Hx. rewrite has_mark in Hhasj by (done || lia).
    pose proof (lookup_lt_Some _ _ _ Hx) as Hkl. unfold zlen in *.
    destruct (decide (j = i)) as [->|Hne'].
    + rewrite overwrite_inside by lia. rewrite piece_lookup by lia. rewrite <- Hx. f_equal. lia.
    + rewrite bool_decide_eq_false_2 in Hhasj by lia. cbn in Hhasj.
      specialize (Ht j k Hj Hhasj Hk x Hx).
      destruct (decide (Z.of_nat k < i * cs)); [apply overwrite_before; [lia|done]|].
      apply overwrite_after; [|done]. destruct (decide (Z.of_nat k < i * cs + cs)) as [Hin|]; [|lia].
      exfalso. apply Hne'. by apply (same_chunk j i (Z.of_nat k)); lia.
Qed.

(** Once all chunks are there, the file is [data]. *)
Lemma tracks_all f content :
  tracks f content → (∀ i, 0 ≤ i < count → ActiveFile.has f (Z.to_nat i) = true) → content = data.
Proof.
  intros (_ & _ & _ & _ & _ & _ & Hz & Ht) Hall. apply list_eq. intros k.
  destruct (data !! k) as [x|] eqn:Hx.
  - pose proof (lookup_lt_Some _ _ _ Hx). unfold zlen in *. pose proof count_bounds as [_ Hb].
    unfold zlen in *. pose proof (Z.div_mod (Z.of_nat k) cs ltac:(lia)).
    pose proof (Z.mod_pos_bound (Z.of_nat k) cs ltac:(lia)).
    apply (Ht (Z.of_nat k / cs)); [|apply Hall| |done]; nia.
  - apply lookup_ge_None in Hx. apply lookup_ge_None. unfold zlen in Hz. lia.
Qed.

Lemma tracks_complete f content :
  tracks f content → (∀ i, 0 ≤ i < count → ActiveFile.has f (Z.to_nat i) = true) →
  f.(ActiveFile.received_count) = f.(ActiveFile.chunk_count).
Proof.
  intros (_ & _ & Hn & Hl & Hr & _) Hall. rewrite Hr, Hn, trues_all; [rewrite Hl; pose proof count_bounds; lia|].
  intros i Hi. specialize (Hall (Z.of_nat i) ltac:(lia)). rewrite Nat2Z.id in Hall.
  apply lookup_lt_is_Some in Hi as [b Hb]. unfold ActiveFile.has in Hall. rewrite Hb in Hall |- *.
  cbn in Hall. by rewrite Hall.
Qed.
End file.
End ChunkFacts.

(** ** The messages of a file, without errors of the system *)
Module ChunkTransfer.
Import T_ChunkedReceiverStream ChunkFacts.

(** The parts of an active file that chunks do not change. *)
Definition same_file (f f' : ActiveFile.t) : Prop :=
  f'.(ActiveFile.seq) = f.(ActiveFile.seq) ∧ f'.(ActiveFile.file_id) = f.(ActiveFile.file_id) ∧
  f'.(ActiveFile.temp_path) = f.(ActiveFile.temp_path) ∧
  f'.(ActiveFile.final_path) = f.(ActiveFile.final_path) ∧
  f'.(ActiveFile.file_checksum) = f.(ActiveFile.file_checksum).

#[export] Instance same_file_preorder : PreOrder same_file.
Proof.
  split; [done|]. unfold same_file. intros f1 f2 f3 (H1 & H2 & H3 & H4 & H5) (K1 & K2 & K3 & K4 & K5).
  split_and!; congruence.
Qed.

(** The receiver after chunks: the bitmap and the temporary file. *)
Definition after_chunks (s : t) (seq : Z) (f : ActiveFile.t) (content : Bytes) : t :=
  set_active (<[seq := f]> s.(active))
    (set_world (mk_fsys (<[f.(ActiveFile.temp_path) := File content]> s.(world).(nodes)) []) s).

Lemma after_after s seq f content f' content' :
  f'.(ActiveFile.temp_path) = f.(ActiveFile.temp_path) →
  after_chunks (after_chunks s seq f content) seq f' content' = after_chunks s seq f' content'.
Proof.
  intros Ht. unfold after_chunks, set_active, set_world. cbn. by rewrite Ht, !insert_insert_eq.
Qed.

Lemma open_inout_plain w p content :
  plain_file w p content → w.(faults) = [] → open_inout p w = (Ok p, w).
Proof.
  intros Hp Hf. destruct (plain_file_resolve w p content Hp) as [Hr Hn].
  apply syscall_ok; [done|]. by rewrite Hr, Hn.
Qed.

Lemma write_at_plain w p content off bytes :
  plain_file w p content → w.(faults) = [] →
  write_at p off bytes w =
    (Ok tt, mk_fsys (<[p := File (overwrite content (Z.to_nat off) bytes)]> w.(nodes)) []).
Proof.
  intros (d & c & _ & _ & _ & Hn) Hf. unfold write_at, stream_write, next_fault. rewrite Hf.
  unfold set_nodes, Filesystem.content. cbn. by rewrite Hn, Hf.
Qed.

Section transfer.
Context {CRC : Crc32c} (data : Bytes) (cs : Z).
Context (Hcs : 0 < cs < 4294967296) (Hsize : 65536 < zlen data < 4611686018427387904).

Abbreviation count := (count data cs).
Abbreviation collecting := (collecting data cs).
Abbreviation tracks := (tracks data cs).
Abbreviation piece := (piece data cs).
Abbreviation chunk_message := (chunk_message data cs).

Lemma collecting_after s seq f content f' content' :
  collecting s seq f content → same_file f f' → tracks f' content' →
  collecting (after_chunks s seq f' content') seq f' content'.
Proof.
  intros (Hs & Ha & Hp & Hf & Ht) (_ & _ & Htemp & _) Ht'. split_and!; [done| | |done|done].
  - cbn. by rewrite lookup_insert_eq.
  - cbn. rewrite Htemp. by eapply plain_file_insert.
Qed.

Lemma after_same s seq f content :
  collecting s seq f content → after_chunks s seq f content = s.
Proof.
  intros (Hs & Ha & (d & c & _ & _ & _ & Hn) & Hf & _). unfold after_chunks, set_active, set_world. cbn.
  rewrite !insert_id by done. destruct s as [? ? ? ? ? ? ? [t fs]]. cbn in *. by rewrite Hf.
Qed.

(** A new chunk is verified and written at its place. *)
Lemma write_chunk_plain s seq f content i :
  collecting s seq f content → 0 ≤ i < count → ActiveFile.has f (Z.to_nat i) = false →
  write_chunk_data (chunk_message s.(stream_id) seq f.(ActiveFile.file_id) i) f s =
  (Ret None, after_chunks s seq (ActiveFile.mark i f) (overwrite content (Z.to_nat (i * cs)) (piece i))).
Proof.
  intros Hcol Hi Hhas. pose proof Hcol as (Hs & Ha & Hp & Hf & Ht).
  destruct (piece_len data cs Hcs Hsize i Hi) as [Hoff Hlen].
  unfold write_chunk_data, raw_data_for_chunk_message, chunk_message.
  cbn [T_Chunk.compression T_Chunk.payload T_Chunk.raw_len T_Chunk.checksum_algo T_Chunk.checksum
       T_Chunk.offset T_Chunk.seq T_Chunk.chunk_index].
  rewrite bool_decide_eq_true_2, Z.eqb_refl by done. cbn [negb].
  rewrite bool_decide_eq_true_2 by done. cbn [negb].
  unfold bytes_equal. rewrite bool_decide_eq_true_2 by done. cbn [negb].
  rewrite (bind_ret _ _ s (Ok f.(ActiveFile.temp_path)) s)
    by (apply on_world_self; unfold with_ec; cbn [the_world has_world]; by rewrite (open_inout_plain _ _ content)).
  unfold seekable. rewrite (proj2 (Z.ltb_lt (i * cs) 9223372036854775808)) by lia. cbn [negb].
  erewrite bind_ret; [|apply on_world_step; unfold with_ec; cbn [the_world has_world];
    by rewrite (write_at_plain _ _ content)].
  done.
Qed.

Lemma apply_chunk_plain s seq f content i :
  collecting s seq f content → 0 ≤ i < count →
  ∃ f' content', apply_chunk (chunk_message s.(stream_id) seq f.(ActiveFile.file_id) i) s =
      (Ret None, after_chunks s seq f' content') ∧
    tracks f' content' ∧ same_file f f' ∧
    ∀ j, ActiveFile.has f' j = bool_decide (j = Z.to_nat i) || ActiveFile.has f j.
Proof.
  intros Hcol Hi. pose proof Hcol as (Hs & Ha & Hp & Hf & Ht).
  destruct (piece_len data cs Hcs Hsize i Hi) as [Hoff Hlen].
  pose proof (zlen_nonneg (piece i)). pose proof (Z.mul_nonneg_nonneg i cs ltac:(lia) ltac:(lia)).
  pose proof Ht as (Hfs & Hc & Hn & Hl & _).
  assert (apply_chunk (chunk_message s.(stream_id) seq f.(ActiveFile.file_id) i) s =
    (if ActiveFile.has f (Z.to_nat i) then (Ret None, s)
     else write_chunk_data (chunk_message s.(stream_id) seq f.(ActiveFile.file_id) i) f s)) as ->.
  { unfold apply_chunk. rewrite (bind_ret get _ s s s eq_refl).
    set (m := chunk_message s.(stream_id) seq f.(ActiveFile.file_id) i).
    change (T_Chunk.stream_id m) with (s.(stream_id)). change (T_Chunk.seq m) with seq.
    change (T_Chunk.file_id m) with (f.(ActiveFile.file_id)). change (T_Chunk.chunk_index m) with i.
    change (T_Chunk.offset m) with (i * cs). change (T_Chunk.raw_len m) with (zlen (piece i)).
    rewrite Z.eqb_refl, Hs, Z.ltb_irrefl. cbn [negb].
    destruct (Z.gtb_spec seq seq); [lia|]. rewrite Ha, Z.eqb_refl. cbn [negb].
    rewrite Hn. destruct (Z.geb_spec i count); [lia|].
    rewrite Hc, u64_small, Z.eqb_refl by uint_lia. cbn [negb].
    unfold expected_len. change (T_Chunk.offset m) with (i * cs). rewrite Hc, Hfs.
    rewrite (u64_small (zlen data - i * cs)), (u32_small (Z.min _ _)), Hlen, Z.eqb_refl by uint_lia.
    cbn [negb orb]. rewrite u64_small by uint_lia.
    destruct (Z.gtb_spec (i * cs + Z.min cs (zlen data - i * cs)) (zlen data)); [lia|].
    by destruct (ActiveFile.has f (Z.to_nat i)). }
  destruct (ActiveFile.has f (Z.to_nat i)) eqn:Hhas.
  - exists f, content. rewrite after_same by done. split_and!; [done|done|done|].
    intros j. case_bool_decide as Hj; [by rewrite Hj, Hhas|done].
  - rewrite write_chunk_plain with (content := content) by done.
    do 2 eexists. split; [done|]. split_and!; [by apply tracks_mark|done|].
    intros j. apply has_mark; lia.
Qed.

(** Any sequence of chunks, repetitions included. *)
Fixpoint apply_chunks (msgs : list T_Chunk.t) : M t (list (option T_Nack.t)) :=
  match msgs with
  | [] => mret []
  | m :: msgs => r ← apply_chunk m; rs ← apply_chunks msgs; mret (r :: rs)
  end.

Lemma chunks_run s seq f content ixs :
  collecting s seq f content → Forall (λ i, 0 ≤ i < count) ixs →
  ∃ f' content',
    apply_chunks (chunk_message s.(stream_id) seq f.(ActiveFile.file_id) <$> ixs) s =
      (Ret (replicate (length ixs) None), after_chunks s seq f' content') ∧
    tracks f' content' ∧ same_file f f' ∧
    ∀ i, 0 ≤ i → i ∈ ixs ∨ ActiveFile.has f (Z.to_nat i) = true → ActiveFile.has f' (Z.to_nat i) = true.
Proof.
  intros Hcol His. revert s f content Hcol.
  induction His as [|i ixs Hi His IH]; intros s f content Hcol.
  - exists f, content. rewrite after_same by done. cbn. split_and!; try done; [by apply Hcol|].
    intros i _ [Hi|Hi]; [by apply elem_of_nil in Hi|done].
  - destruct (apply_chunk_plain s seq f content i Hcol Hi) as (f1 & c1 & Hrun1 & Ht1 & Hsame1 & Hhas1).
    pose proof (collecting_after s seq f content f1 c1 Hcol Hsame1 Ht1) as Hcol1.
    destruct (IH _ f1 c1 Hcol1) as (f2 & c2 & Hrun2 & Ht2 & Hsame2 & Hhas2).
    exists f2, c2. split_and!; [|done|by transitivity f1|].
    + cbn [fmap list_fmap apply_chunks length replicate]. rewrite (bind_ret _ _ _ _ _ Hrun1).
      destruct Hsame1 as (_ & Hid & _). rewrite Hid in Hrun2.
      change (stream_id (after_chunks s seq f1 c1)) with (stream_id s) in Hrun2.
      rewrite (bind_ret _ _ _ _ _ Hrun2). rewrite after_after; [done|].
      by destruct Hsame2 as (_ & _ & ? & _).
    + intros j Hj Hin. apply Hhas2; [done|]. rewrite Hhas1. destruct Hin as [Hin|Hin].
      * apply elem_of_cons in Hin as [->|Hin]; [right; by rewrite bool_decide_eq_true_2|by left].
      * right. by rewrite Hin, orb_true_r.
Qed.
End transfer.
End ChunkTransfer.

(** ** FILE_BEGIN and FILE_COMMIT, without errors of the system *)
Module CommitTransfer.
Import T_ChunkedReceiverStream ChunkFacts ChunkTransfer.

Lemma name_ok_long c : (2 < String.length c)%nat → name_ok c.
Proof. intros Hl. split_and!; intros ->; cbn in Hl; lia. Qed.

Lemma temp_name_ok seq file_id :
  name_ok (to_string seq ++ "_" ++ file_name_for_id file_id ++ ".tmp").
Proof. apply name_ok_long. rewrite !string_length_app. cbn. lia. Qed.

Lemma fsync_file_ok p what t n :
  status t p = Ok n → fsync_path p what (mk_fsys t []) = (Ret tt, mk_fsys t []).
Proof.
  intros H. unfold fsync_path, or_throw, fsync_file.
  by rewrite (syscall_ok _ _ tt) by (done || by cbn; rewrite H).
Qed.

Lemma fsync_directory_ok p t :
  dir_path t p → fsync_directory p (mk_fsys t []) = (Ret tt, mk_fsys t []).
Proof.
  intros H. unfold fsync_directory, or_throw, fsync_dir.
  by rewrite (syscall_ok _ _ tt) by (done || by cbn; rewrite status_dir).
Qed.

(** Nothing at [root ++ ds ++ [c]], and only directories on the way. *)
Definition free_place (t : gmap path node) (root ds : path) (c : string) : Prop :=
  dir_path t root ∧ free_path t root ds ∧ name_ok c ∧ t !! (root ++ ds ++ [c]) = None.

Lemma free_place_missing t root ds c :
  free_place t root ds c → exists_ (root ++ ds ++ [c]) (mk_fsys t []) = (Ok false, mk_fsys t []).
Proof.
  intros (Hr & Hf & Hc & Hn). apply syscall_new.
  by rewrite status_free by (done || by rewrite app_assoc, node_at_snoc, <- app_assoc).
Qed.

Lemma free_place_dirs t root ds c :
  free_place t root ds c → add_dirs t [] (root ++ ds) !! (root ++ ds ++ [c]) = None.
Proof.
  intros (_ & _ & _ & Hn). apply add_dirs_none; [done|]. intros (r & [k Hr] & Heq). cbn [app] in Heq.
  subst r. apply (f_equal length) in Hr. rewrite !length_app in Hr. cbn in Hr. lia.
Qed.

(** Another entry appears: the place stays free. *)
Lemma free_place_insert t root ds c q n :
  free_place t root ds c → q ≠ [] → t !! q = None → ¬ q `prefix_of` root ++ ds ++ [c] →
  free_place (<[q := n]> t) root ds c.
Proof.
  intros (Hr & [Hok Hf] & Hc & Hn) Hq Hnone Hout. split_and!; [|split; [done|]|done|].
  - apply dir_path_insert; [done|]. destruct q; [done|]. cbn. by rewrite Hnone.
  - intros r Hrds. specialize (Hf r Hrds). unfold node_at in *.
    destruct (root ++ r) as [|x l] eqn:E; [by left|]. rewrite lookup_insert_ne; [done|].
    intros ->. apply Hout. rewrite <- E. apply prefix_app. by apply prefix_app_r.
  - rewrite lookup_insert_ne; [done|]. by intros ->.
Qed.

Section commit.
Context {CRC : Crc32c}.

(** A checksum that files of these bytes have. *)
Definition checksum_of (data : Bytes) (sum : T_FileChecksum.t) : Prop :=
  ∀ w p, file_at w p data → checksum_matches sum p w = (Ret true, w).

Lemma write_commit_task_plain task t data d tc root ds c :
  task.(T_ChunkCommitTask.temp_path) = d ++ [tc] → task.(T_ChunkCommitTask.temp_root) = d →
  task.(T_ChunkCommitTask.final_path) = root ++ ds ++ [c] →
  checksum_of data task.(T_ChunkCommitTask.file_checksum) → zlen data < 9223372036854775808 →
  dir_path t d → name_ok tc → t !! (d ++ [tc]) = Some (File data) → free_place t root ds c →
  write_commit_task task (mk_fsys t []) =
  (Ret (T_ChunkCommitResult.mk task.(T_ChunkCommitTask.stream_id) task.(T_ChunkCommitTask.seq)
          task.(T_ChunkCommitTask.file_id) task.(T_ChunkCommitTask.final_size) (root ++ ds ++ [c])),
   mk_fsys (<[root ++ ds ++ [c] := File data]> (delete (d ++ [tc]) (add_dirs t [] (root ++ ds)))) []).
Proof.
  intros Htemp Htr Hfinal Hsum Hz Hd Htc Hn Hplace.
  pose proof Hplace as (Hroot & Hfree & Hc & Hnone).
  assert (plain_file (mk_fsys t []) (d ++ [tc]) data) as Hplain by (exists d, tc; by split_and!).
  destruct (create_directories_free t root ds Hroot Hfree) as [Hmk Hdirs].
  pose proof (free_place_dirs _ _ _ _ Hplace) as Hnone1.
  set (t1 := add_dirs t [] (root ++ ds)) in *.
  assert (t1 !! (d ++ [tc]) = Some (File data)) as Hn1 by (by apply add_dirs_lookup).
  assert (dir_path t1 d) as Hd1 by (by apply dir_path_add_dirs).
  set (t2 := <[root ++ ds ++ [c] := File data]> (delete (d ++ [tc]) t1)).
  assert (∀ p, dir_path t1 p → dir_path t2 p) as Hkeep.
  { intros p Hp. apply dir_path_insert; [apply dir_path_delete; [done|by rewrite node_at_snoc, Hn1]|].
    rewrite app_assoc, node_at_snoc, <- app_assoc.
    destruct (decide (d ++ [tc] = root ++ ds ++ [c])) as [->|];
      [by rewrite lookup_delete_eq|by rewrite lookup_delete_ne, Hnone1]. }
  assert (parent_path (root ++ ds ++ [c]) = root ++ ds) as Hparent
    by (unfold parent_path; rewrite app_assoc; apply removelast_last).
  unfold write_commit_task. cbv zeta. rewrite Htemp, Hfinal, Htr, Hparent.
  rewrite (bind_ret _ _ _ true (mk_fsys t [])) by (apply Hsum; by apply plain_file_at).
  cbn [negb].
  rewrite (bind_ret _ _ _ tt (mk_fsys t [])) by (eapply fsync_file_ok, (plain_file_at (mk_fsys t [])); done).
  rewrite (bind_ret _ _ _ (Ok false) (mk_fsys t [])) by (unfold with_ec; by rewrite free_place_missing).
  rewrite (bind_ret _ _ _ tt (mk_fsys t1 [])) by (unfold or_throw; by rewrite Hmk).
  rewrite (bind_ret _ _ _ tt (mk_fsys t2 []))
    by (unfold or_throw; rewrite app_assoc, (rename_file t1 d tc (root ++ ds) c data) by (done || by rewrite <- app_assoc);
        unfold t2; by rewrite app_assoc).
  rewrite (bind_ret _ _ _ tt (mk_fsys t2 [])).
  2:{ eapply fsync_file_ok. rewrite app_assoc, status_in_dir, node_at_snoc; [|by apply Hkeep|done|].
      - unfold t2. by rewrite <- app_assoc, lookup_insert_eq.
      - unfold t2. by rewrite node_at_snoc, <- app_assoc, lookup_insert_eq. }
  rewrite (bind_ret _ _ _ tt (mk_fsys t2 [])) by (by apply fsync_directory_ok, Hkeep).
  rewrite (bind_ret _ _ _ tt (mk_fsys t2 [])) by (by apply fsync_directory_ok, Hkeep).
  done.
Qed.
End commit.
End CommitTransfer.

(** ** A whole file *)
Module FileTransfer.
Import T_ChunkedReceiverStream ChunkFacts ChunkTransfer CommitTransfer.

Section transfer.
Context {CRC : Crc32c} (data : Bytes) (cs : Z).
Context (Hcs : 0 < cs < 4294967296) (Hsize : 65536 < zlen data < 4611686018427387904).

Abbreviation count := (count data cs).
Abbreviation collecting := (collecting data cs).

(** The FILE_BEGIN of [data], as this state expects it, without a previous file. *)
Definition begin_expected (s : t) (begin : T_FileBegin.t) : Prop :=
  begin.(T_FileBegin.stream_id) = s.(stream_id) ∧ begin.(T_FileBegin.seq) = s.(expected_seq) ∧
  begin.(T_FileBegin.final_size) = zlen data ∧ begin.(T_FileBegin.chunk_size) = cs ∧
  begin.(T_FileBegin.chunk_count) = count ∧ begin.(T_FileBegin.prev_file_id) = 0 ∧
  checksum_of data begin.(T_FileBegin.file_checksum) ∧
  s.(active) !! begin.(T_FileBegin.seq) = None.

(** Where the file goes, and that the way is free. *)
Definition room (s : t) (begin : T_FileBegin.t) (ds : path) (c : string) : Prop :=
  final_path_for begin.(T_FileBegin.file_id) begin.(T_FileBegin.name) s = Ret (s.(root) ++ ds ++ [c]) ∧
  free_place s.(world).(nodes) s.(root) ds c ∧ s.(world).(faults) = [] ∧
  dir_path s.(world).(nodes) s.(temp_root) ∧
  let temp := temp_path_for begin.(T_FileBegin.seq) begin.(T_FileBegin.file_id) s in
  s.(world).(nodes) !! temp = None ∧ ¬ temp `prefix_of` s.(root) ++ ds ++ [c].

Definition begun (s : t) (begin : T_FileBegin.t) (ds : path) (c : string) : ActiveFile.t :=
  active_of_begin begin (temp_path_for begin.(T_FileBegin.seq) begin.(T_FileBegin.file_id) s)
    (s.(root) ++ ds ++ [c]).

Lemma apply_begin_plain s begin ds c :
  begin_expected s begin → room s begin ds c →
  let s1 := after_chunks s begin.(T_FileBegin.seq) (begun s begin ds c) [] in
  apply_begin begin s = (Ret None, s1) ∧
  collecting s1 begin.(T_FileBegin.seq) (begun s begin ds c) [].
Proof.
  intros (Hid & Hseq & Hfs & Hchunk & Hcount & Hprev & _ & Hact) (Hfinal & Hplace & Hf & Htr & Htn & _).
  cbv zeta in *. destruct s as [sid root troot eseq cfid coff act [t fs]]; cbn in *. subst fs.
  set (s := mk sid root troot eseq cfid coff act (mk_fsys t [])) in *.
  pose proof (temp_name_ok begin.(T_FileBegin.seq) begin.(T_FileBegin.file_id)) as Hname.
  pose proof (count_bounds data cs Hcs) as Hcb.
  split.
  - unfold apply_begin. rewrite (bind_ret get _ s s s eq_refl). cbv zeta.
    rewrite Hid, Hseq, Hfs, Hchunk, Hcount. cbn [stream_id expected_seq s].
    rewrite Z.eqb_refl, Z.ltb_irrefl. cbn [negb]. destruct (Z.gtb_spec eseq eseq); [lia|].
    assert (should_use_chunk_mode (zlen data) = true) as ->
      by (unfold should_use_chunk_mode, kChunkModeThresholdBytes; apply Z.gtb_lt; lia).
    cbn [negb]. destruct (Z.eqb_spec cs 0); [lia|].
    rewrite (bind_ret _ _ s count s) by (unfold lift_exc; by rewrite chunk_count_data).
    rewrite Z.eqb_refl. cbn [negb]. rewrite Hseq in Hact. cbn [active s]. rewrite Hact.
    rewrite bool_decide_eq_false_2 by (by intros [? ?]).
    rewrite Hprev. cbn [Z.eqb negb]. rewrite (bind_ret (mret None) _ s None s eq_refl).
    fold s. rewrite Hfinal.
    rewrite (bind_ret _ _ s false s)
      by (apply on_world_self; unfold or_throw; cbn [the_world has_world world s]; by rewrite free_place_missing).
    erewrite (bind_ret (on_world (with_ec (open_trunc _)))).
    2:{ apply on_world_step. unfold with_ec, temp_path_for. cbn [the_world has_world world s temp_root].
        rewrite Hseq in Hname, Htn. by rewrite (open_trunc_new t troot _ Htr Hname Htn). }
    unfold begun. by rewrite Hseq.
  - unfold collecting, tracks, begun, after_chunks, active_of_begin, plain_file, temp_path_for. cbn.
    split_and!; try done.
    + by rewrite lookup_insert_eq.
    + exists troot. eexists. split_and!; [done| |done|by rewrite lookup_insert_eq].
      apply dir_path_insert; [done|]. by rewrite node_at_snoc, Htn.
    + by rewrite length_replicate, Hcount.
    + by rewrite trues_none.
    + rewrite zlen_nil. lia.
    + intros i k Hi Hhas. exfalso. unfold ActiveFile.has in Hhas. cbn in Hhas.
      destruct (replicate _ false !! Z.to_nat i) eqn:E; [|done].
      apply lookup_replicate in E as [-> _]. done.
Qed.

(** The commit of a file of which every chunk has come is accepted. *)
Lemma prepare_commit_plain s seq f commit ds c :
  collecting s seq f data → f.(ActiveFile.received_count) = f.(ActiveFile.chunk_count) →
  commit.(T_FileCommit.stream_id) = s.(stream_id) → commit.(T_FileCommit.seq) = seq →
  commit.(T_FileCommit.file_id) = f.(ActiveFile.file_id) →
  f.(ActiveFile.final_path) = s.(root) ++ ds ++ [c] → free_place s.(world).(nodes) s.(root) ds c →
  prepare_commit commit s =
  (Ret (None, make_commit_task (ActiveFile.set_pending true f) s),
   set_active (<[seq := ActiveFile.set_pending true f]> s.(active)) s).
Proof.
  intros (Hs & Ha & Hp & Hf & Ht) Hall Hid Hseq Hfile Hfinal Hplace.
  destruct s as [sid root troot eseq cfid coff act [t fs]]; cbn in *. subst fs eseq.
  set (s := mk sid root troot seq cfid coff act (mk_fsys t [])).
  unfold prepare_commit. rewrite (bind_ret get _ s s s eq_refl). cbv zeta.
  rewrite Hid, Hseq. cbn [stream_id expected_seq s]. rewrite Z.eqb_refl, Z.ltb_irrefl. cbn [negb].
  destruct (Z.gtb_spec seq seq); [lia|]. cbn [active s]. rewrite Ha, Hfile, Z.eqb_refl. cbn [negb].
  destruct Ht as (_ & _ & _ & _ & _ & -> & _). rewrite Hall, Z.eqb_refl. cbn [negb].
  rewrite (bind_ret _ _ s false s); [done|].
  apply on_world_self. unfold or_throw. cbn [the_world has_world world s]. rewrite Hfinal.
  by rewrite free_place_missing.
Qed.

(** Its task writes it, whatever else the disk got meanwhile. *)
Lemma write_task_plain s f ds c t :
  (∃ tc, name_ok tc ∧ f.(ActiveFile.temp_path) = s.(temp_root) ++ [tc]) →
  f.(ActiveFile.final_path) = s.(root) ++ ds ++ [c] → dir_path t s.(temp_root) →
  t !! f.(ActiveFile.temp_path) = Some (File data) → free_place t s.(root) ds c →
  checksum_of data f.(ActiveFile.file_checksum) →
  write_commit_task (make_commit_task (ActiveFile.set_pending true f) s) (mk_fsys t []) =
  (Ret (T_ChunkCommitResult.mk s.(stream_id) f.(ActiveFile.seq) f.(ActiveFile.file_id) f.(ActiveFile.final_size)
          (s.(root) ++ ds ++ [c])),
   mk_fsys (<[s.(root) ++ ds ++ [c] := File data]>
     (delete f.(ActiveFile.temp_path) (add_dirs t [] (s.(root) ++ ds)))) []).
Proof.
  intros (tc & Htc & Htemp) Hfinal Htr Hn Hplace Hsum.
  rewrite Htemp in *.
  rewrite (write_commit_task_plain (make_commit_task (ActiveFile.set_pending true f) s) t data s.(temp_root) tc s.(root) ds c);
    try done; lia.
Qed.

(** The stream passes to the next sequence number. *)
Lemma finish_commit_plain s seq f w ds c :
  collecting s seq f data → f.(ActiveFile.seq) = seq → 0 < seq → seq + 1 < 18446744073709551616 →
  finish_commit (T_ChunkCommitResult.mk s.(stream_id) f.(ActiveFile.seq) f.(ActiveFile.file_id)
                   f.(ActiveFile.final_size) (s.(root) ++ ds ++ [c]))
    (set_active (<[seq := ActiveFile.set_pending true f]> s.(active)) (set_world w s)) =
  (Ret tt, set_active (delete seq s.(active))
     (set_position (seq + 1) f.(ActiveFile.file_id) (zlen data) (set_world w s))).
Proof.
  intros (Hs & Ha & _ & _ & Ht) Hfseq Hpos Hsmall.
  unfold finish_commit. rewrite (bind_ret get _ _ _ _ eq_refl). cbn. rewrite Z.eqb_refl, Hfseq, lookup_insert_eq.
  cbn. rewrite Z.eqb_refl. cbn. unfold modify. cbn. rewrite delete_insert_eq, Hs, Hfseq.
  destruct Ht as (-> & _). by rewrite u64_small, Z.max_r by uint_lia.
Qed.

Lemma apply_commit_plain s seq f commit ds c :
  collecting s seq f data → f.(ActiveFile.received_count) = f.(ActiveFile.chunk_count) →
  commit.(T_FileCommit.stream_id) = s.(stream_id) → commit.(T_FileCommit.seq) = seq →
  commit.(T_FileCommit.file_id) = f.(ActiveFile.file_id) → f.(ActiveFile.seq) = seq →
  0 < seq → seq + 1 < 18446744073709551616 →
  (∃ tc, name_ok tc ∧ f.(ActiveFile.temp_path) = s.(temp_root) ++ [tc]) →
  f.(ActiveFile.final_path) = s.(root) ++ ds ++ [c] → dir_path s.(world).(nodes) s.(temp_root) →
  free_place s.(world).(nodes) s.(root) ds c → checksum_of data f.(ActiveFile.file_checksum) →
  apply_commit commit s =
  (Ret None, set_active (delete seq s.(active))
     (set_position (seq + 1) f.(ActiveFile.file_id) (zlen data)
        (set_world (mk_fsys (<[s.(root) ++ ds ++ [c] := File data]>
           (delete f.(ActiveFile.temp_path) (add_dirs s.(world).(nodes) [] (s.(root) ++ ds)))) []) s))).
Proof.
  intros Hcol Hall Hid Hseq Hfile Hfseq Hpos Hsmall Htemp Hfinal Htr Hplace Hsum.
  pose proof (prepare_commit_plain s seq f commit ds c Hcol Hall Hid Hseq Hfile Hfinal Hplace) as Hprep.
  pose proof Hcol as (_ & _ & (d0 & c0 & _ & _ & _ & Hn) & Hf & _).
  set (w' := mk_fsys _ []). unfold apply_commit. rewrite (bind_ret _ _ _ _ _ Hprep).
  rewrite bool_decide_eq_false_2 by (by intros [? ?]).
  change (T_ChunkCommitTask.seq (make_commit_task (ActiveFile.set_pending true f) s)) with (f.(ActiveFile.seq)).
  destruct (Z.eqb_spec f.(ActiveFile.seq) 0); [lia|]. cbn [orb]. unfold try_catch, commit_task.
  rewrite (bind_ret _ _ _ (T_ChunkCommitResult.mk s.(stream_id) f.(ActiveFile.seq) f.(ActiveFile.file_id)
      f.(ActiveFile.final_size) (s.(root) ++ ds ++ [c]))
    (set_active (<[seq := ActiveFile.set_pending true f]> s.(active)) (set_world w' s))).
  2:{ change (set_active ?a (set_world w' s)) with (with_world w' (set_active a s)).
      apply on_world_step. cbn [the_world has_world set_active world].
      assert (s.(world) = mk_fsys s.(world).(nodes) []) as -> by (destruct (world s); cbn in *; by rewrite Hf).
      by apply (write_task_plain s f ds c). }
  by rewrite (bind_ret _ _ _ _ _ (finish_commit_plain s seq f w' ds c Hcol Hfseq Hpos Hsmall)).
Qed.

(** Every chunk has come: the place is still free, and what the commit will make
    of the disk. *)
Lemma ready_to_commit s begin ds c f2 :
  begin_expected s begin → room s begin ds c → same_file (begun s begin ds c) f2 →
  let seq := begin.(T_FileBegin.seq) in
  let s2 := after_chunks (after_chunks s seq (begun s begin ds c) []) seq f2 data in
  let final := s.(root) ++ ds ++ [c] in
  let t3 := <[final := File data]> (delete f2.(ActiveFile.temp_path) (add_dirs s2.(world).(nodes) [] (s.(root) ++ ds))) in
  ((∃ tc, name_ok tc ∧ f2.(ActiveFile.temp_path) = s.(temp_root) ++ [tc]) ∧ f2.(ActiveFile.final_path) = final ∧
   dir_path s2.(world).(nodes) s.(temp_root) ∧ s2.(world).(nodes) !! f2.(ActiveFile.temp_path) = Some (File data) ∧
   free_place s2.(world).(nodes) s.(root) ds c ∧ checksum_of data f2.(ActiveFile.file_checksum)) ∧
  (t3 !! final = Some (File data) ∧ t3 !! temp_path_for seq begin.(T_FileBegin.file_id) s = None ∧
   (∀ q n, s.(world).(nodes) !! q = Some n → t3 !! q = Some n) ∧ delete seq s2.(active) = s.(active)).
Proof.
  intros (Hid & Hseq & _ & _ & _ & _ & Hsum & Hact) (Hfinal & Hplace & Hf & Htr & Hnone & Hpre)
    (Hq1 & Hq2 & Hq3 & Hq4 & Hq5). cbv zeta in *.
  set (temp := temp_path_for begin.(T_FileBegin.seq) begin.(T_FileBegin.file_id) s) in *.
  assert (f2.(ActiveFile.temp_path) = temp) as Htemp by done.
  set (s1 := after_chunks s _ _ []). set (s2 := after_chunks s1 _ f2 data).
  assert (nodes (world s2) = <[temp := File data]> (nodes (world s))) as Hnodes.
  { unfold s2, s1, after_chunks. cbn. rewrite Htemp. apply insert_insert_eq. }
  rewrite Hnodes, Htemp. split; [split_and!|split_and!].
  - eexists. split; [apply temp_name_ok|]. done.
  - done.
  - apply dir_path_insert; [done|]. unfold temp, temp_path_for. rewrite node_at_snoc.
    unfold temp, temp_path_for in Hnone. by rewrite Hnone.
  - by rewrite lookup_insert_eq.
  - apply free_place_insert; try done. unfold temp, temp_path_for. by destruct (temp_root s).
  - by rewrite Hq5.
  - by rewrite lookup_insert_eq.
  - rewrite lookup_insert_ne, lookup_delete_eq; [done|]. intros Heq. by apply Hpre; rewrite Heq.
  - intros q n Hq. rewrite lookup_insert_ne, lookup_delete_ne; [|by intros ->; rewrite Hnone in Hq|].
    + apply add_dirs_lookup. rewrite lookup_insert_ne; [done|]. by intros ->; rewrite Hnone in Hq.
    + intros <-. destruct Hplace as (_ & _ & _ & Hn). by rewrite Hn in Hq.
  - unfold s2, s1, after_chunks. cbn. rewrite insert_insert_eq, delete_insert_eq. by apply delete_id.
Qed.
End transfer.
End FileTransfer.


(** ** What a message can change, whatever the system answers *)
Module ChunkSafety.
Import T_ChunkedReceiverStream ChunkFacts.

Lemma chunk_nack_untouched a b c d e f s r s' : nack a b c d e f s = (r, s') → untouched s s' ∧ r ≠ Ret None.
Proof. intros [= <- <-]. split; [apply untouched_refl|done]. Qed.

Lemma open_inout_cases p w r w' :
  open_inout p w = (r, w') → quiet w w' ∧ ∀ q, r = Ok q → resolve w.(nodes) p = Ok q.
Proof.
  unfold open_inout, syscall. pose proof (next_fault_quiet w) as Hq. pose proof (proj1 Hq) as Hn.
  destruct (next_fault w) as [flt w1]. cbn in Hn, Hq. rewrite <- Hn.
  destruct flt; [|by intros [= <- <-]|];
    (destruct (resolve (nodes w1) p) as [q'|]; [|by intros [= <- <-]];
     destruct (node_at (nodes w1) q') as [[]|]; intros [= <- <-]; (split; [|by intros ? [= <-]]);
     first [done|by destruct w1]).
Qed.

(** A write leaves some beginning of the bytes at the offset. *)
Lemma write_at_cases q off bytes w r w' :
  write_at q off bytes w = (r, w') →
  quiet w w' ∧ (∃ e, r = Err e) ∨
  ∃ n, w'.(nodes) = <[q := File (overwrite (content w.(nodes) q) (Z.to_nat off) (take n bytes))]> w.(nodes).
Proof.
  unfold write_at, stream_write. pose proof (next_fault_quiet w) as Hq. pose proof (proj1 Hq) as Hn.
  destruct (next_fault w) as [[|e|n reported] w1]; cbn in Hn, Hq; intros [= <- <-]; cbn; rewrite ?Hn.
  - right. exists (length bytes). by rewrite take_ge.
  - left. eauto.
  - right. eauto.
Qed.

Section safety.
Context {CRC : Crc32c}.

(** What a CHUNK that reached the write has passed. *)
Definition chunk_verified (s : t) (f : ActiveFile.t) (chunk : T_Chunk.t) : Prop :=
  chunk.(T_Chunk.stream_id) = s.(stream_id) ∧ chunk.(T_Chunk.seq) = s.(expected_seq) ∧
  s.(active) !! chunk.(T_Chunk.seq) = Some f ∧ chunk.(T_Chunk.file_id) = f.(ActiveFile.file_id) ∧
  chunk.(T_Chunk.chunk_index) < f.(ActiveFile.chunk_count) ∧
  chunk.(T_Chunk.offset) = u64 (chunk.(T_Chunk.chunk_index) * f.(ActiveFile.chunk_size)) ∧
  chunk.(T_Chunk.raw_len) = expected_len f chunk ∧
  u64 (chunk.(T_Chunk.offset) + chunk.(T_Chunk.raw_len)) ≤ f.(ActiveFile.final_size) ∧
  ActiveFile.has f (Z.to_nat chunk.(T_Chunk.chunk_index)) = false ∧
  chunk.(T_Chunk.compression) = EM_Compression.NONE ∧
  zlen chunk.(T_Chunk.payload) = chunk.(T_Chunk.raw_len) ∧
  chunk.(T_Chunk.checksum_algo) = EM_ChecksumAlgo.CRC32C ∧
  chunk.(T_Chunk.checksum) = crc32c_bytes chunk.(T_Chunk.payload).

(** The temporary file has changed at the chunk's place, and the bitmap has
    the chunk exactly when the answer is not a NACK. *)
Definition chunk_written (s s' : t) (f : ActiveFile.t) (chunk : T_Chunk.t) (r : exc (option T_Nack.t)) : Prop :=
  ∃ q n, resolve s.(world).(nodes) f.(ActiveFile.temp_path) = Ok q ∧
    s'.(world).(nodes) =
      <[q := File (overwrite (content s.(world).(nodes) q) (Z.to_nat chunk.(T_Chunk.offset))
                     (take n chunk.(T_Chunk.payload)))]> s.(world).(nodes) ∧
    s' = set_active s'.(active) (set_world s'.(world) s) ∧
    (r = Ret None ∧
       s'.(active) = <[chunk.(T_Chunk.seq) := ActiveFile.mark chunk.(T_Chunk.chunk_index) f]> s.(active) ∨
     r ≠ Ret None ∧ s'.(active) = s.(active)).

Lemma write_chunk_safe chunk f s r s' :
  write_chunk_data chunk f s = (r, s') →
  untouched s s' ∨
  chunk.(T_Chunk.compression) = EM_Compression.NONE ∧
    zlen chunk.(T_Chunk.payload) = chunk.(T_Chunk.raw_len) ∧
    chunk.(T_Chunk.checksum_algo) = EM_ChecksumAlgo.CRC32C ∧
    chunk.(T_Chunk.checksum) = crc32c_bytes chunk.(T_Chunk.payload) ∧ chunk_written s s' f chunk r.
Proof.
  unfold write_chunk_data, raw_data_for_chunk_message.
  destruct (bool_decide_reflect (chunk.(T_Chunk.compression) = EM_Compression.NONE)) as [Hc|_]; cbn [negb];
    [|intros H; left; by apply chunk_nack_untouched in H as [? _]].
  destruct (Z.eqb_spec (zlen chunk.(T_Chunk.payload)) chunk.(T_Chunk.raw_len)) as [Hraw|_]; cbn [negb];
    [|intros H; left; by apply chunk_nack_untouched in H as [? _]].
  destruct (bool_decide_reflect (chunk.(T_Chunk.checksum_algo) = EM_ChecksumAlgo.CRC32C)) as [Ha|_];
    cbn [negb]; [|intros H; left; by apply chunk_nack_untouched in H as [? _]].
  unfold bytes_equal. destruct (bool_decide_reflect (crc32c_bytes chunk.(T_Chunk.payload) = chunk.(T_Chunk.checksum)))
    as [Hsum|_]; cbn [negb]; [|intros H; left; by apply chunk_nack_untouched in H as [? _]].
  intros H. apply bind_cases in H as [(opened & s1 & E & H)|(e & E & ->)]; apply on_world_inv in E as (w1 & E & ->);
    unfold with_ec in E; destruct (open_inout _ _) as [ro wo] eqn:Eo; [|discriminate].
  injection E as <- <-. apply open_inout_cases in Eo as [Hq1 Hres].
  assert (untouched s (with_world wo s)) as U1 by (by exists wo).
  destruct ro as [q|e]; [|left; apply chunk_nack_untouched in H as [H _]; by eapply untouched_trans].
  specialize (Hres q eq_refl).
  destruct (seekable _); cbn [negb] in H; [|left; apply chunk_nack_untouched in H as [H _]; by eapply untouched_trans].
  apply bind_cases in H as [(written & s2 & E & H)|(e & E & ->)]; apply on_world_inv in E as (w2 & E & ->);
    unfold with_ec in E; destruct (write_at _ _ _ _) as [rw ww] eqn:Ew; [|discriminate].
  injection E as <- <-. cbn [the_world with_world has_world set_world world] in *.
  destruct (write_at_cases _ _ _ _ _ _ Ew) as [[Hq2 (e & ->)]|(n & Hn)].
  - left. apply chunk_nack_untouched in H as [H _]. eapply untouched_trans; [|exact H].
    exists ww. split; [done|]. by transitivity wo.
  - right. split_and!; try done. exists q, n. rewrite (proj1 Hq1) in Hn.
    destruct rw as [u|e]; [|apply chunk_nack_untouched in H as [(w & -> & Hw) Hr]];
      [injection H as <- <-|]; (split_and!; [done| |done|]).
    + exact Hn.
    + by left.
    + cbn. by rewrite (proj1 Hw).
    + by right.
Qed.

(** Only directories are new in [t']. *)
Definition grown (t t' : gmap path node) : Prop :=
  ∀ k n, (t !! k = Some n → t' !! k = Some n) ∧ (t !! k = None → t' !! k = Some n → n = Dir).

#[export] Instance grown_preorder : PreOrder grown.
Proof.
  split.
  - intros t k n. split; [done|congruence].
  - intros t1 t2 t3 H1 H2 k n. destruct (H1 k n) as [A1 A2], (H2 k n) as [B1 B2]. split; [auto|].
    intros Hk Hk3. destruct (t2 !! k) as [n'|] eqn:E; [|auto]. destruct (H1 k n') as [_ C]. specialize (C Hk E).
    destruct (H2 k n') as [D _]. specialize (D E). congruence.
Qed.

Lemma grown_insert t q : node_at t q = None → grown t (<[q := Dir]> t).
Proof.
  intros Hq k n. assert (t !! q = None) as Hn by (by destruct q). split.
  - intros Hk. rewrite lookup_insert_ne; [done|]. intros ->. congruence.
  - intros Hk Hk'. destruct (decide (k = q)) as [->|]; [by rewrite lookup_insert_eq in Hk'; injection Hk' as <-|].
    rewrite lookup_insert_ne in Hk' by done. congruence.
Qed.

Lemma make_directories_grown t made rest t' : make_directories t made rest = Ok t' → grown t t'.
Proof.
  revert t made. induction rest as [|c rest IH]; intros t made H; cbn [make_directories] in H; [by injection H as ->|].
  destruct (status t (made ++ [c])) as [[]|[]]; try done; [by eapply IH|].
  destruct (lresolve t (made ++ [c])) as [q|]; [|done]. destruct (node_at t q) eqn:E; [done|].
  transitivity (<[q := Dir]> t); [by apply grown_insert|by eapply IH].
Qed.

(** Where a successful commit writes: the file at the temporary path, whole,
    is now at the final path; besides, only directories are new. *)
Definition renamed (t t' : gmap path node) (temp final : path) : Prop :=
  ∃ t1 p q n, grown t t1 ∧ lresolve t1 temp = Ok p ∧ lresolve t1 final = Ok q ∧
    node_at t1 p = Some n ∧ n ≠ Dir ∧ t' = <[q := n]> (delete p t1).

Lemma create_directories_grown p w r w' :
  create_directories p w = (r, w') → grown w.(nodes) w'.(nodes).
Proof.
  unfold create_directories, syscall. pose proof (proj1 (next_fault_quiet w)) as Hn.
  destruct (next_fault w) as [flt w1]. cbn in Hn. rewrite <- Hn.
  destruct flt; [|by intros [= <- <-]|];
    (destruct (make_directories (nodes w1) [] p) eqn:E; intros [= <- <-]; [|done];
     by eapply make_directories_grown).
Qed.

Lemma rename_cases from to w w' :
  rename from to w = (Ok tt, w') →
  ∃ p q n, lresolve w.(nodes) from = Ok p ∧ lresolve w.(nodes) to = Ok q ∧ node_at w.(nodes) p = Some n ∧
    n ≠ Dir ∧ w'.(nodes) = <[q := n]> (delete p w.(nodes)).
Proof.
  unfold rename, syscall. pose proof (proj1 (next_fault_quiet w)) as Hn.
  destruct (next_fault w) as [flt w1]. cbn in Hn. rewrite <- Hn.
  destruct flt; try done;
    (destruct (lresolve (nodes w1) from) as [p|]; [|done]; destruct (lresolve (nodes w1) to) as [q|]; [|done];
     destruct (node_at (nodes w1) p) as [[]|] eqn:Ep; try done;
     destruct (node_at (nodes w1) q) as [[]|] eqn:Eq; intros [= <-]; cbn; do 3 eexists; done).
Qed.

(** A commit that succeeds has verified the checksum and renamed. *)
Lemma write_commit_task_ok task w result w' :
  write_commit_task task w = (Ret result, w') →
  result = T_ChunkCommitResult.mk task.(T_ChunkCommitTask.stream_id) task.(T_ChunkCommitTask.seq)
             task.(T_ChunkCommitTask.file_id) task.(T_ChunkCommitTask.final_size)
             task.(T_ChunkCommitTask.final_path) ∧
  (checksum_matches task.(T_ChunkCommitTask.file_checksum) task.(T_ChunkCommitTask.temp_path) w).1 = Ret true ∧
  renamed w.(nodes) w'.(nodes) task.(T_ChunkCommitTask.temp_path) task.(T_ChunkCommitTask.final_path).
Proof.
  unfold write_commit_task. cbv zeta. intros H.
  apply M_bind_inv in H as (matches & w1 & E1 & H).
  pose proof (read_only_run _ _ _ _ (read_only_matches _ _) E1) as Q1.
  destruct matches; cbn [negb] in H; [|done]. rewrite E1.
  apply M_bind_inv in H as (u2 & w2 & E2 & H).
  pose proof (read_only_run _ _ _ _ (read_only_fsync_path _ _) E2) as Q2.
  apply M_bind_inv in H as (found & w3 & E3 & H).
  pose proof (read_only_run _ _ _ _ (read_only_with_ec _ (exists_quiet _)) E3) as Q3.
  assert (w3.(nodes) = w.(nodes)) as Hn3 by (by rewrite (proj1 Q3), (proj1 Q2), (proj1 Q1)).
  assert (found ≠ Ok true) as Hfound by (by intros ->).
  destruct found as [[]|e]; [done| |];
    (apply M_bind_inv in H as (u4 & w4 & E4 & H); apply or_throw_inv in E4;
     pose proof (create_directories_grown _ _ _ _ E4) as Hg; rewrite Hn3 in Hg;
     apply M_bind_inv in H as ([] & w5 & E5 & H); apply or_throw_inv in E5;
     destruct (rename_cases _ _ _ _ E5) as (p & q & n & Hp & Hq & Hnode & Hd & Hn5);
     apply M_bind_inv in H as (u6 & w6 & E6 & H);
     pose proof (read_only_run _ _ _ _ (read_only_fsync_path _ _) E6) as Q6;
     apply M_bind_inv in H as (u7 & w7 & E7 & H);
     pose proof (read_only_run _ _ _ _ (read_only_fsync_directory _) E7) as Q7;
     apply M_bind_inv in H as (u8 & w8 & E8 & H);
     pose proof (read_only_run _ _ _ _ (read_only_fsync_directory _) E8) as Q8;
     injection H as <- <-; split_and!; [done..|];
     exists w4.(nodes), p, q, n; split_and!; try done;
     by rewrite (proj1 Q8), (proj1 Q7), (proj1 Q6)).
Qed.

(** Every active file is kept under its own sequence number. *)
Definition active_ok (s : t) : Prop :=
  ∀ k f, s.(active) !! k = Some f → f.(ActiveFile.seq) = k.

Lemma prepare_commit_cases commit s r s' :
  prepare_commit commit s = (r, s') →
  (∃ n task, r = Ret (n, task) ∧ task.(T_ChunkCommitTask.seq) = 0 ∧
     (n = None → commit.(T_FileCommit.seq) < s.(expected_seq) ∧ s' = s) ∧ untouched s s') ∨
  (∃ e, r = Throw e ∧ untouched s s') ∨
  ∃ f w, s.(active) !! commit.(T_FileCommit.seq) = Some f ∧
    commit.(T_FileCommit.stream_id) = s.(stream_id) ∧ commit.(T_FileCommit.seq) = s.(expected_seq) ∧
    commit.(T_FileCommit.file_id) = f.(ActiveFile.file_id) ∧ f.(ActiveFile.commit_pending) = false ∧
    f.(ActiveFile.received_count) = f.(ActiveFile.chunk_count) ∧ quiet s.(world) w ∧
    r = Ret (None, make_commit_task f s) ∧
    s' = set_active (<[commit.(T_FileCommit.seq) := ActiveFile.set_pending true f]> s.(active)) (set_world w s).
Proof.
  unfold prepare_commit. rewrite (bind_ret get _ s s s eq_refl). cbv zeta.
  assert (∀ reason detail s1 s2 r,
    untouched s s1 →
    (n ← nack_commit commit reason detail; mret (n, T_ChunkCommitTask.empty)) s1 = (r, s2) →
    ∃ n task, r = Ret (n, task) ∧ task.(T_ChunkCommitTask.seq) = 0 ∧
     (n = None → commit.(T_FileCommit.seq) < s.(expected_seq) ∧ s2 = s) ∧ untouched s s2) as Hrefuse.
  { intros reason detail s1 s2 r0 U. intros [= <- <-]. do 2 eexists. done. }
  pose proof (untouched_refl s) as U0.
  destruct (Z.eqb_spec commit.(T_FileCommit.stream_id) s.(stream_id)) as [Hid|_]; cbn [negb];
    [|intros H; left; by eapply Hrefuse].
  destruct (Z.ltb_spec commit.(T_FileCommit.seq) s.(expected_seq)) as [Hlt|Hge];
    [intros [= <- <-]; left; do 2 eexists; by split_and!|].
  destruct (Z.gtb_spec commit.(T_FileCommit.seq) s.(expected_seq)) as [_|Hle];
    [intros H; left; by eapply Hrefuse|].
  destruct (s.(active) !! commit.(T_FileCommit.seq)) as [f|] eqn:Hf; [|intros H; left; by eapply Hrefuse].
  destruct (Z.eqb_spec commit.(T_FileCommit.file_id) f.(ActiveFile.file_id)) as [Hfile|_]; cbn [negb];
    [|intros H; left; by eapply Hrefuse].
  destruct f.(ActiveFile.commit_pending) eqn:Hpend; [intros H; left; by eapply Hrefuse|].
  destruct (Z.eqb_spec f.(ActiveFile.received_count) f.(ActiveFile.chunk_count)) as [Hcount|_]; cbn [negb];
    [|intros H; left; by eapply Hrefuse].
  intros H. apply bind_cases in H as [(found & s1 & E & H)|(e & E & ->)];
    pose proof (on_world_untouched _ _ _ _ (read_only_or_throw _ _ (exists_quiet _)) E) as U1;
    [|right; left; by eexists].
  destruct found; [left; by eapply Hrefuse|]. destruct U1 as (w & -> & Hw).
  injection H as <- <-. right; right. exists f, w. split_and!; try done; lia.
Qed.

Lemma finish_commit_own s f w :
  s.(active) !! f.(ActiveFile.seq) = Some f →
  finish_commit (T_ChunkCommitResult.mk s.(stream_id) f.(ActiveFile.seq) f.(ActiveFile.file_id)
    f.(ActiveFile.final_size) f.(ActiveFile.final_path))
    (set_active (<[f.(ActiveFile.seq) := ActiveFile.set_pending true f]> s.(active)) (set_world w s)) =
  (Ret tt, set_active (delete f.(ActiveFile.seq) s.(active))
     (set_position (Z.max s.(expected_seq) (u64 (f.(ActiveFile.seq) + 1))) f.(ActiveFile.file_id)
        f.(ActiveFile.final_size) (set_world w s))).
Proof.
  intros Hf. unfold finish_commit. rewrite (bind_ret get _ _ _ _ eq_refl). cbn.
  rewrite !Z.eqb_refl, lookup_insert_eq. cbn. rewrite Z.eqb_refl. cbn. unfold modify. cbn.
  by rewrite delete_insert_eq.
Qed.

Lemma abort_commit_own s k f w :
  s.(active) !! k = Some f → f.(ActiveFile.commit_pending) = false →
  abort_commit k (set_active (<[k := ActiveFile.set_pending true f]> s.(active)) (set_world w s)) =
  set_world w s.
Proof.
  intros Hf Hp. unfold abort_commit. cbn. rewrite lookup_insert_eq, insert_insert_eq, insert_id.
  - by destruct s.
  - rewrite Hf. destruct f; cbn in *. by subst.
Qed.
End safety.
End ChunkSafety.

(** ** The ranges reported as missing *)
Module MissingRanges.
Import T_ChunkedReceiverStream.

Definition covers (r : T_MissingChunkRange.t) (i : nat) : Prop :=
  r.(T_MissingChunkRange.first_chunk_index) ≤ Z.of_nat i ≤ r.(T_MissingChunkRange.last_chunk_index).

(** A maximal run of missing chunks: it begins with the file or just after a
    received chunk, and ends just before a received one. *)
Definition run (f : ActiveFile.t) (r : T_MissingChunkRange.t) : Prop :=
  r.(T_MissingChunkRange.seq) = f.(ActiveFile.seq) ∧ r.(T_MissingChunkRange.file_id) = f.(ActiveFile.file_id) ∧
  0 ≤ r.(T_MissingChunkRange.first_chunk_index) ≤ r.(T_MissingChunkRange.last_chunk_index) ∧
  (r.(T_MissingChunkRange.first_chunk_index) = 0 ∨
   ActiveFile.has f (Z.to_nat (r.(T_MissingChunkRange.first_chunk_index) - 1)) = true) ∧
  (∀ i, covers r i → ActiveFile.has f i = false) ∧
  ActiveFile.has f (Z.to_nat (r.(T_MissingChunkRange.last_chunk_index) + 1)) = true.

Definition before (r r' : T_MissingChunkRange.t) : Prop :=
  r.(T_MissingChunkRange.last_chunk_index) + 1 < r'.(T_MissingChunkRange.first_chunk_index).

Section loops.
Context (f : ActiveFile.t) (highest : nat) (Hhigh : ActiveFile.has f highest = true).

Lemma skip_missing_spec fuel index :
  (highest - index ≤ fuel)%nat → (index ≤ highest)%nat →
  let next := skip_missing fuel f highest index in
  (index ≤ next ≤ highest)%nat ∧ (∀ i, (index ≤ i < next)%nat → ActiveFile.has f i = false) ∧
  ActiveFile.has f next = true.
Proof.
  revert index. induction fuel as [|fuel IH]; intros index Hf Hi; cbn.
  - assert (index = highest) as -> by lia. split_and!; [lia..|intros i Hir; lia|done].
  - case_bool_decide as Hlt; cbn.
    + destruct (ActiveFile.has f index) eqn:Hhas; cbn.
      * split_and!; [lia..|intros i Hir; lia|done].
      * destruct (IH (index + 1)%nat) as (H1 & H2 & H3); [lia..|]. split_and!; [lia..| |done].
        intros i Hir. destruct (decide (i = index)) as [->|]; [done|apply H2; lia].
    + assert (index = highest) as -> by lia. split_and!; [lia..|intros i Hir; lia|done].
Qed.

(** A position where a run can begin: the first chunk, one after a received
    chunk, or a received one. *)
Definition boundary (index : nat) : Prop :=
  index = 0%nat ∨ ActiveFile.has f (index - 1) = true ∨ ActiveFile.has f index = true.

(** Every missing chunk is in a range, or the report is full with ranges that
    all lie before it. *)
Definition reported (room : Z) (rs : list T_MissingChunkRange.t) (i : nat) : Prop :=
  Exists (λ r, covers r i) rs ∨
  zlen rs = room ∧ Forall (λ r, r.(T_MissingChunkRange.last_chunk_index) < Z.of_nat i) rs.

Lemma range_loop_spec fuel index room :
  (highest - index < fuel)%nat → (index ≤ highest)%nat → 0 ≤ room → boundary index →
  let rs := range_loop fuel f highest index room in
  Forall (λ r, run f r ∧ Z.of_nat index ≤ r.(T_MissingChunkRange.first_chunk_index)) rs ∧
  StronglySorted before rs ∧ zlen rs ≤ room ∧
  (∀ i, (index ≤ i < highest)%nat → ActiveFile.has f i = false → reported room rs i).
Proof.
  revert index room. induction fuel as [|fuel IH]; intros index room Hf Hi Hroom Hbound; [lia|].
  cbn [range_loop]. case_bool_decide as Hlt; cbn [andb]; cycle 1.
  { split_and!; [constructor..|rewrite zlen_nil; lia|]. intros i Hir. lia. }
  destruct (Z.ltb_spec 0 room) as [Hpos|Hneg]; cycle 1.
  { split_and!; [constructor..|rewrite zlen_nil; lia|]. intros i _ _. right.
    split; [rewrite zlen_nil; lia|constructor]. }
  destruct (ActiveFile.has f index) eqn:Hhas.
  - destruct (IH (index + 1)%nat room) as (H1 & H2 & H3 & H4); [lia..| |].
    { right. left. by replace (index + 1 - 1)%nat with index by lia. }
    split_and!; [|done..|].
    + eapply Forall_impl; [exact H1|]. intros r [Hr Hle]. split; [done|lia].
    + intros i Hir Hmiss. apply H4; [|done].
      destruct (decide (i = index)) as [->|]; [congruence|lia].
  - destruct (skip_missing_spec highest index) as (Hn1 & Hn2 & Hn3); [lia..|].
    set (next := skip_missing highest f highest index) in *.
    assert (index ≠ next) as Hne by (intros Heq; rewrite <- Heq in Hn3; congruence).
    destruct (IH next (room - 1)) as (H1 & H2 & H3 & H4); [lia..|by right; right|].
    split_and!.
    + constructor.
      * split; [|cbn; lia]. unfold run, covers. cbn. split_and!; [done..|lia|lia| | |].
        -- destruct Hbound as [->|[Hb|Hb]]; [by left| |congruence].
           destruct (decide (index = 0%nat)) as [->|]; [by left|right].
           by replace (Z.to_nat (Z.of_nat index - 1)) with (index - 1)%nat by lia.
        -- intros i Hc. apply Hn2. lia.
        -- replace (Z.to_nat (Z.of_nat next - 1 + 1)) with next by lia. done.
      * eapply Forall_impl; [exact H1|]. intros r [Hr Hle]. split; [done|lia].
    + constructor; [done|]. eapply Forall_impl; [exact H1|]. intros r [Hr Hle]. unfold before. cbn.
      destruct (decide (Z.of_nat next = r.(T_MissingChunkRange.first_chunk_index))) as [Heq|]; [|lia].
      destruct Hr as (_ & _ & Hb & _ & Hall & _).
      assert (ActiveFile.has f next = false) as Hbad by (apply Hall; unfold covers; lia). congruence.
    + rewrite zlen_cons. lia.
    + intros i Hir Hmiss. destruct (decide (i < next)%nat) as [Hin|Hout].
      * left. left. unfold covers. cbn. lia.
      * destruct (H4 i) as [Hc|[Hl Hc]]; [lia|done|left; by right|right].
        rewrite zlen_cons. split; [lia|]. constructor; [cbn; lia|done].
Qed.
End loops.

(** The scan finds the last received chunk. *)
Lemma highest_received_spec f :
  match highest_received f with
  | Some h => ActiveFile.has f h = true ∧ (h < Z.to_nat f.(ActiveFile.chunk_count))%nat ∧
      ∀ i, (i < Z.to_nat f.(ActiveFile.chunk_count))%nat → ActiveFile.has f i = true → (i ≤ h)%nat
  | None => ∀ i, (i < Z.to_nat f.(ActiveFile.chunk_count))%nat → ActiveFile.has f i = false
  end.
Proof.
  unfold highest_received. generalize (Z.to_nat (ActiveFile.chunk_count f)) as n. intros n.
  induction n as [|n IH]; [cbn; intros i Hi; lia|].
  rewrite seq_S, foldl_app. cbn [foldl Nat.add]. destruct (ActiveFile.has f n) eqn:Hn.
  - split_and!; [done|lia|]. intros i Hi _. lia.
  - destruct (foldl _ _ _) as [h|].
    + destruct IH as (H1 & H2 & H3). split_and!; [done|lia|]. intros i Hi Hhas.
      destruct (decide (i = n)) as [->|]; [congruence|apply H3; [lia|done]].
    + intros i Hi. destruct (decide (i = n)) as [->|]; [done|apply IH; lia].
Qed.
End MissingRanges.
(** ** Properties *)
Import T_ChunkedReceiverStream ChunkFacts ChunkTransfer CommitTransfer FileTransfer ChunkSafety.

Section properties.
Context {CRC : Crc32c}.

(** C15: a whole chunked file: FILE_BEGIN, then its chunks in any order and
    with any repetitions as long as each comes at least once, then FILE_COMMIT:
    all are accepted without a NACK, the file appears under its name with
    exactly its bytes, the temporary file is gone, every other entry is as it
    was, and the stream passes to the next sequence number. *)
Theorem chunk_transfer data cs s begin commit ds c ixs :
  0 < cs < 4294967296 → 65536 < zlen data < 4611686018427387904 →
  begin_expected data cs s begin → room s begin ds c →
  0 < begin.(T_FileBegin.seq) → begin.(T_FileBegin.seq) + 1 < 18446744073709551616 →
  commit = T_FileCommit.mk s.(stream_id) begin.(T_FileBegin.seq) begin.(T_FileBegin.file_id) →
  Forall (λ i, 0 ≤ i < count data cs) ixs → (∀ i, 0 ≤ i < count data cs → i ∈ ixs) →
  let chunks := chunk_message data cs s.(stream_id) begin.(T_FileBegin.seq) begin.(T_FileBegin.file_id) <$> ixs in
  ∃ s1 s2 s3, apply_begin begin s = (Ret None, s1) ∧
    apply_chunks chunks s1 = (Ret (replicate (length ixs) None), s2) ∧
    apply_commit commit s2 = (Ret None, s3) ∧
    s3.(world).(nodes) !! (s.(root) ++ ds ++ [c]) = Some (File data) ∧
    s3.(world).(nodes) !! temp_path_for begin.(T_FileBegin.seq) begin.(T_FileBegin.file_id) s = None ∧
    (∀ q n, s.(world).(nodes) !! q = Some n → s3.(world).(nodes) !! q = Some n) ∧
    s3.(expected_seq) = begin.(T_FileBegin.seq) + 1 ∧ s3.(active) = s.(active).
Proof.
  intros Hcs Hsize Hb Hroom Hseq0 Hseq1 -> Hixs Hall chunks.
  destruct (apply_begin_plain data cs Hcs Hsize s begin ds c Hb Hroom) as [Hrun1 Hcol1].
  set (f := begun s begin ds c) in *. set (s1 := after_chunks s _ f []) in *.
  destruct (chunks_run data cs Hcs Hsize s1 _ f [] ixs Hcol1 Hixs) as (f2 & c2 & Hrun2 & Ht2 & Hsame2 & Hhas2).
  pose proof (collecting_after data cs s1 _ f [] f2 c2 Hcol1 Hsame2 Ht2) as Hcol2.
  assert (∀ i, 0 ≤ i < count data cs → ActiveFile.has f2 (Z.to_nat i) = true) as Hfull
    by (intros i Hi; apply Hhas2; [lia|left; by apply Hall]).
  pose proof (tracks_all data cs Hcs Hsize f2 c2 Ht2 Hfull) as ->.
  pose proof (tracks_complete data cs Hcs Hsize f2 data Ht2 Hfull) as Hcount.
  set (s2 := after_chunks s1 _ f2 data) in *.
  destruct (ready_to_commit data cs s begin ds c f2 Hb Hroom Hsame2)
    as ((Htemp & Hfinal & Htr & Hn & Hplace & Hsum) & Hdisk).
  exists s1, s2. eexists. split; [done|]. split; [exact Hrun2|]. split.
  { destruct Hb as (Hid & _). destruct Hsame2 as (Hq1 & Hq2 & _).
    by apply (apply_commit_plain data cs Hsize s2 begin.(T_FileBegin.seq) f2 _ ds c). }
  destruct Hdisk as (H1 & H2 & H3 & H4). by split_and!.
Qed.

(** C23: whatever the system answers, a CHUNK changes nothing but its own place
    in the temporary file of the file it belongs to, and it does that only
    after its session, sequence, file, index, offset, length, compression and
    CRC-32C have been verified and only once; the bitmap records it exactly
    when the answer is not a NACK. *)
Theorem apply_chunk_safe s chunk r s' :
  apply_chunk chunk s = (r, s') →
  untouched s s' ∨ ∃ f, chunk_verified s f chunk ∧ chunk_written s s' f chunk r.
Proof.
  unfold apply_chunk. rewrite (bind_ret get _ s s s eq_refl).
  destruct (Z.eqb_spec chunk.(T_Chunk.stream_id) s.(stream_id)) as [Hid|_]; cbn [negb];
    [|intros H; left; by apply chunk_nack_untouched in H as [? _]].
  destruct (Z.ltb_spec chunk.(T_Chunk.seq) s.(expected_seq)) as [_|Hge];
    [intros H; left; by apply ret_untouched in H|].
  destruct (Z.gtb_spec chunk.(T_Chunk.seq) s.(expected_seq)) as [_|Hle];
    [intros H; left; by apply chunk_nack_untouched in H as [? _]|].
  destruct (s.(active) !! chunk.(T_Chunk.seq)) as [f|] eqn:Hf;
    [|intros H; left; by apply chunk_nack_untouched in H as [? _]].
  destruct (Z.eqb_spec chunk.(T_Chunk.file_id) f.(ActiveFile.file_id)) as [Hfile|_]; cbn [negb];
    [|intros H; left; by apply chunk_nack_untouched in H as [? _]].
  destruct (Z.geb_spec chunk.(T_Chunk.chunk_index) f.(ActiveFile.chunk_count)) as [_|Hix];
    [intros H; left; by apply chunk_nack_untouched in H as [? _]|].
  destruct (Z.eqb_spec chunk.(T_Chunk.offset) (u64 (chunk.(T_Chunk.chunk_index) * f.(ActiveFile.chunk_size))))
    as [Hoff|_]; cbn [negb]; [|intros H; left; by apply chunk_nack_untouched in H as [? _]].
  destruct (Z.eqb_spec chunk.(T_Chunk.raw_len) (expected_len f chunk)) as [Hlen|_]; cbn [negb orb];
    [|intros H; left; by apply chunk_nack_untouched in H as [? _]].
  destruct (Z.gtb_spec (u64 (chunk.(T_Chunk.offset) + chunk.(T_Chunk.raw_len))) f.(ActiveFile.final_size))
    as [_|Hend]; [intros H; left; by apply chunk_nack_untouched in H as [? _]|].
  destruct (ActiveFile.has f (Z.to_nat chunk.(T_Chunk.chunk_index))) eqn:Hhas;
    [intros H; left; by apply ret_untouched in H|].
  intros H. apply write_chunk_safe in H as [U|(Hc & Hraw & Ha & Hsum & Hw)]; [by left|right].
  exists f. split; [|done]. unfold chunk_verified. split_and!; done || lia.
Qed.

(** C21: whatever the system answers, a FILE_COMMIT either leaves the receiver's
    own state exactly as it was (and says so by a NACK or an exception, unless
    the commit is an old one), or every chunk has come, the file's checksum
    matched the temporary file, that file was renamed to the final path, and
    the stream passes to the next sequence number. *)
Theorem commit_acknowledged s commit r s' :
  active_ok s → 0 < s.(expected_seq) → apply_commit commit s = (r, s') →
  s' = set_world s'.(world) s ∧ (r = Ret None → commit.(T_FileCommit.seq) < s.(expected_seq) ∧ s' = s) ∨
  r = Ret None ∧ ∃ f w, s.(active) !! commit.(T_FileCommit.seq) = Some f ∧
    commit.(T_FileCommit.file_id) = f.(ActiveFile.file_id) ∧
    f.(ActiveFile.received_count) = f.(ActiveFile.chunk_count) ∧ w.(nodes) = s.(world).(nodes) ∧
    (checksum_matches f.(ActiveFile.file_checksum) f.(ActiveFile.temp_path) w).1 = Ret true ∧
    renamed s.(world).(nodes) s'.(world).(nodes) f.(ActiveFile.temp_path) f.(ActiveFile.final_path) ∧
    s' = set_active (delete commit.(T_FileCommit.seq) s.(active))
           (set_position (Z.max s.(expected_seq) (u64 (commit.(T_FileCommit.seq) + 1)))
              f.(ActiveFile.file_id) f.(ActiveFile.final_size) (set_world s'.(world) s)).
Proof.
  intros Hok Hpos H. unfold apply_commit in H.
  apply bind_cases in H as [([result task] & s1 & E & H)|(e & E & ->)]; cycle 1.
  { apply prepare_commit_cases in E as [(n & task & [=] & _)|[(e' & _ & w & -> & _)|(f & w & H1)]];
      [by left|by destruct H1 as (_ & _ & _ & _ & _ & _ & _ & [=] & _)]. }
  apply prepare_commit_cases in E as [(n & task' & [= -> ->] & Hzero & Hn & w & -> & _)|[(e' & [=] & _)|H1]].
  { rewrite Hzero, Z.eqb_refl, orb_true_r in H. injection H as <- <-. left. split; [done|].
    intros [= ->]. by apply Hn. }
  destruct H1 as (f & w & Hf & Hid & Hseq & Hfile & Hpend & Hcount & Hq & [= -> ->] & ->).
  pose proof (Hok _ _ Hf) as Hfseq. rewrite <- Hfseq in *.
  rewrite bool_decide_eq_false_2 in H by (by intros [? ?]).
  change (T_ChunkCommitTask.seq (make_commit_task f s)) with (f.(ActiveFile.seq)) in H.
  destruct (Z.eqb_spec f.(ActiveFile.seq) 0); [lia|]. cbn [orb] in H.
  unfold try_catch, commit_task in H.
  match type of H with context [(on_world ?m ≫= ?k) ?s1] =>
    destruct ((on_world m ≫= k) s1) as [rc sc] eqn:Ec end.
  apply bind_cases in Ec as [(result & s2 & E & Ec)|(e & E & ->)];
    apply on_world_inv in E as (w2 & E & ->);
    change (with_world w2 (set_active ?a (set_world w s))) with (set_active a (set_world w2 s)) in *.
  - destruct (write_commit_task_ok _ _ _ _ E) as (-> & Hsum & Hren).
    cbn [the_world has_world set_active set_world world] in *. rewrite (proj1 Hq) in Hren.
    rewrite bind_ret with (1 := finish_commit_own s f w2 Hf) in Ec. injection Ec as <- <-.
    injection H as <- <-. right. split; [done|]. exists f, w. by rewrite (proj1 Hq).
  - injection H as <- <-. left. split; [|done]. unfold modify. cbn.
    by rewrite (abort_commit_own s _ f w2).
Qed.

Import MissingRanges.

(** C39: the ranges a heartbeat reports are maximal runs of missing chunks (each
    begins with the file or just after a received chunk, holds no received
    chunk and ends just before a received one), in order, at most [max_ranges]
    of them, and they are the first ones: a missing chunk below a received one
    is in one of them, unless the report is full and all its ranges lie before
    that chunk. *)
Theorem missing_ranges_exact s seq max_ranges f :
  s.(active) !! seq = Some f → 0 ≤ max_ranges →
  length f.(ActiveFile.received) = Z.to_nat f.(ActiveFile.chunk_count) →
  let rs := missing_ranges seq max_ranges s in
  Forall (run f) rs ∧ StronglySorted before rs ∧ zlen rs ≤ max_ranges ∧
  (∀ i j, ActiveFile.has f i = false → (i < j)%nat → ActiveFile.has f j = true →
     Exists (λ r, covers r i) rs ∨
     zlen rs = max_ranges ∧ Forall (λ r, r.(T_MissingChunkRange.last_chunk_index) < Z.of_nat i) rs).
Proof.
  intros Hf Hmax Hlen. cbv zeta. unfold missing_ranges.
  assert (∀ j, ActiveFile.has f j = true → (j < Z.to_nat f.(ActiveFile.chunk_count))%nat) as Hj.
  { intros j Hhas. unfold ActiveFile.has in Hhas. rewrite <- Hlen.
    destruct (ActiveFile.received f !! j) eqn:E; [by eapply lookup_lt_Some|done]. }
  destruct (Z.eqb_spec max_ranges 0) as [->|Hne].
  { split_and!; [constructor..|by rewrite zlen_nil|]. intros i j _ _ _. right. by split. }
  rewrite Hf. pose proof (highest_received_spec f) as Hh. destruct (highest_received f) as [h|].
  - destruct Hh as (Hh1 & Hh2 & Hh3).
    destruct (range_loop_spec f h Hh1 (S h) 0 max_ranges) as (H1 & H2 & H3 & H4); [lia..|by left|].
    split_and!; [|done..|].
    + eapply Forall_impl; [exact H1|]. by intros r [Hr _].
    + intros i j Hi Hij Hhas. apply H4; [|done]. specialize (Hh3 j (Hj j Hhas) Hhas). lia.
  - split_and!; [constructor..|rewrite zlen_nil; lia|].
    intros i j _ _ Hhas. rewrite Hh in Hhas; [done|by apply Hj].
Qed.
End properties.

(** ** Witnesses *)
Section witnesses.
#[local] Existing Instance crc_ref_impl.
Import MissingRanges.

Definition sample_world : fsys :=
  mk_fsys (<[["s"] := Dir]> (<[["s"; ".yisync_tmp"] := Dir]> ∅)) [].
Definition sample_stream : t := mk 3 ["s"] ["s"; ".yisync_tmp"] 1 0 0 ∅ sample_world.

(** A file of two chunks, which come as 1, 0, 1. *)
Definition sample_bytes : Bytes := replicate (Z.to_nat 65540) x07.
Definition sample_begin : T_FileBegin.t :=
  T_FileBegin.mk 3 1 9 "big" 65540 65536 2 empty_checksum 0 0 empty_checksum.

Lemma sample_bytes_len : zlen sample_bytes = 65540.
Proof. unfold sample_bytes, zlen. rewrite length_replicate. lia. Qed.

Lemma sample_count : count sample_bytes 65536 = 2.
Proof. unfold count. by rewrite sample_bytes_len. Qed.

Lemma sample_begin_expected : begin_expected sample_bytes 65536 sample_stream sample_begin.
Proof.
  unfold begin_expected. rewrite sample_bytes_len, sample_count. split_and!; try reflexivity.
  intros w p Hw. by rewrite checksum_matches_none.
Qed.

Lemma sample_dirs :
  dir_path sample_world.(nodes) ["s"] ∧ dir_path sample_world.(nodes) ["s"; ".yisync_tmp"].
Proof.
  assert (dir_path sample_world.(nodes) ["s"]) as H
    by (apply (dir_path_snoc _ [] "s"); [apply dir_path_nil|done|vm_compute; done]).
  split; [done|]. by apply (dir_path_snoc _ ["s"] ".yisync_tmp").
Qed.

Lemma sample_room : room sample_stream sample_begin [] "big".
Proof.
  destruct sample_dirs as [Hs Ht]. split_and!; try done; cycle 1.
  - cbv zeta. split; [vm_compute; reflexivity|]. intros [k Hk]. vm_compute in Hk. discriminate.
  - split_and!; try done. split; [constructor|]. intros q Hq. apply prefix_nil_inv in Hq as ->. by left.
Qed.

Lemma chunk_transfer_witness :
  room sample_stream sample_begin [] "big" ∧
  ∃ s1 s2 s3, apply_begin sample_begin sample_stream = (Ret None, s1) ∧
    apply_chunks (chunk_message sample_bytes 65536 3 1 9 <$> [1; 0; 1]) s1 = (Ret [None; None; None], s2) ∧
    apply_commit (T_FileCommit.mk 3 1 9) s2 = (Ret None, s3) ∧
    s3.(world).(nodes) !! ["s"; "big"] = Some (File sample_bytes).
Proof.
  split; [exact sample_room|].
  destruct (chunk_transfer sample_bytes 65536 sample_stream sample_begin (T_FileCommit.mk 3 1 9) [] "big" [1; 0; 1])
    as (s1 & s2 & s3 & H1 & H2 & H3 & H4 & _).
  - lia.
  - rewrite sample_bytes_len. lia.
  - exact sample_begin_expected.
  - exact sample_room.
  - reflexivity.
  - reflexivity.
  - reflexivity.
  - rewrite sample_count. repeat constructor; lia.
  - rewrite sample_count. intros i Hi. assert (i = 0 ∨ i = 1) as [-> | ->] by lia;
      [apply elem_of_cons; right; apply elem_of_cons; left|apply elem_of_cons; left]; reflexivity.
  - exists s1, s2, s3. split; [exact H1|]. split; [exact H2|]. split; [exact H3|exact H4].
Defined.

(** An active file of four bytes in two chunks, of which some have come. *)
Definition small_file (received : list bool) (n : Z) : ActiveFile.t :=
  ActiveFile.mk 1 9 "f" 4 2 2 empty_checksum 0 0 empty_checksum ["s"; ".yisync_tmp"; "t"] ["s"; "f"]
    received n false.
Definition small_stream (received : list bool) (n : Z) : t :=
  mk 3 ["s"] ["s"; ".yisync_tmp"] 1 0 0 {[1 := small_file received n]}
    (mk_fsys (<[["s"; ".yisync_tmp"; "t"] := File [x00; x00; x03; x04]]> sample_world.(nodes)) []).
Definition small_chunk : T_Chunk.t :=
  T_Chunk.mk 3 1 9 0 0 2 EM_Compression.NONE EM_ChecksumAlgo.CRC32C (crc32c_bytes [x01; x02]) [x01; x02].

Lemma apply_chunk_safe_witness :
  (apply_chunk small_chunk (small_stream [false; true] 1)).1 = Ret None ∧
  chunk_verified (small_stream [false; true] 1) (small_file [false; true] 1) small_chunk.
Proof.
  destruct (apply_chunk small_chunk (small_stream [false; true] 1)) as [r s'] eqn:E.
  assert (r = (apply_chunk small_chunk (small_stream [false; true] 1)).1) as Hr by (rewrite E; reflexivity).
  assert (s'.(world).(nodes) !! ["s"; ".yisync_tmp"; "t"] = Some (File [x01; x02; x03; x04])) as Hn
    by (transitivity ((apply_chunk small_chunk (small_stream [false; true] 1)).2.(world).(nodes)
          !! ["s"; ".yisync_tmp"; "t"]); [rewrite E; reflexivity|vm_compute; reflexivity]).
  split; [cbn; rewrite Hr; vm_compute; reflexivity|].
  destruct (apply_chunk_safe _ _ _ _ E) as [(w & Hw & Hq & _)|(f & Hv & _)].
  - exfalso. rewrite Hw in Hn. cbn [with_world has_world set_world world] in Hn. rewrite Hq in Hn.
    vm_compute in Hn. discriminate.
  - pose proof Hv as (_ & _ & Hf & _). vm_compute in Hf. injection Hf as <-. exact Hv.
Defined.

Lemma commit_acknowledged_witness :
  active_ok (small_stream [true; true] 2) ∧
  ∃ s', apply_commit (T_FileCommit.mk 3 1 9) (small_stream [true; true] 2) = (Ret None, s') ∧
    renamed (small_stream [true; true] 2).(world).(nodes) s'.(world).(nodes)
      ["s"; ".yisync_tmp"; "t"] ["s"; "f"].
Proof.
  assert (active_ok (small_stream [true; true] 2)) as Hok.
  { intros k f Hf. cbn [active small_stream] in Hf. apply lookup_singleton_Some in Hf as [<- <-]. reflexivity. }
  split; [exact Hok|].
  destruct (apply_commit (T_FileCommit.mk 3 1 9) (small_stream [true; true] 2)) as [r s'] eqn:E.
  assert (r = Ret None) as Hr
    by (transitivity (apply_commit (T_FileCommit.mk 3 1 9) (small_stream [true; true] 2)).1;
        [rewrite E; reflexivity|vm_compute; reflexivity]).
  exists s'. split; [rewrite Hr; reflexivity|].
  destruct (commit_acknowledged _ _ _ _ Hok ltac:(vm_compute; reflexivity) E)
    as [[_ Ho]|[_ (f & w & Hf & _ & _ & _ & _ & Hren & _)]].
  - destruct (Ho Hr) as [Hlt _]. vm_compute in Hlt. discriminate.
  - vm_compute in Hf. injection Hf as <-. exact Hren.
Defined.

Definition holed_file : ActiveFile.t :=
  ActiveFile.mk 1 9 "f" 12 2 6 empty_checksum 0 0 empty_checksum [] []
    [true; false; false; true; false; true] 3 false.
Definition holed_stream : t := mk 3 ["s"] ["s"; ".yisync_tmp"] 1 0 0 {[1 := holed_file]} sample_world.

Lemma missing_ranges_exact_witness :
  missing_ranges 1 8 holed_stream =
    [T_MissingChunkRange.mk 1 9 1 2; T_MissingChunkRange.mk 1 9 4 4] ∧
  Exists (λ r, covers r 2) (missing_ranges 1 8 holed_stream).
Proof.
  split; [vm_compute; reflexivity|].
  destruct (missing_ranges_exact holed_stream 1 8 holed_file) as (_ & _ & _ & H).
  - reflexivity.
  - lia.
  - reflexivity.
  - destruct (H 2%nat 3%nat) as [Hc|[Hfull _]]; [reflexivity|lia|reflexivity|exact Hc|].
    vm_compute in Hfull. discriminate.
Defined.

(** The length of a chunk of 4 GiB is cast to 32 bits: a receiver takes one
    empty CHUNK for the whole of a file of 4 GiB and commits an empty file. *)
Definition huge_begin : T_FileBegin.t :=
  T_FileBegin.mk 3 1 9 "huge" 4294967296 4294967296 1 empty_checksum 0 0 empty_checksum.
Definition empty_chunk : T_Chunk.t :=
  T_Chunk.mk 3 1 9 0 0 0 EM_Compression.NONE EM_ChecksumAlgo.CRC32C (crc32c_bytes []) [].

Lemma huge_chunks_truncated :
  let '(answers, s) :=
    (r1 ← apply_begin huge_begin; r2 ← apply_chunk empty_chunk;
     r3 ← apply_commit (T_FileCommit.mk 3 1 9); mret [r1; r2; r3]) sample_stream in
  answers = Ret [None; None; None] ∧ s.(world).(nodes) !! ["s"; "huge"] = Some (File []) ∧
  s.(expected_seq) = 2.
Proof. vm_compute. done. Qed.
End witnesses.
