(* ===== verification/ChunkResend.v ===== *)
(** * The sender's chunk bookkeeping: [include/sender/yisync_chunk_resend.hpp], [src/sender/yisync_chunk_resend.cpp]

    Which chunks of the file in transfer have been sent, acknowledged, lost or
    asked for again, and which one goes next.  The vectors of the source, all
    of [chunk_count] elements, are lists. *)
From S2P Require Import Prelude Crc32c Filesystem Wire Protocol Sync Scheduler.
#[local] Open Scope Z_scope.

Module T_ChunkResendState.
Record t := mk {
  chunk_count : Z; order : list Z; acked : list bool; sent : list bool; line : list Z;
  send_tick : list Z; attempts : list Z; priority : list bool
}.
Definition initial : t := mk 0 [] [] [] [] [] [] [].
End T_ChunkResendState.

Module T_ChunkSendMark.
Record t := mk { marked : bool; retransmit : bool; attempt : Z }.
End T_ChunkSendMark.

Module T_MissingHintApplied.
Record t := mk { first_chunk_index : Z; last_chunk_index : Z }.
End T_MissingHintApplied.

Import T_ChunkResendState.

(** [v[index]] of a vector of booleans or integers, for an index it has. *)
Definition at_bool (v : list bool) (index : Z) : bool := default false (v !! Z.to_nat index).
Definition at_num (v : list Z) (index : Z) : Z := default 0 (v !! Z.to_nat index).
Definition assign {A} (index : Z) (a : A) (v : list A) : list A := <[Z.to_nat index := a]> v.

Definition can_send_chunk (s : t) (index : Z) (priority_only : bool) (current_tick retransmit_ticks : Z) : bool :=
  if (index >=? zlen s.(acked)) || at_bool s.(acked) index then false
  else if priority_only && negb (at_bool s.(priority) index) then false
  else if negb (at_bool s.(sent) index) then true
  else
    at_bool s.(priority) index && (current_tick >=? at_num s.(send_tick) index) &&
    (current_tick - at_num s.(send_tick) index >=? retransmit_ticks).

(** The order of the first sending: the requested one when it has a place for
    every chunk, else the last chunk first. *)
Definition default_order (chunk_count : Z) : list Z :=
  if chunk_count >? 0 then (chunk_count - 1) :: seqZ 0 (chunk_count - 1) else [].

Definition initialize_chunk_resend_state (chunk_count : Z) (requested_order : list Z) : t :=
  let order := filter (λ chunk_index, chunk_index < chunk_count) requested_order in
  let size := Z.to_nat chunk_count in
  mk chunk_count (if zlen order =? chunk_count then order else default_order chunk_count)
    (replicate size false) (replicate size false) (replicate size 0) (replicate size 0)
    (replicate size 0) (replicate size false).

Definition reset_chunk_resend_state (s : t) : t :=
  mk s.(chunk_count) s.(order) ((λ _, false) <$> s.(acked)) ((λ _, false) <$> s.(sent))
    ((λ _, 0) <$> s.(line)) ((λ _, 0) <$> s.(send_tick)) ((λ _, 0) <$> s.(attempts))
    ((λ _, false) <$> s.(priority)).

Definition all_chunks_acked (s : t) : bool := forallb id s.(acked).

Definition chunk_index_valid (s : t) (chunk_index : Z) : bool :=
  (chunk_index <? s.(chunk_count)) && (chunk_index <? zlen s.(acked)).

Definition chunk_attempts (s : t) (chunk_index : Z) : Z :=
  if negb (chunk_index_valid s chunk_index) then 0 else at_num s.(attempts) chunk_index.

Definition next_chunk_to_send (s : t) (current_tick retransmit_ticks : Z) : option Z :=
  match list_find (λ index, can_send_chunk s index true current_tick retransmit_ticks)
          (seqZ 0 (zlen s.(priority))) with
  | Some (_, index) => Some index
  | None =>
      snd <$> list_find (λ index, can_send_chunk s index false current_tick retransmit_ticks) s.(order)
  end.

Definition mark_chunk_sent (chunk_index line_id current_tick : Z) (s : t) : T_ChunkSendMark.t * t :=
  if negb (chunk_index_valid s chunk_index) then (T_ChunkSendMark.mk false false 0, s)
  else
    let attempt := u64 (at_num s.(attempts) chunk_index + 1) in
    (T_ChunkSendMark.mk true (at_num s.(attempts) chunk_index >? 0) attempt,
     mk s.(chunk_count) s.(order) s.(acked) (assign chunk_index true s.(sent))
       (assign chunk_index line_id s.(line)) (assign chunk_index current_tick s.(send_tick))
       (assign chunk_index attempt s.(attempts)) (assign chunk_index false s.(priority))).

Definition acknowledge_chunk (chunk_index : Z) (s : t) : bool * t :=
  if negb (chunk_index_valid s chunk_index) then (false, s)
  else
    (true, mk s.(chunk_count) s.(order) (assign chunk_index true s.(acked))
             (assign chunk_index true s.(sent)) (assign chunk_index 0 s.(line)) s.(send_tick)
             s.(attempts) (assign chunk_index false s.(priority))).

Definition mark_chunk_lost (chunk_index : Z) (s : t) : bool * t :=
  if negb (chunk_index_valid s chunk_index) then (false, s)
  else if negb (at_bool s.(sent) chunk_index) || at_bool s.(acked) chunk_index then (false, s)
  else
    (true, mk s.(chunk_count) s.(order) s.(acked) (assign chunk_index false s.(sent))
             (assign chunk_index 0 s.(line)) s.(send_tick) s.(attempts)
             (assign chunk_index true s.(priority))).

Definition set_priority (p : list bool) (s : t) : t :=
  mk s.(chunk_count) s.(order) s.(acked) s.(sent) s.(line) s.(send_tick) s.(attempts) p.

(** The loop over the chunks of one range: whether anything changed, and the state. *)
Definition hint_range (first last : Z) (s : t) : bool * t :=
  foldl (λ '(changed, s) index,
      if negb (at_bool s.(acked) index) then (true, set_priority (assign index true s.(priority)) s)
      else (changed, s))
    (false, s) (seqZ first (last - first + 1)).

Fixpoint hint_ranges (seq file_id : Z) (ranges : list T_MissingChunkRange.t) (s : t)
    : list T_MissingHintApplied.t * t :=
  match ranges with
  | [] => ([], s)
  | range :: ranges =>
      if negb (range.(T_MissingChunkRange.seq) =? seq) || negb (range.(T_MissingChunkRange.file_id) =? file_id)
      then hint_ranges seq file_id ranges s
      else
        let first := Z.min range.(T_MissingChunkRange.first_chunk_index) s.(chunk_count) in
        let last := Z.min range.(T_MissingChunkRange.last_chunk_index) (s.(chunk_count) - 1) in
        if first >? last then hint_ranges seq file_id ranges s
        else
          let '(changed, s) := hint_range first last s in
          let '(applied, s) := hint_ranges seq file_id ranges s in
          (if changed then T_MissingHintApplied.mk first last :: applied else applied, s)
  end.

Definition apply_missing_hints (seq file_id : Z) (ranges : list T_MissingChunkRange.t) (s : t)
    : list T_MissingHintApplied.t * t :=
  if s.(chunk_count) =? 0 then ([], s) else hint_ranges seq file_id ranges s.

(** ** The vectors stay in step *)
Module ResendFacts.

Definition resend_ok (s : t) : Prop :=
  0 ≤ s.(chunk_count) ∧ zlen s.(acked) = s.(chunk_count) ∧ zlen s.(sent) = s.(chunk_count) ∧
  zlen s.(line) = s.(chunk_count) ∧ zlen s.(send_tick) = s.(chunk_count) ∧
  zlen s.(attempts) = s.(chunk_count) ∧ zlen s.(priority) = s.(chunk_count) ∧
  Forall (λ i, 0 ≤ i < s.(chunk_count)) s.(order) ∧
  ∀ i, 0 ≤ i → at_bool s.(acked) i = true → at_bool s.(sent) i = true ∧ at_bool s.(priority) i = false.

Lemma zlen_assign {A} i (a : A) v : zlen (assign i a v) = zlen v.
Proof. unfold zlen, assign. by rewrite length_insert. Qed.

Lemma zlen_fmap {A B} (f : A → B) v : zlen (f <$> v) = zlen v.
Proof. unfold zlen. by rewrite length_fmap. Qed.

Lemma zlen_replicate {A} n (a : A) : 0 ≤ n → zlen (replicate (Z.to_nat n) a) = n.
Proof. intros Hn. unfold zlen. rewrite length_replicate. lia. Qed.

Lemma at_bool_assign v i j b :
  0 ≤ i < zlen v → 0 ≤ j → at_bool (assign i b v) j = if decide (j = i) then b else at_bool v j.
Proof.
  unfold at_bool, assign, zlen. intros Hi Hj. case_decide as Hd.
  - rewrite Hd, list_lookup_insert_eq; [done|lia].
  - rewrite list_lookup_insert_ne; [done|lia].
Qed.

Lemma at_bool_true v i : 0 ≤ i → at_bool v i = true → i < zlen v.
Proof.
  unfold at_bool, zlen. intros Hi H. destruct (v !! Z.to_nat i) eqn:E; [|done].
  apply lookup_lt_Some in E. lia.
Qed.

Lemma at_bool_const {A} (v : list A) i : at_bool ((λ _, false) <$> v) i = false.
Proof. unfold at_bool. rewrite list_lookup_fmap. by destruct (v !! Z.to_nat i). Qed.

Lemma at_bool_replicate n i : at_bool (replicate n false) i = false.
Proof.
  unfold at_bool. destruct (replicate n false !! Z.to_nat i) eqn:E; [|done].
  by apply lookup_replicate in E as [-> _].
Qed.

Lemma valid_range s i : resend_ok s → chunk_index_valid s i = true ↔ i < s.(chunk_count).
Proof.
  intros (_ & Ha & _). unfold chunk_index_valid. rewrite Ha.
  destruct (Z.ltb_spec i s.(chunk_count)); cbn; intuition lia.
Qed.

(** The default order has every chunk once. *)
Lemma default_order_perm n : 0 ≤ n → default_order n ≡ₚ seqZ 0 n.
Proof.
  intros Hn. unfold default_order. destruct (Z.gtb_spec n 0) as [Hp|Hp].
  - assert (seqZ 0 n = seqZ 0 (n - 1) ++ [n - 1]) as ->; [|by rewrite <- Permutation_cons_append].
    transitivity (seqZ 0 (n - 1 + 1)); [f_equal; lia|].
    rewrite seqZ_app by lia. done.
  - by rewrite seqZ_nil by lia.
Qed.

Lemma initialize_ok n requested :
  0 ≤ n → Forall (λ i, 0 ≤ i) requested → resend_ok (initialize_chunk_resend_state n requested).
Proof.
  intros Hn Hreq. unfold initialize_chunk_resend_state, resend_ok. cbn.
  rewrite !zlen_replicate by done. split_and!; try done.
  - destruct (_ =? _).
    + apply Forall_forall. intros i [Hi Hin]%list_elem_of_filter. rewrite Forall_forall in Hreq.
      specialize (Hreq i Hin). lia.
    + rewrite (default_order_perm n) by done. apply Forall_forall. intros i Hi%elem_of_seqZ. lia.
  - intros i Hi H. by rewrite at_bool_replicate in H.
Qed.

(** ** The operations *)
Inductive op :=
  | Sent (chunk_index line_id tick : Z)
  | Acked (chunk_index : Z)
  | Lost (chunk_index : Z)
  | Hints (seq file_id : Z) (ranges : list T_MissingChunkRange.t)
  | Reset_.

Definition op_ok (o : op) : Prop :=
  match o with
  | Sent i _ _ | Acked i | Lost i => 0 ≤ i
  | Hints _ _ ranges => Forall (λ r, 0 ≤ r.(T_MissingChunkRange.first_chunk_index)) ranges
  | Reset_ => True
  end.

Definition step (s : t) (o : op) : t :=
  match o with
  | Sent i line_id tick => (mark_chunk_sent i line_id tick s).2
  | Acked i => (acknowledge_chunk i s).2
  | Lost i => (mark_chunk_lost i s).2
  | Hints seq file_id ranges => (apply_missing_hints seq file_id ranges s).2
  | Reset_ => reset_chunk_resend_state s
  end.

Lemma sent_ok s i line_id tick : 0 ≤ i → resend_ok s → resend_ok (mark_chunk_sent i line_id tick s).2.
Proof.
  intros Hi Hok. unfold mark_chunk_sent. destruct (chunk_index_valid s i) eqn:Hv; [|done].
  apply (valid_range s i Hok) in Hv. destruct Hok as (Hn & Ha & Hs & Hl & Ht & Hat & Hp & Ho & Hinv).
  unfold resend_ok. cbn. rewrite !zlen_assign. split_and!; try done. intros j Hj Hack.
  rewrite !at_bool_assign by lia. destruct (Hinv j Hj Hack). case_decide; split; congruence.
Qed.

Lemma acked_ok s i : 0 ≤ i → resend_ok s → resend_ok (acknowledge_chunk i s).2.
Proof.
  intros Hi Hok. unfold acknowledge_chunk. destruct (chunk_index_valid s i) eqn:Hv; [|done].
  apply (valid_range s i Hok) in Hv. destruct Hok as (Hn & Ha & Hs & Hl & Ht & Hat & Hp & Ho & Hinv).
  unfold resend_ok. cbn. rewrite !zlen_assign. split_and!; try done. intros j Hj.
  rewrite !at_bool_assign by lia. case_decide; [done|]. by apply Hinv.
Qed.

Lemma lost_ok s i : 0 ≤ i → resend_ok s → resend_ok (mark_chunk_lost i s).2.
Proof.
  intros Hi Hok. unfold mark_chunk_lost. destruct (chunk_index_valid s i) eqn:Hv; [|done]. cbn [negb].
  apply (valid_range s i Hok) in Hv. pose proof Hok as (Hn & Ha & Hs & Hl & Ht & Hat & Hp & Ho & Hinv).
  destruct (at_bool s.(sent) i); cbn [negb orb]; [|done].
  destruct (at_bool s.(acked) i) eqn:Hacked; [done|].
  unfold resend_ok. cbn. rewrite !zlen_assign. split_and!; try done. intros j Hj Hack.
  rewrite !at_bool_assign by lia. destruct (Hinv j Hj Hack). case_decide; split; congruence.
Qed.

Lemma reset_ok s : resend_ok s → resend_ok (reset_chunk_resend_state s).
Proof.
  intros (Hn & Ha & Hs & Hl & Ht & Hat & Hp & Ho & Hinv). unfold resend_ok. cbn.
  rewrite !zlen_fmap. split_and!; try done. intros j Hj. by rewrite at_bool_const.
Qed.

(** A hint changes the priority only, of chunks that are not acknowledged. *)
Definition hinted (s s' : t) : Prop :=
  ∃ p, s' = set_priority p s ∧ zlen p = zlen s.(priority) ∧
    ∀ i, 0 ≤ i → at_bool s.(acked) i = true → at_bool p i = at_bool s.(priority) i.

#[export] Instance hinted_preorder : PreOrder hinted.
Proof.
  split.
  - intros s. exists s.(priority). split_and!; [by destruct s|done|done].
  - intros s1 s2 s3 (p & -> & Hl & Hp) (q & -> & Hl' & Hq). exists q. cbn in *.
    split_and!; [done|congruence|]. intros i Hi Ha. rewrite Hq by done. by apply Hp.
Qed.

Lemma hint_range_hinted first last s :
  resend_ok s → 0 ≤ first → last < s.(chunk_count) → hinted s (hint_range first last s).2.
Proof.
  intros Hok Hf Hl. unfold hint_range. generalize false at 1 as changed.
  assert (Forall (λ i, 0 ≤ i < zlen s.(priority)) (seqZ first (last - first + 1))) as Hall.
  { apply Forall_forall. intros i Hi%elem_of_seqZ. destruct Hok as (_ & _ & _ & _ & _ & _ & -> & _). lia. }
  clear Hok Hf Hl. revert Hall. generalize (seqZ first (last - first + 1)) as l. intros l.
  revert s. induction l as [|i l IH]; intros s Hall changed; [reflexivity|].
  apply Forall_cons in Hall as [Hi Hall]. cbn [foldl].
  destruct (at_bool s.(acked) i) eqn:Ha; cbn [negb]; [by apply IH|].
  transitivity (set_priority (assign i true s.(priority)) s).
  - exists (assign i true s.(priority)). split_and!; [done|by rewrite zlen_assign|].
    intros j Hj Hack. rewrite at_bool_assign by lia. case_decide; [congruence|done].
  - apply IH. cbn. by rewrite zlen_assign.
Qed.

Lemma hinted_ok s s' : resend_ok s → hinted s s' → resend_ok s'.
Proof.
  intros (Hn & Ha & Hs & Hl & Ht & Hat & Hp & Ho & Hinv) (p & -> & Hlen & Hq). unfold resend_ok. cbn.
  split_and!; try done; [congruence|]. intros i Hi Hack. rewrite Hq by done. by apply Hinv.
Qed.

Lemma hint_ranges_hinted seq file_id ranges s :
  resend_ok s → Forall (λ r, 0 ≤ r.(T_MissingChunkRange.first_chunk_index)) ranges →
  hinted s (hint_ranges seq file_id ranges s).2.
Proof.
  intros Hok Hr. revert s Hok. induction Hr as [|r ranges Hf Hr IH]; intros s Hok; [reflexivity|].
  cbn [hint_ranges]. destruct (_ || _); [by apply IH|].
  destruct (_ >? _) eqn:E; [by apply IH|].
  pose proof (hint_range_hinted (Z.min r.(T_MissingChunkRange.first_chunk_index) s.(chunk_count))
    (Z.min r.(T_MissingChunkRange.last_chunk_index) (s.(chunk_count) - 1)) s Hok) as Hh.
  destruct (hint_range _ _ s) as [changed s1]. cbn [snd] in Hh.
  pose proof (proj1 Hok). specialize (Hh ltac:(lia) ltac:(lia)).
  specialize (IH s1 (hinted_ok s s1 Hok Hh)). destruct (hint_ranges seq file_id ranges s1) as [applied s2].
  cbn in IH |- *. by transitivity s1.
Qed.

Lemma resend_step_ok s o : op_ok o → resend_ok s → resend_ok (step s o).
Proof.
  intros Ho Hok. destruct o; cbn in *; [by apply sent_ok|by apply acked_ok|by apply lost_ok| |by apply reset_ok].
  unfold apply_missing_hints. destruct (_ =? _); [done|]. eapply hinted_ok; [done|]. by apply hint_ranges_hinted.
Qed.

(** Acknowledgements are kept. *)
Lemma step_acked s o i :
  op_ok o → resend_ok s → o ≠ Reset_ → 0 ≤ i → at_bool s.(acked) i = true → at_bool (step s o).(acked) i = true.
Proof.
  intros Ho Hok Hr Hi Ha. destruct o; cbn [step]; cbn in Ho; [| | | |done].
  - unfold mark_chunk_sent. by destruct (chunk_index_valid s chunk_index).
  - unfold acknowledge_chunk. destruct (chunk_index_valid s chunk_index) eqn:Hv; [|done].
    apply (valid_range s _ Hok) in Hv. destruct Hok as (_ & Hl & _). cbn.
    rewrite at_bool_assign by lia. by case_decide.
  - unfold mark_chunk_lost. by repeat case_match.
  - unfold apply_missing_hints. destruct (_ =? _); [done|].
    by destruct (hint_ranges_hinted seq file_id ranges s Hok Ho) as (p & -> & _).
Qed.

(** ** What is sent next *)
Lemma can_send_bound s i b tick rto : can_send_chunk s i b tick rto = true → i < zlen s.(acked).
Proof. unfold can_send_chunk. destruct (Z.geb_spec i (zlen s.(acked))); [done|lia]. Qed.

Lemma can_send_not_acked s i b tick rto :
  can_send_chunk s i b tick rto = true → at_bool s.(acked) i = false.
Proof. unfold can_send_chunk. destruct (at_bool s.(acked) i); [by rewrite orb_true_r|done]. Qed.

Lemma can_send_priority s i tick rto :
  can_send_chunk s i true tick rto = can_send_chunk s i false tick rto && at_bool s.(priority) i.
Proof.
  unfold can_send_chunk. destruct (_ || _); [done|]. cbn [andb].
  destruct (at_bool s.(priority) i); cbn [negb andb]; [by rewrite andb_true_r|by rewrite andb_false_r].
Qed.

Definition covers_all (s : t) : Prop := ∀ i, 0 ≤ i < s.(chunk_count) → i ∈ s.(order).

Lemma next_some s tick rto i :
  resend_ok s → next_chunk_to_send s tick rto = Some i →
  0 ≤ i < s.(chunk_count) ∧ can_send_chunk s i false tick rto = true ∧
  ∀ j, 0 ≤ j → can_send_chunk s j false tick rto = true → at_bool s.(priority) j = true →
    at_bool s.(priority) i = true ∧ i ≤ j.
Proof.
  intros Hok. pose proof Hok as (Hn & Ha & _ & _ & _ & _ & Hp & Ho & _). unfold next_chunk_to_send.
  destruct (list_find _ (seqZ 0 (zlen s.(priority)))) as [[k x]|] eqn:E.
  - intros [= ->]. apply list_find_Some in E as (Hk & Hc & Hmin).
    pose proof Hk as Hel%list_elem_of_lookup_2. apply elem_of_seqZ in Hel. apply Is_true_true in Hc.
    rewrite can_send_priority in Hc. apply andb_true_iff in Hc as [Hc1 Hc2].
    split_and!; [lia|lia|done|]. intros j Hj Hcj Hpj. split; [done|].
    destruct (decide (i ≤ j)) as [|Hlt]; [done|exfalso]. apply lookup_seqZ in Hk as [Hki _].
    apply (Hmin (Z.to_nat j) j).
    + apply lookup_seqZ. split; lia.
    + lia.
    + apply Is_true_true. by rewrite can_send_priority, Hcj, Hpj.
  - apply list_find_None in E. intros ((k & y) & Hk & Heq)%fmap_Some. cbn in Heq. subst y.
    apply list_find_Some in Hk as (Hk & Hc & _). apply Is_true_true in Hc.
    rewrite Forall_forall in Ho. specialize (Ho i (list_elem_of_lookup_2 _ _ _ Hk)).
    split_and!; [lia|lia|done|]. intros j Hj Hcj Hpj. exfalso. rewrite Forall_forall in E.
    apply (E j); [|by rewrite can_send_priority, Hcj, Hpj].
    apply elem_of_seqZ. apply can_send_bound in Hcj. lia.
Qed.

Lemma next_none s tick rto i :
  next_chunk_to_send s tick rto = None → i ∈ s.(order) → can_send_chunk s i false tick rto = false.
Proof.
  unfold next_chunk_to_send. destruct (list_find _ (seqZ _ _)) as [[k x]|]; [done|].
  destruct (list_find _ s.(order)) as [[k y]|] eqn:E; [done|]. intros _ Hi.
  apply list_find_None in E. rewrite Forall_forall in E. apply not_true_is_false. intros Hc.
  apply (E i Hi). by rewrite Hc.
Qed.

(** Sending a chunk takes it, and only it, from the chunks to send. *)
Lemma can_send_sent s i j line_id t0 tick rto :
  resend_ok s → 0 ≤ i < s.(chunk_count) → 0 ≤ j →
  can_send_chunk (mark_chunk_sent i line_id t0 s).2 j false tick rto =
  negb (bool_decide (j = i)) && can_send_chunk s j false tick rto.
Proof.
  intros Hok Hi Hj. pose proof Hok as (Hn & Ha & Hs & Hl & Ht & Hat & Hp & _). unfold mark_chunk_sent.
  rewrite (proj2 (valid_range s i Hok)) by lia. unfold can_send_chunk. cbn.
  rewrite !at_bool_assign by lia. case_decide as Hd; cbn.
  - rewrite bool_decide_eq_true_2 by done. cbn. by destruct (_ || _).
  - rewrite bool_decide_eq_false_2 by done. cbn. unfold at_num, assign.
    by rewrite list_lookup_insert_ne by lia.
Qed.

(** What can be sent now. *)
Definition sendable (s : t) (tick rto : Z) : list Z :=
  filter (λ i, can_send_chunk s i false tick rto = true) (seqZ 0 s.(chunk_count)).

Lemma elem_of_sendable s tick rto i :
  resend_ok s → 0 ≤ i → i ∈ sendable s tick rto ↔ can_send_chunk s i false tick rto = true.
Proof.
  intros (_ & Ha & _) Hi. unfold sendable. rewrite list_elem_of_filter, elem_of_seqZ.
  split; [tauto|]. intros Hc. pose proof (can_send_bound _ _ _ _ _ Hc). split; [done|lia].
Qed.

Lemma filter_ext_in (P Q : Z → Prop) `{∀ x, Decision (P x), ∀ x, Decision (Q x)} (l : list Z) :
  (∀ j, j ∈ l → (Q j ↔ P j)) → filter P l = filter Q l.
Proof.
  induction l as [|x l IH]; intros Hiff; [done|]. rewrite !filter_cons, IH by (intros j Hj; apply Hiff; by right).
  assert (Q x ↔ P x) by (apply Hiff; by left). by destruct (decide (P x)), (decide (Q x)); tauto.
Qed.

Lemma filter_remove (P Q : Z → Prop) `{∀ x, Decision (P x), ∀ x, Decision (Q x)} (l : list Z) i :
  i ∈ l → NoDup l → P i → ¬ Q i → (∀ j, j ∈ l → j ≠ i → (Q j ↔ P j)) →
  length (filter P l) = S (length (filter Q l)).
Proof.
  intros Hi Hnd HP HQ Hiff. induction l as [|x l IH]; [by apply elem_of_nil in Hi|].
  apply NoDup_cons in Hnd as [Hx Hnd]. rewrite !filter_cons.
  apply elem_of_cons in Hi as [<-|Hi].
  - rewrite (decide_True _ _ HP), (decide_False _ _ HQ). cbn. do 2 f_equal.
    apply filter_ext_in. intros j Hj. apply Hiff; [by right|by intros ->].
  - destruct (decide (x = i)) as [->|Hne]; [done|].
    assert (length (filter P l) = S (length (filter Q l))) as IH'
      by (apply IH; [done|done|intros j Hj; apply Hiff; by right]).
    assert (Q x ↔ P x) as Hx' by (apply Hiff; [by left|done]).
    destruct (decide (P x)), (decide (Q x)); cbn; tauto || lia.
Qed.

Lemma sendable_length s i line_id t0 tick rto :
  resend_ok s → 0 ≤ i → can_send_chunk s i false tick rto = true →
  length (sendable s tick rto) = S (length (sendable (mark_chunk_sent i line_id t0 s).2 tick rto)).
Proof.
  intros Hok Hi Hc. pose proof (can_send_bound _ _ _ _ _ Hc) as Hb.
  assert (i < s.(chunk_count)) as Hlt by (destruct Hok as (_ & Ha & _); lia).
  unfold sendable. replace (chunk_count (mark_chunk_sent i line_id t0 s).2) with s.(chunk_count)
    by (unfold mark_chunk_sent; by destruct (chunk_index_valid s i)).
  apply (filter_remove _ _ _ i); [by apply elem_of_seqZ|apply NoDup_seqZ|done| |].
  - rewrite can_send_sent, bool_decide_eq_true_2 by done. done.
  - intros j Hj Hne. apply elem_of_seqZ in Hj. rewrite can_send_sent, bool_decide_eq_false_2 by (done || lia).
    done.
Qed.

(** The loop that sends all it can: next, mark, again. *)
Fixpoint send_round (fuel : nat) (line_id tick rto : Z) (s : t) : list Z * t :=
  match fuel with
  | O => ([], s)
  | S fuel =>
      match next_chunk_to_send s tick rto with
      | None => ([], s)
      | Some i =>
          let '(l, s') := send_round fuel line_id tick rto (mark_chunk_sent i line_id tick s).2 in (i :: l, s')
      end
  end.

Lemma mark_sent_same s i line_id tick :
  let s' := (mark_chunk_sent i line_id tick s).2 in
  s'.(acked) = s.(acked) ∧ s'.(order) = s.(order) ∧ s'.(chunk_count) = s.(chunk_count).
Proof. unfold mark_chunk_sent. by destruct (chunk_index_valid s i). Qed.

Lemma send_round_spec fuel line_id tick rto s :
  resend_ok s → covers_all s → (length (sendable s tick rto) < fuel)%nat →
  let '(l, s') := send_round fuel line_id tick rto s in
  NoDup l ∧ (∀ i, i ∈ l ↔ i ∈ sendable s tick rto) ∧ next_chunk_to_send s' tick rto = None ∧
  s'.(acked) = s.(acked) ∧ s'.(order) = s.(order) ∧ s'.(chunk_count) = s.(chunk_count) ∧ resend_ok s'.
Proof.
  revert s. induction fuel as [|fuel IH]; intros s Hok Hcov Hlen; [lia|]. cbn [send_round].
  destruct (next_chunk_to_send s tick rto) as [i|] eqn:En.
  - destruct (next_some s tick rto i Hok En) as (Hi & Hc & _).
    set (s1 := (mark_chunk_sent i line_id tick s).2).
    assert (resend_ok s1) as Hok1 by (apply sent_ok; [lia|done]).
    destruct (mark_sent_same s i line_id tick) as (Ha1 & Ho1 & Hn1). fold s1 in Ha1, Ho1, Hn1.
    specialize (IH s1 Hok1). rewrite (sendable_length s i line_id tick) in Hlen by (done || lia). fold s1 in Hlen.
    assert (covers_all s1) as Hcov1 by (intros j Hj; rewrite Ho1; apply Hcov; by rewrite <- Hn1).
    specialize (IH Hcov1 ltac:(lia)).
    destruct (send_round fuel line_id tick rto s1) as [l s'].
    destruct IH as (Hnd & Hel & Hnext & Ha & Ho & Hn & Hok').
    assert (∀ j, j ∈ sendable s1 tick rto ↔ j ≠ i ∧ j ∈ sendable s tick rto) as Hs1.
    { intros j. destruct (decide (0 ≤ j)) as [Hj|Hj].
      - rewrite !elem_of_sendable by done. unfold s1. rewrite can_send_sent by done.
        destruct (bool_decide_reflect (j = i)); cbn; [|tauto]. split; [done|tauto].
      - unfold sendable. rewrite !list_elem_of_filter, !elem_of_seqZ. split; [lia|intros [_ [_ ?]]; lia]. }
    split_and!; try congruence; try done.
    + constructor; [|done]. rewrite Hel, Hs1. tauto.
    + intros j. rewrite elem_of_cons, Hel, Hs1. destruct (decide (j = i)) as [->|]; [|tauto].
      split; [intros _|by left]. apply elem_of_sendable; [done|lia|done].
  - split_and!; try done; [constructor|]. intros i. split; [intros Hi; by apply elem_of_nil in Hi|].
    intros Hi. exfalso. unfold sendable in Hi. apply list_elem_of_filter in Hi as [Hc Hi%elem_of_seqZ].
    by rewrite (next_none s tick rto i En) in Hc by (apply Hcov; lia).
Qed.
End ResendFacts.
Import ResendFacts.

(** Every chunk has a place in the order unless the request repeats one. *)
Lemma initialize_covers n requested :
  0 ≤ n → Forall (λ i, 0 ≤ i) requested → NoDup requested →
  covers_all (initialize_chunk_resend_state n requested).
Proof.
  intros Hn Hreq Hnd i Hi. unfold initialize_chunk_resend_state in *. cbn in *.
  destruct (Z.eqb_spec (zlen (filter (λ c, c < n) requested)) n) as [Hl|_].
  - assert (filter (λ c, c < n) requested ≡ₚ seqZ 0 n) as ->; [|by apply elem_of_seqZ].
    apply submseteq_length_Permutation.
    + apply NoDup_submseteq; [by apply NoDup_filter|]. intros j [Hj Hin]%list_elem_of_filter.
      rewrite Forall_forall in Hreq. apply elem_of_seqZ. specialize (Hreq j Hin). lia.
    + rewrite length_seqZ. unfold zlen in Hl. lia.
  - rewrite (default_order_perm n) by done. by apply elem_of_seqZ.
Qed.

(** A request that repeats a chunk has the right size and leaves another one out. *)
Lemma duplicate_order_skips :
  (send_round 10 1 0 5 (initialize_chunk_resend_state 2 [0; 0])).1 = [0].
Proof. reflexivity. Qed.

(** Acknowledge every chunk of a list. *)
Definition acknowledge_all (l : list Z) (s : t) : t := foldl (λ s i, (acknowledge_chunk i s).2) s l.

Lemma acknowledge_all_spec l s :
  resend_ok s → Forall (λ i, 0 ≤ i < s.(chunk_count)) l →
  resend_ok (acknowledge_all l s) ∧ (acknowledge_all l s).(chunk_count) = s.(chunk_count) ∧
  ∀ i, 0 ≤ i → i ∈ l ∨ at_bool s.(acked) i = true → at_bool (acknowledge_all l s).(acked) i = true.
Proof.
  intros Hok Hl. unfold acknowledge_all. revert s Hok Hl. induction l as [|j l IH]; intros s Hok Hl.
  { split_and!; [done|done|]. intros i _ [Hi|Hi]; [by apply elem_of_nil in Hi|done]. }
  apply Forall_cons in Hl as [Hj Hl]. cbn [foldl].
  assert (chunk_count (acknowledge_chunk j s).2 = s.(chunk_count)) as Hn
    by (unfold acknowledge_chunk; by destruct (chunk_index_valid s j)).
  destruct (IH (acknowledge_chunk j s).2) as (Hok' & Hn' & Ha).
  { apply acked_ok; [lia|done]. }
  { by rewrite Hn. }
  split_and!; [done|congruence|]. intros i Hi Hin. apply Ha; [done|].
  destruct (decide (i = j)) as [->|Hne].
  - right. unfold acknowledge_chunk. rewrite (proj2 (valid_range s j Hok)) by lia. cbn.
    pose proof Hok as (_ & Hla & _). rewrite at_bool_assign by lia. by rewrite decide_True.
  - destruct Hin as [[->|Hin]%elem_of_cons|Hack]; [done|by left|].
    right. by apply (step_acked s (Acked j) i ltac:(cbn; lia)).
Qed.

Lemma all_chunks_acked_iff s :
  resend_ok s → all_chunks_acked s = true ↔ ∀ i, 0 ≤ i < s.(chunk_count) → at_bool s.(acked) i = true.
Proof.
  intros (Hn & Ha & _). unfold all_chunks_acked. rewrite <- Is_true_true, forallb_True, Forall_lookup. split.
  - intros H i Hi. unfold at_bool. destruct (lookup_lt_is_Some_2 s.(acked) (Z.to_nat i)) as [b Hb].
    { unfold zlen in Ha. lia. }
    rewrite Hb. cbn. apply Is_true_true. by apply (H _ _ Hb).
  - intros H k b Hb. pose proof (lookup_lt_Some _ _ _ Hb). unfold zlen in Ha.
    specialize (H (Z.of_nat k) ltac:(lia)). unfold at_bool in H. rewrite Nat2Z.id, Hb in H. by apply Is_true_true.
Qed.

(** [next_chunk_to_send] gives a chunk of the file that may be sent: not
    acknowledged, and not sent yet or asked for again more than the
    retransmission time ago; a chunk marked lost or hinted missing comes before
    any other, the least first.  When it gives none, no chunk may be sent. *)
Theorem next_chunk_correct (s : t) (tick rto : Z) :
  resend_ok s → covers_all s →
  match next_chunk_to_send s tick rto with
  | Some i =>
      0 ≤ i < s.(chunk_count) ∧ at_bool s.(acked) i = false ∧
      (at_bool s.(sent) i = true →
       at_bool s.(priority) i = true ∧ at_num s.(send_tick) i ≤ tick ∧ rto ≤ tick - at_num s.(send_tick) i) ∧
      ∀ j, 0 ≤ j < i → can_send_chunk s j false tick rto = true → at_bool s.(priority) j = false
  | None => ∀ i, 0 ≤ i < s.(chunk_count) → can_send_chunk s i false tick rto = false
  end.
Proof.
  intros Hok Hcov. destruct (next_chunk_to_send s tick rto) as [i|] eqn:En.
  - destruct (next_some s tick rto i Hok En) as (Hi & Hc & Hmin). split_and!; try lia.
    + by eapply can_send_not_acked.
    + intros Hs. unfold can_send_chunk in Hc. destruct (_ || _); [done|]. cbn [andb] in Hc.
      rewrite Hs in Hc. cbn [negb] in Hc. apply andb_true_iff in Hc as [[Hp Ht]%andb_true_iff Hr].
      split_and!; [done|lia|lia].
    + intros j Hj Hcj. apply not_true_is_false. intros Hpj. destruct (Hmin j) as [_ Hle]; [lia|done|done|]. lia.
  - intros i Hi. apply (next_none s tick rto i En). by apply Hcov.
Qed.

Lemma next_chunk_correct_witness :
  let s := (mark_chunk_lost 1 (mark_chunk_sent 1 7 0 (initialize_chunk_resend_state 3 [])).2).2 in
  next_chunk_to_send s 4 9 = Some 1 ∧ at_bool s.(acked) 1 = false.
Proof.
  split; [reflexivity|].
  assert (resend_ok (mark_chunk_lost 1 (mark_chunk_sent 1 7 0 (initialize_chunk_resend_state 3 [])).2).2) as Hok
    by (apply lost_ok, sent_ok, initialize_ok; [done|done|done|apply Forall_nil_2]).
  refine (proj1 (proj2 (next_chunk_correct _ 4 9 Hok _))).
  intros i Hi. apply (initialize_covers 3 []); [done|apply Forall_nil_2|apply NoDup_nil_2|]. exact Hi.
Defined.

(** The bookkeeping of a file keeps its vectors in step through any
    sequence of sends, acknowledgements, losses, missing hints and resets, and
    a chunk once acknowledged is never given out to send again before a reset. *)
Theorem resend_invariant (n : Z) (requested : list Z) (ops ops' : list op) (i tick rto : Z) :
  0 ≤ n → Forall (λ i, 0 ≤ i) requested → Forall op_ok (ops ++ ops') → Reset_ ∉ ops' →
  let s := foldl step (initialize_chunk_resend_state n requested) ops in
  let s' := foldl step s ops' in
  resend_ok s' ∧
  (0 ≤ i → at_bool s.(acked) i = true →
   at_bool s'.(acked) i = true ∧ next_chunk_to_send s' tick rto ≠ Some i).
Proof.
  intros Hn Hreq [Hops Hops']%Forall_app Hr s s'.
  assert (∀ ops s, Forall op_ok ops → resend_ok s → resend_ok (foldl step s ops)) as Hrun.
  { clear. intros ops s Hall. revert s. induction Hall as [|o ops Ho _ IH]; intros s Hok; [done|].
    by apply IH, resend_step_ok. }
  assert (resend_ok s) as Hok by (by apply Hrun, initialize_ok). split; [by apply Hrun|].
  intros Hi Ha. assert (at_bool s'.(acked) i = true) as Ha'.
  { subst s'. clearbody s. revert s Hok Ha. induction Hops' as [|o ops' Ho Hops' IH]; intros s Hok Ha; [done|].
    apply not_elem_of_cons in Hr as [Hne Hr]. cbn [foldl]. apply IH; [done|by apply resend_step_ok|].
    by apply step_acked. }
  split; [done|]. intros En. apply next_some in En as (_ & Hc & _); [|by apply Hrun].
  apply can_send_not_acked in Hc. congruence.
Qed.

Lemma resend_invariant_witness :
  let s' := foldl step (initialize_chunk_resend_state 2 []) [Sent 1 7 0; Acked 1; Lost 1] in
  at_bool s'.(acked) 1 = true ∧ next_chunk_to_send s' 100 9 ≠ Some 1.
Proof.
  apply (resend_invariant 2 [] [Sent 1 7 0; Acked 1] [Lost 1] 1 100 9); [done| | | |done|done].
  - apply Forall_nil_2.
  - repeat (apply Forall_cons_2; [done|]). apply Forall_nil_2.
  - intros H. apply list_elem_of_singleton in H. done.
Defined.

(** C20: Asking for the next chunk and sending it until there is none ends
    within one round of the file, sends every chunk of a new file exactly once
    when the requested order repeats none, and the file is complete when these
    are acknowledged. *)
Theorem all_chunks_sent (n : Z) (requested : list Z) (line_id tick rto : Z) :
  0 ≤ n → Forall (λ i, 0 ≤ i) requested → NoDup requested →
  let s := initialize_chunk_resend_state n requested in
  let '(sent_chunks, s') := send_round (S (Z.to_nat n)) line_id tick rto s in
  sent_chunks ≡ₚ seqZ 0 n ∧ next_chunk_to_send s' tick rto = None ∧
  all_chunks_acked (acknowledge_all sent_chunks s') = true.
Proof.
  intros Hn Hreq Hnd s. assert (resend_ok s) as Hok by (by apply initialize_ok).
  assert (sendable s tick rto = seqZ 0 n) as Hall.
  { unfold sendable. transitivity (filter (λ _ : Z, True) (seqZ 0 (chunk_count s))).
    2: { cbn. induction (seqZ 0 n) as [|i l IH]; [done|]. rewrite filter_cons, IH. done. }
    apply filter_ext_in. intros i Hi%elem_of_seqZ. cbn in Hi. unfold can_send_chunk. cbn.
    rewrite zlen_replicate, !at_bool_replicate by done. by destruct (Z.geb_spec i n); [lia|]. }
  pose proof (send_round_spec (S (Z.to_nat n)) line_id tick rto s Hok (initialize_covers n requested Hn Hreq Hnd)) as H.
  rewrite Hall, length_seqZ in H. specialize (H ltac:(lia)).
  destruct (send_round _ line_id tick rto s) as [l s']. destruct H as (Hl & Hel & Hnext & Ha & Ho & Hc & Hok').
  assert (s'.(chunk_count) = n) as Hc' by (by rewrite Hc).
  split_and!; [|done|].
  - apply NoDup_Permutation; [done|apply NoDup_seqZ|done].
  - destruct (acknowledge_all_spec l s' Hok') as (Hok2 & Hc2 & Hack).
    { apply Forall_forall. intros i Hi%Hel%elem_of_seqZ. lia. }
    apply all_chunks_acked_iff; [done|]. intros i Hi. apply Hack; [lia|]. left. apply Hel, elem_of_seqZ. lia.
Qed.

Lemma all_chunks_sent_witness :
  let '(sent_chunks, s') := send_round 4 7 0 5 (initialize_chunk_resend_state 3 [1; 2; 0]) in
  sent_chunks ≡ₚ seqZ 0 3 ∧ next_chunk_to_send s' 0 5 = None ∧
  all_chunks_acked (acknowledge_all sent_chunks s') = true.
Proof.
  apply (all_chunks_sent 3 [1; 2; 0] 7 0 5); [done| |].
  - repeat (apply Forall_cons_2; [done|]). apply Forall_nil_2.
  - apply (bool_decide_unpack _). vm_compute. exact I.
Defined.
