(* ===== verification/AppendState.v ===== *)
(** * The sender's append bookkeeping: [include/sender/yisync_append_state.hpp], [src/sender/yisync_append_state.cpp]

    Where the sender of a file in append mode stands: whether the CREATE was
    sent and answered, the DATA in flight, and the offset the receiver has
    confirmed.  One CREATE or DATA is in flight at a time. *)
From S2P Require Import Prelude Crc32c Filesystem Wire Protocol Sync Scheduler.
#[local] Open Scope Z_scope.

Module T_AppendSendState.
Record t := mk {
  needs_create : bool; data_needed : bool; create_sent : bool; create_ready : bool;
  data_sent : bool; create_line_id : Z; data_line_id : Z; offset : Z; next_offset : Z;
  current_data_len : Z; seq : Z; done_next_seq : Z
}.
Definition initial : t := mk false false false false false 0 0 0 0 0 0 0.
End T_AppendSendState.

Import T_AppendSendState.

Definition reset_append_state (state : t) : t := initial.

Definition reset_append_inflight (state : t) : t :=
  mk state.(needs_create) state.(data_needed) false false false 0 0 state.(offset)
    state.(next_offset) 0 state.(seq) state.(done_next_seq).

Definition append_inflight (state : t) : bool := state.(create_sent) || state.(data_sent).

Definition start_append_plan (diff : T_SyncStart.t) (task_seq source_size : Z) (state : t) : t :=
  let needs_create := bool_decide (diff.(T_SyncStart.start_action) = EM_StartAction.CREATE_MISSING) in
  let offset := diff.(T_SyncStart.start_offset) in
  mk needs_create (offset <? source_size) false (negb needs_create) false 0 0 offset offset 0
    task_seq (u64 (task_seq + 1)).

Definition set_create (sent ready : bool) (line_id : Z) (state : t) : t :=
  mk state.(needs_create) state.(data_needed) sent ready state.(data_sent) line_id
    state.(data_line_id) state.(offset) state.(next_offset) state.(current_data_len) state.(seq)
    state.(done_next_seq).

Definition set_data (sent : bool) (line_id next_offset len : Z) (state : t) : t :=
  mk state.(needs_create) state.(data_needed) state.(create_sent) state.(create_ready) sent
    state.(create_line_id) line_id state.(offset) next_offset len state.(seq) state.(done_next_seq).

Definition mark_append_create_sent (line_id : Z) (state : t) : t :=
  set_create true state.(create_ready) line_id state.

Definition mark_append_data_sent (line_id data_len : Z) (state : t) : t :=
  set_data true line_id state.(next_offset) data_len state.

Definition mark_append_create_ready_from_heartbeat (heartbeat : T_Heartbeat.t) (state : t) : bool * t :=
  if negb state.(needs_create) || negb state.(create_sent) || state.(create_ready) then (false, state)
  else if (heartbeat.(T_Heartbeat.next_seq) <=? state.(seq)) && negb (heartbeat.(T_Heartbeat.offset) =? 0)
  then (false, state)
  else (true, set_create state.(create_sent) true state.(create_line_id) state).

Definition target_offset (state : t) : Z := u64 (state.(next_offset) + state.(current_data_len)).

Definition mark_append_data_ready_from_heartbeat (heartbeat : T_Heartbeat.t) (state : t) : bool * t :=
  if negb state.(data_sent) then (false, state)
  else
    let target_offset := target_offset state in
    if (heartbeat.(T_Heartbeat.next_seq) <=? state.(seq)) &&
       (heartbeat.(T_Heartbeat.offset) <? target_offset) &&
       (heartbeat.(T_Heartbeat.durable_offset) <? target_offset)
    then (false, state)
    else (true, set_data false 0 target_offset 0 state).

Definition append_complete_by_heartbeat (state : t) (heartbeat : T_Heartbeat.t)
    (kind : EM_EntryKind.t) (source_size : Z) : bool :=
  if state.(data_sent) || (state.(next_offset) <? source_size) ||
     (heartbeat.(T_Heartbeat.next_seq) <? state.(done_next_seq)) then false
  else
    negb (bool_decide (kind = EM_EntryKind.REGULAR_FILE)) ||
    (heartbeat.(T_Heartbeat.durable_offset) >=? source_size).

Definition mark_append_create_retransmitted (line_id : Z) (state : t) : t :=
  set_create true state.(create_ready) line_id state.

Definition mark_append_data_retransmitted (line_id offset end_offset : Z) (state : t) : t :=
  set_data true line_id state.(next_offset)
    (if end_offset >? offset then end_offset - offset else state.(current_data_len)) state.

Definition append_lost_matches (state : t) (lost : T_LostSend.t) : bool :=
  let lost_create :=
    bool_decide (lost.(T_LostSend.kind) = EM_SendKind.CREATE) && state.(create_sent) &&
    (lost.(T_LostSend.seq) =? state.(seq)) in
  let lost_data :=
    bool_decide (lost.(T_LostSend.kind) = EM_SendKind.DATA) && state.(data_sent) &&
    (lost.(T_LostSend.seq) =? state.(seq)) && (lost.(T_LostSend.offset) =? state.(next_offset)) in
  lost_create || lost_data.

(** What [SenderApp::send_append_if_possible] sends next, after its guards on
    the task and the network: the CREATE, or the DATA of an offset and length. *)
Module T_NextAppend.
Inductive t := Create | Data (offset len : Z).
End T_NextAppend.

Definition next_append (chunk_size source_size : Z) (state : t) : option T_NextAppend.t :=
  if state.(needs_create) && negb state.(create_sent) then Some T_NextAppend.Create
  else if state.(needs_create) && negb state.(create_ready) then None
  else if state.(data_sent) then None
  else if state.(next_offset) <? source_size
  then Some (T_NextAppend.Data state.(next_offset) (Z.min chunk_size (source_size - state.(next_offset))))
  else None.

(** ** Runs of one file

    The moves of a file in append mode: a plan starts it (only with nothing in
    flight, [SenderApp::apply_append_plan]), the application sends, the
    heartbeats that concern the file come, what is in flight is sent again, the
    line of what is in flight is lost ([SenderApp::reset_append_plan_for_reconnect])
    or the sender falls back to a new manifest
    ([SenderApp::reset_task_for_manifest_recovery]).  After the last two,
    [manifest_applied] is false and nothing is sent before a new plan. *)
Module Run.
(** [planned]: no reset since the last plan.  [from] is the offset that plan
    starts at and [sent] the ranges sent by DATA since, less one that was lost. *)
Record t := mk { state : T_AppendSendState.t; planned : bool; from : Z; sent : list (Z * Z) }.
Definition initial : t := mk T_AppendSendState.initial false 0 [].
Definition set_state (state : T_AppendSendState.t) (r : t) : t := mk state r.(planned) r.(from) r.(sent).
End Run.

Section runs.
Context (chunk_size source_size : Z).

Definition data_in_flight (s : t) : Z * Z := (s.(next_offset), s.(next_offset) + s.(current_data_len)).

(** A heartbeat is looked at for the CREATE, then for the DATA. *)
Definition on_append_heartbeat (heartbeat : T_Heartbeat.t) (s : t) : t :=
  (mark_append_data_ready_from_heartbeat heartbeat (mark_append_create_ready_from_heartbeat heartbeat s).2).2.

(** What was sent and confirmed: the range in flight is not. *)
Definition drop_unconfirmed (s : t) (sent : list (Z * Z)) : list (Z * Z) :=
  if s.(data_sent) then removelast sent else sent.

Inductive move : Run.t → Run.t → Prop :=
  | start r diff task_seq :
      append_inflight r.(Run.state) = false → 0 ≤ diff.(T_SyncStart.start_offset) ≤ source_size →
      move r (Run.mk (start_append_plan diff task_seq source_size r.(Run.state)) true
                diff.(T_SyncStart.start_offset) [])
  | send_create s from sent line_id :
      next_append chunk_size source_size s = Some T_NextAppend.Create →
      move (Run.mk s true from sent) (Run.mk (mark_append_create_sent line_id s) true from sent)
  | send_data s from sent line_id offset len :
      next_append chunk_size source_size s = Some (T_NextAppend.Data offset len) →
      move (Run.mk s true from sent)
        (Run.mk (mark_append_data_sent line_id len s) true from (sent ++ [(offset, len)]))
  | hear r hb : move r (Run.set_state (on_append_heartbeat hb r.(Run.state)) r)
  | resend_create r line_id :
      r.(Run.state).(create_sent) = true →
      move r (Run.set_state (mark_append_create_retransmitted line_id r.(Run.state)) r)
  | resend_data r line_id :
      r.(Run.state).(data_sent) = true →
      move r (Run.set_state (mark_append_data_retransmitted line_id (data_in_flight r.(Run.state)).1
                               (data_in_flight r.(Run.state)).2 r.(Run.state)) r)
  | lose r lost :
      append_lost_matches r.(Run.state) lost = true →
      move r (Run.mk (reset_append_inflight r.(Run.state)) false r.(Run.from)
                (drop_unconfirmed r.(Run.state) r.(Run.sent)))
  | recover r : move r (Run.mk (reset_append_state r.(Run.state)) false 0 []).

(** The ranges cover [from, to) one after the other, none empty. *)
Fixpoint tiles (from to : Z) (sent : list (Z * Z)) : Prop :=
  match sent with
  | [] => from = to
  | (offset, len) :: sent => offset = from ∧ 0 < len ≤ chunk_size ∧ tiles (from + len) to sent
  end.

Lemma tiles_snoc from to len sent :
  tiles from to sent → 0 < len ≤ chunk_size → tiles from (to + len) (sent ++ [(to, len)]).
Proof.
  revert from. induction sent as [|[o n] sent IH]; cbn; intros from.
  - by intros ->.
  - intros (-> & Hn & Ht) Hl. split_and!; [done|lia|lia|]. by apply IH.
Qed.

(** The ranges tile the file up to [next_offset], with the range in flight,
    when there is one, as the last of them. *)
Definition tiled (r : Run.t) : Prop :=
  let s := r.(Run.state) in
  if s.(data_sent) then
    ∃ confirmed, r.(Run.sent) = confirmed ++ [(s.(next_offset), s.(current_data_len))] ∧
      tiles r.(Run.from) s.(next_offset) confirmed ∧ 0 < s.(current_data_len) ≤ chunk_size ∧
      s.(next_offset) + s.(current_data_len) ≤ source_size
  else tiles r.(Run.from) s.(next_offset) r.(Run.sent) ∧ s.(current_data_len) = 0.

Record append_ok (r : Run.t) : Prop := {
  ok_next : 0 ≤ r.(Run.from) ≤ r.(Run.state).(next_offset) ≤ source_size;
  ok_tiled : tiled r;
  ok_flight : r.(Run.state).(data_sent) = true → r.(Run.state).(create_ready) = true;
  ok_ready : r.(Run.state).(create_ready) = true → r.(Run.state).(needs_create) = true →
    r.(Run.state).(create_sent) = true;
  ok_create : r.(Run.planned) = true → r.(Run.state).(needs_create) = false → r.(Run.state).(create_ready) = true;
  ok_sent : r.(Run.planned) = true → r.(Run.sent) ≠ [] → r.(Run.state).(create_ready) = true
}.

Context (Hchunk : 0 < chunk_size) (Hsize : in_u64 source_size).

Lemma initial_ok : append_ok Run.initial.
Proof. split; unfold tiled; cbn; try done. uint_lia. Qed.

Lemma create_ready_ok hb r :
  append_ok r → append_ok (Run.set_state (mark_append_create_ready_from_heartbeat hb r.(Run.state)).2 r).
Proof.
  intros [Hn Ht Hf Hr Hc Hl]. destruct r as [s planned from sent]. unfold mark_append_create_ready_from_heartbeat.
  unfold tiled in *. cbn in *. destruct s.(needs_create) eqn:En, s.(create_sent) eqn:Es, s.(create_ready) eqn:Er;
    cbn [negb orb]; try (by split; cbn; rewrite ?En, ?Es, ?Er; auto).
  destruct (_ && _); split; cbn; rewrite ?En, ?Es, ?Er; auto.
Qed.

Lemma data_ready_ok hb r :
  append_ok r → append_ok (Run.set_state (mark_append_data_ready_from_heartbeat hb r.(Run.state)).2 r).
Proof.
  intros [Hn Ht Hf Hr Hc Hl]. destruct r as [s planned from sent]. unfold mark_append_data_ready_from_heartbeat.
  unfold tiled in *. cbn in *. destruct s.(data_sent) eqn:Ed; cbn [negb];
    [|by split; unfold tiled; cbn; rewrite ?Ed].
  destruct (_ && _); [by split; unfold tiled; cbn; rewrite ?Ed|].
  destruct Ht as (confirmed & -> & Ht & Hlen & Hend).
  assert (target_offset s = s.(next_offset) + s.(current_data_len)) as Htgt
    by (unfold target_offset; apply u64_small; uint_lia).
  split; unfold tiled; cbn; rewrite ?Htgt; auto; try lia.
  split; [|done]. by apply tiles_snoc.
Qed.

Lemma send_data_ok s from sent line_id offset len :
  append_ok (Run.mk s true from sent) →
  next_append chunk_size source_size s = Some (T_NextAppend.Data offset len) →
  append_ok (Run.mk (mark_append_data_sent line_id len s) true from (sent ++ [(offset, len)])).
Proof.
  intros [Hn Ht Hf Hr Hc Hl] H. unfold tiled in Ht. cbn in *. unfold next_append in H.
  destruct (_ && negb s.(create_sent)); [done|].
  destruct (s.(needs_create) && negb s.(create_ready)) eqn:Er; [done|].
  destruct s.(data_sent) eqn:Ed; [done|]. destruct (Z.ltb_spec s.(next_offset) source_size); [|done].
  injection H as <- <-. destruct Ht as [Ht Hlen0].
  assert (s.(create_ready) = true) as Hready.
  { destruct s.(needs_create); [|auto]. cbn in Er. by destruct s.(create_ready). }
  split; unfold tiled; cbn; auto. exists sent. split; [done|]. split; [done|]. lia.
Qed.

Lemma lose_ok r :
  append_ok r →
  append_ok (Run.mk (reset_append_inflight r.(Run.state)) false r.(Run.from)
               (drop_unconfirmed r.(Run.state) r.(Run.sent))).
Proof.
  intros [Hn Ht Hf Hr Hc Hl]. split; cbn; try done. unfold tiled, drop_unconfirmed in *. cbn.
  destruct r.(Run.state).(data_sent); [|by destruct Ht].
  destruct Ht as (confirmed & -> & Ht & _). by rewrite removelast_last.
Qed.

Lemma move_ok r r' : append_ok r → move r r' → append_ok r'.
Proof.
  intros Hok Hm. destruct Hm as [r diff task_seq H Hd|s from sent line H|s from sent line o n H|r hb
    |r line H|r line H|r lost H|r].
  - split; unfold tiled; cbn; try done; [lia| |]; intros H1; [|intros H2]; by try destruct (bool_decide _).
  - destruct Hok as [Hn Ht Hf Hr Hc Hl]. unfold next_append in H. cbn in *.
    destruct s.(needs_create) eqn:En; cbn in H; [|by repeat case_match].
    split; unfold tiled; cbn; rewrite ?En; auto.
  - by apply send_data_ok.
  - unfold on_append_heartbeat. apply (data_ready_ok hb (Run.set_state _ r)). by apply create_ready_ok.
  - destruct Hok as [Hn Ht Hf Hr Hc Hl]. unfold tiled in *. destruct r. by split; unfold tiled; cbn.
  - destruct Hok as [Hn Ht Hf Hr Hc Hl]. unfold tiled in *. destruct r as [s planned from sent]. cbn in *.
    rewrite H in Ht. destruct Ht as (confirmed & -> & Ht & Hlen & Hend).
    split; unfold tiled; cbn; auto; destruct (Z.gtb_spec (s.(next_offset) + s.(current_data_len)) s.(next_offset));
      try lia. rewrite Z.add_simpl_l. by exists confirmed.
  - by apply lose_ok.
  - split; unfold tiled; cbn; try done. uint_lia.
Qed.

Lemma moves_ok r r' : append_ok r → rtc move r r' → append_ok r'.
Proof. intros Hok Hm. induction Hm; [done|]. by eauto using move_ok. Qed.

End runs.


(** A file of five bytes in chunks of three: the first is confirmed, the line
    of the second is lost, and the next plan resumes at three. *)
Definition sample_start (offset : Z) : T_SyncStart.t := T_SyncStart.mk 1 4 offset EM_StartAction.RESUME_EXISTING.
Definition sample_heartbeat (offset : Z) : T_Heartbeat.t := T_Heartbeat.mk 1 2 4 offset offset 0 [] [].
Definition sample_lost : T_LostSend.t := T_LostSend.mk 1 EM_SendKind.DATA 1 4 2 3 5 0 2.
Definition sample_second : t :=
  mark_append_data_sent 1 2
    (on_append_heartbeat (sample_heartbeat 3)
       (mark_append_data_sent 1 3 (start_append_plan (sample_start 0) 2 5 initial))).
Definition sample_again : t :=
  mark_append_data_sent 2 2 (start_append_plan (sample_start 3) 2 5 (reset_append_inflight sample_second)).

