(* ===== verification/SendBuffer.v ===== *)
(** * The sender's buffer: [include/sender/yisync_send_buffer.hpp], [src/sender/yisync_send_buffer.cpp]

    The messages sent and not confirmed, by key, and the queue of those to send
    again.  The [std::unordered_map] is a [gmap]; the order its iteration visits
    the entries in, which the standard leaves open, is a [MapIteration]. *)
From S2P Require Import Prelude Crc32c Filesystem Wire Protocol Sync Scheduler.
#[local] Open Scope Z_scope.

#[export] Instance send_kind_countable : Countable EM_SendKind.t.
Proof.
  refine (inj_countable'
    (λ k, match k with
          | EM_SendKind.CREATE => inl 1 | EM_SendKind.DATA => inl 2 | EM_SendKind.FILE_BEGIN => inl 3
          | EM_SendKind.CHUNK => inl 4 | EM_SendKind.FILE_COMMIT => inl 5
          | EM_SendKind.Unnamed v => inr v
          end)
    (λ c : Z + Z, match c with
          | inl 1 => EM_SendKind.CREATE | inl 2 => EM_SendKind.DATA | inl 3 => EM_SendKind.FILE_BEGIN
          | inl 4 => EM_SendKind.CHUNK | inl 5 => EM_SendKind.FILE_COMMIT
          | inl v | inr v => EM_SendKind.Unnamed v
          end) _).
  by intros [].
Defined.

Module T_SendBufferKey.
Record t := mk { kind : EM_SendKind.t; stream_id : Z; file_id : Z; seq : Z; offset : Z; chunk_index : Z }.
#[export] Instance eq_dec : EqDecision t.
Proof. solve_decision. Defined.
#[export] Instance countable : Countable t.
Proof.
  refine (inj_countable'
    (λ k, (k.(kind), k.(stream_id), k.(file_id), k.(seq), k.(offset), k.(chunk_index)))
    (λ '(a, b, c, d, e, f), mk a b c d e f) _).
  by intros [].
Defined.
End T_SendBufferKey.
Export (hints) T_SendBufferKey.

Module T_BufferedSend.
Record t := mk { message : T_Message; request : T_SendRequest.t; last_sent_tick : Z; nack_retries : Z }.
End T_BufferedSend.

Module T_AckedSendSample.
Record t := mk { key : T_SendBufferKey.t; request : T_SendRequest.t; rtt_ticks : Z }.
End T_AckedSendSample.

Module T_SenderSendBuffer.
Record t := mk {
  entries_ : gmap T_SendBufferKey.t T_BufferedSend.t; retransmit_queue_ : list T_SendBufferKey.t
}.
Definition initial : t := mk ∅ [].

Definition set_entries (entries : gmap T_SendBufferKey.t T_BufferedSend.t) (b : t) : t :=
  mk entries b.(retransmit_queue_).

Definition key_for_request (request : T_SendRequest.t) : T_SendBufferKey.t :=
  T_SendBufferKey.mk request.(T_SendRequest.kind) request.(T_SendRequest.stream_id)
    request.(T_SendRequest.file_id) request.(T_SendRequest.seq) request.(T_SendRequest.offset)
    request.(T_SendRequest.chunk_index).

Definition key_for_lost_send (lost : T_LostSend.t) : T_SendBufferKey.t :=
  T_SendBufferKey.mk lost.(T_LostSend.kind) lost.(T_LostSend.stream_id) lost.(T_LostSend.file_id)
    lost.(T_LostSend.seq) lost.(T_LostSend.offset) lost.(T_LostSend.chunk_index).

Definition clear (b : t) : t := mk ∅ [].

Definition remember (message : T_Message) (request : T_SendRequest.t) (sent_tick : Z) (b : t) : t :=
  set_entries
    (<[key_for_request request := T_BufferedSend.mk message request sent_tick 0]> b.(entries_)) b.

Definition sample_for (key : T_SendBufferKey.t) (send : T_BufferedSend.t) (current_tick : Z) : T_AckedSendSample.t :=
  T_AckedSendSample.mk key send.(T_BufferedSend.request)
    (if current_tick >=? send.(T_BufferedSend.last_sent_tick)
     then current_tick - send.(T_BufferedSend.last_sent_tick) else 0).

(** Does the heartbeat confirm the entry? *)
Definition acked_by (heartbeat : T_Heartbeat.t) (key : T_SendBufferKey.t) (send : T_BufferedSend.t) : bool :=
  let stream_id := heartbeat.(T_Heartbeat.stream_id) in
  let same_stream_file :=
    (key.(T_SendBufferKey.stream_id) =? stream_id) &&
    (key.(T_SendBufferKey.file_id) =? heartbeat.(T_Heartbeat.file_id)) in
  let acked :=
    (key.(T_SendBufferKey.stream_id) =? stream_id) &&
    (key.(T_SendBufferKey.seq) <? heartbeat.(T_Heartbeat.next_seq)) in
  if negb acked && same_stream_file && bool_decide (key.(T_SendBufferKey.kind) = EM_SendKind.DATA) then
    let end_offset := send.(T_BufferedSend.request).(T_SendRequest.end_offset) in
    negb (end_offset =? 0) &&
    ((heartbeat.(T_Heartbeat.offset) >=? end_offset) || (heartbeat.(T_Heartbeat.durable_offset) >=? end_offset))
  else acked.

Definition erase_one (key : T_SendBufferKey.t) (current_tick : Z) (b : t) : option T_AckedSendSample.t * t :=
  match b.(entries_) !! key with
  | None => (None, b)
  | Some send => (Some (sample_for key send current_tick), set_entries (delete key b.(entries_)) b)
  end.

Definition erase_file_begin (stream_id file_id seq current_tick : Z) (b : t) :=
  erase_one (T_SendBufferKey.mk EM_SendKind.FILE_BEGIN stream_id file_id seq 0 0) current_tick b.

Definition erase_chunk (chunk : T_ReceivedChunk.t) (stream_id current_tick : Z) (b : t) :=
  erase_one
    (T_SendBufferKey.mk EM_SendKind.CHUNK stream_id chunk.(T_ReceivedChunk.file_id)
       chunk.(T_ReceivedChunk.seq) 0 chunk.(T_ReceivedChunk.chunk_index)) current_tick b.

(** ** The entry a NACK is about *)
Section nack.
Context (b : t) (nack : T_Nack.t) (chunk_size : Z).

Definition find_key (kind : EM_SendKind.t) (seq offset chunk_index : Z) : option T_SendBufferKey.t :=
  let key := T_SendBufferKey.mk kind nack.(T_Nack.stream_id) nack.(T_Nack.file_id) seq offset chunk_index in
  match b.(entries_) !! key with Some _ => Some key | None => None end.

Definition find_ordered (seq : Z) : option T_SendBufferKey.t :=
  if seq =? 0 then None
  else or_else (find_key EM_SendKind.CREATE seq 0 0) (find_key EM_SendKind.DATA seq nack.(T_Nack.offset) 0).

Definition find_file_begin (seq : Z) : option T_SendBufferKey.t :=
  if seq =? 0 then None else find_key EM_SendKind.FILE_BEGIN seq 0 0.

Definition find_file_commit (seq : Z) : option T_SendBufferKey.t :=
  if seq =? 0 then None else find_key EM_SendKind.FILE_COMMIT seq 0 0.

Definition nack_chunk_index : Z := if chunk_size =? 0 then 0 else nack.(T_Nack.offset) / chunk_size.

Definition find_chunk (seq : Z) : option T_SendBufferKey.t :=
  if seq =? 0 then None else find_key EM_SendKind.CHUNK seq 0 nack_chunk_index.

(** The last resort, whatever the reason: the entries of [got_seq]. *)
Definition find_any : option T_SendBufferKey.t :=
  let got := nack.(T_Nack.got_seq) in
  or_else (find_key EM_SendKind.CREATE got 0 0)
    (or_else (find_key EM_SendKind.DATA got nack.(T_Nack.offset) 0)
      (or_else (find_key EM_SendKind.FILE_BEGIN got 0 0)
        (or_else (find_key EM_SendKind.FILE_COMMIT got 0 0)
          (if negb (got =? 0) then find_key EM_SendKind.CHUNK got 0 nack_chunk_index else None)))).

Definition key_for_nack : option T_SendBufferKey.t :=
  if nack.(T_Nack.file_id) =? 0 then None
  else
    let got := nack.(T_Nack.got_seq) in
    let expected := nack.(T_Nack.expected_seq) in
    let reason := nack.(T_Nack.reason) in
    or_else
      (if bool_decide (reason = EM_NackReason.BAD_SEQ)
       then or_else (find_ordered expected)
              (or_else (find_file_begin expected) (or_else (find_file_commit expected) (find_chunk expected)))
       else if bool_decide (reason = EM_NackReason.BAD_CHECKSUM) || bool_decide (reason = EM_NackReason.BAD_OFFSET)
       then or_else (find_chunk got) (find_ordered got)
       else if bool_decide (reason = EM_NackReason.BAD_CHUNK)
       then or_else (find_file_begin got) (find_chunk got)
       else if bool_decide (reason = EM_NackReason.BAD_COMMIT) then find_file_commit got
       else None)
      find_any.
End nack.

Definition enqueue_retransmit (key : T_SendBufferKey.t) (b : t) : bool * t :=
  match b.(entries_) !! key with
  | None => (false, b)
  | Some _ =>
      (true, mk b.(entries_)
               (if decide (key ∈ b.(retransmit_queue_)) then b.(retransmit_queue_)
                else b.(retransmit_queue_) ++ [key]))
  end.

Definition enqueue_nack_retransmit (nack : T_Nack.t) (chunk_size : Z) (b : t) : bool * t :=
  match key_for_nack b nack chunk_size with
  | None => (false, b)
  | Some key => enqueue_retransmit key b
  end.

Definition set_bytes (bytes : Z) (r : T_SendRequest.t) : T_SendRequest.t :=
  T_SendRequest.mk r.(T_SendRequest.stream_id) r.(T_SendRequest.file_id) r.(T_SendRequest.seq)
    r.(T_SendRequest.offset) r.(T_SendRequest.end_offset) bytes r.(T_SendRequest.split_allowed)
    r.(T_SendRequest.kind) r.(T_SendRequest.chunk_index).

Definition find (key : T_SendBufferKey.t) (b : t) : option T_BufferedSend.t := b.(entries_) !! key.

Definition mark_retransmitted (key : T_SendBufferKey.t) (bytes sent_tick : Z) (b : t) : bool * t :=
  match find key b with
  | None => (false, b)
  | Some send =>
      (true, set_entries
               (<[key := T_BufferedSend.mk send.(T_BufferedSend.message)
                    (set_bytes bytes send.(T_BufferedSend.request)) sent_tick
                    (u64 (send.(T_BufferedSend.nack_retries) + 1))]> b.(entries_)) b)
  end.

Definition erase_retransmit (index : Z) (b : t) : t :=
  if index >=? zlen b.(retransmit_queue_) then b
  else mk b.(entries_) (delete (Z.to_nat index) b.(retransmit_queue_)).

Definition size (b : t) : Z := Z.of_nat (base.size b.(entries_)).
Definition retransmit_queue_size (b : t) : Z := zlen b.(retransmit_queue_).

(** ** The operations that iterate *)
Section iteration.
Context `{!MapIteration T_SendBufferKey.t T_BufferedSend.t}.

Definition erase_completed (heartbeat : T_Heartbeat.t) (current_tick : Z) (b : t)
    : list T_AckedSendSample.t * t :=
  if heartbeat.(T_Heartbeat.next_seq) =? 0 then ([], b)
  else
    let acked := filter (λ '(key, send), acked_by heartbeat key send = true) (iteration b.(entries_)) in
    ((λ '(key, send), sample_for key send current_tick) <$> acked,
     set_entries (delete_keys acked b.(entries_)) b).

Definition expired (current_tick rto_ticks : Z) (send : T_BufferedSend.t) : bool :=
  negb (current_tick <? send.(T_BufferedSend.last_sent_tick)) &&
  negb (current_tick - send.(T_BufferedSend.last_sent_tick) <? rto_ticks).

Definition expired_keys (current_tick rto_ticks max_keys : Z) (b : t) : list T_SendBufferKey.t :=
  if (rto_ticks =? 0) || (max_keys =? 0) then []
  else
    take (Z.to_nat max_keys)
      (filter (λ '(_, send), expired current_tick rto_ticks send = true) (iteration b.(entries_))).*1.
End iteration.
End T_SenderSendBuffer.
Import T_SenderSendBuffer.

(** ** What a heartbeat releases *)

(** A message is confirmed when its sequence number has been passed, or, for
    DATA, when the offset it ends at has been reached. *)
Definition confirmed (hb : T_Heartbeat.t) (key : T_SendBufferKey.t) (send : T_BufferedSend.t) : Prop :=
  let end_offset := send.(T_BufferedSend.request).(T_SendRequest.end_offset) in
  key.(T_SendBufferKey.stream_id) = hb.(T_Heartbeat.stream_id) ∧
  (key.(T_SendBufferKey.seq) < hb.(T_Heartbeat.next_seq) ∨
   key.(T_SendBufferKey.file_id) = hb.(T_Heartbeat.file_id) ∧ key.(T_SendBufferKey.kind) = EM_SendKind.DATA ∧
   end_offset ≠ 0 ∧ (end_offset ≤ hb.(T_Heartbeat.offset) ∨ end_offset ≤ hb.(T_Heartbeat.durable_offset))).

Lemma acked_by_confirmed hb key send : acked_by hb key send = true ↔ confirmed hb key send.
Proof.
  unfold acked_by, confirmed.
  destruct (Z.eqb_spec key.(T_SendBufferKey.stream_id) hb.(T_Heartbeat.stream_id)); cbn [andb negb]; [|intuition done].
  destruct (Z.ltb_spec key.(T_SendBufferKey.seq) hb.(T_Heartbeat.next_seq)); cbn [andb negb]; [intuition|].
  destruct (Z.eqb_spec key.(T_SendBufferKey.file_id) hb.(T_Heartbeat.file_id)); cbn [andb]; [|intuition lia].
  case_bool_decide; [|intuition (lia || done)].
  rewrite andb_true_iff, negb_true_iff, orb_true_iff, Z.eqb_neq. intuition lia.
Qed.

#[export] Instance confirmed_dec hb key send : Decision (confirmed hb key send).
Proof.
  destruct (acked_by hb key send) eqn:E; [left|right].
  - by apply acked_by_confirmed.
  - rewrite <- acked_by_confirmed. congruence.
Defined.


Section release.
Context `{!MapIteration T_SendBufferKey.t T_BufferedSend.t}.

(** A heartbeat takes from the buffer exactly the messages it confirms,
    those of its stream with a sequence number it has passed and the DATA of
    its file that end at an offset it has reached, and returns a round-trip
    sample of each; every other entry and the queue stay. *)
Theorem erase_completed_exact (hb : T_Heartbeat.t) (tick : Z) (b : t) :
  hb.(T_Heartbeat.next_seq) ≠ 0 →
  let '(samples, b') := erase_completed hb tick b in
  (∀ key send, b'.(entries_) !! key = Some send ↔
     b.(entries_) !! key = Some send ∧ ¬ confirmed hb key send) ∧
  (∀ sample, sample ∈ samples ↔ ∃ key send, b.(entries_) !! key = Some send ∧ confirmed hb key send ∧
     sample = sample_for key send tick) ∧
  NoDup (T_AckedSendSample.key <$> samples) ∧
  b'.(retransmit_queue_) = b.(retransmit_queue_).
Proof.
  intros Hseq. unfold erase_completed. rewrite (proj2 (Z.eqb_neq _ _) Hseq).
  set (acked := filter _ (iteration b.(entries_))). cbn.
  assert (∀ key send, (key, send) ∈ acked ↔ b.(entries_) !! key = Some send ∧ confirmed hb key send) as Hel.
  { intros key send. unfold acked. rewrite list_elem_of_filter, elem_of_iteration, acked_by_confirmed. tauto. }
  split_and!; [| | |done].
  - intros key send. rewrite lookup_delete_keys. case_decide as Hin.
    + apply list_elem_of_fmap in Hin as ([key' send'] & Heq & Hin). cbn in Heq. subst key'.
      apply Hel in Hin as [Hl Hc]. rewrite Hl. split; [done|]. intros [[= ->] Hn]. done.
    + split; [|tauto]. intros Hl. split; [done|]. intros Hc. apply Hin, list_elem_of_fmap.
      exists (key, send). split; [done|]. by apply Hel.
  - intros sample. rewrite list_elem_of_fmap. split.
    + intros ([key send] & -> & [Hl Hc]%Hel). by exists key, send.
    + intros (key & send & Hl & Hc & ->). exists (key, send). split; [done|]. by apply Hel.
  - rewrite <- list_fmap_compose. assert (NoDup acked.*1) as Hnd.
    { apply NoDup_fmap_fst.
      - intros key x y [Hx _]%Hel [Hy _]%Hel. congruence.
      - apply NoDup_filter. rewrite iteration_perm. apply NoDup_map_to_list. }
    erewrite list_fmap_ext; [exact Hnd|]. by intros i [key send] _.
Qed.
End release.

(** ** Runs of the buffer *)
Module BufferRuns.
Section runs.
Context `{!MapIteration T_SendBufferKey.t T_BufferedSend.t}.

Inductive op :=
  | Clear
  | Remember (message : T_Message) (request : T_SendRequest.t) (tick : Z)
  | Heartbeat (hb : T_Heartbeat.t) (tick : Z)
  | BeginReady (stream_id file_id seq tick : Z)
  | ChunkReceived (chunk : T_ReceivedChunk.t) (stream_id tick : Z)
  | Retransmit (key : T_SendBufferKey.t)
  | Nacked (nack : T_Nack.t) (chunk_size : Z)
  | Retransmitted (key : T_SendBufferKey.t) (bytes tick : Z)
  | Popped (index : Z).

Definition step (b : t) (o : op) : t :=
  match o with
  | Clear => clear b
  | Remember message request tick => remember message request tick b
  | Heartbeat hb tick => (erase_completed hb tick b).2
  | BeginReady stream_id file_id seq tick => (erase_file_begin stream_id file_id seq tick b).2
  | ChunkReceived chunk stream_id tick => (erase_chunk chunk stream_id tick b).2
  | Retransmit key => (enqueue_retransmit key b).2
  | Nacked nack chunk_size => (enqueue_nack_retransmit nack chunk_size b).2
  | Retransmitted key bytes tick => (mark_retransmitted key bytes tick b).2
  | Popped index => erase_retransmit index b
  end.

(** The operation names the entry to be released. *)
Definition releases (o : op) (key : T_SendBufferKey.t) (send : T_BufferedSend.t) : Prop :=
  match o with
  | Clear => True
  | Heartbeat hb _ => hb.(T_Heartbeat.next_seq) ≠ 0 ∧ confirmed hb key send
  | BeginReady stream_id file_id seq _ => key = T_SendBufferKey.mk EM_SendKind.FILE_BEGIN stream_id file_id seq 0 0
  | ChunkReceived chunk stream_id _ =>
      key = T_SendBufferKey.mk EM_SendKind.CHUNK stream_id chunk.(T_ReceivedChunk.file_id)
              chunk.(T_ReceivedChunk.seq) 0 chunk.(T_ReceivedChunk.chunk_index)
  | _ => False
  end.

Definition replaces (o : op) (key : T_SendBufferKey.t) : Prop :=
  match o with Remember _ request _ => key_for_request request = key | _ => False end.

Record buffer_ok (b : t) : Prop := {
  ok_keys key send : b.(entries_) !! key = Some send → key_for_request send.(T_BufferedSend.request) = key;
  ok_queue : NoDup b.(retransmit_queue_)
}.

Lemma enqueue_ok key b : buffer_ok b → buffer_ok (enqueue_retransmit key b).2.
Proof.
  intros [Hk Hq]. unfold enqueue_retransmit. destruct (_ !! key); [|done]. split; [done|]. cbn.
  case_decide as Hin; [done|]. apply NoDup_app. split_and!; [done| |apply NoDup_singleton].
  intros k Hk' ->%list_elem_of_singleton. done.
Qed.

Lemma enqueue_same key b : (enqueue_retransmit key b).2.(entries_) = b.(entries_).
Proof. unfold enqueue_retransmit. by destruct (_ !! key). Qed.

Lemma erase_one_ok key tick b : buffer_ok b → buffer_ok (erase_one key tick b).2.
Proof.
  intros [Hk Hq]. unfold erase_one. destruct (_ !! key); [|done]. split; [|done]. cbn.
  intros k send [_ Hl]%lookup_delete_Some. by apply Hk.
Qed.

Lemma buffer_step_ok b o : buffer_ok b → buffer_ok (step b o).
Proof.
  intros Hok. pose proof Hok as [Hk Hq]. destruct o; cbn [step].
  - split; cbn; [|constructor]. intros key send H. by rewrite lookup_empty in H.
  - split; [|done]. cbn. intros key send. rewrite lookup_insert_Some. intros [[<- <-]|[_ Hl]]; [done|by apply Hk].
  - unfold erase_completed. destruct (_ =? 0); [done|]. split; [|done]. cbn. intros key send.
    rewrite lookup_delete_keys. case_decide; [done|apply Hk].
  - by apply erase_one_ok.
  - by apply erase_one_ok.
  - by apply enqueue_ok.
  - unfold enqueue_nack_retransmit. destruct (key_for_nack _ _ _); [by apply enqueue_ok|done].
  - unfold mark_retransmitted, find. destruct (_ !! key) as [send|] eqn:E; [|done]. split; [|done]. cbn.
    intros k x. rewrite lookup_insert_Some. intros [[<- <-]|[_ Hl]]; [|by apply Hk].
    by apply Hk in E.
  - unfold erase_retransmit. destruct (_ >=? _); [done|]. split; [done|]. cbn.
    eapply sublist_NoDup; [exact Hq|apply sublist_delete].
Qed.

Lemma erase_one_keeps key key' tick b :
  key ≠ key' → (erase_one key' tick b).2.(entries_) !! key = b.(entries_) !! key.
Proof. intros Hne. unfold erase_one. destruct (_ !! key'); [|done]. cbn. by rewrite lookup_delete_ne. Qed.

(** The message and the end offset of an entry. *)
Definition same_send (x y : T_BufferedSend.t) : Prop :=
  x.(T_BufferedSend.message) = y.(T_BufferedSend.message) ∧
  x.(T_BufferedSend.request).(T_SendRequest.end_offset) = y.(T_BufferedSend.request).(T_SendRequest.end_offset).

Lemma step_keeps b o key send :
  b.(entries_) !! key = Some send → ¬ releases o key send → ¬ replaces o key →
  ∃ send', (step b o).(entries_) !! key = Some send' ∧ same_send send send'.
Proof.
  intros Hl Hr Hrep. assert (b.(entries_) !! key = Some send ∧ same_send send send) as Hsame by done.
  destruct o; cbn [step releases replaces] in *.
  - tauto.
  - exists send. split; [|done]. cbn. by rewrite lookup_insert_ne.
  - unfold erase_completed. destruct (Z.eqb_spec hb.(T_Heartbeat.next_seq) 0); [by exists send|]. cbn.
    exists send. split; [|done]. rewrite lookup_delete_keys, decide_False; [done|]. intros Hin.
    apply list_elem_of_fmap in Hin as ([k x] & Heq & Hin). cbn in Heq. subst k.
    apply list_elem_of_filter in Hin as [Ha Hin%elem_of_iteration]. apply acked_by_confirmed in Ha.
    apply Hr. split; [done|]. congruence.
  - exists send. split; [|done]. unfold erase_file_begin. by rewrite erase_one_keeps.
  - exists send. split; [|done]. unfold erase_chunk. by rewrite erase_one_keeps.
  - exists send. by rewrite enqueue_same.
  - exists send. unfold enqueue_nack_retransmit. destruct (key_for_nack _ _ _); [by rewrite enqueue_same|done].
  - unfold mark_retransmitted, find. destruct (b.(entries_) !! key0) as [x|] eqn:E; [|by exists send]. cbn.
    destruct (decide (key0 = key)) as [->|Hne].
    + rewrite lookup_insert_eq. eexists. split; [done|]. rewrite Hl in E. by injection E as <-.
    + rewrite lookup_insert_ne by done. by exists send.
  - exists send. unfold erase_retransmit. by destruct (_ >=? _).
Qed.

(** C25: Through any run of the sender's buffer every entry is filed under the
    key of its request and the queue names no key twice, and a message
    remembered stays, unchanged, until an operation of the run confirms it,
    replaces it or clears the buffer. *)
Theorem unconfirmed_kept (ops ops' : list op) (key : T_SendBufferKey.t) (send : T_BufferedSend.t) :
  let b := foldl step initial ops in
  let b' := foldl step b ops' in
  buffer_ok b' ∧
  (b.(entries_) !! key = Some send →
   Forall (λ o, ¬ replaces o key ∧ ∀ send', same_send send send' → ¬ releases o key send') ops' →
   ∃ send', b'.(entries_) !! key = Some send' ∧ send'.(T_BufferedSend.message) = send.(T_BufferedSend.message)).
Proof.
  intros b b'. assert (∀ ops b, buffer_ok b → buffer_ok (foldl step b ops)) as Hrun.
  { clear. intros ops. induction ops as [|o ops IH]; intros b Hok; [done|]. by apply IH, buffer_step_ok. }
  assert (buffer_ok b) as Hok.
  { apply Hrun. split; cbn; [|constructor]. intros k x Hx. by rewrite lookup_empty in Hx. }
  split; [by apply Hrun|]. intros Hl Hops. subst b'.
  assert (∃ send1, b.(entries_) !! key = Some send1 ∧ same_send send send1) as Hs by (by exists send).
  clear Hl. clearbody b. clear Hok. revert b Hs. induction Hops as [|o ops' [Hrep Hrel] _ IH]; intros b (x & Hl & Hx).
  - exists x. split; [done|]. symmetry. apply Hx.
  - apply IH. destruct (step_keeps b o key x Hl (Hrel x Hx) Hrep) as (y & Hy & Hs). exists y. split; [done|].
    destruct Hx, Hs. split; congruence.
Qed.
End runs.
End BufferRuns.

(** ** What a NACK sends again *)
Section nacks.
Context (b : t) (nack : T_Nack.t) (chunk_size : Z).

Lemma find_key_some kind seq offset chunk_index key :
  find_key b nack kind seq offset chunk_index = Some key →
  key = T_SendBufferKey.mk kind nack.(T_Nack.stream_id) nack.(T_Nack.file_id) seq offset chunk_index ∧
  is_Some (b.(entries_) !! key).
Proof. unfold find_key. destruct (_ !! _) eqn:E; [|done]. intros [= <-]. by rewrite E. Qed.

Lemma find_key_none kind seq offset chunk_index :
  find_key b nack kind seq offset chunk_index = None →
  b.(entries_) !! T_SendBufferKey.mk kind nack.(T_Nack.stream_id) nack.(T_Nack.file_id) seq offset chunk_index = None.
Proof. unfold find_key. by destruct (_ !! _). Qed.

(** What the entry a NACK names has in common with it. *)
Definition about (key : T_SendBufferKey.t) : Prop :=
  is_Some (b.(entries_) !! key) ∧ key.(T_SendBufferKey.stream_id) = nack.(T_Nack.stream_id) ∧
  key.(T_SendBufferKey.file_id) = nack.(T_Nack.file_id) ∧
  (key.(T_SendBufferKey.seq) = nack.(T_Nack.got_seq) ∨
   nack.(T_Nack.reason) = EM_NackReason.BAD_SEQ ∧ key.(T_SendBufferKey.seq) = nack.(T_Nack.expected_seq)) ∧
  match key.(T_SendBufferKey.kind) with
  | EM_SendKind.DATA => key.(T_SendBufferKey.offset) = nack.(T_Nack.offset)
  | EM_SendKind.CHUNK => key.(T_SendBufferKey.chunk_index) = nack_chunk_index nack chunk_size
  | _ => key.(T_SendBufferKey.offset) = 0
  end.

(** Split a search into its alternatives. *)
Local Ltac searches :=
  repeat match goal with
  | H : or_else _ _ = Some _ |- _ => apply or_else_some in H as [H|[? H]]
  | H : (if ?c then _ else _) = Some _ |- _ => destruct c eqn:?; [try discriminate H|try discriminate H]
  end.

(** The message a NACK has sent again is one in the buffer, of the
    stream and file of the NACK and of the sequence number it answers (or, for
    a message that came too early, of the one the receiver expects), with the
    offset or chunk the NACK names; and there is none only when the buffer
    holds no message of that file the NACK can be about. *)
Theorem key_for_nack_correct :
  nack.(T_Nack.file_id) ≠ 0 →
  match key_for_nack b nack chunk_size with
  | Some key => about key
  | None => ∀ kind,
      kind ∈ [EM_SendKind.CREATE; EM_SendKind.FILE_BEGIN; EM_SendKind.FILE_COMMIT; EM_SendKind.DATA] ∨
        kind = EM_SendKind.CHUNK ∧ nack.(T_Nack.got_seq) ≠ 0 →
      b.(entries_) !!
        T_SendBufferKey.mk kind nack.(T_Nack.stream_id) nack.(T_Nack.file_id) nack.(T_Nack.got_seq)
          (if decide (kind = EM_SendKind.DATA) then nack.(T_Nack.offset) else 0)
          (if decide (kind = EM_SendKind.CHUNK) then nack_chunk_index nack chunk_size else 0) = None
  end.
Proof.
  intros Hf. unfold key_for_nack. rewrite (proj2 (Z.eqb_neq _ _) Hf).
  destruct (or_else _ _) as [key|] eqn:E.
  - unfold find_ordered, find_file_begin, find_file_commit, find_chunk, find_any in E.
    searches; apply find_key_some in E as [-> Hs]; unfold about; cbn; split_and!; try done.
    all: first [by left|right; split; [|done]; by eapply bool_decide_eq_true_1].
  - apply or_else_none in E as [_ E]. unfold find_any in E.
    repeat match goal with H : or_else _ _ = None |- _ => apply or_else_none in H as [?%find_key_none H] end.
    intros kind [Hk|[-> Hg]].
    + rewrite !elem_of_cons, elem_of_nil in Hk. by destruct Hk as [->|[->|[->|[->|[]]]]].
    + rewrite (proj2 (Z.eqb_neq _ _) Hg) in E. by apply find_key_none in E.
Qed.
End nacks.

(** ** Examples: a DATA of seven bytes and a later CHUNK *)
Definition sample_message : T_Message :=
  M_Data (T_Data.mk 1 2 2 4 7 3 EM_Compression.NONE EM_ChecksumAlgo.CRC32C [] [x05; x06; x07]).
Definition sample_request (kind : EM_SendKind.t) (seq chunk_index end_offset : Z) : T_SendRequest.t :=
  T_SendRequest.mk 1 2 seq 0 end_offset 100 false kind chunk_index.
Definition sample_buffer : t :=
  remember sample_message (sample_request EM_SendKind.CHUNK 3 1 0) 5
    (remember sample_message (sample_request EM_SendKind.DATA 2 0 7) 4 initial).
Definition sample_ack : T_Heartbeat.t := T_Heartbeat.mk 1 2 2 7 7 0 [] [].
Definition sample_nack : T_Nack.t := T_Nack.mk 1 3 3 2 4 2 4 EM_NackReason.BAD_CHECKSUM "".
#[local] Existing Instance some_order.

Lemma erase_completed_exact_witness :
  (erase_completed sample_ack 9 sample_buffer).2.(entries_)
    !! key_for_request (sample_request EM_SendKind.DATA 2 0 7) = None.
Proof.
  pose proof (erase_completed_exact sample_ack 9 sample_buffer ltac:(vm_compute; discriminate)) as Hx.
  destruct (erase_completed sample_ack 9 sample_buffer) as [samples b']. cbn [snd].
  destruct (b'.(entries_) !! _) as [send|] eqn:E; [|reflexivity].
  destruct (proj1 (proj1 Hx _ send) E) as [Hs Hno]. exfalso. apply Hno.
  vm_compute in Hs. injection Hs as <-. split; [reflexivity|]. right. vm_compute. intuition discriminate.
Defined.

Lemma unconfirmed_kept_witness :
  ∃ send', (foldl BufferRuns.step
              (foldl BufferRuns.step initial [BufferRuns.Remember sample_message (sample_request EM_SendKind.CHUNK 3 1 0) 5])
              [BufferRuns.Nacked sample_nack 4; BufferRuns.Heartbeat sample_ack 9; BufferRuns.Popped 0]).(entries_)
             !! key_for_request (sample_request EM_SendKind.CHUNK 3 1 0) = Some send' ∧
    send'.(T_BufferedSend.message) = sample_message.
Proof.
  apply (BufferRuns.unconfirmed_kept
           [BufferRuns.Remember sample_message (sample_request EM_SendKind.CHUNK 3 1 0) 5]
           [BufferRuns.Nacked sample_nack 4; BufferRuns.Heartbeat sample_ack 9; BufferRuns.Popped 0]
           (key_for_request (sample_request EM_SendKind.CHUNK 3 1 0))
           (T_BufferedSend.mk sample_message (sample_request EM_SendKind.CHUNK 3 1 0) 5 0)).
  - vm_compute. reflexivity.
  - repeat (apply Forall_cons_2; [split; [intros []|]|]); [intros send' _ []| |intros send' _ []|apply Forall_nil_2].
    intros send' _ [_ [_ [Hseq|[_ [Hk _]]]]]; [vm_compute in Hseq|]; discriminate.
Defined.

Lemma key_for_nack_correct_witness :
  key_for_nack sample_buffer sample_nack 4 = Some (T_SendBufferKey.mk EM_SendKind.CHUNK 1 2 3 0 1) ∧
  about sample_buffer sample_nack 4 (T_SendBufferKey.mk EM_SendKind.CHUNK 1 2 3 0 1).
Proof.
  assert (key_for_nack sample_buffer sample_nack 4 = Some (T_SendBufferKey.mk EM_SendKind.CHUNK 1 2 3 0 1)) as E
    by (vm_compute; reflexivity).
  split; [exact E|].
  pose proof (key_for_nack_correct sample_buffer sample_nack 4 ltac:(vm_compute; discriminate)) as H.
  rewrite E in H. exact H.
Defined.
