(* ===== verification/Source.v ===== *)
(** * The source of a stream: [include/sender/yisync_source.hpp], [src/sender/yisync_source.cpp]

    The sender's side of the file system: the entries of a stream's directory,
    reads of a range of one file, the checksum of a whole file, and the watcher
    that compares two snapshots of the directory.  [T_ISourceReader] is a class
    with the two readers of the source as instances. *)
From S2P Require Import Prelude Crc32c Filesystem Wire Protocol Sync.
#[local] Open Scope Z_scope.

Module T_SourceFile.
Record t := mk { file_id : Z; path : Filesystem.path; manifest : T_ManifestEntry.t }.
End T_SourceFile.

(** [read_range]: bytes of a file, or an exception. *)
Class T_ISourceReader (R : Type) := read_range : R → Z → Z → Z → M fsys Bytes.

(** A range that is not inside [size] bytes; the sum wraps at 2^64. *)
Definition outside (offset len size : Z) : bool :=
  (offset >? size) || (len >? size) || (u64 (offset + len) >? size).

Module T_SimulatedSourceReader.
Record t := mk { data_ : Bytes }.
Definition data (r : t) : Bytes := r.(data_).
#[export] Instance reader : T_ISourceReader t := λ r _ offset len,
  if outside offset len (zlen r.(data_))
  then throw "simulated source read range is outside data"
  else mret (slice r.(data_) offset len).
End T_SimulatedSourceReader.

(** [is_regular_file(p)]: a missing file is not an error. *)
Definition is_regular_file (p : path) : IO bool :=
  syscall (λ t, match status t p with
                | Ok (File _) => Ok (true, t)
                | Ok _ | Err (ENOENT | ENOTDIR) => Ok (false, t)
                | Err e => Err e
                end).

(** A stream that does not open throws [what], whatever the reason. *)
Definition or_fail {A} (what : string) (io : IO A) : M fsys A := λ w,
  match io w with
  | (Ok a, w) => (Ret a, w)
  | (Err _, w) => (Throw what, w)
  end.

Module T_SourceDirectory.
Record t := mk { stream_id_ : Z; root_ : path; checksum_range_len_ : Z; entry_name_regex_ : string }.

Section operations.
Context {CRC : Crc32c} (regex_extended : string → exc (string → bool)).

Definition scan_manifest (d : t) : M fsys T_Manifest1Stream.t :=
  scan_manifest_stream regex_extended d.(stream_id_) d.(root_) d.(checksum_range_len_) [] d.(entry_name_regex_).

(** [root_ / entry.name]: an absolute name replaces the root. *)
Definition path_of (d : t) (name : string) : path :=
  if is_absolute name then path_parts name else d.(root_) ++ path_parts name.

Definition source_file (d : t) (entry : T_ManifestEntry.t) : T_SourceFile.t :=
  T_SourceFile.mk entry.(T_ManifestEntry.file_id) (path_of d entry.(T_ManifestEntry.name)) entry.

Definition files (d : t) : M fsys (list T_SourceFile.t) :=
  manifest ← scan_manifest d;
  mret (source_file d <$> manifest.(T_Manifest1Stream.entries)).

Definition file (d : t) (file_id : Z) : M fsys T_SourceFile.t :=
  manifest ← scan_manifest d;
  match list_find (λ e, e.(T_ManifestEntry.file_id) = file_id) manifest.(T_Manifest1Stream.entries) with
  | None => throw ("source manifest entry does not exist for file_id: " ++ to_string file_id)
  | Some (_, entry) =>
      if negb (bool_decide (entry.(T_ManifestEntry.kind) = EM_EntryKind.REGULAR_FILE))
      then throw ("source manifest entry is not a regular file: " ++ entry.(T_ManifestEntry.name))
      else
        let path := path_of d entry.(T_ManifestEntry.name) in
        regular ← or_throw "status: " (is_regular_file path);
        if negb regular then throw ("source file does not exist: " ++ generic_string path)
        else mret (source_file d entry)
  end.

(** [seekg], then one [read]: it yields what the file holds of the range. *)
Definition read_at (data : Bytes) (offset len : Z) : Bytes :=
  if seekable offset then slice data offset len else [].

#[export] Instance reader : T_ISourceReader t := λ d file_id offset len,
  source_file ← file d file_id;
  if outside offset len source_file.(T_SourceFile.manifest).(T_ManifestEntry.size)
  then throw "source read range is outside file"
  else
    data ← or_fail ("failed to open source file: " ++ generic_string source_file.(T_SourceFile.path))
             (read_file source_file.(T_SourceFile.path));
    if (len >? 0) && negb (zlen (read_at data offset len) =? len)
    then throw ("failed to read source file range: " ++ generic_string source_file.(T_SourceFile.path))
    else mret (read_at data offset len).

(** The reading loop of [full_checksum]: whole buffers until one is short. *)
Fixpoint checksum_loop (fuel : nat) (rest : Bytes) (crc : Z) : Z :=
  match fuel with
  | O => crc
  | S fuel =>
      let buffer := take (Z.to_nat kChecksumBufferBytes) rest in
      let crc := if zlen buffer >? 0 then Extend crc buffer else crc in
      if zlen buffer <? kChecksumBufferBytes then crc
      else checksum_loop fuel (drop (Z.to_nat kChecksumBufferBytes) rest) crc
  end.

Definition full_checksum (source_file : T_SourceFile.t) : M fsys T_FileChecksum.t :=
  let size := source_file.(T_SourceFile.manifest).(T_ManifestEntry.size) in
  let algo := if size =? 0 then EM_ChecksumAlgo.NONE else EM_ChecksumAlgo.CRC32C in
  if size >? 0 then
    data ← or_fail ("failed to open source file for full checksum: " ++
                     generic_string source_file.(T_SourceFile.path))
             (read_file source_file.(T_SourceFile.path));
    mret (T_FileChecksum.mk algo 0 size
            (crc32c_value_bytes (checksum_loop (S (length data)) data 0)))
  else mret (T_FileChecksum.mk algo 0 size []).

Definition full_checksum_of (d : t) (file_id : Z) : M fsys T_FileChecksum.t :=
  source_file ← file d file_id;
  full_checksum source_file.
End operations.
End T_SourceDirectory.

(** ** The polling watcher *)
Module EM_WatchEventKind.
Inductive t := CREATED | APPENDED | MODIFIED | REMOVED | WATCH_OVERFLOW.
End EM_WatchEventKind.

Module T_WatchEvent.
Record t := mk { kind : EM_WatchEventKind.t; path : Filesystem.path }.
End T_WatchEvent.

Module T_WatchSnapshot.
Record t := mk { size : Z; mtime : Z }.
End T_WatchSnapshot.

Module PollingSourceWatcher.
(** [snapshot_], without the root; [next] is what a new [scan] finds. *)
Record t := mk { snapshot_ : gmap path T_WatchSnapshot.t }.

Definition event_of (previous : option T_WatchSnapshot.t) (current : T_WatchSnapshot.t)
    : option EM_WatchEventKind.t :=
  match previous with
  | None => Some EM_WatchEventKind.CREATED
  | Some previous =>
      if current.(T_WatchSnapshot.size) >? previous.(T_WatchSnapshot.size)
      then Some EM_WatchEventKind.APPENDED
      else if negb (current.(T_WatchSnapshot.size) =? previous.(T_WatchSnapshot.size)) ||
              negb (current.(T_WatchSnapshot.mtime) =? previous.(T_WatchSnapshot.mtime))
      then Some EM_WatchEventKind.MODIFIED
      else None
  end.

Definition poll `{!MapIteration path T_WatchSnapshot.t} (next : gmap path T_WatchSnapshot.t) (w : t)
    : list T_WatchEvent.t * t :=
  let changed := omap (λ '(path, current),
      (λ kind, T_WatchEvent.mk kind path) <$> event_of (w.(snapshot_) !! path) current) (iteration next) in
  let removed := omap (λ '(path, _),
      match next !! path with
      | None => Some (T_WatchEvent.mk EM_WatchEventKind.REMOVED path)
      | Some _ => None
      end) (iteration w.(snapshot_)) in
  (changed ++ removed, mk next).
End PollingSourceWatcher.

(** ** The readers *)
Module SourceFacts.
Section facts.
Context {CRC : Crc32c} (regex_extended : string → exc (string → bool)).
Import T_SourceDirectory.

Lemma or_fail_inv {A} what (io : IO A) w a w' : or_fail what io w = (Ret a, w') → io w = (Ok a, w').
Proof. unfold or_fail. destruct (io w) as [[] ?]; by intros [= <- <-]. Qed.

Lemma read_file_inv p w data w' : read_file p w = (Ok data, w') → status w.(nodes) p = Ok (File data) ∧ w'.(nodes) = w.(nodes).
Proof. intros (n & Hf & Hn)%syscall_Ok. destruct (status _ p) as [[]|]; by simplify_eq. Qed.

Lemma read_only_is_regular what p : read_only (or_throw what (is_regular_file p)).
Proof. apply read_only_or_throw. intros w. apply syscall_quiet. intros t a n. by repeat case_match; intros; simplify_eq. Qed.

Lemma read_only_file d file_id : read_only (file regex_extended d file_id).
Proof.
  apply read_only_bind; [apply read_only_scan|]. intros m. destruct (list_find _ _) as [[i e]|]; [|apply read_only_throw].
  destruct (negb _); [apply read_only_throw|]. apply read_only_bind; [apply read_only_is_regular|].
  intros []; [apply read_only_ret|apply read_only_throw].
Qed.

Lemma not_outside offset len size :
  0 ≤ offset → 0 ≤ len → size < 9223372036854775808 → outside offset len size = false → offset + len ≤ size.
Proof. unfold outside. rewrite !orb_false_iff, !Z.gtb_ltb, !Z.ltb_ge. uint_lia. Qed.

(** The checksum of a whole file, read a buffer at a time. *)
Lemma checksum_loop_spec fuel rest crc :
  (length rest < fuel)%nat → in_u32 crc → checksum_loop fuel rest crc = Extend crc rest.
Proof.
  revert rest crc. induction fuel as [|fuel IH]; intros rest crc Hf Hc; [lia|]. cbn [checksum_loop].
  assert (0 < kChecksumBufferBytes) as Hk by (vm_compute; reflexivity).
  generalize dependent kChecksumBufferBytes. intros k Hk.
  assert ((if zlen (take (Z.to_nat k) rest) >? 0 then Extend crc (take (Z.to_nat k) rest) else crc) =
          Extend crc (take (Z.to_nat k) rest)) as ->.
  { destruct (Z.gtb_spec (zlen (take (Z.to_nat k) rest)) 0) as [|Hz]; [done|].
    assert (take (Z.to_nat k) rest = []) as -> by (apply length_zero_iff_nil; unfold zlen in Hz; lia).
    by rewrite Extend_nil. }
  destruct (Z.ltb_spec (zlen (take (Z.to_nat k) rest)) k) as [Hs|Hl].
  - f_equal. apply take_ge. unfold zlen in Hs. rewrite length_take in Hs. lia.
  - unfold zlen in Hl. rewrite length_take in Hl. rewrite IH; [|rewrite length_drop; lia|by apply Extend_range].
    rewrite <- Extend_app by done. by rewrite take_drop.
Qed.

Lemma full_checksum_spec source_file w data :
  file_at w source_file.(T_SourceFile.path) data →
  source_file.(T_SourceFile.manifest).(T_ManifestEntry.size) = zlen data →
  full_checksum source_file w =
  (Ret (if zlen data =? 0 then empty_checksum
        else T_FileChecksum.mk EM_ChecksumAlgo.CRC32C 0 (zlen data) (crc32c_bytes data)), w).
Proof.
  intros Hw Hs. unfold full_checksum. rewrite Hs. pose proof (zlen_nonneg data).
  destruct (Z.gtb_spec (zlen data) 0), (Z.eqb_spec (zlen data) 0) as [Hz|Hz]; try lia.
  - unfold mbind, M_bind, or_fail. rewrite (read_file_at w _ data Hw).
    by rewrite checksum_loop_spec by (lia || done).
  - by rewrite Hz.
Qed.
End facts.

(** The snapshots at the two ends of a poll differ at the path in a way that
    makes an event of the kind. *)
Definition differs (old new : gmap path T_WatchSnapshot.t) (kind : EM_WatchEventKind.t) (p : path) : Prop :=
  match old !! p, new !! p with
  | None, Some _ => kind = EM_WatchEventKind.CREATED
  | Some o, Some n =>
      o.(T_WatchSnapshot.size) < n.(T_WatchSnapshot.size) ∧ kind = EM_WatchEventKind.APPENDED ∨
      (n.(T_WatchSnapshot.size) < o.(T_WatchSnapshot.size) ∨
       n.(T_WatchSnapshot.size) = o.(T_WatchSnapshot.size) ∧ n.(T_WatchSnapshot.mtime) ≠ o.(T_WatchSnapshot.mtime)) ∧
      kind = EM_WatchEventKind.MODIFIED
  | Some _, None => kind = EM_WatchEventKind.REMOVED
  | None, None => False
  end.

Lemma event_of_spec o n kind :
  PollingSourceWatcher.event_of o n = Some kind ↔
  match o with
  | None => kind = EM_WatchEventKind.CREATED
  | Some o =>
      o.(T_WatchSnapshot.size) < n.(T_WatchSnapshot.size) ∧ kind = EM_WatchEventKind.APPENDED ∨
      (n.(T_WatchSnapshot.size) < o.(T_WatchSnapshot.size) ∨
       n.(T_WatchSnapshot.size) = o.(T_WatchSnapshot.size) ∧ n.(T_WatchSnapshot.mtime) ≠ o.(T_WatchSnapshot.mtime)) ∧
      kind = EM_WatchEventKind.MODIFIED
  end.
Proof.
  destruct o as [o|]; cbn; [|split; [by intros [= <-]|by intros ->]].
  destruct (Z.gtb_spec n.(T_WatchSnapshot.size) o.(T_WatchSnapshot.size)).
  { split; [intros [= <-]; by left|]. intros [[_ ->]|[[?|[? _]] _]]; [done|lia|lia]. }
  destruct (Z.eqb_spec n.(T_WatchSnapshot.size) o.(T_WatchSnapshot.size)); cbn [negb orb].
  - destruct (Z.eqb_spec n.(T_WatchSnapshot.mtime) o.(T_WatchSnapshot.mtime)); cbn [negb].
    + split; [done|]. intros [[? _]|[[?|[_ ?]] _]]; lia || done.
    + split; [intros [= <-]; auto|]. intros [[? _]|[_ ->]]; [lia|done].
  - split; [intros [= <-]; right; split; [left; lia|done]|]. intros [[? _]|[_ ->]]; [lia|done].
Qed.
End SourceFacts.
Import SourceFacts.

(** A range the sender reads from its directory is exactly those bytes
    of the regular file the manifest names for the id: [read_range] returns
    only when the range is inside the size scanned and the file still holds all
    of it, and it changes nothing on disk. *)
Theorem read_range_exact {CRC : Crc32c} (regex_extended : string → exc (string → bool))
    (d : T_SourceDirectory.t) (file_id offset len : Z) (w w' : fsys) (bytes : Bytes) :
  in_u64 offset → in_u64 len →
  @read_range _ (T_SourceDirectory.reader regex_extended) d file_id offset len w = (Ret bytes, w') →
  ∃ source_file w1 data,
    T_SourceDirectory.file regex_extended d file_id w = (Ret source_file, w1) ∧
    outside offset len source_file.(T_SourceFile.manifest).(T_ManifestEntry.size) = false ∧
    status w.(nodes) source_file.(T_SourceFile.path) = Ok (File data) ∧
    bytes = slice data offset len ∧ zlen bytes = len ∧ w'.(nodes) = w.(nodes).
Proof.
  intros Ho Hl H. unfold read_range, T_SourceDirectory.reader in H. inv_bind. rename a into source_file, s into w1.
  destruct (read_only_run _ _ _ _ (read_only_file regex_extended d file_id) E) as [Hw1 _].
  destruct (outside _ _ _) eqn:Hout; [done|]. inv_bind. rename a into data, s into w2.
  apply or_fail_inv, read_file_inv in E0 as [Hst Hw2]. rewrite Hw1 in Hst, Hw2.
  exists source_file, w1, data. destruct (Z.gtb_spec len 0) as [Hpos|Hz]; cbn [andb] in H.
  - destruct (Z.eqb_spec (zlen (T_SourceDirectory.read_at data offset len)) len) as [Hlen|]; [|done].
    injection H as <- <-. split_and!; try done. unfold T_SourceDirectory.read_at in *.
    destruct (seekable offset); [done|]. change (0 = len) in Hlen. lia.
  - injection H as <- <-. assert (len = 0) as -> by uint_lia. unfold T_SourceDirectory.read_at.
    assert (∀ o, slice data o 0 = []) as Hnil by done. split_and!; try done; by destruct (seekable offset).
Qed.

(** A poll reports an event for exactly the paths that differ from the
    snapshot before, of the kind of the difference: created, grown, otherwise
    changed, or gone; and the new snapshot replaces the old. *)
Theorem poll_events_exact `{!MapIteration path T_WatchSnapshot.t} (w : PollingSourceWatcher.t)
    (next : gmap path T_WatchSnapshot.t) :
  let '(events, w') := PollingSourceWatcher.poll next w in
  (∀ kind p, T_WatchEvent.mk kind p ∈ events ↔ differs w.(PollingSourceWatcher.snapshot_) next kind p) ∧
  w'.(PollingSourceWatcher.snapshot_) = next.
Proof.
  destruct w as [old]. cbn. split; [|done]. intros kind p. rewrite elem_of_app, !list_elem_of_omap. unfold differs. split.
  - intros [([q n] & Hin%elem_of_iteration & Hev)|([q o] & Hin%elem_of_iteration & Hev)].
    + apply fmap_Some in Hev as (k & Hev & [= -> ->]). rewrite Hin. apply event_of_spec in Hev. by destruct (old !! q).
    + destruct (next !! q) eqn:En; [done|]. injection Hev as <- <-. by rewrite Hin, En.
  - destruct (old !! p) as [o|] eqn:Eo, (next !! p) as [n|] eqn:En; intros Hd; [| | |done].
    + left. exists (p, n). split; [by apply elem_of_iteration|]. apply fmap_Some. exists kind. split; [|done].
      apply event_of_spec. by rewrite Eo.
    + right. exists (p, o). split; [by apply elem_of_iteration|]. by rewrite En, Hd.
    + left. exists (p, n). split; [by apply elem_of_iteration|]. apply fmap_Some. exists kind. split; [|done].
      apply event_of_spec. by rewrite Eo.
Qed.

(** ** Examples *)
Definition sample_directory : T_SourceDirectory.t := T_SourceDirectory.mk 1 ["s"] 4 "".

Lemma read_range_exact_witness :
  ∃ data, status sample_fsys.(nodes) ["s"; "1.file"] = Ok (File data) ∧ [x02; x03] = slice data 1 2.
Proof.
  assert (@read_range _ (T_SourceDirectory.reader (λ _, Throw "")) sample_directory 1 1 2 sample_fsys =
          (Ret [x02; x03], sample_fsys)) as H by (vm_compute; reflexivity).
  destruct (read_range_exact (λ _, Throw "") sample_directory 1 1 2 sample_fsys sample_fsys [x02; x03]
    ltac:(vm_compute; intuition discriminate) ltac:(vm_compute; intuition discriminate) H)
    as (f & w1 & data & Hf & _ & Hst & Hb & _).
  assert (f.(T_SourceFile.path) = ["s"; "1.file"]) as Hp.
  { apply (f_equal (λ r, match fst r with Ret f => f.(T_SourceFile.path) | Throw _ => [] end)) in Hf.
    cbn [fst] in Hf. rewrite <- Hf. vm_compute. reflexivity. }
  rewrite Hp in Hst. exists data. split; [exact Hst|exact Hb].
Defined.
