(* ===== verification/SenderPlan.v ===== *)
(** * Planning the transfer: [include/sender/yisync_sender_plan.hpp], [src/sender/yisync_sender_plan.cpp]

    The sending tasks of a stream's files, how the receiver's answer to the
    manifest picks the task to start with, and the reads a task makes. *)
From S2P Require Import Prelude Crc32c Filesystem Wire Protocol Sync Scheduler Source ChunkResend AppendState.
#[local] Open Scope Z_scope.

(** [std::shared_ptr<const T_ISourceReader>]: one of the two readers, or null. *)
Inductive source_reader :=
  | Simulated (r : T_SimulatedSourceReader.t)
  | Directory (d : T_SourceDirectory.t).

Module T_FileSendTask.
Record t := mk {
  stream_id : Z; seq : Z; file_id : Z; kind : EM_EntryKind.t; name : string; link_target : string;
  source_size : Z; source_checksum : T_FileChecksum.t; range_checksum : T_FileChecksum.t;
  reader : option source_reader; chunk_mode : bool; preferred_chunk_mode : bool; chunk_count : Z;
  chunk_resend : T_ChunkResendState.t; begin_sent : bool; begin_ready : bool; commit_sent : bool;
  begin_line_id : Z; commit_line_id : Z; append : T_AppendSendState.t
}.

(** A new task, before [initialize_file_task]. *)
Definition create (stream_id seq file_id : Z) (kind : EM_EntryKind.t) (name link_target : string)
    (source_size : Z) (source_checksum range_checksum : T_FileChecksum.t) (reader : option source_reader) : t :=
  mk stream_id seq file_id kind name link_target source_size source_checksum range_checksum reader
    false false 0 T_ChunkResendState.initial false false false 0 0 T_AppendSendState.initial.

Definition set_modes (chunk_mode preferred : bool) (chunk_count : Z) (resend : T_ChunkResendState.t) (k : t) : t :=
  mk k.(stream_id) k.(seq) k.(file_id) k.(kind) k.(name) k.(link_target) k.(source_size)
    k.(source_checksum) k.(range_checksum) k.(reader) chunk_mode preferred chunk_count resend
    k.(begin_sent) k.(begin_ready) k.(commit_sent) k.(begin_line_id) k.(commit_line_id) k.(append).

Definition set_chunk_mode (b : bool) (k : t) : t :=
  set_modes b k.(preferred_chunk_mode) k.(chunk_count) k.(chunk_resend) k.
End T_FileSendTask.

Module T_StreamSendState.
Record t := mk {
  stream_id : Z; root : path; entry_name_regex : string; source_directory : option T_SourceDirectory.t;
  source_manifest : T_Manifest1Stream.t; tasks : list T_FileSendTask.t; current_task : Z;
  manifest_applied : bool; complete : bool; has_pending_changes : bool
}.

Definition set_tasks (tasks : list T_FileSendTask.t) (s : t) : t :=
  mk s.(stream_id) s.(root) s.(entry_name_regex) s.(source_directory) s.(source_manifest) tasks
    s.(current_task) s.(manifest_applied) s.(complete) s.(has_pending_changes).

Definition set_progress (current : Z) (applied complete pending : bool) (s : t) : t :=
  mk s.(stream_id) s.(root) s.(entry_name_regex) s.(source_directory) s.(source_manifest) s.(tasks)
    current applied complete pending.
End T_StreamSendState.

Module T_Manifest2ApplyResult.
Record t := mk {
  in_sync : bool; should_start_append : bool; should_start_chunk : bool; start : T_SyncStart.t
}.
Definition no_start : T_SyncStart.t := T_SyncStart.mk 0 0 0 EM_StartAction.RESUME_EXISTING.
Definition in_sync_result : t := mk true false false no_start.
End T_Manifest2ApplyResult.

Import T_FileSendTask T_StreamSendState.

Definition initialize_file_task (chunk_mode : bool) (chunk_size : Z) (chunk_order : list Z)
    (task : T_FileSendTask.t) : exc T_FileSendTask.t :=
  chunk_count ← (if chunk_mode then chunk_count_for_size task.(source_size) chunk_size else Ret 0);
  Ret (set_modes chunk_mode chunk_mode chunk_count
         (initialize_chunk_resend_state chunk_count chunk_order) task).

Definition active_task (stream : T_StreamSendState.t) : option T_FileSendTask.t :=
  if stream.(current_task) >=? zlen stream.(tasks) then None
  else stream.(tasks) !! Z.to_nat stream.(current_task).

(** Write through the pointer [active_task] returns. *)
Definition update_active_task (f : T_FileSendTask.t → T_FileSendTask.t) (stream : T_StreamSendState.t)
    : T_StreamSendState.t :=
  set_tasks (alter f (Z.to_nat stream.(current_task)) stream.(tasks)) stream.

Definition task_all_chunks_acked (task : T_FileSendTask.t) : bool := all_chunks_acked task.(chunk_resend).

Definition next_unsent_chunk_index (task : T_FileSendTask.t) (current_tick retransmit_ticks : Z) : option Z :=
  next_chunk_to_send task.(chunk_resend) current_tick retransmit_ticks.

Definition manifest1_from_streams (manifest_id : Z) (streams : list T_StreamSendState.t) : T_Manifest1.t :=
  T_Manifest1.mk manifest_id (source_manifest <$> streams).

Definition apply_manifest2_to_stream (manifest2 : T_Manifest2.t)
    : M T_StreamSendState.t (option T_Manifest2ApplyResult.t) :=
  stream ← get;
  if stream.(manifest_applied) || stream.(complete) then mret None
  else
    match list_find (λ candidate, candidate.(T_Manifest2Stream.stream_id) = stream.(stream_id))
            manifest2.(T_Manifest2.streams) with
    | None => throw ("T_Manifest2 missing stream=" ++ to_string stream.(stream_id))
    | Some (_, plan) =>
        if bool_decide (plan.(T_Manifest2Stream.action) = EM_Manifest2Action.IN_SYNC) then
          modify (set_progress (zlen stream.(tasks)) true true false);;
          mret (Some T_Manifest2ApplyResult.in_sync_result)
        else
          match list_find (λ task, task.(file_id) = plan.(T_Manifest2Stream.start_file_id)) stream.(tasks) with
          | None =>
              throw ("T_Manifest2 start file not found stream=" ++ to_string stream.(stream_id) ++
                     " file_id=" ++ to_string plan.(T_Manifest2Stream.start_file_id))
          | Some (i, _) =>
              modify (set_progress (Z.of_nat i) true stream.(complete) stream.(has_pending_changes));;
              stream ← get;
              match active_task stream with
              | None =>
                  modify (set_progress stream.(current_task) true true stream.(has_pending_changes));;
                  mret (Some T_Manifest2ApplyResult.in_sync_result)
              | Some _ =>
                  let resume := bool_decide (plan.(T_Manifest2Stream.action) = EM_Manifest2Action.RESUME_EXISTING) in
                  let start := T_SyncStart.mk stream.(stream_id) plan.(T_Manifest2Stream.start_file_id)
                                 plan.(T_Manifest2Stream.start_offset)
                                 (if resume then EM_StartAction.RESUME_EXISTING else EM_StartAction.CREATE_MISSING) in
                  (if resume then modify (update_active_task (set_chunk_mode false)) else mret tt);;
                  stream ← get;
                  let chunk_mode := match active_task stream with Some task => task.(chunk_mode) | None => false end in
                  mret (Some (T_Manifest2ApplyResult.mk false (resume || negb chunk_mode)
                                (negb resume && chunk_mode) start))
              end
          end
    end.

Section reads.
Context {CRC : Crc32c} (regex_extended : string → exc (string → bool)).

Definition full_crc32c_checksum_for_bytes (bytes : Bytes) : T_FileChecksum.t :=
  T_FileChecksum.mk EM_ChecksumAlgo.CRC32C 0 (zlen bytes) (crc32c_bytes bytes).

Definition make_real_file_task (stream_id : Z) (file : T_SourceFile.t) (reader : option source_reader)
    (chunk_size : Z) (chunk_order : list Z) : M fsys T_FileSendTask.t :=
  let entry := file.(T_SourceFile.manifest) in
  let regular := bool_decide (entry.(T_ManifestEntry.kind) = EM_EntryKind.REGULAR_FILE) in
  let size := if regular then entry.(T_ManifestEntry.size) else 0 in
  checksum ← (if regular then T_SourceDirectory.full_checksum file else mret empty_checksum);
  lift_exc (initialize_file_task (regular && should_use_chunk_mode size) chunk_size chunk_order
    (T_FileSendTask.create stream_id
       (if entry.(T_ManifestEntry.seq) =? 0 then file.(T_SourceFile.file_id) else entry.(T_ManifestEntry.seq))
       file.(T_SourceFile.file_id) entry.(T_ManifestEntry.kind) entry.(T_ManifestEntry.name)
       entry.(T_ManifestEntry.link_target) size checksum entry.(T_ManifestEntry.checksum) reader)).

Definition make_simulated_file_task (stream_id seq file_id : Z) (data : Bytes) (reader : option source_reader)
    (chunk_size : Z) (chunk_order : list Z) : exc T_FileSendTask.t :=
  let checksum := full_crc32c_checksum_for_bytes data in
  initialize_file_task (should_use_chunk_mode (zlen data)) chunk_size chunk_order
    (T_FileSendTask.create stream_id seq file_id EM_EntryKind.REGULAR_FILE (file_name_for_id file_id) ""
       (zlen data) checksum checksum reader).

(** The virtual call on the task's reader. *)
#[export] Instance reader_reader : T_ISourceReader source_reader := λ r,
  match r with
  | Simulated r => @read_range _ T_SimulatedSourceReader.reader r
  | Directory d => @read_range _ (T_SourceDirectory.reader regex_extended) d
  end.

Definition read_task_range (task : T_FileSendTask.t) (offset len : Z) : M fsys Bytes :=
  match task.(reader) with
  | None => throw "send task has no source reader"
  | Some reader => read_range reader task.(file_id) offset len
  end.

Definition read_chunk_payload (task : T_FileSendTask.t) (chunk_index chunk_size : Z) : M fsys Bytes :=
  let offset := u64 (chunk_index * chunk_size) in
  let len := Z.min chunk_size (u64 (task.(source_size) - offset)) in
  read_task_range task offset len.
End reads.

(** ** The receiver's answer *)
Module PlanFacts.

(** The run of [apply_manifest2_to_stream] for each answer. *)
Lemma apply_in_sync m2 stream k plan :
  stream.(manifest_applied) = false → stream.(complete) = false →
  list_find (λ c, c.(T_Manifest2Stream.stream_id) = stream.(stream_id)) m2.(T_Manifest2.streams) = Some (k, plan) →
  plan.(T_Manifest2Stream.action) = EM_Manifest2Action.IN_SYNC →
  apply_manifest2_to_stream m2 stream =
  (Ret (Some T_Manifest2ApplyResult.in_sync_result), set_progress (zlen stream.(tasks)) true true false stream).
Proof.
  intros Ha Hc Hf Hi. unfold apply_manifest2_to_stream, mbind, M_bind, get. rewrite Ha, Hc. cbn [orb].
  rewrite Hf, bool_decide_eq_true_2 by done. done.
Qed.

Lemma active_task_at stream i task :
  stream.(current_task) = Z.of_nat i → stream.(tasks) !! i = Some task → active_task stream = Some task.
Proof.
  intros Hc Hl. unfold active_task, zlen. rewrite Hc. pose proof (lookup_lt_Some _ _ _ Hl).
  destruct (Z.geb_spec (Z.of_nat i) (Z.of_nat (length stream.(tasks)))); [lia|]. by rewrite Nat2Z.id.
Qed.

Lemma apply_starts m2 stream k plan i task :
  stream.(manifest_applied) = false → stream.(complete) = false →
  list_find (λ c, c.(T_Manifest2Stream.stream_id) = stream.(stream_id)) m2.(T_Manifest2.streams) = Some (k, plan) →
  plan.(T_Manifest2Stream.action) ≠ EM_Manifest2Action.IN_SYNC →
  list_find (λ task, task.(file_id) = plan.(T_Manifest2Stream.start_file_id)) stream.(tasks) = Some (i, task) →
  let resume := bool_decide (plan.(T_Manifest2Stream.action) = EM_Manifest2Action.RESUME_EXISTING) in
  let task' := if resume then set_chunk_mode false task else task in
  ∃ stream', apply_manifest2_to_stream m2 stream =
    (Ret (Some (T_Manifest2ApplyResult.mk false (resume || negb task.(chunk_mode)) (negb resume && task.(chunk_mode))
      (T_SyncStart.mk stream.(stream_id) plan.(T_Manifest2Stream.start_file_id) plan.(T_Manifest2Stream.start_offset)
         (if resume then EM_StartAction.RESUME_EXISTING else EM_StartAction.CREATE_MISSING)))), stream') ∧
    stream'.(current_task) = Z.of_nat i ∧ stream'.(manifest_applied) = true ∧ stream'.(complete) = false ∧
    active_task stream' = Some task'.
Proof.
  intros Ha Hc Hf Hi Ht resume task'. pose proof Ht as (Hl & _ & _)%list_find_Some.
  unfold apply_manifest2_to_stream, mbind, M_bind, get, modify. rewrite Ha, Hc. cbn [orb].
  rewrite Hf, bool_decide_eq_false_2 by done. rewrite Ht.
  set (stream1 := set_progress (Z.of_nat i) true _ _ stream).
  assert (active_task stream1 = Some task) as -> by (by apply (active_task_at _ i)).
  change (bool_decide (T_Manifest2Stream.action plan = EM_Manifest2Action.RESUME_EXISTING)) with resume.
  destruct resume; cbn [orb negb andb].
  - assert (active_task (update_active_task (set_chunk_mode false) stream1) = Some task') as Hact.
    { apply (active_task_at _ i); [done|]. cbn. rewrite Nat2Z.id, list_lookup_alter_eq. by rewrite Hl. }
    eexists. split; [reflexivity|]. by split_and!.
  - eexists. assert (active_task stream1 = Some task) as Hact by (by apply (active_task_at _ i)).
    unfold mret at 1, M_ret at 1. rewrite Hact. split; [reflexivity|]. by split_and!.
Qed.

(** The task of an entry, when the ids differ. *)
Lemma find_task (ts : list T_FileSendTask.t) (S1 S2 : list T_ManifestEntry.t) (s : T_ManifestEntry.t) :
  file_id <$> ts = T_ManifestEntry.file_id <$> (S1 ++ s :: S2) → NoDup (T_ManifestEntry.file_id <$> (S1 ++ s :: S2)) →
  ∃ task, ts !! length S1 = Some task ∧ task.(file_id) = s.(T_ManifestEntry.file_id) ∧
    list_find (λ task, task.(file_id) = s.(T_ManifestEntry.file_id)) ts = Some (length S1, task).
Proof.
  intros Heq Hnd. assert ((file_id <$> ts) !! length S1 = Some s.(T_ManifestEntry.file_id)) as Hl.
  { rewrite Heq, list_lookup_fmap, lookup_app_r, Nat.sub_diag by lia. done. }
  rewrite list_lookup_fmap in Hl. apply fmap_Some in Hl as (task & Hl & Hid). exists task. split_and!; [done|done|].
  apply list_find_Some. split_and!; [done|done|]. intros j y Hy Hj Hyid.
  assert (j = length S1) as ->; [|lia].
  apply (NoDup_lookup _ _ _ s.(T_ManifestEntry.file_id) Hnd); rewrite <- Heq, list_lookup_fmap; [by rewrite Hy; cbn; f_equal|].
  by rewrite Hl; cbn; f_equal.
Qed.
End PlanFacts.
Import PlanFacts.

(** C29: The sender starts where the receiver is not in sync: when the
    receiver's answer comes from comparing the two manifests, the sender is done
    with a stream in sync, and otherwise starts the task of the first entry that
    is not: from the size the receiver has, by DATA whatever the size, when the
    receiver holds a shorter file, and from nothing, in the task's own mode,
    when it holds none. *)
Theorem plan_follows_diff (m2 : T_Manifest2.t) (stream : T_StreamSendState.t)
    (sender receiver : list T_ManifestEntry.t) (start : option T_SyncStart.t) (k : nat) :
  diff_stream stream.(stream_id) sender receiver = Ret start →
  list_find (λ c, c.(T_Manifest2Stream.stream_id) = stream.(stream_id)) m2.(T_Manifest2.streams) =
    Some (k, make_manifest2_stream stream.(stream_id) start) →
  stream.(manifest_applied) = false → stream.(complete) = false →
  file_id <$> stream.(tasks) = T_ManifestEntry.file_id <$> sender → NoDup (T_ManifestEntry.file_id <$> sender) →
  ∃ S1 R1 S2 R2 result stream', sender = S1 ++ S2 ∧ receiver = R1 ++ R2 ∧
    Forall2 (λ s r, entry_synced s r = true) S1 R1 ∧
    apply_manifest2_to_stream m2 stream = (Ret (Some result), stream') ∧ stream'.(manifest_applied) = true ∧
    match S2 with
    | [] => result = T_Manifest2ApplyResult.in_sync_result ∧ stream'.(complete) = true
    | s :: _ => ∃ task, stream.(tasks) !! length S1 = Some task ∧
        task.(file_id) = s.(T_ManifestEntry.file_id) ∧ stream'.(complete) = false ∧
        match R2 with
        | [] => active_task stream' = Some task ∧
            result = T_Manifest2ApplyResult.mk false (negb task.(chunk_mode)) task.(chunk_mode)
              (T_SyncStart.mk stream.(stream_id) s.(T_ManifestEntry.file_id) 0 EM_StartAction.CREATE_MISSING)
        | r :: _ => entry_behind s r = true ∧ active_task stream' = Some (set_chunk_mode false task) ∧
            result = T_Manifest2ApplyResult.mk false true false
              (T_SyncStart.mk stream.(stream_id) s.(T_ManifestEntry.file_id) r.(T_ManifestEntry.size)
                 EM_StartAction.RESUME_EXISTING)
        end
    end.
Proof.
  intros Hdiff Hfind Ha Hc Hids Hnd.
  destruct (synced_split sender receiver) as (S1 & R1 & S2 & R2 & -> & -> & Hs & Hm).
  rewrite diff_stream_prefix in Hdiff by done. exists S1, R1, S2, R2.
  destruct S2 as [|s S2].
  { cbn in Hdiff. injection Hdiff as <-. eexists _, _. split_and!; [done..|by apply (apply_in_sync _ _ _ _ Ha Hc Hfind)|done|done|done]. }
  destruct (find_task _ _ _ _ Hids Hnd) as (task & Hl & Hid & Ht). destruct R2 as [|r R2].
  - cbn in Hdiff. injection Hdiff as <-.
    destruct (apply_starts m2 stream k _ (length S1) task Ha Hc Hfind ltac:(done) Ht) as (stream' & Hrun & _ & Happ & Hcomp & Hact).
    eexists _, stream'. split_and!; [done..|]. exists task. by split_and!.
  - pose proof (diff_stream_step stream.(stream_id) s r S2 R2) as Hstep. rewrite Hm, Hdiff in Hstep.
    destruct (entry_behind s r) eqn:Hb; [|discriminate]. injection Hstep as ->.
    destruct (apply_starts m2 stream k _ (length S1) task Ha Hc Hfind ltac:(done) Ht) as (stream' & Hrun & _ & Happ & Hcomp & Hact).
    eexists _, stream'. split_and!; [done..|]. exists task. by split_and!.
Qed.

(** ** Example: the receiver has the first file whole and three bytes of the second *)
Definition sample_entry (id size : Z) : T_ManifestEntry.t :=
  T_ManifestEntry.mk id id EM_EntryKind.REGULAR_FILE (file_name_for_id id) "" size empty_checksum.
Definition sample_task (id size : Z) : T_FileSendTask.t :=
  T_FileSendTask.create 1 id id EM_EntryKind.REGULAR_FILE (file_name_for_id id) "" size empty_checksum
    empty_checksum None.
Definition sample_stream : T_StreamSendState.t :=
  T_StreamSendState.mk 1 ["s"] "" None (T_Manifest1Stream.mk 1 "/s" [sample_entry 1 4; sample_entry 2 9])
    [sample_task 1 4; sample_task 2 9] 0 false false true.
Definition sample_start : option T_SyncStart.t := Some (T_SyncStart.mk 1 2 3 EM_StartAction.RESUME_EXISTING).

Lemma plan_follows_diff_witness :
  diff_stream 1 [sample_entry 1 4; sample_entry 2 9] [sample_entry 1 4; sample_entry 2 3] = Ret sample_start ∧
  ∃ result stream', apply_manifest2_to_stream
    (T_Manifest2.mk 5 [make_manifest2_stream 1 sample_start]) sample_stream = (Ret (Some result), stream') ∧
    stream'.(manifest_applied) = true.
Proof.
  assert (diff_stream 1 [sample_entry 1 4; sample_entry 2 9] [sample_entry 1 4; sample_entry 2 3] = Ret sample_start)
    as Hd by (vm_compute; reflexivity).
  split; [exact Hd|].
  destruct (plan_follows_diff (T_Manifest2.mk 5 [make_manifest2_stream 1 sample_start]) sample_stream
    [sample_entry 1 4; sample_entry 2 9] [sample_entry 1 4; sample_entry 2 3] sample_start 0 Hd)
    as (S1 & R1 & S2 & R2 & result & stream' & _ & _ & _ & Hrun & Happ & _).
  - vm_compute. reflexivity.
  - reflexivity.
  - reflexivity.
  - reflexivity.
  - apply (bool_decide_unpack _). vm_compute. exact I.
  - exists result, stream'. split; [exact Hrun|exact Happ].
Defined.
