(* ===== verification/Network.v ===== *)
(** * The network layer: [include/network/yisync_network.hpp], [src/network/yisync_network.cpp]

    The negotiation of a line, the sets of lines of the two sides with their
    connections and reconnection, and the two networks: the sender's, which
    gives every message the line the scheduler grants and reports what a lost
    line carried, and the receiver's, which gathers heartbeats.  The callbacks
    into the application are parameters that act on the whole state: a call may
    come back into the network.  What the event loop is asked to do (connect,
    call later) is recorded; what happens then is an operation of its own. *)
From Stdlib Require Import Ascii.
From S2P Require Import Prelude Wire Protocol Framing Sync Scheduler.
#[local] Open Scope Z_scope.

Abbreviation conn := AsyncFrameConnection.t.

Module EM_Protocol.
Inductive t := TCP | UDP | QUIC | AREON.
#[export] Instance eq_dec : EqDecision t.
Proof. solve_decision. Defined.
End EM_Protocol.
Export (hints) EM_Protocol.

Module T_LineEndpoint.
Record t := mk { id : Z; protocol : EM_Protocol.t; endpoint : Endpoint.t; name : string }.
End T_LineEndpoint.

Module T_ReconnectPolicy.
Record t := mk { base_delay : Z; max_delay : Z; max_shift : Z }.
End T_ReconnectPolicy.

(** A signed 64-bit result. *)
Definition i64 (x : Z) : Z := u64 (x + 9223372036854775808) - 9223372036854775808.

Definition reconnect_delay (policy : T_ReconnectPolicy.t) (attempts : Z) : Z :=
  let shift := Z.min attempts policy.(T_ReconnectPolicy.max_shift) in
  let scaled := i64 (Z.shiftl policy.(T_ReconnectPolicy.base_delay) shift) in
  Z.min policy.(T_ReconnectPolicy.max_delay) scaled.

(** ** Negotiation *)
Definition kProtocolVersion : Z := 1.
Definition kRequiredFeatureFlags : Z := 7.
Definition kSupportedFeatureFlags : Z := 127.

Definition make_hello (role : EM_Role.t) (node_id : string) (chunk_size max_inflight_bytes : Z) : T_Hello.t :=
  T_Hello.mk node_id role kProtocolVersion kProtocolVersion kSupportedFeatureFlags kRequiredFeatureFlags
    chunk_size max_inflight_bytes [EM_Compression.NONE] [EM_ChecksumAlgo.CRC32C].

Module T_NegotiationResult.
Record t := mk {
  ok : bool; negotiated_version : Z; negotiated_features : Z; recv_window_bytes : Z; error : string
}.
Definition refused (error : string) : t := mk false 0 0 0 error.
End T_NegotiationResult.

Definition hex_digit (d : Z) : ascii := ascii_of_nat (Z.to_nat (if d <? 10 then 48 + d else 87 + d)).

Fixpoint hex_loop (fuel : nat) (n : Z) (acc : string) : string :=
  match fuel with
  | O => acc
  | S fuel =>
      let acc := String (hex_digit (n mod 16)) acc in
      if n <? 16 then acc else hex_loop fuel (n / 16) acc
  end.

Definition hex_u64 (value : Z) : string := "0x" ++ hex_loop 16 value "".

Definition negotiate_hello (local peer : T_Hello.t) (expected_peer_role : EM_Role.t) : T_NegotiationResult.t :=
  if negb (bool_decide (peer.(T_Hello.role) = expected_peer_role))
  then T_NegotiationResult.refused "unexpected peer role"
  else
    let min_version := Z.max local.(T_Hello.min_version) peer.(T_Hello.min_version) in
    let max_version := Z.min local.(T_Hello.max_version) peer.(T_Hello.max_version) in
    if (min_version >? max_version) || (max_version <? kProtocolVersion)
    then T_NegotiationResult.refused "no compatible protocol version"
    else
      let common_features := Z.land local.(T_Hello.feature_flags) peer.(T_Hello.feature_flags) in
      let required_local := local.(T_Hello.required_feature_flags) in
      let required_peer := peer.(T_Hello.required_feature_flags) in
      if negb (Z.land required_local common_features =? required_local)
      then T_NegotiationResult.refused
             ("peer missing local required features required=" ++ hex_u64 required_local ++
              " common=" ++ hex_u64 common_features)
      else if negb (Z.land required_peer common_features =? required_peer)
      then T_NegotiationResult.refused
             ("local missing peer required features required=" ++ hex_u64 required_peer ++
              " common=" ++ hex_u64 common_features)
      else if negb (bool_decide (EM_Compression.NONE ∈ local.(T_Hello.supported_compression))) ||
              negb (bool_decide (EM_Compression.NONE ∈ peer.(T_Hello.supported_compression)))
      then T_NegotiationResult.refused "EM_Compression::NONE is required"
      else if negb (bool_decide (EM_ChecksumAlgo.CRC32C ∈ local.(T_Hello.supported_checksum))) ||
              negb (bool_decide (EM_ChecksumAlgo.CRC32C ∈ peer.(T_Hello.supported_checksum)))
      then T_NegotiationResult.refused "EM_ChecksumAlgo::CRC32C is required"
      else if negb (local.(T_Hello.chunk_size) =? 0) && negb (peer.(T_Hello.chunk_size) =? 0) &&
              negb (local.(T_Hello.chunk_size) =? peer.(T_Hello.chunk_size))
      then T_NegotiationResult.refused
             ("chunk_size mismatch local=" ++ to_string local.(T_Hello.chunk_size) ++
              " peer=" ++ to_string peer.(T_Hello.chunk_size))
      else T_NegotiationResult.mk true max_version common_features peer.(T_Hello.max_inflight_bytes) "".

(** ** The sender's lines *)
Module SenderLine.
(** [connector]: a connection attempt is held. *)
Record t := mk {
  endpoint : T_LineEndpoint.t; connection : option conn; connector : bool; connecting : bool;
  reconnect_scheduled : bool; reconnect_attempts : Z
}.
Definition create (endpoint : T_LineEndpoint.t) : t := mk endpoint None false false false 0.
Definition can_send (line : t) : bool :=
  match line.(connection) with Some c => negb (AsyncFrameConnection.closed c) | None => false end.
Definition set_connection (c : option conn) (l : t) : t :=
  mk l.(endpoint) c l.(connector) l.(connecting) l.(reconnect_scheduled) l.(reconnect_attempts).
Definition set_connecting (connector connecting : bool) (l : t) : t :=
  mk l.(endpoint) l.(connection) connector connecting l.(reconnect_scheduled) l.(reconnect_attempts).
Definition set_reconnect (scheduled : bool) (attempts : Z) (l : t) : t :=
  mk l.(endpoint) l.(connection) l.(connector) l.(connecting) scheduled attempts.
End SenderLine.

(** What the event loop is asked for. *)
Inductive LoopRequest :=
  | ConnectTcp (id : Z) (endpoint : Endpoint.t)
  | CallLater (delay : Z) (id : Z).

Module T_SenderLineSet.
Import SenderLine.

Record t := mk_lines {
  max_frame_bytes_ : Z; reconnect_policy_ : T_ReconnectPolicy.t; lines_ : list SenderLine.t;
  reconnects_enabled_ : bool; requests_ : list LoopRequest
}.

Definition create (lines : list T_LineEndpoint.t) (max_frame_bytes : Z) (policy : T_ReconnectPolicy.t) : t :=
  mk_lines max_frame_bytes policy (SenderLine.create <$> lines) true [].

Definition set_lines (lines : list SenderLine.t) (s : t) : t :=
  mk_lines s.(max_frame_bytes_) s.(reconnect_policy_) lines s.(reconnects_enabled_) s.(requests_).
Definition request (r : LoopRequest) (s : t) : t :=
  mk_lines s.(max_frame_bytes_) s.(reconnect_policy_) s.(lines_) s.(reconnects_enabled_) (s.(requests_) ++ [r]).

Definition stop_reconnects (s : t) : t :=
  mk_lines s.(max_frame_bytes_) s.(reconnect_policy_)
    ((λ l, set_reconnect false l.(reconnect_attempts) l) <$> s.(lines_)) false s.(requests_).

Definition find_index (id : Z) (s : t) : option (nat * SenderLine.t) :=
  list_find (λ line, line.(endpoint).(T_LineEndpoint.id) = id) s.(lines_).

Definition find (id : Z) : M t SenderLine.t := λ s,
  match find_index id s with
  | Some (_, line) => (Ret line, s)
  | None => (Throw "unknown sender network line", s)
  end.

(** Write through the reference [find] returns. *)
Definition update (id : Z) (f : SenderLine.t → SenderLine.t) : M t unit := λ s,
  match find_index id s with
  | Some (i, _) => (Ret tt, set_lines (alter f i s.(lines_)) s)
  | None => (Throw "unknown sender network line", s)
  end.

Definition can_send_line (id : Z) : M t bool := line ← find id; mret (can_send line).

Definition schedule_reconnect (id : Z) : M t unit :=
  line ← find id;
  s ← get;
  if negb s.(reconnects_enabled_) || can_send line || line.(connecting) || line.(reconnect_scheduled)
  then mret tt
  else
    let delay := reconnect_delay s.(reconnect_policy_) line.(reconnect_attempts) in
    update id (λ l, set_reconnect true (u64 (l.(reconnect_attempts) + 1)) l);;
    modify (request (CallLater delay id)).

Definition connect (id : Z) : M t unit :=
  line ← find id;
  s ← get;
  if negb s.(reconnects_enabled_) || can_send line || line.(connecting) then mret tt
  else if negb (bool_decide (line.(endpoint).(T_LineEndpoint.protocol) = EM_Protocol.TCP))
  then throw "only TCP sender lines are implemented"
  else
    update id (λ l, set_connecting true true (set_reconnect false l.(reconnect_attempts) l));;
    modify (request (ConnectTcp id line.(endpoint).(T_LineEndpoint.endpoint))).

Fixpoint start_lines (ls : list SenderLine.t) : M t unit :=
  match ls with
  | [] => mret tt
  | line :: ls => connect line.(endpoint).(T_LineEndpoint.id);; start_lines ls
  end.
Definition start_all : M t unit := s ← get; start_lines s.(lines_).

(** The timer of [schedule_reconnect]. *)
Definition reconnect_timer (id : Z) : M t unit :=
  update id (λ l, set_reconnect false l.(reconnect_attempts) l);;
  line ← find id;
  s ← get;
  if s.(reconnects_enabled_) && negb (can_send line) && negb line.(connecting) then connect id else mret tt.

Definition send (id : Z) (message : T_Message) : M t unit :=
  line ← find id;
  match line.(connection) with
  | None => throw "sender line is not connected"
  | Some c =>
      if AsyncFrameConnection.closed c then throw "sender line is not connected"
      else
        c ← lift_exc (AsyncFrameConnection.send message c);
        update id (set_connection (Some c))
  end.

Section callbacks.
Context {St : Type} `{Has St t} (connected_callback_ : Z → M St unit)
  (unavailable_callback_ : Z → bool → M St unit).

(** [mark_unavailable], with what the closing of a connection calls. *)
Definition mark_unavailable_with (close_callback : Z → M St unit) (id : Z) : M St unit :=
  line ← on (find id);
  let had_connection := bool_decide (is_Some line.(connection)) in
  if negb (can_send line) && negb line.(connecting) && line.(reconnect_scheduled) then mret tt
  else
    on (update id (λ l, set_connection None (set_connecting false false l)));;
    unavailable_callback_ id had_connection;;
    s ← get;
    (if (part s).(reconnects_enabled_) then on (schedule_reconnect id) else mret tt);;
    match line.(connection) with
    | Some c => if AsyncFrameConnection.closed c then mret tt else close_callback id
    | None => mret tt
    end.

(** The [on_close] callback of a connection: the line is marked once more,
    and has no connection left to close. *)
Definition on_close (id : Z) : M St unit :=
  s ← get;
  if negb (part s).(reconnects_enabled_) then mret tt
  else mark_unavailable_with (λ _, throw "closed twice") id.

Definition mark_unavailable (id : Z) : M St unit := mark_unavailable_with on_close id.

(** The [on_error] callback. *)
Definition on_error (id : Z) : M St unit :=
  s ← get;
  if negb (part s).(reconnects_enabled_) then mret tt else mark_unavailable id.

(** The connection attempt succeeds. *)
Definition on_tcp_connected (id : Z) (c : conn) (loop : EventLoop.t unit) : M St unit :=
  on (update id (λ l, set_connection (Some c) (set_reconnect false 0 (set_connecting false false l))));;
  c ← lift_exc (AsyncFrameConnection.start loop c);
  on (update id (set_connection (Some c)));;
  connected_callback_ id.

(** ... or fails. *)
Definition on_connect_failed (id : Z) : M St unit :=
  on (update id (set_connecting false false));;
  unavailable_callback_ id false;;
  on (schedule_reconnect id).
End callbacks.
End T_SenderLineSet.

(** ** The sender's network *)
Module T_NetworkSendResult.
Record t := mk { sent : bool; line_id : Z; bytes : Z }.
Definition not_sent : t := mk false 0 0.
End T_NetworkSendResult.

Module T_NetworkControlResult.
Record t := mk { queued : bool; sent : bool; line_id : Z }.
End T_NetworkControlResult.

Module T_ControlMessage.
Record t := mk { message : T_Message; log_label : string }.
End T_ControlMessage.

Module T_SenderNetwork.
Record t := mk {
  lines_ : T_SenderLineSet.t; scheduler_ : T_MultiLineScheduler.t; local_hello_ : T_Hello.t;
  negotiated_lines_ : gmap Z T_NegotiationResult.t; control_queue_ : list T_ControlMessage.t
}.

Definition set_lines (v : T_SenderLineSet.t) (n : t) : t :=
  mk v n.(scheduler_) n.(local_hello_) n.(negotiated_lines_) n.(control_queue_).
Definition set_scheduler (v : T_MultiLineScheduler.t) (n : t) : t :=
  mk n.(lines_) v n.(local_hello_) n.(negotiated_lines_) n.(control_queue_).
Definition set_negotiated (v : gmap Z T_NegotiationResult.t) (n : t) : t :=
  mk n.(lines_) n.(scheduler_) n.(local_hello_) v n.(control_queue_).
Definition set_controls (v : list T_ControlMessage.t) (n : t) : t :=
  mk n.(lines_) n.(scheduler_) n.(local_hello_) n.(negotiated_lines_) v.

#[export] Instance has_lines : Has t T_SenderLineSet.t.
Proof. by refine {| part := lines_; set_part := set_lines |}; [|intros []|]. Defined.
#[export] Instance has_scheduler : Has t T_MultiLineScheduler.t.
Proof. by refine {| part := scheduler_; set_part := set_scheduler |}; [|intros []|]. Defined.

Definition create (endpoints : list T_LineEndpoint.t) (configs : list T_LineConfig.t) (max_frame_bytes : Z)
    (policy : T_ReconnectPolicy.t) (local_hello : T_Hello.t) : exc t :=
  scheduler ← T_MultiLineScheduler.create configs;
  Ret (mk (T_SenderLineSet.create endpoints max_frame_bytes policy) scheduler local_hello ∅ []).

Definition start : M t unit := on T_SenderLineSet.start_all.
Definition stop (n : t) : t := set_lines (T_SenderLineSet.stop_reconnects n.(lines_)) n.
Definition snapshots (n : t) : list T_LineSnapshot.t := T_MultiLineScheduler.snapshots n.(scheduler_).
Definition on_heartbeat (line_id : Z) (heartbeat : T_Heartbeat.t) : M t unit :=
  on (T_MultiLineScheduler.on_heartbeat line_id heartbeat).

Section callbacks.
Context {St : Type} `{HasNet : Has St t} (message_callback_ : Z → T_Message → M St unit)
  (connected_callback_ : Z → M St unit) (lost_send_callback_ : list T_LostSend.t → M St unit).

#[local] Instance state_has_lines : Has St T_SenderLineSet.t.
Proof.
  refine {| part s := (part s).(lines_); set_part l s := set_part (set_lines l (part s)) s |}.
  - intros. by rewrite part_set.
  - intros s. transitivity (set_part (part s) s); [|apply set_part_part]. f_equal. by destruct (part s).
  - intros. by rewrite part_set, set_part_set.
Defined.

Definition emit_lost_sends : M St unit :=
  net ← gets part;
  let '(lost, scheduler) := T_MultiLineScheduler.take_lost_sends net.(scheduler_) in
  modify (set_part (set_scheduler scheduler net));;
  match lost with [] => mret tt | _ => lost_send_callback_ lost end.

Definition handle_unavailable (line_id : Z) (had_connection : bool) : M St unit :=
  on (C := t) (on (T_MultiLineScheduler.on_line_disconnected line_id));;
  modify (λ s, set_part (set_negotiated (delete line_id (part s).(negotiated_lines_)) (part s)) s);;
  if had_connection then emit_lost_sends else mret tt.

Definition mark_unavailable (line_id : Z) : M St unit :=
  T_SenderLineSet.mark_unavailable handle_unavailable line_id.

Definition can_send (line_id : Z) : M St bool := on (T_SenderLineSet.can_send_line line_id).
Definition line_send (line_id : Z) (message : T_Message) : M St unit := on (T_SenderLineSet.send line_id message).

Definition flush_one_control : M St (option Z) :=
  net ← gets part;
  match net.(control_queue_) with
  | [] => mret None
  | control :: _ =>
      match T_MultiLineScheduler.choose_control_line net.(scheduler_) with
      | None => mret None
      | Some line_id =>
          ready ← can_send line_id;
          if negb ready then mark_unavailable line_id;; mret None
          else
            line_send line_id control.(T_ControlMessage.message);;
            modify (λ s, set_part (set_controls (tail (part s).(control_queue_)) (part s)) s);;
            mret (Some line_id)
      end
  end.

(** Every turn that goes on takes a message off the queue. *)
Fixpoint flush_loop (when_out : string) (fuel : nat) : M St unit :=
  match fuel with
  | O => throw when_out
  | S fuel =>
      sent ← flush_one_control;
      match sent with Some _ => flush_loop when_out fuel | None => mret tt end
  end.
Definition flush_controls : M St unit :=
  net ← gets part;
  flush_loop "out of fuel" (S (length net.(control_queue_))).

Definition send (message : T_Message) (request : T_SendRequest.t) : M St T_NetworkSendResult.t :=
  flush_controls;;
  net ← gets part;
  let '(grant, scheduler) := T_MultiLineScheduler.try_acquire request net.(scheduler_) in
  modify (set_part (set_scheduler scheduler net));;
  match grant with
  | None => mret T_NetworkSendResult.not_sent
  | Some grant =>
      ready ← can_send grant.(T_SendGrant.line_id);
      if negb ready then
        mark_unavailable grant.(T_SendGrant.line_id);;
        mret T_NetworkSendResult.not_sent
      else
        line_send grant.(T_SendGrant.line_id) message;;
        mret (T_NetworkSendResult.mk true grant.(T_SendGrant.line_id) grant.(T_SendGrant.bytes))
  end.

Definition send_control (message : T_Message) (log_label : string) : M St T_NetworkControlResult.t :=
  modify (λ s, set_part (set_controls ((part s).(control_queue_) ++ [T_ControlMessage.mk message log_label])
                           (part s)) s);;
  sent ← flush_one_control;
  mret (match sent with
        | Some line_id => T_NetworkControlResult.mk true true line_id
        | None => T_NetworkControlResult.mk true false 0
        end).

(** The loop over the snapshots, taken once. *)
Fixpoint drop_stale (snapshots : list T_LineSnapshot.t) : M St unit :=
  match snapshots with
  | [] => mret tt
  | snapshot :: snapshots =>
      (if snapshot.(T_LineSnapshot.connected) && snapshot.(T_LineSnapshot.stale) &&
          (snapshot.(T_LineSnapshot.pending_sends) >? 0)
       then mark_unavailable snapshot.(T_LineSnapshot.id) else mret tt);;
      drop_stale snapshots
  end.

Definition refill_ticks (ticks : Z) : M St unit :=
  modify (λ s, set_part (set_scheduler (T_MultiLineScheduler.refill_ticks ticks (part s).(scheduler_)) (part s)) s);;
  net ← gets part;
  drop_stale (snapshots net);;
  flush_controls.

Definition handle_connected (line_id : Z) : M St unit :=
  on (C := t) (on (T_MultiLineScheduler.on_line_connected line_id));;
  modify (λ s, set_part (set_negotiated (delete line_id (part s).(negotiated_lines_)) (part s)) s);;
  net ← gets part;
  line_send line_id (M_Hello net.(local_hello_)).

Definition protocol_error (line_id : Z) : M St unit :=
  on (C := t) (on (T_MultiLineScheduler.on_line_protocol_error line_id));;
  mark_unavailable line_id.

Definition handle_hello (line_id : Z) (hello : T_Hello.t) : M St unit :=
  net ← gets part;
  let result := negotiate_hello net.(local_hello_) hello EM_Role.RECEIVER in
  modify (set_part (set_negotiated (<[line_id := result]> net.(negotiated_lines_)) net));;
  if negb result.(T_NegotiationResult.ok) then protocol_error line_id
  else
    on (C := t) (on (T_MultiLineScheduler.on_line_negotiated line_id result.(T_NegotiationResult.recv_window_bytes)));;
    connected_callback_ line_id;;
    flush_controls.

Definition handle_message (line_id : Z) (message : T_Message) : M St unit :=
  match message with
  | M_Hello hello => handle_hello line_id hello
  | _ =>
      net ← gets part;
      match net.(negotiated_lines_) !! line_id with
      | Some result =>
          if negb result.(T_NegotiationResult.ok) then protocol_error line_id
          else message_callback_ line_id message
      | None => protocol_error line_id
      end
  end.
End callbacks.
End T_SenderNetwork.

(** ** The receiver's lines *)
Module ReceiverLine.
Record t := mk { endpoint : T_LineEndpoint.t; listening : bool; connection : option conn }.
Definition create (endpoint : T_LineEndpoint.t) : t := mk endpoint false None.
Definition set_connection (c : option conn) (l : t) : t := mk l.(endpoint) l.(listening) c.
Definition can_send (line : t) : bool :=
  match line.(connection) with Some c => negb (AsyncFrameConnection.closed c) | None => false end.
Definition bind_to (e : Endpoint.t) (l : t) : t :=
  mk (T_LineEndpoint.mk l.(endpoint).(T_LineEndpoint.id) l.(endpoint).(T_LineEndpoint.protocol) e
        l.(endpoint).(T_LineEndpoint.name)) true l.(connection).
End ReceiverLine.

Module T_ReceiverLineSet.
Import ReceiverLine.

Record t := mk_lines { max_frame_bytes_ : Z; lines_ : list ReceiverLine.t }.

Definition create (lines : list T_LineEndpoint.t) (max_frame_bytes : Z) : t :=
  mk_lines max_frame_bytes (ReceiverLine.create <$> lines).

Definition set_lines (lines : list ReceiverLine.t) (s : t) : t := mk_lines s.(max_frame_bytes_) lines.

Definition find_index (id : Z) (s : t) : option (nat * ReceiverLine.t) :=
  list_find (λ line, line.(endpoint).(T_LineEndpoint.id) = id) s.(lines_).

Definition find (id : Z) : M t ReceiverLine.t := λ s,
  match find_index id s with
  | Some (_, line) => (Ret line, s)
  | None => (Throw "unknown receiver network line", s)
  end.

Definition update (id : Z) (f : ReceiverLine.t → ReceiverLine.t) : M t unit := λ s,
  match find_index id s with
  | Some (i, _) => (Ret tt, set_lines (alter f i s.(lines_)) s)
  | None => (Throw "unknown receiver network line", s)
  end.

(** [bound]: the address each listener reports once it is bound. *)
Fixpoint listen_lines (bound : Endpoint.t → Endpoint.t) (ls : list ReceiverLine.t) : exc (list ReceiverLine.t) :=
  match ls with
  | [] => Ret []
  | line :: ls =>
      if negb (bool_decide (line.(endpoint).(T_LineEndpoint.protocol) = EM_Protocol.TCP))
      then Throw "only TCP receiver lines are implemented"
      else
        ls ← listen_lines bound ls;
        Ret (bind_to (bound line.(endpoint).(T_LineEndpoint.endpoint)) line :: ls)
  end.
Definition listen_all (bound : Endpoint.t → Endpoint.t) : M t unit :=
  s ← get;
  ls ← lift_exc (listen_lines bound s.(lines_));
  put (set_lines ls s).

Definition send (id : Z) (message : T_Message) : M t unit :=
  line ← find id;
  match line.(connection) with
  | None => throw "receiver line has no active connection"
  | Some c =>
      if AsyncFrameConnection.closed c then throw "receiver line has no active connection"
      else
        c ← lift_exc (AsyncFrameConnection.send message c);
        update id (set_connection (Some c))
  end.

Definition can_send_line (id : Z) : M t bool := line ← find id; mret (can_send line).

Section callbacks.
Context {St : Type} `{Has St t} (accepted_callback_ : Z → M St unit) (close_callback_ : Z → M St unit).

Definition close (id : Z) : M St unit :=
  line ← on (find id);
  match line.(connection) with
  | Some c =>
      if AsyncFrameConnection.closed c then mret tt
      else on (update id (set_connection (Some (AsyncFrameConnection.close c))));; close_callback_ id
  | None => mret tt
  end;;
  on (update id (set_connection None)).

(** A connection comes in while one is open: it is refused. *)
Definition on_accept (id fd : Z) (loop : EventLoop.t unit) : M St unit :=
  line ← on (find id);
  if can_send line then mret tt
  else
    s ← get;
    c ← lift_exc (AsyncFrameConnection.create fd (part s).(max_frame_bytes_));
    c ← lift_exc (AsyncFrameConnection.start loop c);
    on (update id (set_connection (Some c)));;
    accepted_callback_ id.
End callbacks.
End T_ReceiverLineSet.

(** ** The receiver's network *)
Module T_PendingHeartbeat.
Record t := mk { heartbeat : T_Heartbeat.t; dirty : bool }.
Definition initial : t := mk (T_Heartbeat.mk 0 0 0 0 0 0 [] []) false.
End T_PendingHeartbeat.

Module T_ReceiverNetwork.
(** The key of a pending heartbeat: the line and the stream. *)
Abbreviation T_HeartbeatKey := (Z * Z)%type.

Record t := mk {
  lines_ : T_ReceiverLineSet.t; local_hello_ : T_Hello.t; negotiated_lines_ : gmap Z T_NegotiationResult.t;
  pending_heartbeats_ : gmap T_HeartbeatKey T_PendingHeartbeat.t; heartbeat_ack_batch_size_ : Z
}.

Definition set_lines (v : T_ReceiverLineSet.t) (n : t) : t :=
  mk v n.(local_hello_) n.(negotiated_lines_) n.(pending_heartbeats_) n.(heartbeat_ack_batch_size_).
Definition set_negotiated (v : gmap Z T_NegotiationResult.t) (n : t) : t :=
  mk n.(lines_) n.(local_hello_) v n.(pending_heartbeats_) n.(heartbeat_ack_batch_size_).
Definition set_pending (v : gmap T_HeartbeatKey T_PendingHeartbeat.t) (n : t) : t :=
  mk n.(lines_) n.(local_hello_) n.(negotiated_lines_) v n.(heartbeat_ack_batch_size_).
Definition set_heartbeat_ack_batch_size (v : Z) (n : t) : t :=
  mk n.(lines_) n.(local_hello_) n.(negotiated_lines_) n.(pending_heartbeats_) v.

#[export] Instance has_lines : Has t T_ReceiverLineSet.t.
Proof. by refine {| part := lines_; set_part := set_lines |}; [|intros []|]. Defined.

Definition create (endpoints : list T_LineEndpoint.t) (max_frame_bytes : Z) (local_hello : T_Hello.t) : t :=
  mk (T_ReceiverLineSet.create endpoints max_frame_bytes) local_hello ∅ ∅ 20.

Definition listen (bound : Endpoint.t → Endpoint.t) : M t unit := on (T_ReceiverLineSet.listen_all bound).
Definition send (line_id : Z) (message : T_Message) : M t unit := on (T_ReceiverLineSet.send line_id message).
Definition can_send (line_id : Z) : M t bool := on (T_ReceiverLineSet.can_send_line line_id).

(** *** Heartbeats *)

(** The later heartbeat of a stream replaces the fields of the waiting one;
    the chunks received are those of both. *)
Definition merge (target heartbeat : T_Heartbeat.t) : T_Heartbeat.t :=
  T_Heartbeat.mk heartbeat.(T_Heartbeat.stream_id) heartbeat.(T_Heartbeat.next_seq)
    heartbeat.(T_Heartbeat.file_id) heartbeat.(T_Heartbeat.offset) heartbeat.(T_Heartbeat.durable_offset)
    heartbeat.(T_Heartbeat.recv_window_bytes)
    (target.(T_Heartbeat.received_chunks) ++ heartbeat.(T_Heartbeat.received_chunks))
    heartbeat.(T_Heartbeat.missing_ranges).

Section iteration.
Context `{!MapIteration T_HeartbeatKey T_PendingHeartbeat.t}.

(** Send what waits under the keys; each is taken off before it is sent. *)
Fixpoint flush_keys (keys : list T_HeartbeatKey) : M t unit :=
  match keys with
  | [] => mret tt
  | key :: keys =>
      net ← get;
      match net.(pending_heartbeats_) !! key with
      | Some pending =>
          if negb pending.(T_PendingHeartbeat.dirty) then flush_keys keys
          else
            put (set_pending (<[key := T_PendingHeartbeat.initial]> net.(pending_heartbeats_)) net);;
            send key.1 (M_Heartbeat pending.(T_PendingHeartbeat.heartbeat));;
            flush_keys keys
      | None => flush_keys keys
      end
  end.

Definition dirty_keys (wanted : Z → bool) (net : t) : list T_HeartbeatKey :=
  (filter (λ '(key, pending), pending.(T_PendingHeartbeat.dirty) = true ∧ wanted key.1 = true)
     (iteration net.(pending_heartbeats_))).*1.

Definition flush_heartbeats (line_id : Z) : M t unit :=
  net ← get;
  flush_keys (dirty_keys (λ id, id =? line_id) net).

Definition flush_all_heartbeats : M t unit :=
  net ← get;
  flush_keys (dirty_keys (λ _, true) net).

Definition maybe_flush_heartbeat_batch (line_id : Z) (key : T_HeartbeatKey) : M t unit :=
  net ← get;
  if net.(heartbeat_ack_batch_size_) =? 0 then mret tt
  else
    match net.(pending_heartbeats_) !! key with
    | None => mret tt
    | Some pending =>
        if negb pending.(T_PendingHeartbeat.dirty) then mret tt
        else if zlen pending.(T_PendingHeartbeat.heartbeat).(T_Heartbeat.received_chunks) <?
                net.(heartbeat_ack_batch_size_) then mret tt
        else flush_heartbeats line_id
    end.

Definition queue_heartbeat (line_id : Z) (heartbeat : T_Heartbeat.t) : M t unit :=
  let key := (line_id, heartbeat.(T_Heartbeat.stream_id)) in
  net ← get;
  let pending := default T_PendingHeartbeat.initial (net.(pending_heartbeats_) !! key) in
  let heartbeat := if negb pending.(T_PendingHeartbeat.dirty) then heartbeat
                   else merge pending.(T_PendingHeartbeat.heartbeat) heartbeat in
  put (set_pending (<[key := T_PendingHeartbeat.mk heartbeat true]> net.(pending_heartbeats_)) net);;
  maybe_flush_heartbeat_batch line_id key.
End iteration.

(** *** Messages *)
Section callbacks.
Context {St : Type} `{Has St t} (message_callback_ : Z → T_Message → M St unit)
  (accepted_callback_ : Z → M St unit) (error_callback_ : Z → string → M St unit)
  (close_callback_ : Z → M St unit).

#[local] Instance state_has_lines : Has St T_ReceiverLineSet.t.
Proof.
  refine {| part s := (part s).(lines_); set_part l s := set_part (set_lines l (part s)) s |}.
  - intros. by rewrite part_set.
  - intros s. transitivity (set_part (part s) s); [|apply set_part_part]. f_equal. by destruct (part s).
  - intros. by rewrite part_set, set_part_set.
Defined.

Definition forget (line_id : Z) : M St unit :=
  modify (λ s, set_part (set_negotiated (delete line_id (part s).(negotiated_lines_)) (part s)) s).

(** The callbacks the constructor gives the lines. *)
Definition on_accepted (line_id : Z) : M St unit := forget line_id;; accepted_callback_ line_id.
Definition on_error (line_id : Z) (error : string) : M St unit := forget line_id;; error_callback_ line_id error.
Definition on_close (line_id : Z) : M St unit := forget line_id;; close_callback_ line_id.

Definition fail_protocol (line_id : Z) (error : string) : M St unit :=
  forget line_id;;
  T_ReceiverLineSet.close on_close line_id;;
  error_callback_ line_id error.

Definition handle_hello (line_id : Z) (hello : T_Hello.t) : M St unit :=
  net ← gets part;
  let result := negotiate_hello net.(local_hello_) hello EM_Role.SENDER in
  modify (set_part (set_negotiated (<[line_id := result]> net.(negotiated_lines_)) net));;
  if negb result.(T_NegotiationResult.ok)
  then fail_protocol line_id ("negotiation failed: " ++ result.(T_NegotiationResult.error))
  else on (send line_id (M_Hello net.(local_hello_))).

Definition handle_message (line_id : Z) (message : T_Message) : M St unit :=
  match message with
  | M_Hello hello => handle_hello line_id hello
  | _ =>
      net ← gets part;
      match net.(negotiated_lines_) !! line_id with
      | Some result =>
          if negb result.(T_NegotiationResult.ok)
          then fail_protocol line_id "business message before T_Hello negotiation"
          else message_callback_ line_id message
      | None => fail_protocol line_id "business message before T_Hello negotiation"
      end
  end.
End callbacks.
End T_ReceiverNetwork.

(** ** Negotiation *)
Module NegotiationFacts.
Import T_Hello.

(** What two hellos must have in common. *)
Definition compatible (a b : T_Hello.t) : Prop :=
  let features := Z.land a.(feature_flags) b.(feature_flags) in
  Z.max a.(min_version) b.(min_version) ≤ Z.min a.(max_version) b.(max_version) ∧
  kProtocolVersion ≤ Z.min a.(max_version) b.(max_version) ∧
  Z.land a.(required_feature_flags) features = a.(required_feature_flags) ∧
  Z.land b.(required_feature_flags) features = b.(required_feature_flags) ∧
  (EM_Compression.NONE ∈ a.(supported_compression) ∧ EM_Compression.NONE ∈ b.(supported_compression)) ∧
  (EM_ChecksumAlgo.CRC32C ∈ a.(supported_checksum) ∧ EM_ChecksumAlgo.CRC32C ∈ b.(supported_checksum)) ∧
  (a.(chunk_size) = 0 ∨ b.(chunk_size) = 0 ∨ a.(chunk_size) = b.(chunk_size)).

Lemma compatible_sym a b : compatible a b → compatible b a.
Proof.
  unfold compatible. rewrite (Z.max_comm b.(min_version)), (Z.min_comm b.(max_version)), (Z.land_comm b.(feature_flags)).
  intuition congruence.
Qed.

Lemma negotiate_ok a b role :
  (negotiate_hello a b role).(T_NegotiationResult.ok) = true ↔ b.(T_Hello.role) = role ∧ compatible a b.
Proof.
  unfold negotiate_hello, compatible.
  case_bool_decide as Hr; cbn [negb]; [|split; [done|intros [? _]; done]].
  destruct (Z.gtb_spec (Z.max a.(min_version) b.(min_version)) (Z.min a.(max_version) b.(max_version)));
    cbn [orb]; [split; [done|lia]|].
  destruct (Z.ltb_spec (Z.min a.(max_version) b.(max_version)) kProtocolVersion); [split; [done|lia]|].
  destruct (Z.eqb_spec (Z.land a.(required_feature_flags) (Z.land a.(feature_flags) b.(feature_flags)))
    a.(required_feature_flags)); cbn [negb]; [|split; [done|tauto]].
  destruct (Z.eqb_spec (Z.land b.(required_feature_flags) (Z.land a.(feature_flags) b.(feature_flags)))
    b.(required_feature_flags)); cbn [negb]; [|split; [done|tauto]].
  do 2 case_bool_decide; cbn [negb orb]; try (split; [done|tauto]).
  do 2 case_bool_decide; cbn [negb orb]; try (split; [done|tauto]).
  destruct (Z.eqb_spec a.(chunk_size) 0), (Z.eqb_spec b.(chunk_size) 0), (Z.eqb_spec a.(chunk_size) b.(chunk_size));
    cbn [negb andb]; (split; [intros _; split_and!; tauto|done]) || (split; [done|tauto]).
Qed.

Lemma negotiate_fields a b role :
  let r := negotiate_hello a b role in
  r.(T_NegotiationResult.ok) = true →
  r.(T_NegotiationResult.negotiated_version) = Z.min a.(max_version) b.(max_version) ∧
  r.(T_NegotiationResult.negotiated_features) = Z.land a.(feature_flags) b.(feature_flags) ∧
  r.(T_NegotiationResult.recv_window_bytes) = b.(max_inflight_bytes).
Proof. cbv zeta. unfold negotiate_hello. by repeat case_match. Qed.
End NegotiationFacts.

(** The two ends of a line agree on its negotiation: the sender accepts
    the receiver's hello exactly when the receiver accepts the sender's, and
    then both hold the same version, which each supports, and the same features,
    which contain those either requires, both can leave data uncompressed and
    check it with CRC-32C, and their chunk sizes do not differ. *)
Theorem negotiation_agrees (sender receiver : T_Hello.t) :
  sender.(T_Hello.role) = EM_Role.SENDER → receiver.(T_Hello.role) = EM_Role.RECEIVER →
  let s := negotiate_hello sender receiver EM_Role.RECEIVER in
  let r := negotiate_hello receiver sender EM_Role.SENDER in
  s.(T_NegotiationResult.ok) = r.(T_NegotiationResult.ok) ∧
  (s.(T_NegotiationResult.ok) = true →
   NegotiationFacts.compatible sender receiver ∧
   s.(T_NegotiationResult.negotiated_version) = r.(T_NegotiationResult.negotiated_version) ∧
   s.(T_NegotiationResult.negotiated_features) = r.(T_NegotiationResult.negotiated_features) ∧
   Z.max sender.(T_Hello.min_version) receiver.(T_Hello.min_version) ≤ s.(T_NegotiationResult.negotiated_version) ∧
   s.(T_NegotiationResult.negotiated_version) ≤ Z.min sender.(T_Hello.max_version) receiver.(T_Hello.max_version)).
Proof.
  intros Hs Hr s r. assert (s.(T_NegotiationResult.ok) = r.(T_NegotiationResult.ok)) as Heq.
  { apply eq_true_iff_eq. unfold s, r. rewrite !NegotiationFacts.negotiate_ok. split; intros [_ H];
      (split; [done|by apply NegotiationFacts.compatible_sym]). }
  split; [done|]. intros Hok. pose proof Hok as [_ Hc]%NegotiationFacts.negotiate_ok.
  destruct (NegotiationFacts.negotiate_fields sender receiver EM_Role.RECEIVER Hok) as (V1 & F1 & _).
  rewrite Heq in Hok. destruct (NegotiationFacts.negotiate_fields receiver sender EM_Role.SENDER Hok) as (V2 & F2 & _).
  fold s in V1, F1. fold r in V2, F2. split; [done|]. rewrite V1, V2, F1, F2.
  destruct Hc as [Hv _]. split_and!; [apply Z.min_comm|apply Z.land_comm|done|done].
Qed.

(** ** Heartbeats *)
Module HeartbeatFacts.
Import T_ReceiverNetwork.

(** The frames waiting to be written on a line. *)
Definition outbox (id : Z) (net : t) : list Bytes :=
  match T_ReceiverLineSet.find_index id net.(lines_) with
  | Some (_, line) =>
      match line.(ReceiverLine.connection) with
      | Some c => AsyncFrameConnection.PendingWrite.bytes <$> c.(AsyncFrameConnection.write_queue_)
      | None => []
      end
  | None => []
  end.

Lemma list_find_alter {A} (P : A → Prop) `{∀ x, Decision (P x)} (f : A → A) i l :
  (∀ x, P (f x) ↔ P x) →
  list_find P (alter f i l) = (λ '(j, x), (j, if decide (j = i) then f x else x)) <$> list_find P l.
Proof.
  intros Hf. revert i. induction l as [|x l IH]; intros i; [done|]. destruct i as [|i]; cbn.
  - destruct (decide (P x)) as [Hp|Hp].
    + rewrite decide_True by by apply Hf. done.
    + rewrite decide_False by by rewrite Hf. destruct (list_find P l) as [[j y]|]; done.
  - destruct (decide (P x)); [done|]. rewrite IH. destruct (list_find P l) as [[j y]|]; [|done].
    cbn. do 2 f_equal. by destruct (decide (j = i)), (decide (S j = S i)); try lia.
Qed.

Lemma update_write_queue m c c' :
  AsyncFrameConnection.send m c = Ret c' →
  c'.(AsyncFrameConnection.write_queue_) =
  c.(AsyncFrameConnection.write_queue_) ++ [AsyncFrameConnection.PendingWrite.mk (encode_frame m) 0].
Proof.
  unfold AsyncFrameConnection.send, AsyncFrameConnection.update_watch. destruct (AsyncFrameConnection.closed c); [done|].
  intros [= <-]. repeat case_match; done.
Qed.

Lemma send_spec id m net net' :
  send id m net = (Ret tt, net') →
  net' = set_lines net'.(lines_) net ∧
  ∀ l, outbox l net' = outbox l net ++ (if decide (l = id) then [encode_frame m] else []).
Proof.
  unfold send, on. change (part net) with (lines_ net). destruct (T_ReceiverLineSet.send id m (lines_ net)) as [r ls] eqn:E. intros [= -> <-].
  split; [done|]. intros l. unfold T_ReceiverLineSet.send in E. inv_bind.
  unfold T_ReceiverLineSet.find in E0.
  destruct (T_ReceiverLineSet.find_index id (lines_ net)) as [[i line]|] eqn:Hi; [|done]. injection E0 as <- <-.
  destruct line.(ReceiverLine.connection) as [c|] eqn:Hc; [|done].
  destruct (AsyncFrameConnection.closed c); [done|]. inv_bind. unfold lift_exc in E0. injection E0 as E0 <-.
  unfold T_ReceiverLineSet.update in E. rewrite Hi in E. injection E as <-.
  apply update_write_queue in E0. unfold outbox. cbn.
  unfold T_ReceiverLineSet.find_index in *. cbn. rewrite list_find_alter by done.
  destruct (decide (l = id)) as [->|Hne].
  - rewrite Hi. cbn. rewrite decide_True by done. cbn. rewrite Hc, E0, fmap_app. done.
  - rewrite app_nil_r.
    destruct (list_find (λ x, x.(ReceiverLine.endpoint).(T_LineEndpoint.id) = l) _) as [[j y]|] eqn:Hj; [|done]. cbn.
    destruct (decide (j = i)) as [->|]; [|done]. apply list_find_Some in Hi as (Hi & Hid & _), Hj as (Hj & Hjd & _).
    congruence.
Qed.

(** *** What waits and what is sent *)
Definition waiting (key : T_HeartbeatKey) (net : t) : list T_ReceivedChunk.t :=
  match net.(pending_heartbeats_) !! key with
  | Some p => if p.(T_PendingHeartbeat.dirty)
              then p.(T_PendingHeartbeat.heartbeat).(T_Heartbeat.received_chunks) else []
  | None => []
  end.

Abbreviation sending := (Z * T_Heartbeat.t)%type.

Definition of_key (key : T_HeartbeatKey) (s : sending) : Prop := (s.1, s.2.(T_Heartbeat.stream_id)) = key.
#[export] Instance of_key_dec key s : Decision (of_key key s).
Proof. unfold of_key. apply _. Defined.
Definition chunks_of (key : T_HeartbeatKey) (ss : list sending) : list T_ReceivedChunk.t :=
  concat ((λ s : sending, if decide (of_key key s) then s.2.(T_Heartbeat.received_chunks) else []) <$> ss).
Definition frames_on (line : Z) (ss : list sending) : list Bytes :=
  concat ((λ s : sending, if decide (s.1 = line) then [encode_frame (M_Heartbeat s.2)] else []) <$> ss).

(** Entries are filed under their stream. *)
Definition filed (net : t) : Prop :=
  ∀ key p, net.(pending_heartbeats_) !! key = Some p → p.(T_PendingHeartbeat.dirty) = true →
    p.(T_PendingHeartbeat.heartbeat).(T_Heartbeat.stream_id) = key.2.

(** From [net] to [net'] the heartbeats [ss] have been handed to the lines
    and the chunks [queued] have been taken in; none is lost. *)
Definition carries (net net' : t) (queued : T_HeartbeatKey → list T_ReceivedChunk.t) (ss : list sending) : Prop :=
  filed net' ∧ (∀ l, outbox l net' = outbox l net ++ frames_on l ss) ∧
  ∀ key, chunks_of key ss ++ waiting key net' = waiting key net ++ queued key.

Lemma carries_refl net : filed net → carries net net (λ _, []) [].
Proof.
  intros Hf. split_and!; [done|intros l|intros key]; cbn.
  - by rewrite app_nil_r.
  - by rewrite app_nil_r.
Qed.

Lemma carries_trans n1 n2 n3 q1 q2 s1 s2 :
  carries n1 n2 q1 s1 → carries n2 n3 q2 s2 → carries n1 n3 (λ k, q1 k ++ q2 k) (s1 ++ s2).
Proof.
  intros (_ & O1 & W1) (F2 & O2 & W2). split_and!; [done|intros l|intros key].
  - rewrite O2, O1. unfold frames_on. by rewrite fmap_app, concat_app, app_assoc.
  - unfold chunks_of in *. rewrite fmap_app, concat_app, <- app_assoc, W2, app_assoc, W1. by rewrite app_assoc.
Qed.

Lemma flush_keys_carries keys net net' :
  filed net → flush_keys keys net = (Ret tt, net') → ∃ ss, carries net net' (λ _, []) ss.
Proof.
  revert net. induction keys as [|key keys IH]; intros net Hf; cbn [flush_keys].
  { intros [= <-]. exists []. by apply carries_refl. }
  unfold mbind at 1, M_bind at 1, get. destruct (net.(pending_heartbeats_) !! key) as [p|] eqn:Hp; [|by apply IH].
  destruct p.(T_PendingHeartbeat.dirty) eqn:Hd; cbn [negb]; [|by apply IH]. intros H. inv_bind.
  unfold put in E. injection E as <- <-. destruct a0.
  apply send_spec in E0 as [Hn Ho]. rename s0 into net2.
  set (net1 := set_pending (<[key := T_PendingHeartbeat.initial]> net.(pending_heartbeats_)) net) in *.
  assert (net2.(pending_heartbeats_) = <[key := T_PendingHeartbeat.initial]> net.(pending_heartbeats_)) as Hpend
    by (by rewrite Hn).
  pose proof (Hf key p Hp Hd) as Hstream.
  assert (carries net net2 (λ _, []) [(key.1, p.(T_PendingHeartbeat.heartbeat))]) as H1.
  { split_and!.
    - intros k q. rewrite Hpend, lookup_insert_Some. intros [[<- <-]|[_ Hq]]; [done|by apply Hf].
    - intros l. rewrite Ho. unfold frames_on. cbn. rewrite app_nil_r.
      destruct (decide (l = key.1)), (decide (key.1 = l)); done || congruence.
    - intros k. unfold chunks_of, waiting. cbn. rewrite Hpend, !app_nil_r.
      assert (of_key k (key.1, p.(T_PendingHeartbeat.heartbeat)) ↔ key = k) as Hk
        by (unfold of_key; cbn; by rewrite Hstream, <- surjective_pairing).
      destruct (decide (key = k)) as [<-|Hne].
      + rewrite decide_True by by apply Hk. rewrite lookup_insert_eq, Hp, Hd. by rewrite app_nil_r.
      + rewrite decide_False by by rewrite Hk. by rewrite lookup_insert_ne. }
  destruct (IH net2 (proj1 H1) H) as (ss & H2). eexists. apply (carries_trans _ _ _ _ _ _ _ H1 H2).
Qed.

Section runs.
Context `{!MapIteration T_HeartbeatKey T_PendingHeartbeat.t}.

Inductive op :=
  | Queue (line_id : Z) (heartbeat : T_Heartbeat.t)
  | Flush (line_id : Z)
  | FlushAll.

Definition run_op (o : op) : M t unit :=
  match o with
  | Queue line_id heartbeat => queue_heartbeat line_id heartbeat
  | Flush line_id => flush_heartbeats line_id
  | FlushAll => flush_all_heartbeats
  end.

Fixpoint run_ops (ops : list op) : M t unit :=
  match ops with
  | [] => mret tt
  | o :: ops => run_op o;; run_ops ops
  end.

Definition queued_by (key : T_HeartbeatKey) (o : op) : list T_ReceivedChunk.t :=
  match o with
  | Queue line_id hb => if decide ((line_id, hb.(T_Heartbeat.stream_id)) = key)
                        then hb.(T_Heartbeat.received_chunks) else []
  | _ => []
  end.

Lemma flush_carries wanted net net' :
  filed net → flush_keys (dirty_keys wanted net) net = (Ret tt, net') → ∃ ss, carries net net' (λ _, []) ss.
Proof. apply flush_keys_carries. Qed.

Lemma maybe_flush_carries line key net net' :
  filed net → maybe_flush_heartbeat_batch line key net = (Ret tt, net') → ∃ ss, carries net net' (λ _, []) ss.
Proof.
  intros Hf. unfold maybe_flush_heartbeat_batch, mbind, M_bind, get.
  assert ((Ret tt, net) = (Ret tt, net') → ∃ ss, carries net net' (λ _, []) ss) as Hsame.
  { intros [= <-]. exists []. by apply carries_refl. }
  destruct (_ =? 0); [done|]. destruct (_ !! key) as [p|]; [|done].
  destruct (negb _); [done|]. destruct (_ <? _); [done|]. by apply flush_carries.
Qed.

Lemma queue_carries line hb net net' :
  filed net → queue_heartbeat line hb net = (Ret tt, net') →
  ∃ ss, carries net net' (λ key, queued_by key (Queue line hb)) ss.
Proof.
  intros Hf H. unfold queue_heartbeat in H. inv_bind. unfold get in E. injection E as <- <-.
  unfold put in E0. injection E0 as <- <-. set (key := (line, hb.(T_Heartbeat.stream_id))) in *.
  set (p := default T_PendingHeartbeat.initial (net.(pending_heartbeats_) !! key)) in *.
  set (hb' := if negb p.(T_PendingHeartbeat.dirty) then hb else merge p.(T_PendingHeartbeat.heartbeat) hb) in *.
  set (net1 := set_pending _ net) in *.
  assert (carries net net1 (λ key, queued_by key (Queue line hb)) []) as H1.
  { split_and!.
    - intros k q. unfold net1. cbn. rewrite lookup_insert_Some. intros [[<- <-]|[_ Hq]]; [|by apply Hf].
      intros _. unfold hb'. cbn. by destruct (negb _).
    - intros l. cbn. by rewrite app_nil_r.
    - intros k. unfold waiting, net1. cbn. fold key. destruct (decide (key = k)) as [<-|Hne].
      + rewrite lookup_insert_eq. cbn. unfold hb', p.
        destruct (net.(pending_heartbeats_) !! key) as [q|]; [|done]. cbn. by destruct q.(T_PendingHeartbeat.dirty).
      + by rewrite lookup_insert_ne, app_nil_r. }
  destruct (maybe_flush_carries line key net1 net' (proj1 H1) H) as (ss & H2). exists ss.
  destruct (carries_trans _ _ _ _ _ _ _ H1 H2) as (F & O & W). split_and!; [done|done|].
  intros k. by rewrite W, app_nil_r.
Qed.

Lemma run_op_carries o net net' :
  filed net → run_op o net = (Ret tt, net') → ∃ ss, carries net net' (λ key, queued_by key o) ss.
Proof. destruct o; cbn [run_op queued_by]; [by apply queue_carries|apply flush_carries|apply flush_carries]. Qed.

End runs.
End HeartbeatFacts.
Import HeartbeatFacts.

(** C32: No acknowledgement is lost or doubled between the receiver and its
    lines: over any run of heartbeats queued and flushed that no closed line
    interrupts, the heartbeats written to the lines are such that, for every
    line and stream, the chunks they report followed by those still waiting are
    the chunks reported to the network, in order, each as often as it was; and
    nothing else is written. *)
Theorem heartbeats_complete `{!MapIteration T_ReceiverNetwork.T_HeartbeatKey T_PendingHeartbeat.t}
    (net net' : T_ReceiverNetwork.t) (ops : list op) :
  net.(T_ReceiverNetwork.pending_heartbeats_) = ∅ → run_ops ops net = (Ret tt, net') →
  ∃ ss, (∀ line, outbox line net' = outbox line net ++ frames_on line ss) ∧
    ∀ key, chunks_of key ss ++ waiting key net' = concat (queued_by key <$> ops).
Proof.
  intros Hempty Hrun.
  assert (filed net) as Hf by (intros key p; by rewrite Hempty, lookup_empty).
  assert (∃ ss, carries net net' (λ key, concat (queued_by key <$> ops)) ss) as (ss & _ & Ho & Hw).
  { clear Hempty. revert net Hf Hrun. induction ops as [|o ops IH]; intros net Hf Hrun.
    - injection Hrun as <-. exists []. by apply carries_refl.
    - cbn [run_ops] in Hrun. inv_bind. destruct a. destruct (run_op_carries o net s Hf E) as (s1 & H1).
      destruct (IH s (proj1 H1) Hrun) as (s2 & H2). eexists. apply (carries_trans _ _ _ _ _ _ _ H1 H2). }
  exists ss. split; [done|]. intros key. rewrite Hw. unfold waiting. by rewrite Hempty, lookup_empty.
Qed.

(** ** Examples *)
Lemma negotiation_agrees_witness :
  (negotiate_hello (make_hello EM_Role.SENDER "a" 65536 9) (make_hello EM_Role.RECEIVER "b" 65536 7)
     EM_Role.RECEIVER).(T_NegotiationResult.ok) =
  (negotiate_hello (make_hello EM_Role.RECEIVER "b" 65536 7) (make_hello EM_Role.SENDER "a" 65536 9)
     EM_Role.SENDER).(T_NegotiationResult.ok).
Proof.
  apply (negotiation_agrees (make_hello EM_Role.SENDER "a" 65536 9) (make_hello EM_Role.RECEIVER "b" 65536 7));
    reflexivity.
Defined.

#[local] Existing Instance some_order.
Definition sample_endpoint : T_LineEndpoint.t :=
  T_LineEndpoint.mk 1 EM_Protocol.TCP (Endpoint.mk "h" 19000) "tcp-line-1".
Definition sample_receiver : T_ReceiverNetwork.t :=
  T_ReceiverNetwork.mk
    (T_ReceiverLineSet.mk_lines 1024
       [ReceiverLine.mk sample_endpoint true (Some (AsyncFrameConnection.mk 5 1024 None [] [] [] []))])
    (make_hello EM_Role.RECEIVER "b" 65536 7) ∅ ∅ 2.
Definition sample_beat (index : Z) : T_Heartbeat.t :=
  T_Heartbeat.mk 7 1 4 0 0 100 [T_ReceivedChunk.mk 1 4 index] [].

Lemma heartbeats_complete_witness :
  ∃ net', run_ops [Queue 1 (sample_beat 0); Queue 1 (sample_beat 1); Queue 1 (sample_beat 2)] sample_receiver =
    (Ret tt, net') ∧ waiting (1, 7) net' = [T_ReceivedChunk.mk 1 4 2] ∧
    ∃ ss, ∀ line, outbox line net' = outbox line sample_receiver ++ frames_on line ss.
Proof.
  destruct (run_ops [Queue 1 (sample_beat 0); Queue 1 (sample_beat 1); Queue 1 (sample_beat 2)] sample_receiver)
    as [r net'] eqn:E.
  assert (r = Ret tt) as -> by (apply (f_equal fst) in E; vm_compute in E; congruence).
  exists net'. split; [reflexivity|]. split.
  - apply (f_equal (λ x, waiting (1, 7) (snd x))) in E. vm_compute in E. vm_compute. congruence.
  - destruct (heartbeats_complete sample_receiver net'
      [Queue 1 (sample_beat 0); Queue 1 (sample_beat 1); Queue 1 (sample_beat 2)] eq_refl E) as (ss & H & _).
    exists ss. exact H.
Defined.

(** A heartbeat that meets a closed line is taken off before the send fails,
    and those of the other lines are not sent. *)
Lemma flush_all_stops_at_closed_line :
  let net := T_ReceiverNetwork.mk (T_ReceiverLineSet.mk_lines 1024 [ReceiverLine.mk sample_endpoint true None])
    (make_hello EM_Role.RECEIVER "b" 65536 7) ∅
    {[ (1, 7) := T_PendingHeartbeat.mk (sample_beat 0) true ]} 2 in
  let '(r, net') := T_ReceiverNetwork.flush_all_heartbeats net in
  r = Throw "receiver line has no active connection" ∧ waiting (1, 7) net' = [].
Proof. vm_compute. split; reflexivity. Qed.
