(* ===== verification/NodeCommon.v ===== *)
(** * The node: [include/node/yisync_node_common.hpp], [src/node/yisync_node_common.cpp]

    The options of a node with their defaults, the messages made from file
    bytes, and the options read from a configuration text. *)
From Stdlib Require Import Ascii.
From S2P Require Import Prelude Crc32c Filesystem Wire Protocol Framing Sync Scheduler Network.
#[local] Open Scope Z_scope.

Definition kStreamId : Z := 9001.
Definition kSeq : Z := 1.
Definition kFileId : Z := 1.
Definition kLineBudgetBytes : Z := 96 * 1024.
Definition kLineWindowBytes : Z := 2 * kLineBudgetBytes.
Definition kMaxFrameBytes : Z := 1024 * 1024.

Module EM_WatchBackend.
Inductive t := AUTO | POLLING | INOTIFY | FSEVENTS.
End EM_WatchBackend.

Module T_StreamRootConfig.
Record t := mk { stream_id : Z; root : path; entry_name_regex : string }.
End T_StreamRootConfig.

Module T_NodeOptions.
Record t := mk {
  mode : string; host : string; base_port : Z; lines : Z; size : Z; root : path; source_root : path;
  drop_line_once : Z; config_path : path; source_streams : list T_StreamRootConfig.t;
  line_endpoints : list T_LineEndpoint.t; line_configs : list T_LineConfig.t;
  compression : EM_Compression.t; checksum_algo : EM_ChecksumAlgo.t; recv_window_bytes : Z; chunk_size : Z;
  heartbeat_timeout_ticks : Z; chunk_retransmit_ticks : Z; max_retransmit_retries : Z;
  max_manifest_recovery_attempts : Z; max_missing_ranges_per_heartbeat : Z; heartbeat_ack_batch_size : Z;
  reconnect_base_delay_ms : Z; reconnect_max_delay_ms : Z; receiver_heartbeat_interval : Z;
  receiver_commit_poll_interval : Z; watch : bool; watch_backend : EM_WatchBackend.t;
  watch_poll_interval : Z; watch_rescan_debounce : Z
}.
(** [temp_directory_path()] is the caller's. *)
Definition defaults (temp_directory : path) : t :=
  mk "" "127.0.0.1" 19000 2 (150 * 1024) (temp_directory ++ ["yisync_ab_receiver"]) [] 0 [] [] [] []
    EM_Compression.NONE EM_ChecksumAlgo.CRC32C kLineWindowBytes kDefaultChunkSizeBytes 300 100 5 3 64 20
    100 2000 50 2 false EM_WatchBackend.AUTO 500 200.
End T_NodeOptions.

Definition make_sender_bytes (size : Z) : Bytes :=
  (λ i, byte_of_Z (65 + i mod 26)) <$> seqZ 0 size.

(** [open(p, O_RDONLY)], then [fsync] of the descriptor. *)
Definition open_rdonly (p : path) : IO unit :=
  syscall (λ t, match status t p with Ok _ => Ok (tt, t) | Err e => Err e end).
Definition fsync_fd : IO unit := syscall (λ t, Ok (tt, t)).

Definition fsync_file_for_durable_offset (p : path) : M fsys unit :=
  opened ← with_ec (open_rdonly p);
  match opened with
  | Err _ => throw ("failed to open append file for fsync: " ++ generic_string p)
  | Ok _ => or_throw "failed to fsync append file: " fsync_fd
  end.

(** [directory_iterator(p)]: the names in a directory, in some order. *)
Definition list_directory (p : path) : IO (list string) :=
  syscall (λ t, match resolve t p with
                | Err e => Err e
                | Ok q =>
                    match node_at t q with
                    | Some Dir => Ok (omap (λ e, match e.1 with [name] => Some name | _ => None end)
                                        (descendants t q), t)
                    | Some _ => Err ENOTDIR
                    | None => Err ENOENT
                    end
                end).

(** [entry.is_directory()]: a missing file is not an error. *)
Definition is_directory (p : path) : IO bool :=
  syscall (λ t, match status t p with
                | Ok Dir => Ok (true, t)
                | Ok _ | Err (ENOENT | ENOTDIR) => Ok (false, t)
                | Err e => Err e
                end).

(** [path.filename()]. *)
Definition filename (p : path) : string := default ""%string (last p).

Definition parse_u64_text (text : string) : option Z :=
  if bool_decide (text = ""%string) then None else from_chars 0 text.

Definition parse_stream_dir_name (p : path) : option Z := parse_u64_text (filename p).

Definition line_port (options : T_NodeOptions.t) (line_id : Z) : Z :=
  u16 (options.(T_NodeOptions.base_port) + line_id - 1).

Definition chunk_send_order (chunk_count : Z) : list Z :=
  if chunk_count =? 0 then [] else (chunk_count - 1) :: seqZ 0 (chunk_count - 1).

Definition encoded_message_size (message : T_Message) : Z := zlen (encode_frame message).

Definition line_name (i : Z) : string := "tcp-line-" ++ to_string i.

Definition make_line_config (options : T_NodeOptions.t) (budget i : Z) : T_LineConfig.t :=
  T_LineConfig.mk i (line_name i) (T_TokenBucketConfig.mk budget budget 10)
    options.(T_NodeOptions.recv_window_bytes) options.(T_NodeOptions.heartbeat_timeout_ticks) false.

Definition make_line_configs (options : T_NodeOptions.t) : list T_LineConfig.t :=
  match options.(T_NodeOptions.line_configs) with
  | [] => make_line_config options kLineBudgetBytes <$> seqZ 1 options.(T_NodeOptions.lines)
  | configs => configs
  end.

Definition make_line_endpoints (options : T_NodeOptions.t) : list T_LineEndpoint.t :=
  match options.(T_NodeOptions.line_endpoints) with
  | [] => (λ i, T_LineEndpoint.mk i EM_Protocol.TCP
                  (Endpoint.mk options.(T_NodeOptions.host) (line_port options i)) (line_name i))
            <$> seqZ 1 options.(T_NodeOptions.lines)
  | endpoints => endpoints
  end.

Section messages.
Context {CRC : Crc32c}.

Definition full_crc32c_checksum (bytes : Bytes) : T_FileChecksum.t :=
  T_FileChecksum.mk EM_ChecksumAlgo.CRC32C 0 (zlen bytes) (crc32c_bytes bytes).

Definition make_chunk_from_payload (stream_id seq file_id chunk_index : Z) (payload : Bytes) (chunk_size : Z)
    : T_Chunk.t :=
  T_Chunk.mk stream_id seq file_id chunk_index (u64 (chunk_index * chunk_size)) (u32 (zlen payload))
    EM_Compression.NONE EM_ChecksumAlgo.CRC32C (crc32c_bytes payload) payload.

Definition make_data_from_payload (stream_id file_id seq offset final_size : Z) (payload : Bytes) : T_Data.t :=
  T_Data.mk stream_id seq file_id offset final_size (u32 (zlen payload)) EM_Compression.NONE
    EM_ChecksumAlgo.CRC32C (crc32c_bytes payload) payload.
End messages.
