(* ===== verification/Config.v ===== *)
(** * The configuration: [src/node/yisync_node_common.cpp]

    The text of a configuration file and the command line become the options of
    a node: the lexical helpers, the sections and keys, the checks of the
    runtime settings and the endpoint and budget of every line. *)
From Stdlib Require Import Ascii.
From S2P Require Import Prelude Crc32c Filesystem Wire Protocol Framing Sync Scheduler Network NodeCommon.
#[local] Open Scope Z_scope.

(** ** Text *)
Abbreviation text := (list ascii).
Definition chars (s : string) : text := String.list_ascii_of_string s.
Definition str (l : text) : string := String.string_of_list_ascii l.

Definition char_code (c : ascii) : Z := Z.of_nat (nat_of_ascii c).

(** [std::isspace] and [std::tolower] of the C locale. *)
Definition isspace (c : ascii) : bool := ((9 <=? char_code c) && (char_code c <=? 13)) || (char_code c =? 32).
Definition tolower (c : ascii) : ascii :=
  if (65 <=? char_code c) && (char_code c <=? 90) then ascii_of_nat (Z.to_nat (char_code c + 32)) else c.
Definition isdigit (c : ascii) : bool := bool_decide (is_Some (digit_value c)).

Fixpoint skip_spaces (l : text) : text :=
  match l with
  | [] => []
  | c :: l' => if isspace c then skip_spaces l' else l
  end.
Definition trim_text (l : text) : text := reverse (skip_spaces (reverse (skip_spaces l))).
Definition trim (s : string) : string := str (trim_text (chars s)).

Definition lower_text (l : text) : text := tolower <$> l.
Definition lower_ascii (s : string) : string := str (lower_text (chars s)).

(** The text between a first character [a] and a last character [b]. *)
Definition inside (a b : ascii) (l : text) : option text :=
  match l with
  | c :: ((_ :: _) as rest) =>
      if bool_decide (c = a) && bool_decide (last rest = Some b) then Some (removelast rest) else None
  | _ => None
  end.

Definition strip_braces (l : text) : text :=
  let value := trim_text l in
  match inside "{" "}" value with Some inner => trim_text inner | None => value end.

(** The text before the first [#] or [;] outside quotes; [previous] is the
    character before, [quote] the open quote. *)
Fixpoint before_comment (previous quote : option ascii) (l : text) : text :=
  match l with
  | [] => []
  | ch :: l =>
      if (bool_decide (ch = "034"%char) || bool_decide (ch = "'"%char)) &&
         negb (bool_decide (previous = Some "092"%char))
      then
        let quote := match quote with
                     | None => Some ch
                     | Some q => if bool_decide (q = ch) then None else Some q
                     end in
        ch :: before_comment (Some ch) quote l
      else if bool_decide (quote = None) && (bool_decide (ch = "#"%char) || bool_decide (ch = ";"%char))
      then []
      else ch :: before_comment (Some ch) quote l
  end.
Definition strip_inline_comment (l : text) : text := trim_text (before_comment None None l).

(** The pieces between the separators. *)
Fixpoint split_on (sep : ascii) (l : text) : list text :=
  match l with
  | [] => [[]]
  | c :: l =>
      if bool_decide (c = sep) then [] :: split_on sep l
      else match split_on sep l with
           | [] => [[c]]
           | piece :: pieces => (c :: piece) :: pieces
           end
  end.

(** The text before the first separator, and what follows it. *)
Fixpoint find_char (sep : ascii) (l : text) : option (text * text) :=
  match l with
  | [] => None
  | c :: l =>
      if bool_decide (c = sep) then Some ([], l)
      else '(before, after) ← find_char sep l; Some (c :: before, after)
  end.

(** An item without its quotes. *)
Definition unquote (item : text) : text :=
  match or_else (inside "034" "034" item) (inside "'" "'" item) with Some inner => inner | None => item end.

Definition split_list (value : string) : list string :=
  str <$> filter (λ item, item ≠ []) ((λ piece, unquote (trim_text piece)) <$> split_on "," (strip_braces (chars value))).

(** ** Values *)
Definition parse_u64_strict (value : string) : option Z := parse_u64_text (trim value).

Definition multiplier (suffix : string) : option Z :=
  if bool_decide (suffix = ""%string) then Some 1
  else if bool_decide (suffix ∈ ["k"; "kb"; "ki"; "kib"]%string) then Some 1024
  else if bool_decide (suffix ∈ ["m"; "mb"; "mi"; "mib"]%string) then Some (1024 * 1024)
  else if bool_decide (suffix ∈ ["g"; "gb"; "gi"; "gib"]%string) then Some (1024 * 1024 * 1024)
  else None.

(** The digits at the front, and the rest. *)
Fixpoint digits (l : text) : text * text :=
  match l with
  | [] => ([], [])
  | c :: l' => if isdigit c then let '(d, rest) := digits l' in (c :: d, rest) else ([], l)
  end.

(** The suffix without a last [b]. *)
Definition drop_b (suffix : text) : text :=
  if bool_decide (last suffix = Some "b"%char) then removelast suffix else suffix.

Definition parse_size_bytes (value : string) : option Z :=
  let value := trim_text (chars value) in
  if bool_decide (value = []) then None
  else
    let value := filter (λ c, c ≠ "_"%char) value in
    let '(number, rest) := digits value in
    if bool_decide (number = []) then None
    else
      number ← parse_u64_strict (str number);
      let suffix := drop_b (lower_text (trim_text rest)) in
      m ← multiplier (str suffix);
      if number >? UINT64_MAX / m then None else Some (number * m).

Definition checked_port (value : Z) (key : string) : exc Z :=
  if (value =? 0) || (value >? 65535) then Throw (key ++ " must be in range 1..65535") else Ret value.

Definition parse_compression (value : string) : exc EM_Compression.t :=
  let text := lower_ascii (trim value) in
  if bool_decide (text ∈ [""; "none"; "off"; "false"; "0"]%string) then Ret EM_Compression.NONE
  else if bool_decide (text = "lz4"%string) then Ret EM_Compression.LZ4
  else if bool_decide (text = "zstd"%string) then Ret EM_Compression.ZSTD
  else Throw ("unsupported compression in config: " ++ value).

Definition parse_checksum (value : string) : exc EM_ChecksumAlgo.t :=
  let text := lower_ascii (trim value) in
  if bool_decide (text ∈ [""; "crc32c"; "crc"]%string) then Ret EM_ChecksumAlgo.CRC32C
  else if bool_decide (text ∈ ["none"; "off"; "false"; "0"]%string) then Ret EM_ChecksumAlgo.NONE
  else if bool_decide (text = "md5"%string) then Ret EM_ChecksumAlgo.MD5
  else Throw ("unsupported checksum in config: " ++ value).

Definition parse_bool (value : string) : exc bool :=
  let text := lower_ascii (trim value) in
  if bool_decide (text ∈ ["1"; "true"; "yes"; "on"]%string) then Ret true
  else if bool_decide (text ∈ ["0"; "false"; "no"; "off"]%string) then Ret false
  else Throw ("bad boolean value in config: " ++ value).

Definition parse_watch_backend (value : string) : exc EM_WatchBackend.t :=
  let text := lower_ascii (trim value) in
  if bool_decide (text ∈ [""; "auto"]%string) then Ret EM_WatchBackend.AUTO
  else if bool_decide (text ∈ ["polling"; "poll"]%string) then Ret EM_WatchBackend.POLLING
  else if bool_decide (text = "inotify"%string) then Ret EM_WatchBackend.INOTIFY
  else if bool_decide (text ∈ ["fsevents"; "fsevent"]%string) then Ret EM_WatchBackend.FSEVENTS
  else Throw ("unsupported watch backend in config: " ++ value).

(** ** Sections and keys *)
Module T_IniConfig.
Record t := mk { values : gmap string (gmap string string) }.
Definition get (section key : string) (c : t) : option string :=
  keys ← c.(values) !! lower_ascii section;
  keys !! lower_ascii key.
Fixpoint get_any (section : string) (keys : list string) (c : t) : option string :=
  match keys with
  | [] => None
  | key :: keys => or_else (get section key c) (get_any section keys c)
  end.
(** [values[section][key] = value] *)
Definition set (section key value : string) (c : t) : t :=
  mk (<[section := <[key := value]> (default ∅ (c.(values) !! section))]> c.(values)).
End T_IniConfig.

(** The lines [std::getline] yields. *)
Definition file_lines (data : text) : list text :=
  let pieces := split_on "010" data in
  if bool_decide (last pieces = Some []) then removelast pieces else pieces.

(** One line: the section it opens or stays in, and the configuration. *)
Definition read_line (line_no : Z) (line : text) (st : string * T_IniConfig.t) : exc (string * T_IniConfig.t) :=
  let '(section, config) := st in
  let text := strip_inline_comment line in
  if bool_decide (text = []) then Ret st
  else
    match inside "[" "]" text with
    | Some name =>
        let section := str (lower_text (trim_text name)) in
        if bool_decide (section = ""%string) then Throw ("empty config section at line " ++ to_string line_no)
        else Ret (section, config)
    | None =>
        match find_char "=" text with
        | None => Throw ("bad config line " ++ to_string line_no ++ ": " ++ str text)
        | Some (before, after) =>
            if bool_decide (section = ""%string)
            then Throw ("config key before section at line " ++ to_string line_no)
            else
              let key := str (lower_text (trim_text before)) in
              if bool_decide (key = ""%string) then Throw ("empty config key at line " ++ to_string line_no)
              else Ret (section, T_IniConfig.set section key (str (trim_text after)) config)
        end
    end.

Fixpoint read_lines (line_no : Z) (lines : list text) (st : string * T_IniConfig.t) : exc T_IniConfig.t :=
  match lines with
  | [] => Ret st.2
  | line :: lines =>
      st ← read_line (u64 (line_no + 1)) line st;
      read_lines (u64 (line_no + 1)) lines st
  end.

Definition parse_ini (data : Bytes) : exc T_IniConfig.t :=
  read_lines 0 (file_lines (chars (String.string_of_list_byte data))) (""%string, T_IniConfig.mk ∅).

(** A directory opens, and has no lines. *)
Definition open_text (p : path) : IO Bytes :=
  syscall (λ t, match status t p with
                | Ok (File data) => Ok (data, t) | Ok _ => Ok ([], t) | Err e => Err e
                end).

Definition load_ini_config (p : path) : M fsys T_IniConfig.t := λ w,
  match open_text p w with
  | (Ok data, w) => (parse_ini data, w)
  | (Err _, w) => (Throw ("failed to open config: " ++ generic_string p), w)
  end.

(** ** Lines *)
Definition bad_port (part : string) : string := "bad port value in config: " ++ part.

Fixpoint checked_ports (parts : list string) : exc (list Z) :=
  match parts with
  | [] => Ret []
  | part :: parts =>
      match parse_u64_strict part with
      | None => Throw (bad_port part)
      | Some value =>
          port ← checked_port value "port";
          ports ← checked_ports parts;
          Ret (port :: ports)
      end
  end.

Definition parse_ports (config : T_IniConfig.t) (mode : string) (fallback_base_port : Z) : exc (list Z) :=
  match T_IniConfig.get_any "common" ["ports"; "line_ports"] config with
  | Some ports_text => checked_ports (split_list ports_text)
  | None =>
      match T_IniConfig.get_any mode ["port"] config with
      | Some port_value =>
          if bool_decide (trim port_value = ""%string) then Ret [fallback_base_port]
          else
            let parts := split_list port_value in
            if zlen parts >? 1 then checked_ports parts
            else
              match parse_u64_strict port_value with
              | None => Throw (bad_port port_value)
              | Some base => base ← checked_port base "port"; Ret [base]
              end
      | None => Ret [fallback_base_port]
      end
  end.

Definition parse_line_hosts (config : T_IniConfig.t) (options : T_NodeOptions.t) : list string :=
  match T_IniConfig.get_any "common" ["ips"; "hosts"; "line_ips"] config with
  | Some hosts => split_list hosts
  | None =>
      match T_IniConfig.get_any options.(T_NodeOptions.mode) ["ip"; "ips"; "host"; "hosts"] config with
      | Some hosts => split_list hosts
      | None => [options.(T_NodeOptions.host)]
      end
  end.

Fixpoint checked_limits (parts : list string) : exc (list Z) :=
  match parts with
  | [] => Ret []
  | part :: parts =>
      match parse_size_bytes part with
      | Some value =>
          if value =? 0 then Throw ("bad Bandwidth_Limit value in config: " ++ part)
          else limits ← checked_limits parts; Ret (value :: limits)
      | None => Throw ("bad Bandwidth_Limit value in config: " ++ part)
      end
  end.

Definition parse_bandwidth_limits (config : T_IniConfig.t) : exc (list Z) :=
  match T_IniConfig.get_any "common" ["bandwidth_limit"; "bandwidth_limits"; "line_limits"] config with
  | None => Ret []
  | Some text => checked_limits (split_list text)
  end.

(** ** Settings

    Each answers whether the key was set, with the new value of the target. *)
Definition apply_size_option (config : T_IniConfig.t) (keys : list string) (target : Z) : exc (bool * Z) :=
  match T_IniConfig.get_any "common" keys config with
  | None => Ret (false, target)
  | Some text =>
      if bool_decide (trim text = ""%string) then Ret (false, target)
      else
        match parse_size_bytes text with
        | Some value => if value =? 0 then Throw ("bad size value in config: " ++ text) else Ret (true, value)
        | None => Throw ("bad size value in config: " ++ text)
        end
  end.

Definition apply_u64_option (config : T_IniConfig.t) (keys : list string) (target : Z) : exc (bool * Z) :=
  match T_IniConfig.get_any "common" keys config with
  | None => Ret (false, target)
  | Some text =>
      if bool_decide (trim text = ""%string) then Ret (false, target)
      else
        match parse_u64_strict text with
        | Some value => Ret (true, value)
        | None => Throw ("bad integer value in config: " ++ text)
        end
  end.

Definition apply_ms_option (config : T_IniConfig.t) (keys : list string) (target : Z) : exc (bool * Z) :=
  '(found, value) ← apply_u64_option config keys 0;
  if negb found then Ret (false, target)
  else if (value =? 0) || (value >? 9223372036854775807)
  then Throw "millisecond config value must be positive and in range"
  else Ret (true, value).

(** The options [apply_runtime_config] sets. *)
Module Runtime.
Record t := mk {
  recv_window_bytes : Z; chunk_size : Z; heartbeat_timeout_ticks : Z; chunk_retransmit_ticks : Z;
  max_retransmit_retries : Z; max_manifest_recovery_attempts : Z; max_missing_ranges_per_heartbeat : Z;
  heartbeat_ack_batch_size : Z; reconnect_base_delay_ms : Z; reconnect_max_delay_ms : Z;
  receiver_heartbeat_interval : Z; receiver_commit_poll_interval : Z; watch_poll_interval : Z;
  watch_rescan_debounce : Z
}.
End Runtime.

Definition read_runtime (o : T_NodeOptions.t) (config : T_IniConfig.t) : exc (bool * Runtime.t) :=
  '(recv_window_configured, recv_window_bytes) ← apply_size_option config
     ["recv_window"; "recv_window_bytes"; "receive_window"; "receive_window_bytes"] o.(T_NodeOptions.recv_window_bytes);
  '(_, chunk_size) ← apply_size_option config ["chunk_size"; "chunk_bytes"] o.(T_NodeOptions.chunk_size);
  '(_, heartbeat_timeout_ticks) ← apply_u64_option config ["heartbeat_timeout_ticks"]
     o.(T_NodeOptions.heartbeat_timeout_ticks);
  '(_, chunk_retransmit_ticks) ← apply_u64_option config ["chunk_retransmit_ticks"; "retransmit_ticks"]
     o.(T_NodeOptions.chunk_retransmit_ticks);
  '(_, max_retransmit_retries) ← apply_u64_option config ["max_retransmit_retries"; "retransmit_retries"]
     o.(T_NodeOptions.max_retransmit_retries);
  '(_, max_manifest_recovery_attempts) ← apply_u64_option config
     ["max_manifest_recovery_attempts"; "manifest_recovery_attempts"] o.(T_NodeOptions.max_manifest_recovery_attempts);
  '(_, max_missing_ranges_per_heartbeat) ← apply_u64_option config
     ["max_missing_ranges_per_heartbeat"; "max_missing_ranges"] o.(T_NodeOptions.max_missing_ranges_per_heartbeat);
  '(_, heartbeat_ack_batch_size) ← apply_u64_option config ["heartbeat_ack_batch_size"; "ack_batch_size"]
     o.(T_NodeOptions.heartbeat_ack_batch_size);
  '(_, reconnect_base_delay_ms) ← apply_u64_option config ["reconnect_base_delay_ms"; "reconnect_base_ms"]
     o.(T_NodeOptions.reconnect_base_delay_ms);
  '(_, reconnect_max_delay_ms) ← apply_u64_option config ["reconnect_max_delay_ms"; "reconnect_max_ms"]
     o.(T_NodeOptions.reconnect_max_delay_ms);
  '(_, receiver_heartbeat_interval) ← apply_ms_option config
     ["heartbeat_interval_ms"; "receiver_heartbeat_interval_ms"] o.(T_NodeOptions.receiver_heartbeat_interval);
  '(_, receiver_commit_poll_interval) ← apply_ms_option config
     ["commit_poll_interval_ms"; "receiver_commit_poll_interval_ms"] o.(T_NodeOptions.receiver_commit_poll_interval);
  '(_, watch_poll_interval) ← apply_ms_option config ["watch_interval_ms"; "watch_poll_interval_ms"]
     o.(T_NodeOptions.watch_poll_interval);
  '(_, watch_rescan_debounce) ← apply_ms_option config ["watch_rescan_debounce_ms"; "rescan_debounce_ms"]
     o.(T_NodeOptions.watch_rescan_debounce);
  Ret (recv_window_configured, Runtime.mk recv_window_bytes chunk_size heartbeat_timeout_ticks chunk_retransmit_ticks
    max_retransmit_retries max_manifest_recovery_attempts max_missing_ranges_per_heartbeat heartbeat_ack_batch_size
    reconnect_base_delay_ms reconnect_max_delay_ms receiver_heartbeat_interval receiver_commit_poll_interval
    watch_poll_interval watch_rescan_debounce).

(** The checks; [chunk_size + 1024] and [chunk_size * 2] wrap at 2^64.  The
    result is the receive window. *)
Definition check_runtime (recv_window_configured : bool) (r : Runtime.t) : exc Z :=
  let chunk_size := r.(Runtime.chunk_size) in
  if (chunk_size =? 0) || (u64 (chunk_size + 1024) >? kMaxFrameBytes)
  then Throw "common.chunk_size must be positive and leave room inside max frame"
  else
    let recv_window_bytes := if negb recv_window_configured
                             then Z.max r.(Runtime.recv_window_bytes) (u64 (chunk_size * 2))
                             else r.(Runtime.recv_window_bytes) in
    if recv_window_bytes <? chunk_size
    then Throw "common.recv_window_bytes must be at least common.chunk_size"
    else if (r.(Runtime.reconnect_base_delay_ms) =? 0) || (r.(Runtime.reconnect_max_delay_ms) =? 0)
    then Throw "reconnect delay config values must be positive"
    else if r.(Runtime.reconnect_max_delay_ms) <? r.(Runtime.reconnect_base_delay_ms)
    then Throw "reconnect_max_delay_ms must be >= reconnect_base_delay_ms"
    else if (r.(Runtime.watch_poll_interval) <=? 0) || (r.(Runtime.watch_rescan_debounce) <=? 0)
    then Throw "watch interval config values must be positive"
    else Ret recv_window_bytes.

Definition set_runtime (recv_window_bytes : Z) (r : Runtime.t) (o : T_NodeOptions.t) : T_NodeOptions.t :=
  let '(T_NodeOptions.mk mode host base_port lines size root source_root drop_line_once config_path source_streams
    line_endpoints line_configs compression checksum_algo _ _ _ _ _ _ _ _ _ _ _ _ watch watch_backend _ _) := o in
  T_NodeOptions.mk mode host base_port lines size root source_root drop_line_once config_path source_streams
    line_endpoints line_configs compression checksum_algo recv_window_bytes r.(Runtime.chunk_size)
    r.(Runtime.heartbeat_timeout_ticks) r.(Runtime.chunk_retransmit_ticks) r.(Runtime.max_retransmit_retries)
    r.(Runtime.max_manifest_recovery_attempts) r.(Runtime.max_missing_ranges_per_heartbeat)
    r.(Runtime.heartbeat_ack_batch_size) r.(Runtime.reconnect_base_delay_ms) r.(Runtime.reconnect_max_delay_ms)
    r.(Runtime.receiver_heartbeat_interval) r.(Runtime.receiver_commit_poll_interval) watch watch_backend
    r.(Runtime.watch_poll_interval) r.(Runtime.watch_rescan_debounce).

Definition apply_runtime_config (config : T_IniConfig.t) (options : T_NodeOptions.t) : exc T_NodeOptions.t :=
  '(recv_window_configured, r) ← read_runtime options config;
  recv_window_bytes ← check_runtime recv_window_configured r;
  Ret (set_runtime recv_window_bytes r options).

Definition resolve_line_count (lines : Z) (config : T_IniConfig.t) (host_count port_count limit_count : Z) : exc Z :=
  lines ← match T_IniConfig.get_any "common" ["link_num"; "line_num"; "lines"] config with
          | Some value =>
              match parse_u64_strict value with
              | Some parsed =>
                  if parsed =? 0 then Throw "common.link_num must be a positive integer" else Ret parsed
              | None => Throw "common.link_num must be a positive integer"
              end
          | None => Ret lines
          end;
  let lines := Z.max (Z.max (Z.max lines host_count) port_count) limit_count in
  if (lines =? 0) || (lines >? 4294967295) then Throw "line count is out of range" else Ret lines.

(** ** Stream roots *)

(** The text before the first [::], and what follows it. *)
Fixpoint find_colons (l : text) : option (text * text) :=
  match l with
  | ":"%char :: ":"%char :: l => Some ([], l)
  | c :: l => '(before, after) ← find_colons l; Some (c :: before, after)
  | [] => None
  end.

(** One item, [next_stream_id] before and after. *)
Definition parse_stream_root (item : string) (next_stream_id : Z) : exc (T_StreamRootConfig.t * Z) :=
  let '(path_and_id, regex_text) := default (chars item, []) (find_colons (chars item)) in
  match find_char ":" path_and_id with
  | None =>
      Ret (T_StreamRootConfig.mk next_stream_id (path_parts (str path_and_id)) (str regex_text),
           u64 (next_stream_id + 1))
  | Some (id_text, path_text) =>
      let path_text := trim_text path_text in
      match parse_u64_strict (str (trim_text id_text)) with
      | Some id =>
          if (id =? 0) || bool_decide (path_text = []) then Throw ("bad stream root config: " ++ item)
          else Ret (T_StreamRootConfig.mk id (path_parts (str path_text)) (str regex_text), next_stream_id)
      | None => Throw ("bad stream root config: " ++ item)
      end
  end.

Fixpoint parse_items (items : list string) (next_stream_id : Z) : exc (list T_StreamRootConfig.t * Z) :=
  match items with
  | [] => Ret ([], next_stream_id)
  | item :: items =>
      '(root, next_stream_id) ← parse_stream_root item next_stream_id;
      '(roots, next_stream_id) ← parse_items items next_stream_id;
      Ret (root :: roots, next_stream_id)
  end.
Definition parse_stream_roots (value : string) (next_stream_id : Z) : exc (list T_StreamRootConfig.t * Z) :=
  parse_items (split_list value) next_stream_id.

Definition append_stream_roots (out : list T_StreamRootConfig.t) (value : option string) (next_stream_id : Z)
    : exc (list T_StreamRootConfig.t * Z) :=
  match value with
  | None => Ret (out, next_stream_id)
  | Some value =>
      '(roots, next_stream_id) ← parse_stream_roots value next_stream_id;
      Ret (out ++ roots, next_stream_id)
  end.

(** ** The whole file *)
Definition config_value {A} (parse : string → exc A) (config : T_IniConfig.t) (keys : list string) (target : A) : exc A :=
  match T_IniConfig.get_any "common" keys config with Some value => parse value | None => Ret target end.

Definition config_path_value (config : T_IniConfig.t) (section : string) (keys : list string) (target : path) : path :=
  match T_IniConfig.get_any section keys config with
  | Some value => if bool_decide (trim value = ""%string) then target else path_parts (trim value)
  | None => target
  end.

(** One host stands for every line. *)
Definition expand_hosts (hosts : list string) (lines : Z) : exc (list string) :=
  let hosts := match hosts with [host] => replicate (Z.to_nat lines) host | _ => hosts end in
  if negb (zlen hosts =? lines) then Throw "ip list size must be 1 or match link_num" else Ret hosts.

(** One port is the first of a range: the ports, and the base port. *)
Fixpoint port_range (base : Z) (lines : nat) : exc (list Z) :=
  match lines with
  | O => Ret []
  | S lines =>
      port ← checked_port base "port";
      ports ← port_range (base + 1) lines;
      Ret (port :: ports)
  end.
Definition expand_ports (ports : list Z) (lines : Z) : exc (list Z * Z) :=
  match ports with
  | [base] => expanded ← port_range base (Z.to_nat lines); Ret (expanded, base)
  | _ =>
      if zlen ports =? lines then Ret (ports, default 0 (head ports))
      else Throw "port list size must be 1 or match link_num"
  end.

(** Line [index + 1]: its host, port and budget. *)
Definition line_endpoint (index : Z) (host_port : string * Z) : T_LineEndpoint.t :=
  T_LineEndpoint.mk (index + 1) EM_Protocol.TCP (Endpoint.mk host_port.1 host_port.2) (line_name (index + 1)).
Definition line_budget (limits : list Z) (index : Z) : Z :=
  match limits with
  | [] => kLineBudgetBytes
  | _ => default 0 (limits !! Z.to_nat (Z.min index (zlen limits - 1)))
  end.

Definition apply_config (mode : string) (config : T_IniConfig.t) (o : T_NodeOptions.t) : exc T_NodeOptions.t :=
  compression ← config_value parse_compression config ["compress"; "compression"] o.(T_NodeOptions.compression);
  checksum_algo ← config_value parse_checksum config ["checksum"] o.(T_NodeOptions.checksum_algo);
  watch ← config_value parse_bool config ["watch"; "watch_enabled"] o.(T_NodeOptions.watch);
  watch_backend ← config_value parse_watch_backend config ["watch_backend"] o.(T_NodeOptions.watch_backend);
  o ← apply_runtime_config config o;
  let root := config_path_value config "receiver" ["mount_dir"; "root"] o.(T_NodeOptions.root) in
  let source_root := config_path_value config "sender" ["source_root"; "root"] o.(T_NodeOptions.source_root) in
  '(streams, next_stream_id) ← append_stream_roots []
     (T_IniConfig.get_any "sender" ["high_prioity_dirs"; "high_priority_dirs"] config) kStreamId;
  '(streams, _) ← append_stream_roots streams
     (T_IniConfig.get_any "sender" ["low_prioirt_dies"; "low_priority_dirs"] config) next_stream_id;
  let source_root := match streams with stream :: _ => stream.(T_StreamRootConfig.root) | [] => source_root end in
  let hosts := match parse_line_hosts config o with [] => [o.(T_NodeOptions.host)] | hosts => hosts end in
  ports ← parse_ports config mode o.(T_NodeOptions.base_port);
  limits ← parse_bandwidth_limits config;
  lines ← resolve_line_count o.(T_NodeOptions.lines) config (zlen hosts) (zlen ports) (zlen limits);
  hosts ← expand_hosts hosts lines;
  '(ports, base_port) ← expand_ports ports lines;
  let ixs := seqZ 0 lines in
  Ret (T_NodeOptions.mk o.(T_NodeOptions.mode) (default ""%string (head hosts)) base_port lines o.(T_NodeOptions.size)
    root source_root o.(T_NodeOptions.drop_line_once) o.(T_NodeOptions.config_path) streams
    (zip_with line_endpoint ixs (zip hosts ports))
    ((λ index, make_line_config o (line_budget limits index) (index + 1)) <$> ixs)
    compression checksum_algo o.(T_NodeOptions.recv_window_bytes) o.(T_NodeOptions.chunk_size)
    o.(T_NodeOptions.heartbeat_timeout_ticks) o.(T_NodeOptions.chunk_retransmit_ticks)
    o.(T_NodeOptions.max_retransmit_retries) o.(T_NodeOptions.max_manifest_recovery_attempts)
    o.(T_NodeOptions.max_missing_ranges_per_heartbeat) o.(T_NodeOptions.heartbeat_ack_batch_size)
    o.(T_NodeOptions.reconnect_base_delay_ms) o.(T_NodeOptions.reconnect_max_delay_ms)
    o.(T_NodeOptions.receiver_heartbeat_interval) o.(T_NodeOptions.receiver_commit_poll_interval)
    watch watch_backend o.(T_NodeOptions.watch_poll_interval) o.(T_NodeOptions.watch_rescan_debounce)).

Definition apply_config_file (p : path) (options : T_NodeOptions.t) : M fsys T_NodeOptions.t :=
  config ← load_ini_config p;
  lift_exc (apply_config options.(T_NodeOptions.mode) config options).

(** ** The command line *)

(** [std::stoul]: the digits after the spaces and a sign; a negative number is
    negated at the width. *)
Definition stoul (value : string) : exc Z :=
  let l := skip_spaces (chars value) in
  let '(negative, l) := match l with
                        | "-"%char :: l => (true, l)
                        | "+"%char :: l => (false, l)
                        | _ => (false, l)
                        end in
  let number := (digits l).1 in
  if bool_decide (number = []) then Throw "stoul"
  else
    match from_chars 0 (str number) with
    | Some v => Ret (if negative then u64 (- v) else v)
    | None => Throw "stoul"
    end.

(** The options the command line sets. *)
Inductive argument :=
  | Config | Host (v : string) | BasePort (v : Z) | Lines (v : Z) | Root (v : string) | SourceRoot (v : string)
  | Size (v : Z) | DropLineOnce (v : Z) | Watch | WatchBackend (v : EM_WatchBackend.t).

Definition set_argument (a : argument) (o : T_NodeOptions.t) : T_NodeOptions.t :=
  let '(T_NodeOptions.mk mode host base_port lines size root source_root drop_line_once config_path source_streams
    line_endpoints line_configs compression checksum_algo window chunk_size timeout retransmit retries attempts
    missing batch base_delay max_delay heartbeat commit watch watch_backend poll debounce) := o in
  let mk host base_port lines size root source_root drop source_streams endpoints configs watch backend :=
    T_NodeOptions.mk mode host base_port lines size root source_root drop config_path source_streams endpoints configs
      compression checksum_algo window chunk_size timeout retransmit retries attempts missing batch base_delay
      max_delay heartbeat commit watch backend poll debounce in
  match a with
  | Config => o
  | Host v => mk v base_port lines size root source_root drop_line_once source_streams [] line_configs watch watch_backend
  | BasePort v => mk host (u16 v) lines size root source_root drop_line_once source_streams [] line_configs watch watch_backend
  | Lines v => mk host base_port (u32 v) size root source_root drop_line_once source_streams [] [] watch watch_backend
  | Root v => mk host base_port lines size (path_parts v) source_root drop_line_once source_streams line_endpoints
                line_configs watch watch_backend
  | SourceRoot v => mk host base_port lines size root (path_parts v) drop_line_once [] line_endpoints line_configs
                      watch watch_backend
  | Size v => mk host base_port lines v root source_root drop_line_once source_streams line_endpoints line_configs
                watch watch_backend
  | DropLineOnce v => mk host base_port lines size root source_root (u32 v) source_streams line_endpoints line_configs
                        watch watch_backend
  | Watch => mk host base_port lines size root source_root drop_line_once source_streams line_endpoints line_configs
               true watch_backend
  | WatchBackend v => mk host base_port lines size root source_root drop_line_once source_streams line_endpoints
                        line_configs watch v
  end.

(** An option that takes a value. *)
Definition argument_of (name value : string) : option (exc argument) :=
  if bool_decide (name = "--config"%string) then Some (Ret Config)
  else if bool_decide (name = "--host"%string) then Some (Ret (Host value))
  else if bool_decide (name = "--base-port"%string) then Some (v ← stoul value; Ret (BasePort v))
  else if bool_decide (name = "--lines"%string) then Some (v ← stoul value; Ret (Lines v))
  else if bool_decide (name = "--root"%string) then Some (Ret (Root value))
  else if bool_decide (name = "--source-root"%string) then Some (Ret (SourceRoot value))
  else if bool_decide (name = "--size"%string) then Some (v ← stoul value; Ret (Size v))
  else if bool_decide (name = "--drop-line-once"%string) then Some (v ← stoul value; Ret (DropLineOnce v))
  else if bool_decide (name = "--watch-backend"%string)
  then Some (v ← parse_watch_backend value; Ret (WatchBackend v))
  else None.

Fixpoint parse_arguments (args : list string) (o : T_NodeOptions.t) : exc T_NodeOptions.t :=
  match args with
  | [] => Ret o
  | arg :: rest =>
      if bool_decide (arg = "--watch"%string) then parse_arguments rest (set_argument Watch o)
      else
        match argument_of arg "" with
        | None => Throw ("unknown option: " ++ arg)
        | Some _ =>
            match rest with
            | [] => Throw ("missing value for " ++ arg)
            | value :: rest =>
                match argument_of arg value with
                | Some a => a ← a; parse_arguments rest (set_argument a o)
                | None => Throw ("unknown option: " ++ arg)
                end
            end
        end
  end.

(** The first pass: the last [--config]. *)
Fixpoint find_config (args : list string) (config_path : path) : exc path :=
  match args with
  | [] => Ret config_path
  | arg :: rest =>
      if bool_decide (arg = "--config"%string) then
        match rest with
        | [] => Throw "missing value for --config"
        | value :: rest => find_config rest (path_parts value)
        end
      else find_config rest config_path
  end.

Definition set_mode (mode : string) (config_path : path) (o : T_NodeOptions.t) : T_NodeOptions.t :=
  let '(T_NodeOptions.mk _ host base_port lines size root source_root drop_line_once _ source_streams
    line_endpoints line_configs compression checksum_algo window chunk_size timeout retransmit retries attempts
    missing batch base_delay max_delay heartbeat commit watch watch_backend poll debounce) := o in
  T_NodeOptions.mk mode host base_port lines size root source_root drop_line_once config_path source_streams
    line_endpoints line_configs compression checksum_algo window chunk_size timeout retransmit retries attempts
    missing batch base_delay max_delay heartbeat commit watch watch_backend poll debounce.

Definition mode_name (mode : string) : string :=
  if bool_decide (mode = "source"%string) then "sender"
  else if bool_decide (mode = "sink"%string) then "receiver" else mode.

(** [args] is [argv] without the program's name. *)
Definition parse_options (temp_directory : path) (args : list string) : M fsys T_NodeOptions.t :=
  '(mode, config_path, args) ←
    lift_exc match args with
             | [] => Throw "missing mode"
             | mode :: rest =>
                 if bool_decide (mode = "--config"%string) then
                   match rest with
                   | config_path :: mode :: args => Ret (mode, path_parts config_path, args)
                   | _ => Throw "--config requires a path and mode"
                   end
                 else Ret (mode, [], rest)
             end;
  config_path ← lift_exc (find_config args config_path);
  let options := set_mode (mode_name mode) config_path (T_NodeOptions.defaults temp_directory) in
  options ← (if bool_decide (config_path = []) then mret options else apply_config_file config_path options);
  options ← lift_exc (parse_arguments args options);
  if negb (bool_decide (mode_name mode ∈ ["receiver"; "sender"]%string))
  then throw "mode must be receiver or sender"
  else if options.(T_NodeOptions.lines) =? 0 then throw "at least one line is required"
  else mret options.

(** ** Sizes *)
Module SizeFacts.

Lemma isdigit_code c : isdigit c = true ↔ 48 ≤ char_code c ≤ 57.
Proof.
  unfold isdigit, digit_value, char_code. rewrite bool_decide_eq_true.
  destruct (Z.leb_spec 0 (Z.of_nat (nat_of_ascii c) - 48)), (Z.leb_spec (Z.of_nat (nat_of_ascii c) - 48) 9); cbn;
    split; intros H'; try lia; try (by eexists); by destruct H'.
Qed.

Lemma digit_isdigit d : 0 ≤ d < 10 → isdigit (digit d) = true.
Proof.
  intros Hd. apply isdigit_code. unfold digit, char_code. rewrite Ascii.nat_ascii_embedding by lia. lia.
Qed.

(** The decimal text of a number: digits, and at least one. *)
Lemma to_string_digits n : Forall (λ c, isdigit c = true) (chars (to_string n)) ∧ chars (to_string n) ≠ [].
Proof.
  unfold to_string. assert (∀ fuel n acc, Forall (λ c, isdigit c = true) (chars acc) →
    Forall (λ c, isdigit c = true) (chars (to_string_loop fuel n acc)) ∧ chars (to_string_loop fuel n acc) ≠ []) as H;
    [|by apply H; constructor].
  clear. intros fuel. induction fuel as [|fuel IH]; intros n acc Hacc; cbn [to_string_loop].
  all: assert (Forall (λ c, isdigit c = true) (chars (String (digit (n mod 10)) acc)))
    by (constructor; [by apply digit_isdigit, Z.mod_pos_bound|done]).
  all: case_cond; auto; by split.
Qed.

Definition plain (c : ascii) : bool := negb (isspace c) && negb (bool_decide (c = "_"%char)).

Lemma isdigit_plain c : isdigit c = true → plain c = true.
Proof.
  rewrite isdigit_code. intros Hc. unfold plain, isspace. rewrite bool_decide_eq_false_2.
  - destruct (Z.leb_spec 9 (char_code c)), (Z.leb_spec (char_code c) 13), (Z.eqb_spec (char_code c) 32); cbn;
      try done; lia.
  - intros ->. by destruct Hc as [_ Hc].
Qed.

Lemma skip_plain l : Forall (λ c, plain c = true) l → skip_spaces l = l.
Proof. intros [|c l' Hc _]; [done|]. cbn. apply andb_true_iff in Hc as [Hc%negb_true_iff _]. by rewrite Hc. Qed.

Lemma trim_plain l : Forall (λ c, plain c = true) l → trim_text l = l.
Proof.
  intros Hl. unfold trim_text. rewrite (skip_plain l) by done.
  rewrite skip_plain by (by rewrite reverse_Permutation). apply reverse_involutive.
Qed.

Lemma filter_plain l : Forall (λ c, plain c = true) l → filter (λ c, c ≠ "_"%char) l = l.
Proof.
  induction 1 as [|c l Hc Hl IH]; [done|]. rewrite filter_cons_True, IH; [done|].
  apply andb_true_iff in Hc as [_ Hc%negb_true_iff]. by apply bool_decide_eq_false in Hc.
Qed.

Lemma digits_app l1 l2 :
  Forall (λ c, isdigit c = true) l1 → (∀ c, head l2 = Some c → isdigit c = false) → digits (l1 ++ l2) = (l1, l2).
Proof.
  intros H1 H2. induction H1 as [|c l1 Hc H1 IH]; cbn.
  - destruct l2 as [|c l2]; [done|]. cbn. by rewrite (H2 c eq_refl).
  - by rewrite Hc, IH.
Qed.

Lemma str_chars s : str (chars s) = s.
Proof. apply String.string_of_list_ascii_of_string. Qed.
Lemma chars_app s1 s2 : chars (s1 ++ s2) = chars s1 ++ chars s2.
Proof.
  induction s1 as [|c s1 IH]; [done|]. change (String c s1 ++ s2)%string with (String c (s1 ++ s2)).
  cbn. f_equal. apply IH.
Qed.

Lemma from_chars_number n : in_u64 n → from_chars 0 (to_string n) = Some n.
Proof. intros Hn. unfold to_string. rewrite from_chars_to_string; [done|uint_lia|]. unfold in_u64 in Hn.
  change (10 ^ Z.of_nat 21) with 1000000000000000000000. lia.
Qed.

Lemma parse_number n : in_u64 n → parse_u64_strict (to_string n) = Some n.
Proof.
  intros Hn. pose proof (to_string_digits n) as [Hd Hne]. unfold parse_u64_strict, trim.
  rewrite trim_plain, str_chars by (eapply Forall_impl; [exact Hd|]; apply isdigit_plain).
  unfold parse_u64_text. rewrite bool_decide_eq_false_2; [by apply from_chars_number|].
  intros E. by rewrite E in Hne.
Qed.

Lemma from_chars_range s v n : 0 ≤ v ≤ UINT64_MAX → from_chars v s = Some n → in_u64 n.
Proof.
  revert v. induction s as [|c s IH]; intros v Hv; cbn; [intros [= <-]; uint_lia|].
  destruct (digit_value c) as [d|] eqn:Ed; [|done]. cbn. unfold digit_value in Ed.
  destruct (Z.leb_spec 0 (Z.of_nat (nat_of_ascii c) - 48)); [|done]. case_cond; [|done].
  injection Ed as <-. destruct (Z.leb_spec (v * 10 + (Z.of_nat (nat_of_ascii c) - 48)) UINT64_MAX); [|done].
  apply IH. lia.
Qed.

(** The suffixes of a size, in a few spellings, with their factors. *)
Definition size_suffixes : list (string * Z) :=
  [("", 1); ("b", 1); ("B", 1); ("k", 1024); ("K", 1024); ("kb", 1024); ("KB", 1024); ("kib", 1024); ("KiB", 1024);
   ("m", 1048576); ("M", 1048576); ("mb", 1048576); ("MB", 1048576); ("mib", 1048576); ("MiB", 1048576);
   ("g", 1073741824); ("G", 1073741824); ("gb", 1073741824); ("GB", 1073741824); ("gib", 1073741824);
   ("GiB", 1073741824)]%string.

Lemma suffix_facts suffix m :
  (suffix, m) ∈ size_suffixes →
  Forall (λ c, plain c = true) (chars suffix) ∧ (∀ c, head (chars suffix) = Some c → isdigit c = false) ∧
  multiplier (str (drop_b (lower_text (trim_text (chars suffix))))) = Some m ∧ 0 < m.
Proof.
  assert (forallb (λ p : string * Z, forallb plain (chars p.1) &&
    match head (chars p.1) with Some c => negb (isdigit c) | None => true end &&
    bool_decide (multiplier (str (drop_b (lower_text (trim_text (chars p.1))))) = Some p.2) && (0 <? p.2))
    size_suffixes = true) as H by (vm_compute; reflexivity).
  intros Hin. rewrite forallb_forall in H. apply list_elem_of_In, H in Hin. cbn [fst snd] in Hin.
  rewrite !andb_true_iff, bool_decide_eq_true in Hin. destruct Hin as [[[H1 H2] H3] H4]. split_and!; [|..|lia].
  - apply Is_true_eq_left in H1. rewrite forallb_True in H1. eapply Forall_impl; [exact H1|]. intros c. apply Is_true_eq_true.
  - intros c Hc. destruct (chars suffix); [done|]. injection Hc as ->. by apply negb_true_iff in H2.
  - done.
Qed.

Lemma parse_size_range value n : parse_size_bytes value = Some n → in_u64 n.
Proof.
  unfold parse_size_bytes. case_cond; [done|]. destruct (digits _) as [number rest]. case_cond; [done|].
  destruct (parse_u64_strict _) as [v|] eqn:Ev; [|done]. cbn. destruct (multiplier _) as [m|] eqn:Em; [|done]. cbn.
  destruct (Z.gtb_spec v (UINT64_MAX / m)) as [Hgt|Hle]; [done|]. intros [= <-].
  assert (0 < m) by (unfold multiplier in Em; repeat case_cond; naive_solver lia).
  unfold parse_u64_strict, parse_u64_text in Ev. case_cond; [done|]. apply from_chars_range in Ev; [|uint_lia].
  pose proof (Z.mul_div_le UINT64_MAX m ltac:(done)). uint_unfold. nia.
Qed.
End SizeFacts.

(** Sizes are read exactly: a decimal number with a unit is the number
    times the unit's factor, and is refused when the product does not fit 64
    bits; no text gives a number that does not fit. *)
Theorem parse_size_exact :
  (∀ n suffix m, in_u64 n → (suffix, m) ∈ SizeFacts.size_suffixes →
     parse_size_bytes (to_string n ++ suffix) = if n * m <=? UINT64_MAX then Some (n * m) else None) ∧
  (∀ value n, parse_size_bytes value = Some n → in_u64 n).
Proof.
  split.
  - intros n suffix m Hn Hin. apply SizeFacts.suffix_facts in Hin as (Hp & Hh & Hm & Hpos).
    pose proof (SizeFacts.to_string_digits n) as [Hd Hne].
    assert (Forall (λ c, SizeFacts.plain c = true) (chars (to_string n ++ suffix))) as Hall.
    { rewrite SizeFacts.chars_app. apply Forall_app. split; [|done]. eapply Forall_impl; [exact Hd|]. apply SizeFacts.isdigit_plain. }
    unfold parse_size_bytes. rewrite SizeFacts.trim_plain by done. rewrite SizeFacts.filter_plain by done.
    rewrite SizeFacts.chars_app, SizeFacts.digits_app by done.
    rewrite bool_decide_eq_false_2 by (destruct (chars (to_string n)); done).
    rewrite bool_decide_eq_false_2 by done. rewrite SizeFacts.str_chars, SizeFacts.parse_number by done. cbn [mbind option_bind].
    rewrite Hm. cbn [mbind option_bind].
    destruct (Z.gtb_spec n (UINT64_MAX / m)) as [Hgt|Hle], (Z.leb_spec (n * m) UINT64_MAX) as [Hf|Hf]; try done.
    + pose proof (Z.div_le_lower_bound UINT64_MAX m n Hpos ltac:(lia)). lia.
    + exfalso. pose proof (Z.mul_div_le UINT64_MAX m Hpos). nia.
  - apply SizeFacts.parse_size_range.
Qed.

(** ** What a configuration that is accepted promises *)
Module ConfigFacts.

Definition port_ok (port : Z) : Prop := 1 ≤ port ≤ 65535.

Lemma checked_port_ok v key port : 0 ≤ v → checked_port v key = Ret port → port = v ∧ port_ok port.
Proof. unfold checked_port, port_ok. intros Hv. case_cond; [done|]. intros [= <-]. lia. Qed.

Lemma parse_u64_nonneg v n : parse_u64_strict v = Some n → in_u64 n.
Proof.
  unfold parse_u64_strict, parse_u64_text. case_cond; [done|]. apply SizeFacts.from_chars_range. uint_lia.
Qed.

Lemma checked_ports_ok parts ports : checked_ports parts = Ret ports → Forall port_ok ports.
Proof.
  revert ports. induction parts as [|part parts IH]; intros ports; cbn; [by intros [= <-]|].
  destruct (parse_u64_strict part) as [v|] eqn:Ev; [|done]. intros H. inv_bind. injection H as <-.
  apply parse_u64_nonneg in Ev. apply checked_port_ok in E as [_ E]; [|uint_lia]. auto.
Qed.

Lemma parse_ports_ok config mode fallback ports :
  0 ≤ fallback → parse_ports config mode fallback = Ret ports →
  (length ports = 1%nat ∨ Forall port_ok ports) ∧ Forall (λ p, 0 ≤ p) ports.
Proof.
  assert (∀ parts, checked_ports parts = Ret ports →
    (length ports = 1%nat ∨ Forall port_ok ports) ∧ Forall (λ p, 0 ≤ p) ports) as Hmany.
  { intros parts H%checked_ports_ok. split; [auto|]. eapply Forall_impl; [exact H|]. unfold port_ok. lia. }
  assert (∀ p, 0 ≤ p → Ret [p] = Ret ports → (length ports = 1%nat ∨ Forall port_ok ports) ∧ Forall (λ p, 0 ≤ p) ports)
    as Hone by (intros p Hp [= <-]; auto).
  intros Hf. unfold parse_ports. destruct (T_IniConfig.get_any _ _ _); [apply Hmany|].
  destruct (T_IniConfig.get_any _ _ _); [|by apply Hone]. case_cond; [by apply Hone|]. case_cond; [apply Hmany|].
  destruct (parse_u64_strict _) as [v|] eqn:Ev; [|done]. apply parse_u64_nonneg in Ev. intros H. inv_bind.
  apply checked_port_ok in E as [-> _]; [|uint_lia]. revert H. apply Hone. uint_lia.
Qed.

Lemma port_range_ok base n ports :
  0 ≤ base → port_range base n = Ret ports → length ports = n ∧ Forall port_ok ports.
Proof.
  revert base ports. induction n as [|n IH]; intros base ports Hb; cbn; [by intros [= <-]|].
  intros H. inv_bind. injection H as <-. apply checked_port_ok in E as [_ E]; [|done].
  destruct (IH (base + 1) a0 ltac:(lia) E0) as [<- Hf]. cbn. auto.
Qed.

(** Lines of distinct, non-zero ids with positive budgets make a scheduler. *)
Definition budget_ok (c : T_LineConfig.t) : Prop :=
  c.(T_LineConfig.id) ≠ 0 ∧ 0 < c.(T_LineConfig.limiter).(T_TokenBucketConfig.tick) ∧
  c.(T_LineConfig.limiter).(T_TokenBucketConfig.capacity) ≠ 0 ∧
  c.(T_LineConfig.limiter).(T_TokenBucketConfig.tokens_per_tick) ≠ 0.

Lemma add_lines_ok configs ls :
  Forall budget_ok configs →
  NoDup (((λ l, l.(LineState.config).(T_LineConfig.id)) <$> ls) ++ (T_LineConfig.id <$> configs)) →
  ∃ ls', T_MultiLineScheduler.add_lines ls configs = Ret ls'.
Proof.
  intros Hc. revert ls. induction Hc as [|c configs (Hid & Ht & Hcap & Htok) Hc IH]; intros ls Hnd; cbn; [eauto|].
  rewrite (proj2 (Z.eqb_neq _ _) Hid).
  assert (T_MultiLineScheduler.find_line (T_LineConfig.id c) ls = None) as ->.
  { unfold T_MultiLineScheduler.find_line. destruct (list_find _ ls) as [[i l]|] eqn:Hf; [|done]. exfalso.
    apply list_find_Some in Hf as (Hl & He & _). apply NoDup_app in Hnd as (_ & Hd & _).
    apply (Hd (T_LineConfig.id c)); [|by left]. apply list_elem_of_fmap. exists l. split; [done|].
    by eapply list_elem_of_lookup_2. }
  unfold TokenBucket.create. rewrite (proj2 (Z.leb_gt _ _)), (proj2 (Z.eqb_neq _ _) Hcap), (proj2 (Z.eqb_neq _ _) Htok) by done.
  apply IH. rewrite fmap_app, <- app_assoc. exact Hnd.
Qed.

(** The settings, in their types. *)
Definition settings_ok (o : T_NodeOptions.t) : Prop :=
  in_u64 o.(T_NodeOptions.chunk_size) ∧ in_u64 o.(T_NodeOptions.recv_window_bytes) ∧
  in_u64 o.(T_NodeOptions.reconnect_base_delay_ms) ∧ in_u64 o.(T_NodeOptions.reconnect_max_delay_ms).

Lemma size_option_ok config keys target b v :
  in_u64 target → apply_size_option config keys target = Ret (b, v) → in_u64 v.
Proof.
  unfold apply_size_option. intros Ht. destruct (T_IniConfig.get_any _ _ _) as [text|]; [|by intros [= _ <-]].
  case_cond; [by intros [= _ <-]|]. destruct (parse_size_bytes text) eqn:E; [|done]. case_cond; [done|]. intros [= _ <-].
  by apply SizeFacts.parse_size_range in E.
Qed.

Lemma u64_option_ok config keys target b v :
  in_u64 target → apply_u64_option config keys target = Ret (b, v) → in_u64 v.
Proof.
  unfold apply_u64_option. intros Ht. destruct (T_IniConfig.get_any _ _ _) as [text|]; [|by intros [= _ <-]].
  case_cond; [by intros [= _ <-]|]. destruct (parse_u64_strict text) eqn:E; [|done]. intros [= _ <-].
  by apply parse_u64_nonneg in E.
Qed.

Lemma apply_runtime_ports config o o' :
  apply_runtime_config config o = Ret o' → o'.(T_NodeOptions.base_port) = o.(T_NodeOptions.base_port).
Proof.
  unfold apply_runtime_config. intros H. inv_bind. destruct a as [configured r]. inv_bind. injection H as <-. by destruct o.
Qed.

(** The runtime settings that pass the checks. *)
Definition runtime_checked (chunk_size window base_delay max_delay poll debounce : Z) : Prop :=
  1 ≤ chunk_size ∧ (chunk_size + 1024 < 18446744073709551616 → chunk_size + 1024 ≤ kMaxFrameBytes) ∧
  chunk_size ≤ window ∧ 1 ≤ base_delay ≤ max_delay ∧ 0 < poll ∧ 0 < debounce.

Lemma apply_runtime_ok config o o' :
  settings_ok o → apply_runtime_config config o = Ret o' →
  runtime_checked o'.(T_NodeOptions.chunk_size) o'.(T_NodeOptions.recv_window_bytes)
    o'.(T_NodeOptions.reconnect_base_delay_ms) o'.(T_NodeOptions.reconnect_max_delay_ms)
    o'.(T_NodeOptions.watch_poll_interval) o'.(T_NodeOptions.watch_rescan_debounce).
Proof.
  intros (Hchunk & Hwin & Hbase & Hmax) H. unfold apply_runtime_config, read_runtime in H. inv_bind.
  destruct a as [configured r]. inv_bind. injection H as <-.
  repeat match goal with p : (bool * Z)%type |- _ => destruct p as [? ?] end. inv_bind.
  repeat match goal with p : (bool * Z)%type |- _ => destruct p as [? ?]; inv_bind end.
  match goal with H : Ret _ = Ret (configured, r) |- _ => injection H as <- <- end.
  repeat match goal with
  | H : apply_size_option _ _ _ = Ret _ |- _ => apply size_option_ok in H; [|done]
  | H : apply_u64_option _ ["reconnect_base_delay_ms"; _]%string _ = Ret _ |- _ => apply u64_option_ok in H; [|done]
  | H : apply_u64_option _ ["reconnect_max_delay_ms"; _]%string _ = Ret _ |- _ => apply u64_option_ok in H; [|done]
  end.
  match goal with H : check_runtime _ _ = Ret _ |- _ => unfold check_runtime in H; cbn in H; rename H into Hcheck end.
  destruct o. cbn in *. unfold runtime_checked. clear - Hcheck E0 E2 E9 E10.
  destruct ((_ =? 0) || _) eqn:Hc in Hcheck; [done|]. apply orb_false_iff in Hc as [Hc1 Hc2].
  destruct (_ <? _) eqn:Hw in Hcheck; [done|]. destruct (_ || _) eqn:Hd in Hcheck; [done|].
  apply orb_false_iff in Hd as [Hd1 Hd2]. destruct (_ <? _) eqn:Hm in Hcheck; [done|].
  destruct (_ || _) eqn:Hp in Hcheck; [done|]. apply orb_false_iff in Hp as [Hp1 Hp2].
  injection Hcheck as <-. unfold in_u64 in *. split_and!; try lia.
  intros Hs. rewrite u64_small in Hc2 by uint_lia. lia.
Qed.

Lemma checked_limits_ok parts limits : checked_limits parts = Ret limits → Forall (λ l, l ≠ 0) limits.
Proof.
  revert limits. induction parts as [|part parts IH]; intros limits; cbn; [by intros [= <-]|].
  destruct (parse_size_bytes part) as [v|]; [|done]. destruct (Z.eqb_spec v 0); [done|]. intros H. inv_bind.
  injection H as <-. auto.
Qed.

Lemma line_budget_ok limits index : Forall (λ l, l ≠ 0) limits → 0 ≤ index → line_budget limits index ≠ 0.
Proof.
  unfold line_budget. intros Hl Hi. destruct limits as [|l0 limits]; [done|].
  destruct (lookup_lt_is_Some_2 (l0 :: limits) (Z.to_nat (index `min` (zlen (l0 :: limits) - 1)))) as [l El].
  { unfold zlen. cbn [length]. lia. }
  rewrite El. cbn. rewrite Forall_lookup in Hl. by apply (Hl _ _ El).
Qed.

Lemma expand_hosts_ok hosts lines hosts' : expand_hosts hosts lines = Ret hosts' → zlen hosts' = lines.
Proof.
  unfold expand_hosts. cbv zeta. case_cond; [done|]. intros [= <-].
  by apply negb_false_iff, Z.eqb_eq in Heqb.
Qed.

Lemma expand_ports_ok ports lines ports' base :
  0 ≤ lines → length ports = 1%nat ∨ Forall port_ok ports → Forall (λ p, 0 ≤ p) ports →
  expand_ports ports lines = Ret (ports', base) → zlen ports' = lines ∧ Forall port_ok ports'.
Proof.
  intros Hl Hp H0 H. unfold expand_ports in H.
  destruct ports as [|base0 [|port ports]]; cbn [length] in Hp.
  - destruct (Z.eqb_spec (zlen (@nil Z)) lines) as [E|E]; [|done]. injection H as <- <-. split; [done|constructor].
  - inv_bind. injection H as <- <-. inversion_clear H0. apply port_range_ok in E as [E1 E2]; [|done].
    split; [unfold zlen; lia|done].
  - destruct (Z.eqb_spec (zlen (base0 :: port :: ports)) lines) as [E|E]; [|done]. injection H as <- <-.
    split; [done|]. by destruct Hp.
Qed.

Lemma plus_one_seqZ n : (λ i, i + 1) <$> seqZ 0 n = seqZ 1 n.
Proof.
  change (seqZ 1 n) with (seqZ (1 + 0) n). rewrite <- fmap_add_seqZ. apply list_fmap_ext. intros. lia.
Qed.

Lemma endpoint_ids n hosts ports :
  zlen hosts = n → zlen ports = n →
  T_LineEndpoint.id <$> zip_with line_endpoint (seqZ 0 n) (zip hosts ports) = seqZ 1 n.
Proof.
  intros Hh Hp. rewrite <- plus_one_seqZ. set (l := zip_with _ _ _).
  assert ((λ e, e.(T_LineEndpoint.id) - 1) <$> l = seqZ 0 n) as <-.
  { apply fmap_zip_with_l; [intros; cbn; lia|]. rewrite length_seqZ, length_zip_with. unfold zlen in *. lia. }
  rewrite <- list_fmap_compose. apply list_fmap_ext. intros. cbn. lia.
Qed.

Lemma endpoint_ports n hosts ports :
  Forall port_ok ports →
  Forall (λ e, e.(T_LineEndpoint.protocol) = EM_Protocol.TCP ∧ 1 ≤ e.(T_LineEndpoint.endpoint).(Endpoint.port) ≤ 65535)
    (zip_with line_endpoint (seqZ 0 n) (zip hosts ports)).
Proof.
  intros Hp. apply Forall_forall. intros e He. apply list_elem_of_lookup in He as [i He].
  apply lookup_zip_with_Some in He as (x & [h p] & -> & _ & Hz). split; [done|]. cbn.
  apply lookup_zip_with_Some in Hz as (? & ? & [= -> ->] & _ & Hq). rewrite Forall_lookup in Hp. by apply (Hp i).
Qed.

Lemma limits_scheduler o limits n :
  1 ≤ n → Forall (λ l, l ≠ 0) limits →
  let configs := (λ index, make_line_config o (line_budget limits index) (index + 1)) <$> seqZ 0 n in
  T_LineConfig.id <$> configs = seqZ 1 n ∧ ∃ scheduler, T_MultiLineScheduler.create configs = Ret scheduler.
Proof.
  intros Hn Hl configs. assert (T_LineConfig.id <$> configs = seqZ 1 n) as Hids.
  { unfold configs. rewrite <- list_fmap_compose. apply plus_one_seqZ. }
  split; [done|]. destruct (add_lines_ok configs []) as [ls Hls].
  - unfold configs. rewrite Forall_fmap, Forall_forall. intros i [Hi _]%elem_of_seqZ. unfold budget_ok. cbn.
    split_and!; [lia..| |]; by apply line_budget_ok.
  - cbn. rewrite Hids. apply NoDup_seqZ.
  - assert (configs ≠ []) as Hne by (intros E; rewrite E, seqZ_cons in Hids by lia; discriminate).
    unfold T_MultiLineScheduler.create. destruct configs as [|c configs']; [done|]. rewrite Hls. cbn. eauto.
Qed.

Lemma resolve_ok lines config h p l n :
  0 ≤ h → resolve_line_count lines config h p l = Ret n → 1 ≤ n ≤ 4294967295.
Proof. unfold resolve_line_count. intros Hh H. inv_bind. cbv zeta in H. case_cond; [done|]. injection H as <-. lia. Qed.

Lemma limits_ok config limits : parse_bandwidth_limits config = Ret limits → Forall (λ l, l ≠ 0) limits.
Proof.
  unfold parse_bandwidth_limits. destruct (T_IniConfig.get_any _ _ _); [apply checked_limits_ok|]. by intros [= <-].
Qed.
End ConfigFacts.

(** C37: an accepted configuration describes a system that can start: between 1
    and 2^32 - 1 lines with the ids 1, 2, ..., each a TCP endpoint with a port
    of 1 to 65535 and a line of the scheduler with the same id; the scheduler
    accepts them; a chunk fits the frame (unless its size is within 1024 of
    2^64, where the check wraps) and the receive window, and the delays are
    positive and in order. *)
Theorem config_consistent (config : T_IniConfig.t) (o o' : T_NodeOptions.t) :
  ConfigFacts.settings_ok o → 0 ≤ o.(T_NodeOptions.base_port) →
  apply_config o.(T_NodeOptions.mode) config o = Ret o' →
  1 ≤ o'.(T_NodeOptions.lines) ≤ 4294967295 ∧
  (T_LineEndpoint.id <$> make_line_endpoints o') = seqZ 1 o'.(T_NodeOptions.lines) ∧
  (T_LineConfig.id <$> make_line_configs o') = seqZ 1 o'.(T_NodeOptions.lines) ∧
  Forall (λ e, e.(T_LineEndpoint.protocol) = EM_Protocol.TCP ∧
    1 ≤ e.(T_LineEndpoint.endpoint).(Endpoint.port) ≤ 65535) (make_line_endpoints o') ∧
  (∃ scheduler, T_MultiLineScheduler.create (make_line_configs o') = Ret scheduler) ∧
  ConfigFacts.runtime_checked o'.(T_NodeOptions.chunk_size) o'.(T_NodeOptions.recv_window_bytes)
    o'.(T_NodeOptions.reconnect_base_delay_ms) o'.(T_NodeOptions.reconnect_max_delay_ms)
    o'.(T_NodeOptions.watch_poll_interval) o'.(T_NodeOptions.watch_rescan_debounce).
Proof.
  intros Hset Hport H. unfold apply_config in H. inv_bind. rename a3 into o1, E3 into Hrun.
  destruct a4 as [streams next]. inv_bind. destruct a3 as [streams' next']. inv_bind.
  rename a3 into ports, E5 into Hports, a4 into limits, E6 into Hlimits, a5 into n, E7 into Hn, a6 into hosts, E8 into Hhosts.
  destruct a7 as [ports' base]. injection H as <-. rename E9 into Hexpand.
  pose proof (ConfigFacts.apply_runtime_ok _ _ _ Hset Hrun) as Hchecked.
  rewrite (ConfigFacts.apply_runtime_ports _ _ _ Hrun) in Hports.
  apply ConfigFacts.resolve_ok in Hn; [|apply zlen_nonneg]. apply ConfigFacts.parse_ports_ok in Hports as [Hp Hp0]; [|done].
  apply ConfigFacts.expand_ports_ok in Hexpand as [Hlen Hok]; [|lia|done..].
  apply ConfigFacts.expand_hosts_ok in Hhosts. apply ConfigFacts.limits_ok in Hlimits.
  destruct (ConfigFacts.limits_scheduler o1 limits n ltac:(lia) Hlimits) as [Hids Hsched].
  pose proof (ConfigFacts.endpoint_ids n hosts ports' Hhosts Hlen) as Heids.
  pose proof (ConfigFacts.endpoint_ports n hosts ports' Hok) as Heports.
  unfold make_line_endpoints, make_line_configs. cbn.
  assert (seqZ 1 n ≠ []) as Hne by (by rewrite seqZ_cons by lia).
  destruct (zip_with _ _ _) as [|e es] eqn:Ees; [by rewrite <- Heids in Hne|].
  destruct (_ <$> seqZ 0 n) as [|c cs] eqn:Ecs; [by rewrite <- Hids in Hne|].
  exact (conj Hn (conj Heids (conj Hids (conj Heports (conj Hsched Hchecked))))).
Qed.

(** The text of a configuration with two lines. *)
Definition sample_config_text : string :=
  str (chars "[common]" ++ "010"%char :: chars "port_base = 1 # unused" ++ "010"%char :: chars "link_num = 2"
    ++ "010"%char :: chars "ip = 10.0.0.1" ++ "010"%char :: chars "chunk_size = 64k" ++ "010"%char ::
    chars "bandwidth_limit = {1m, 512k}" ++ "010"%char :: chars "[receiver]" ++ "010"%char :: chars "port = 19100").
Definition sample_config : exc T_IniConfig.t := parse_ini (String.list_byte_of_string sample_config_text).
Definition sample_options (mode : string) : T_NodeOptions.t := set_mode mode [] (T_NodeOptions.defaults ["tmp"]).

Lemma config_consistent_witness :
  ∃ config o', sample_config = Ret config ∧ apply_config "receiver" config (sample_options "receiver") = Ret o' ∧
    (T_LineEndpoint.id <$> make_line_endpoints o') = [1; 2].
Proof.
  destruct sample_config as [config|] eqn:Ec; [|vm_compute in Ec; discriminate].
  destruct (apply_config "receiver" config (sample_options "receiver")) as [o'|] eqn:Eo.
  2:{ vm_compute in Ec. injection Ec as <-. vm_compute in Eo. discriminate. }
  exists config, o'. split_and!; [done..|].
  destruct (config_consistent config (sample_options "receiver") o' ltac:(vm_compute; intuition discriminate)
    ltac:(vm_compute; discriminate) Eo) as (_ & Hids & _).
  rewrite Hids. assert (o'.(T_NodeOptions.lines) = 2) as ->; [|reflexivity].
  vm_compute in Ec. injection Ec as <-. vm_compute in Eo. by injection Eo as <-.
Defined.

Lemma parse_size_exact_witness :
  parse_size_bytes "64KiB" = Some 65536 ∧ parse_size_bytes "17179869184g" = None.
Proof.
  split.
  - apply (proj1 parse_size_exact 64 "KiB" 1024); [vm_compute; intuition discriminate|].
    by apply (bool_decide_unpack _); vm_compute.
  - apply (proj1 parse_size_exact 17179869184 "g" 1073741824); [vm_compute; intuition discriminate|].
    by apply (bool_decide_unpack _); vm_compute.
Defined.

(** A chunk of 2^64 - 1 bytes passes the check that it leave room in a frame. *)
Lemma huge_chunk_accepted :
  check_runtime true (Runtime.mk UINT64_MAX UINT64_MAX 300 100 5 3 64 20 100 2000 50 2 500 200) = Ret UINT64_MAX.
Proof. reflexivity. Qed.
