(* ===== verification/Watchers.v ===== *)
(** * The watchers of the source: [src/sender/yisync_source.cpp]

    The polling watcher of [Source] compares two scans; here is the scan it
    makes, the inotify watcher, the FSEvents watcher with its two threads, and
    the choice among them.  The tree, the times of files and what the kernel
    answers are those of the moment a call is made, an argument [env]. *)
From S2P Require Import Prelude Filesystem Wire Protocol Sync Source NodeCommon.
#[local] Open Scope Z_scope.

(** The file system when a call looks at it, and the watch that
    [inotify_add_watch] gives a directory (negative when it fails). *)
Record env := mk_env { tree : gmap path node; mtime_of : path → Z; add_watch_answer : path → Z }.

(** What a [recursive_directory_iterator] on the path visits; nothing when it
    does not open. *)
Definition below_dir (e : env) (p : path) : list (path * node) :=
  match resolve e.(tree) p with
  | Ok q => match node_at e.(tree) q with Some Dir => descendants e.(tree) q | _ => [] end
  | Err _ => []
  end.

(** [file_size] and [last_write_time], with the values of a failure. *)
Definition snapshot_for_regular_file (e : env) (p : path) : T_WatchSnapshot.t :=
  T_WatchSnapshot.mk
    match status e.(tree) p with Ok (File data) => zlen data | _ => UINT64_MAX end
    (e.(mtime_of) p).

(** ** The scan of the polling watcher *)
Module PollingScan.
(** [emplace]: an element that is there stays. *)
Definition emplace (p : path) (s : T_WatchSnapshot.t) (m : gmap path T_WatchSnapshot.t) : gmap path T_WatchSnapshot.t :=
  match m !! p with Some _ => m | None => <[p := s]> m end.

Definition scan (e : env) (root : path) : gmap path T_WatchSnapshot.t :=
  foldl (λ m '(rel, n),
    match n with
    | File _ => emplace (root ++ rel) (snapshot_for_regular_file e (root ++ rel)) m
    | Symlink _ | Dir => m
    end) ∅ (below_dir e root).

(** The constructor takes the first snapshot. *)
Definition create (e : env) (root : path) : PollingSourceWatcher.t := PollingSourceWatcher.mk (scan e root).
End PollingScan.

(** ** The inotify watcher *)
Module InotifySourceWatcher.
Definition IN_MODIFY : Z := 2.
Definition IN_CLOSE_WRITE : Z := 8.
Definition IN_MOVED_FROM : Z := 64.
Definition IN_MOVED_TO : Z := 128.
Definition IN_CREATE : Z := 256.
Definition IN_DELETE : Z := 512.
Definition IN_DELETE_SELF : Z := 1024.
Definition IN_MOVE_SELF : Z := 2048.
Definition IN_Q_OVERFLOW : Z := 16384.
Definition IN_ISDIR : Z := 1073741824.

(** The bits of a mask that are among [flags]. *)
Definition any (mask : Z) (flags : list Z) : bool := negb (Z.land mask (foldr Z.lor 0 flags) =? 0).

Record inotify_event := mk_event { wd : Z; mask : Z; name : string }.

Record t := mk {
  root_ : path; watches_ : gmap Z path; snapshot_ : gmap path T_WatchSnapshot.t
}.

Definition add_watch (e : env) (p : path) (w : t) : t :=
  let wd := e.(add_watch_answer) p in
  if wd <? 0 then w else mk w.(root_) (<[wd := p]> w.(watches_)) w.(snapshot_).

Definition set_snapshot (p : path) (s : T_WatchSnapshot.t) (w : t) : t :=
  mk w.(root_) w.(watches_) (<[p := s]> w.(snapshot_)).

(** The body of the loop of [add_recursive]. *)
Definition visit (e : env) (p : path) (w : t) (entry : path * node) : t :=
  match entry.2 with
  | Symlink _ => w
  | Dir => add_watch e (p ++ entry.1) w
  | File _ => set_snapshot (p ++ entry.1) (snapshot_for_regular_file e (p ++ entry.1)) w
  end.

Definition add_recursive (e : env) (p : path) (w : t) : t :=
  match symlink_status e.(tree) p with
  | Ok Dir => foldl (visit e p) (add_watch e p w) (below_dir e p)
  | _ => w
  end.

(** The constructor; [fd] is the answer of [inotify_init1]. *)
Definition create (e : env) (fd : Z) (errno : string) (root : path) : exc t :=
  if fd <? 0 then Throw ("failed to create inotify fd: " +:+ errno)
  else Ret (add_recursive e root (mk root ∅ ∅)).

Definition handle_event (e : env) (event : inotify_event) (w : t) : list T_WatchEvent.t * t :=
  if any event.(mask) [IN_Q_OVERFLOW]
  then ([T_WatchEvent.mk EM_WatchEventKind.WATCH_OVERFLOW w.(root_)], add_recursive e w.(root_) w)
  else
    match w.(watches_) !! event.(wd) with
    | None => ([], w)
    | Some watched =>
        let path := if bool_decide (event.(name) = ""%string) then watched else watched ++ [event.(name)] in
        if any event.(mask) [IN_DELETE; IN_MOVED_FROM; IN_DELETE_SELF; IN_MOVE_SELF]
        then ([T_WatchEvent.mk EM_WatchEventKind.REMOVED path],
              mk w.(root_) w.(watches_) (delete path w.(snapshot_)))
        else if any event.(mask) [IN_ISDIR] then
          if any event.(mask) [IN_CREATE; IN_MOVED_TO]
          then ([T_WatchEvent.mk EM_WatchEventKind.CREATED path], add_recursive e path w)
          else ([], w)
        else if negb (any event.(mask) [IN_CREATE; IN_MOVED_TO; IN_CLOSE_WRITE; IN_MODIFY]) then ([], w)
        else
          match symlink_status e.(tree) path with
          | Err _ | Ok Dir => ([], w)
          | Ok (Symlink _) => ([T_WatchEvent.mk EM_WatchEventKind.MODIFIED path], w)
          | Ok (File _) =>
              let current := snapshot_for_regular_file e path in
              let kind := match w.(snapshot_) !! path with
                          | None => EM_WatchEventKind.CREATED
                          | Some previous =>
                              if current.(T_WatchSnapshot.size) >? previous.(T_WatchSnapshot.size)
                              then EM_WatchEventKind.APPENDED else EM_WatchEventKind.MODIFIED
                          end in
              ([T_WatchEvent.mk kind path], set_snapshot path current w)
          end
    end.

(** What [read] of the descriptor answers: events, each with the file system it
    is handled in, nothing more, or an error. *)
Inductive read_answer :=
  | Read_events (events : list (env * inotify_event))
  | Read_eagain
  | Read_eof
  | Read_error.

Fixpoint handle_events (events : list (env * inotify_event)) (w : t) : list T_WatchEvent.t * t :=
  match events with
  | [] => ([], w)
  | (e, event) :: events =>
      let '(reported, w) := handle_event e event w in
      let '(more, w) := handle_events events w in
      (reported ++ more, w)
  end.

Fixpoint poll (script : list read_answer) (w : t) : list T_WatchEvent.t * t :=
  match script with
  | [] | Read_eagain :: _ | Read_eof :: _ => ([], w)
  | Read_error :: _ => ([T_WatchEvent.mk EM_WatchEventKind.WATCH_OVERFLOW w.(root_)], w)
  | Read_events events :: script =>
      let '(reported, w) := handle_events events w in
      let '(more, w) := poll script w in
      (reported ++ more, w)
  end.
End InotifySourceWatcher.

(** ** The FSEvents watcher

    The system calls [callback] on a queue of its own while the program polls:
    the two flags are shared, and each access is a step of its own. *)
Module FseventsSourceWatcher.
Inductive callback_pc := Callback_idle | Store_overflow | Store_dirty.
Inductive poll_pc := Poll_idle | Clear_dirty | Exchange_dirty.

Record t := mk { root_ : path; dirty_ : bool; overflow_ : bool; callback_at : callback_pc; poll_at : poll_pc }.
Definition create (root : path) : t := mk root false false Callback_idle Poll_idle.

Definition MustScanSubDirs : Z := 1.
Definition UserDropped : Z := 2.
Definition KernelDropped : Z := 4.
(** The loop of [callback] over the flags of its events. *)
Definition overflows (flags : list Z) : bool :=
  existsb (λ f, negb (Z.land f (Z.lor (Z.lor MustScanSubDirs UserDropped) KernelDropped) =? 0)) flags.

(** The accesses of [callback]. *)
Definition callback_start (flags : list Z) (w : t) : t :=
  mk w.(root_) w.(dirty_) w.(overflow_) (if overflows flags then Store_overflow else Store_dirty) w.(poll_at).
Definition store_overflow (w : t) : t := mk w.(root_) w.(dirty_) true Store_dirty w.(poll_at).
Definition store_dirty (w : t) : t := mk w.(root_) true w.(overflow_) Callback_idle w.(poll_at).

(** The accesses of [poll]; the last gives the events it returns. *)
Definition exchange_overflow (w : t) : t :=
  mk w.(root_) w.(dirty_) false w.(callback_at) (if w.(overflow_) then Clear_dirty else Exchange_dirty).
Definition clear_dirty (w : t) : list T_WatchEvent.t * t :=
  ([T_WatchEvent.mk EM_WatchEventKind.WATCH_OVERFLOW w.(root_)],
   mk w.(root_) false w.(overflow_) w.(callback_at) Poll_idle).
Definition exchange_dirty (w : t) : list T_WatchEvent.t * t :=
  (if w.(dirty_) then [T_WatchEvent.mk EM_WatchEventKind.MODIFIED w.(root_)] else [],
   mk w.(root_) false w.(overflow_) w.(callback_at) Poll_idle).

(** A poll that nothing interleaves with. *)
Definition poll (w : t) : list T_WatchEvent.t * t :=
  let w := exchange_overflow w in
  match w.(poll_at) with Clear_dirty => clear_dirty w | _ => exchange_dirty w end.
End FseventsSourceWatcher.

(** ** The choice *)
Inductive platform := Linux | Apple | Other.
Inductive watcher :=
  | Inotify (w : InotifySourceWatcher.t)
  | Fsevents (w : FseventsSourceWatcher.t)
  | Polling (w : PollingSourceWatcher.t).

(** [make_source_watcher] on a platform; [fd] and [fsevents] are the answers of
    [inotify_init1] and of the calls that make a stream. *)
Definition make_source_watcher (on : platform) (e : env) (fd : Z) (errno : string) (fsevents : exc unit)
    (root : path) (backend : EM_WatchBackend.t) : watcher :=
  let polling := Polling (PollingScan.create e root) in
  let inotify := match InotifySourceWatcher.create e fd errno root with
                 | Ret w => Inotify w
                 | Throw _ => polling
                 end in
  let events := match fsevents with Ret _ => Fsevents (FseventsSourceWatcher.create root) | Throw _ => polling end in
  match backend, on with
  | EM_WatchBackend.AUTO, Linux | EM_WatchBackend.INOTIFY, Linux => inotify
  | EM_WatchBackend.AUTO, Apple | EM_WatchBackend.FSEVENTS, Apple => events
  | _, _ => polling
  end.

Definition watch_backend_name (backend : EM_WatchBackend.t) : string :=
  match backend with
  | EM_WatchBackend.AUTO => "auto"
  | EM_WatchBackend.POLLING => "polling"
  | EM_WatchBackend.INOTIFY => "inotify"
  | EM_WatchBackend.FSEVENTS => "fsevents"
  end.

(** ** What the inotify watcher watches *)
Module InotifyFacts.
Import InotifySourceWatcher.

(** The kernel gives every directory a watch of its own. *)
Definition own_watches (e : env) : Prop :=
  (∀ p, 0 ≤ e.(add_watch_answer) p) ∧ ∀ p q, e.(add_watch_answer) p = e.(add_watch_answer) q → p = q.

Section facts.
Context (e : env) (He : own_watches e).

Lemma add_watch_lookup p w : (add_watch e p w).(watches_) !! e.(add_watch_answer) p = Some p.
Proof.
  unfold add_watch. destruct (Z.ltb_spec (add_watch_answer e p) 0); [destruct He as [H0 _]; specialize (H0 p); lia|].
  apply lookup_insert_eq.
Qed.

Lemma visit_keeps_watch p q w entry :
  w.(watches_) !! e.(add_watch_answer) q = Some q → (visit e p w entry).(watches_) !! e.(add_watch_answer) q = Some q.
Proof.
  intros Hw. destruct entry as [rel [data| |target]]; [done| |done]. unfold visit, add_watch. cbn.
  destruct (_ <? 0); [done|]. cbn. destruct (decide (add_watch_answer e (p ++ rel) = add_watch_answer e q)) as [Eq|Hne].
  - rewrite Eq. apply He in Eq as ->. apply lookup_insert_eq.
  - by rewrite lookup_insert_ne.
Qed.

Lemma visits_keep_watch p q es w :
  w.(watches_) !! e.(add_watch_answer) q = Some q →
  (foldl (visit e p) w es).(watches_) !! e.(add_watch_answer) q = Some q.
Proof. revert w. induction es as [|x es IH]; intros w Hw; [done|]. by apply IH, visit_keeps_watch. Qed.

Lemma visits_watch p rel es w :
  (rel, Dir) ∈ es → (foldl (visit e p) w es).(watches_) !! e.(add_watch_answer) (p ++ rel) = Some (p ++ rel).
Proof.
  revert w. induction es as [|x es IH]; intros w Hin; [by apply not_elem_of_nil in Hin|].
  apply elem_of_cons in Hin as [Hx|Hin]; [|by apply IH].
  apply (visits_keep_watch p (p ++ rel) es (visit e p w x)). subst x. apply add_watch_lookup.
Qed.

(** Both watchers record the regular files below a directory, and nothing else. *)
Definition recorded (p : path) (es : list (path * node)) (q : path) (s : T_WatchSnapshot.t) : Prop :=
  ∃ rel data, (rel, File data) ∈ es ∧ q = p ++ rel ∧ s = snapshot_for_regular_file e q.

Lemma recorded_cons p rel n es q s :
  recorded p ((rel, n) :: es) q s ↔
  (q = p ++ rel ∧ s = snapshot_for_regular_file e q ∧ ∃ data, n = File data) ∨ recorded p es q s.
Proof.
  unfold recorded. split.
  - intros (r & data & Hin & -> & ->). apply elem_of_cons in Hin as [[= -> <-]|Hin]; [left; eauto|right; eauto].
  - intros [(-> & -> & data & ->)|(r & data & Hin & -> & ->)]; [exists rel, data|exists r, data];
      (split; [|done]); [by left|by right].
Qed.

Lemma visits_snapshot p es w q s :
  (∀ q s, w.(snapshot_) !! q = Some s → s = snapshot_for_regular_file e q) →
  (foldl (visit e p) w es).(snapshot_) !! q = Some s ↔ w.(snapshot_) !! q = Some s ∨ recorded p es q s.
Proof.
  revert w. induction es as [|[rel n] es IH]; intros w Hw; cbn [foldl].
  { split; [by left|]. intros [?|(r & d & ?%not_elem_of_nil & _)]; done. }
  rewrite recorded_cons. destruct n as [data| |target].
  - rewrite IH.
    + cbn. destruct (decide (p ++ rel = q)) as [<-|Hne].
      * rewrite lookup_insert_eq. split; [intros [[= <-]|?]; eauto 6|].
        intros [Hs|[(_ & -> & _)|?]]; [left; apply Hw in Hs as ->; done|by left|by right].
      * rewrite lookup_insert_ne by done. split; [intros [?|?]; auto|]. intros [?|[(-> & _)|?]]; [auto|done|auto].
    + intros q' s'. cbn. destruct (decide (p ++ rel = q')) as [<-|Hne];
        [rewrite lookup_insert_eq; congruence|rewrite lookup_insert_ne by done; apply Hw].
  - assert ((visit e p w (rel, Dir)).(snapshot_) = w.(snapshot_)) as Es
      by (unfold visit, add_watch; cbn; by destruct (_ <? 0)).
    rewrite IH by (rewrite Es; exact Hw). rewrite Es. split; [intros [?|?]; auto|].
    intros [?|[(_ & _ & d & ?)|?]]; [auto|done|auto].
  - rewrite IH by done. cbn. split; [intros [?|?]; auto|]. intros [?|[(_ & _ & d & ?)|?]]; [auto|done|auto].
Qed.

Lemma scan_lookup root q s :
  PollingScan.scan e root !! q = Some s ↔ recorded root (below_dir e root) q s.
Proof.
  unfold PollingScan.scan.
  assert (∀ es m, (∀ q s, m !! q = Some s → s = snapshot_for_regular_file e q) →
    foldl (λ m '(rel, n), match n with
      | File _ => PollingScan.emplace (root ++ rel) (snapshot_for_regular_file e (root ++ rel)) m
      | Symlink _ | Dir => m end) m es !! q = Some s ↔ m !! q = Some s ∨ recorded root es q s) as H.
  { induction es as [|[rel n] es IH]; intros m Hm; cbn [foldl].
    { split; [by left|]. intros [?|(r & d & ?%not_elem_of_nil & _)]; done. }
    rewrite recorded_cons. destruct n as [data| |target].
    2,3: rewrite IH by done; split; [intros [?|?]; auto|]; intros [?|[(_ & _ & d & ?)|?]]; [auto|done|auto].
    unfold PollingScan.emplace. destruct (m !! (root ++ rel)) as [s0|] eqn:E0.
    - rewrite IH by done. split; [intros [?|?]; auto|]. intros [?|[(-> & -> & _)|?]]; [auto| |auto].
      left. rewrite E0. f_equal. by apply Hm.
    - rewrite IH.
      + destruct (decide (root ++ rel = q)) as [<-|Hne].
        * rewrite lookup_insert_eq, E0. split; [intros [[= <-]|?]; eauto 6|]. intros [?|[(_ & -> & _)|?]]; auto; done.
        * rewrite lookup_insert_ne by done. split; [intros [?|?]; auto|]. intros [?|[(-> & _)|?]]; [auto|done|auto].
      + intros q' s'. destruct (decide (root ++ rel = q')) as [<-|Hne];
          [rewrite lookup_insert_eq; congruence|rewrite lookup_insert_ne by done; apply Hm]. }
  rewrite H by (by intros ??; rewrite lookup_empty). rewrite lookup_empty. split; [intros [?|?]; done|auto].
Qed.

(** A fresh watcher on a real directory. *)
Lemma create_spec fd errno root w :
  dir_path e.(tree) root → create e fd errno root = Ret w →
  w.(root_) = root ∧ w.(watches_) !! e.(add_watch_answer) root = Some root ∧
  (∀ rel, (rel, Dir) ∈ descendants e.(tree) root → w.(watches_) !! e.(add_watch_answer) (root ++ rel) = Some (root ++ rel)) ∧
  w.(snapshot_) = PollingScan.scan e root.
Proof.
  intros Hroot Hc. unfold create in Hc. destruct (fd <? 0); [done|]. injection Hc as <-.
  unfold add_recursive. assert (resolve e.(tree) root = Ok root) as Hr.
  { unfold resolve. pose proof (walk_dirs MAXSYMLINKS true e.(tree) root [] Hroot) as Hw.
    by rewrite app_nil_r, walk_nil in Hw. }
  assert (lresolve e.(tree) root = Ok root) as Hl.
  { unfold lresolve. pose proof (walk_dirs MAXSYMLINKS false e.(tree) root [] Hroot) as Hw.
    by rewrite app_nil_r, walk_nil in Hw. }
  unfold symlink_status. rewrite Hl, (dir_path_node _ _ Hroot).
  assert (below_dir e root = descendants e.(tree) root) as Hb.
  { unfold below_dir. by rewrite Hr, (dir_path_node _ _ Hroot). }
  set (w0 := add_watch e root (mk root ∅ ∅)).
  assert (w0.(snapshot_) = ∅ ∧ w0.(root_) = root) as [Es Er] by (unfold w0, add_watch; by destruct (_ <? 0)).
  split; [|split; [|split]].
  - clear Hb. revert Er. generalize w0. induction (below_dir e root) as [|x es IH]; intros w1 Er; [done|]. apply IH.
    destruct x as [rel []]; [done| |done]. unfold visit, add_watch. cbn. by destruct (_ <? 0).
  - apply visits_keep_watch, add_watch_lookup.
  - intros rel Hin. rewrite Hb. by apply visits_watch.
  - apply map_eq. intros q. apply option_eq. intros s. rewrite visits_snapshot, scan_lookup.
    + rewrite Es, lookup_empty. split; [intros [?|?]; done|auto].
    + rewrite Es. by intros ??; rewrite lookup_empty.
Qed.
End facts.

(** A change of a file: created, moved in, written or closed. *)
Definition changes (m : Z) : Prop :=
  any m [IN_Q_OVERFLOW] = false ∧ any m [IN_DELETE; IN_MOVED_FROM; IN_DELETE_SELF; IN_MOVE_SELF] = false ∧
  any m [IN_ISDIR] = false ∧ any m [IN_CREATE; IN_MOVED_TO; IN_CLOSE_WRITE; IN_MODIFY] = true.
#[export] Instance changes_dec m : Decision (changes m).
Proof. unfold changes. apply _. Defined.

Lemma handle_change e event w p data :
  changes event.(mask) → w.(watches_) !! event.(wd) = Some p → name_ok event.(name) → dir_path e.(tree) p →
  e.(tree) !! (p ++ [event.(name)]) = Some (File data) →
  let q := p ++ [event.(name)] in
  let current := T_WatchSnapshot.mk (zlen data) (e.(mtime_of) q) in
  handle_event e event w =
  ([T_WatchEvent.mk match w.(snapshot_) !! q with
                    | None => EM_WatchEventKind.CREATED
                    | Some previous => if zlen data >? previous.(T_WatchSnapshot.size)
                                       then EM_WatchEventKind.APPENDED else EM_WatchEventKind.MODIFIED
                    end q],
   set_snapshot q current w).
Proof.
  intros (H1 & H2 & H3 & H4) Hw Hn Hp Hf q current. unfold handle_event. rewrite H1, Hw.
  rewrite bool_decide_eq_false_2 by apply Hn. rewrite H2, H3, H4. cbn [negb].
  assert (node_at e.(tree) q = Some (File data)) as Hnode by (unfold q; by rewrite node_at_snoc).
  unfold symlink_status. rewrite (lresolve_in_dir _ _ _ Hp Hn). fold q. rewrite Hnode.
  assert (snapshot_for_regular_file e q = current) as ->; [|done].
  unfold snapshot_for_regular_file, q. rewrite status_in_dir; [|done|done|fold q; by rewrite Hnode].
  fold q. by rewrite Hnode.
Qed.
(** [p] is [root] or a directory below it. *)
Definition in_tree (e : env) (root p : path) : Prop :=
  p = root ∨ ∃ rel, p = root ++ rel ∧ (rel, Dir) ∈ descendants e.(tree) root.

(** As long as a directory's watch lives, another path does not get it. *)
Definition keeps_watches (e : env) (root : path) (e' : env) : Prop :=
  ∀ p q, in_tree e root p → e'.(add_watch_answer) q = e.(add_watch_answer) p → q = p.

(** No event takes a watch away. *)
Section watches.
Context (e' : env) (wd : Z) (p : path) (Hown : ∀ q, e'.(add_watch_answer) q = wd → q = p).

Lemma add_watch_keeps q w : w.(watches_) !! wd = Some p → (add_watch e' q w).(watches_) !! wd = Some p.
Proof using Hown.
  intros Hw. unfold add_watch. destruct (_ <? 0); [done|]. cbn.
  destruct (decide (add_watch_answer e' q = wd)) as [Eq|Hne]; [|by rewrite lookup_insert_ne].
  rewrite Eq, (Hown q Eq). apply lookup_insert_eq.
Qed.

Lemma add_recursive_keeps q w : w.(watches_) !! wd = Some p → (add_recursive e' q w).(watches_) !! wd = Some p.
Proof using Hown.
  intros Hw. unfold add_recursive. destruct (symlink_status _ _) as [[]|]; try done.
  apply (add_watch_keeps q) in Hw. revert Hw. generalize (add_watch e' q w).
  induction (below_dir e' q) as [|[rel n] es IH]; intros w1 Hw; [done|]. apply IH.
  destruct n; [done|by apply add_watch_keeps|done].
Qed.

Lemma handle_event_keeps event w :
  w.(watches_) !! wd = Some p → (handle_event e' event w).2.(watches_) !! wd = Some p.
Proof using Hown.
  intros Hw. unfold handle_event.
  repeat (case_match; cbn [snd]; try done; try by apply add_recursive_keeps).
Qed.
End watches.

Lemma handle_events_keep events wd p w :
  Forall (λ ev, ∀ q, ev.1.(add_watch_answer) q = wd → q = p) events →
  w.(watches_) !! wd = Some p → (handle_events events w).2.(watches_) !! wd = Some p.
Proof.
  intros Hev. revert w. induction Hev as [|[e' event] events H _ IH]; intros w Hw; [done|]. cbn [handle_events].
  pose proof (handle_event_keeps e' wd p H event w Hw) as Hw1. destruct (handle_event e' event w) as [r w1].
  specialize (IH w1 Hw1). by destruct (handle_events events w1) as [more w2].
Qed.

(** One change of a file: the file system the event is handled in, the
    directory with its watch, the event's mask and name, and the file's bytes. *)
Record change := mk_change {
  seen_in : env; watch : Z; dir : path; flags : Z; file : string; bytes : Bytes
}.
Definition changed (c : change) : path := c.(dir) ++ [c.(file)].
Definition event_of (c : change) : env * inotify_event := (c.(seen_in), mk_event c.(watch) c.(flags) c.(file)).
Definition now (c : change) : T_WatchSnapshot.t :=
  T_WatchSnapshot.mk (zlen c.(bytes)) (c.(seen_in).(mtime_of) (changed c)).
Definition real_change (c : change) : Prop :=
  changes c.(flags) ∧ name_ok c.(file) ∧ dir_path c.(seen_in).(tree) c.(dir) ∧
  c.(seen_in).(tree) !! changed c = Some (File c.(bytes)).

(** What is to be reported of changes, one event for each in their order, by the
    sizes recorded, and what is then recorded. *)
Definition report (recorded : gmap path T_WatchSnapshot.t) (c : change) : T_WatchEvent.t :=
  T_WatchEvent.mk match recorded !! changed c with
                  | None => EM_WatchEventKind.CREATED
                  | Some previous => if zlen c.(bytes) >? previous.(T_WatchSnapshot.size)
                                     then EM_WatchEventKind.APPENDED else EM_WatchEventKind.MODIFIED
                  end (changed c).
Definition record (recorded : gmap path T_WatchSnapshot.t) (c : change) : gmap path T_WatchSnapshot.t :=
  <[changed c := now c]> recorded.
Fixpoint reports (recorded : gmap path T_WatchSnapshot.t) (cs : list change) : list T_WatchEvent.t :=
  match cs with [] => [] | c :: cs => report recorded c :: reports (record recorded c) cs end.

Lemma handle_changes cs w :
  Forall (λ c, real_change c ∧ w.(watches_) !! c.(watch) = Some c.(dir)) cs →
  handle_events (event_of <$> cs) w =
  (reports w.(snapshot_) cs, mk w.(root_) w.(watches_) (foldl record w.(snapshot_) cs)).
Proof.
  revert w. induction cs as [|c cs IH]; intros w H; [by destruct w|].
  apply Forall_cons in H as [[(Hm & Hn & Hp & Hf) Hw] H]. rewrite fmap_cons. cbn [handle_events event_of].
  rewrite (handle_change _ (mk_event c.(watch) c.(flags) c.(file)) w c.(dir) c.(bytes) Hm Hw Hn Hp Hf).
  by rewrite IH.
Qed.
End InotifyFacts.
Import InotifySourceWatcher InotifyFacts.

(** C35: the inotify watcher sees its whole tree: made on a real directory, it
    records of the regular files exactly what the polling watcher records, and
    it watches that directory and every directory below it for good (where the
    kernel gives each one its own watch): after any events, whatever they are
    and whatever the file system is when they are handled, any sequence of
    changes of files directly in these directories gives exactly one event per
    change, in order, with the file's path and CREATED, APPENDED or MODIFIED as
    the size recorded then says, and each change records the new size and time
    for the next. *)
Theorem inotify_watches_tree (e : env) fd errno root w :
  own_watches e → dir_path e.(tree) root → create e fd errno root = Ret w →
  w.(snapshot_) = PollingScan.scan e root ∧
  ∀ (before : list (env * inotify_event)) (cs : list change),
    Forall (λ ev, keeps_watches e root ev.1) before →
    Forall (λ c, real_change c ∧ in_tree e root c.(dir) ∧ c.(watch) = e.(add_watch_answer) c.(dir)) cs →
    let w1 := (handle_events before w).2 in
    handle_events (event_of <$> cs) w1 =
    (reports w1.(snapshot_) cs, mk w1.(root_) w1.(watches_) (foldl record w1.(snapshot_) cs)).
Proof.
  intros He Hroot Hc. destruct (create_spec e He fd errno root w Hroot Hc) as (_ & Hr & Hd & Hs).
  split; [done|]. intros before cs Hkeep Hcs w1. apply handle_changes.
  eapply Forall_impl; [exact Hcs|]. intros c (Hreal & Hin & ->). split; [done|].
  apply handle_events_keep.
  - eapply Forall_impl; [exact Hkeep|]. intros ev H q Hq. by apply H.
  - destruct Hin as [->|(rel & -> & Hin)]; [exact Hr|by apply Hd].
Qed.

Definition sample_tree : gmap path node :=
  {[ ["s"] := Dir; ["s"; "sub"] := Dir; ["s"; "sub"; "1.file"] := File [x01] ]}.
(** A watch per path: the code of the path, as a number. *)
Definition sample_env (t : gmap path node) (time : Z) : env := mk_env t (λ _, time) (λ p, Z.pos (encode p)).
Definition grown (data : Bytes) : gmap path node := <[ ["s"; "sub"; "1.file"] := File data ]> sample_tree.

(** The file is removed, made again, and grows. *)
Definition sample_before : list (env * inotify_event) :=
  [(sample_env sample_tree 4, mk_event (Z.pos (encode ["s"; "sub"])) IN_DELETE "1.file")].
Definition sample_change (data : Bytes) (m : Z) : change :=
  mk_change (sample_env (grown data) 5) (Z.pos (encode ["s"; "sub"])) ["s"; "sub"] m "1.file" data.
Definition sample_changes : list change :=
  [sample_change [x01; x02] IN_CREATE; sample_change [x01; x02; x03] IN_MODIFY;
   sample_change [x01; x02; x03] IN_CLOSE_WRITE].

Lemma sample_dir t : t !! ["s"] = Some Dir → t !! ["s"; "sub"] = Some Dir → dir_path t ["s"; "sub"].
Proof.
  intros Ht Ht2. apply (dir_path_snoc t ["s"] "sub"); [|by apply (bool_decide_unpack _)|done].
  apply (dir_path_snoc t [] "s"); [apply dir_path_nil|by apply (bool_decide_unpack _)|done].
Qed.

Lemma sample_changes_real :
  Forall (λ c, real_change c ∧ in_tree (sample_env sample_tree 0) ["s"] c.(dir) ∧
    c.(watch) = (sample_env sample_tree 0).(add_watch_answer) c.(dir)) sample_changes.
Proof.
  assert (in_tree (sample_env sample_tree 0) ["s"] ["s"; "sub"]) as Hin.
  { right. exists ["sub"]. split; [done|]. apply (bool_decide_unpack _). vm_compute. done. }
  repeat (apply Forall_cons_2; [split; [|split; [exact Hin|done]]|]); [..|constructor];
    (split; [apply (bool_decide_unpack _); vm_compute; done|]);
    (split; [apply (bool_decide_unpack _); vm_compute; done|]); (split; [by apply sample_dir|done]).
Qed.

Lemma inotify_watches_tree_witness :
  match create (sample_env sample_tree 0) 3 "" ["s"] with
  | Ret w =>
      (handle_events (event_of <$> sample_changes) (handle_events sample_before w).2).1 =
      [T_WatchEvent.mk EM_WatchEventKind.CREATED ["s"; "sub"; "1.file"];
       T_WatchEvent.mk EM_WatchEventKind.APPENDED ["s"; "sub"; "1.file"];
       T_WatchEvent.mk EM_WatchEventKind.MODIFIED ["s"; "sub"; "1.file"]]
  | Throw _ => False
  end.
Proof.
  destruct (create (sample_env sample_tree 0) 3 "" ["s"]) as [w|] eqn:Ew; [|vm_compute in Ew; discriminate].
  assert (own_watches (sample_env sample_tree 0)) as Ho.
  { split; [done|]. intros p q [= E]. by apply (inj encode). }
  assert (dir_path sample_tree ["s"]) as Hs
    by (apply (dir_path_snoc sample_tree [] "s"); [apply dir_path_nil|by apply (bool_decide_unpack _)|done]).
  destruct (inotify_watches_tree (sample_env sample_tree 0) 3 "" ["s"] w Ho Hs Ew) as [_ Hev].
  rewrite (Hev sample_before sample_changes).
  - vm_compute in Ew. injection Ew as <-. vm_compute. reflexivity.
  - apply Forall_cons_2; [|constructor]. intros q r _ [= E]. by apply (inj encode).
  - apply sample_changes_real.
Defined.

(** A root that is a symbolic link is not watched: [add_recursive] asks
    [symlink_status], which does not follow it.  The watcher is made, without an
    error that would fall back to polling, and never reports anything; the
    polling watcher sees the files below. *)
Definition linked_env : env :=
  mk_env {[ ["s"] := Dir; ["s"; "1.file"] := File [x01]; ["l"] := Symlink "/s" ]} (λ _, 0) (λ p, Z.pos (encode p)).

Lemma linked_root_unwatched :
  create linked_env 3 "" ["l"] = Ret (InotifySourceWatcher.mk ["l"] ∅ ∅) ∧
  PollingScan.scan linked_env ["l"] !! ["l"; "1.file"] = Some (T_WatchSnapshot.mk 1 0).
Proof. by vm_compute. Qed.

(** ** No notification of FSEvents is lost *)
Module FseventsFacts.
Import FseventsSourceWatcher.

(** The watcher with what the program has yet to learn: a notification whose
    callback has ended ([unseen]), and one of them an overflow ([unseen_all]). *)
Record state := mk_state { watcher_ : t; unseen : bool; unseen_all : bool }.

(** The accesses of the two threads, in any order; a poll gives its events. *)
Inductive step : state → list T_WatchEvent.t → state → Prop :=
  | Step_callback w u a flags :
      w.(callback_at) = Callback_idle → step (mk_state w u a) [] (mk_state (callback_start flags w) u a)
  | Step_store_overflow w u a :
      w.(callback_at) = Store_overflow → step (mk_state w u a) [] (mk_state (store_overflow w) u true)
  | Step_store_dirty w u a :
      w.(callback_at) = Store_dirty → step (mk_state w u a) [] (mk_state (store_dirty w) true a)
  | Step_exchange_overflow w u a :
      w.(poll_at) = Poll_idle → step (mk_state w u a) [] (mk_state (exchange_overflow w) u a)
  | Step_clear w u a :
      w.(poll_at) = Clear_dirty → step (mk_state w u a) (clear_dirty w).1 (mk_state (clear_dirty w).2 false false)
  | Step_exchange_dirty w u a :
      w.(poll_at) = Exchange_dirty →
      step (mk_state w u a) (exchange_dirty w).1
        (mk_state (exchange_dirty w).2 (if w.(dirty_) then false else u) a).

Inductive steps : state → list T_WatchEvent.t → state → Prop :=
  | Steps_nil s : steps s [] s
  | Steps_step s1 s2 s3 es1 es2 : steps s1 es1 s2 → step s2 es2 s3 → steps s1 (es1 ++ es2) s3.

Definition start (root : path) : state := mk_state (create root) false false.

(** What is unseen is in a flag, or in the hands of a poll that reports it. *)
Definition inv (root : path) (s : state) : Prop :=
  let w := s.(watcher_) in
  w.(root_) = root ∧
  (s.(unseen) = true → w.(dirty_) = true ∨ w.(overflow_) = true ∨ w.(poll_at) = Clear_dirty) ∧
  (s.(unseen_all) = true → w.(overflow_) = true ∨ w.(poll_at) = Clear_dirty).

Lemma step_inv root s es s' : step s es s' → inv root s → inv root s'.
Proof.
  intros Hs (Hr & Hu & Ha). destruct Hs as [w u a flags Hc|w u a Hc|w u a Hc|w u a Hp|w u a Hp|w u a Hp];
    cbn in *; split; cbn; try done; (split; [intros H|intros H]); try discriminate; auto.
  - destruct (overflow_ w); [auto|]. destruct (Hu H) as [?|[?|?]]; [auto|done|congruence].
  - destruct (overflow_ w); [auto|]. destruct (Ha H) as [?|?]; [done|congruence].
  - destruct (dirty_ w); [done|]. destruct (Hu H) as [?|[?|?]]; [done|auto|congruence].
  - destruct (Ha H) as [?|?]; [auto|congruence].
Qed.

Lemma steps_inv root es s : steps (start root) es s → inv root s.
Proof.
  remember (start root) as s0 eqn:E. induction 1 as [s|s1 s2 s3 es1 es2 _ IH Hs]; subst.
  - split; [done|]. split; discriminate.
  - eapply step_inv; [done|by apply IH].
Qed.
End FseventsFacts.

(** C36: the FSEvents watcher loses no notification: in every interleaving of its
    callback with the polls, access by access, once a callback has ended without
    a poll having returned an event since, the next poll returns one; and when
    the system said that it dropped events, that poll reports the overflow. *)
Theorem fsevents_none_lost (root : path) (reported : list T_WatchEvent.t) (s : FseventsFacts.state) :
  FseventsFacts.steps (FseventsFacts.start root) reported s →
  s.(FseventsFacts.watcher_).(FseventsSourceWatcher.poll_at) = FseventsSourceWatcher.Poll_idle →
  let events := (FseventsSourceWatcher.poll s.(FseventsFacts.watcher_)).1 in
  (s.(FseventsFacts.unseen) = true → events ≠ []) ∧
  (s.(FseventsFacts.unseen_all) = true → events = [T_WatchEvent.mk EM_WatchEventKind.WATCH_OVERFLOW root]).
Proof.
  intros Hs Hp. apply FseventsFacts.steps_inv in Hs as (Hr & Hu & Ha). cbn zeta.
  unfold FseventsSourceWatcher.poll. cbn. destruct s as [[r d o c p] u a]; cbn in *. subst p r. split.
  - intros H. destruct (Hu H) as [->|[->|?]]; [by destruct o|done|done].
  - intros H. destruct (Ha H) as [->|?]; [done|done].
Qed.

(** A callback runs between the two accesses of a poll. *)
Lemma fsevents_none_lost_witness :
  ∃ s, FseventsFacts.steps (FseventsFacts.start ["s"]) [] s ∧
    (FseventsSourceWatcher.poll s.(FseventsFacts.watcher_)).1 =
      [T_WatchEvent.mk EM_WatchEventKind.WATCH_OVERFLOW ["s"]].
Proof.
  eexists. assert (∀ s1 s2 s3, FseventsFacts.steps s1 [] s2 → FseventsFacts.step s2 [] s3 → FseventsFacts.steps s1 [] s3)
    as Hstep by (intros s1 s2 s3 H1 H2; exact (FseventsFacts.Steps_step _ _ _ [] [] H1 H2)).
  assert (FseventsFacts.steps (FseventsFacts.start ["s"]) []
    (FseventsFacts.mk_state (FseventsSourceWatcher.mk ["s"] false true FseventsSourceWatcher.Store_dirty
       FseventsSourceWatcher.Poll_idle) false true)) as Hs.
  { eapply Hstep; [eapply Hstep; [eapply Hstep; [eapply Hstep; [apply FseventsFacts.Steps_nil|]|]|]|].
    - by apply FseventsFacts.Step_exchange_overflow.
    - by apply (FseventsFacts.Step_callback _ _ _ [FseventsSourceWatcher.UserDropped]).
    - by apply FseventsFacts.Step_store_overflow.
    - apply (FseventsFacts.Step_exchange_dirty (FseventsSourceWatcher.mk ["s"] false true
        FseventsSourceWatcher.Store_dirty FseventsSourceWatcher.Exchange_dirty)). done. }
  split; [exact Hs|]. by apply (fsevents_none_lost ["s"] [] _ Hs).
Defined.
