(* ===== verification/SenderApp.v ===== *)
(** * The sender: [src/sender/yisync_sender_app.cpp]

    [SenderApp]: the streams and their tasks, the network, the buffer of sent
    messages and the retransmission timer, with the handlers of the network's
    callbacks and of the ticks.  A handler may come back into the application
    while it is in the network (a line found closed reports what it lost): the
    callback is a parameter of every operation, and [on_lost_sends] ties the
    knot with a depth.  Log output is left out. *)
From S2P Require Import Prelude Crc32c Filesystem Wire Protocol Framing Sync Scheduler Source ChunkResend.
From S2P Require Import AppendState SendBuffer SenderPlan Network NodeCommon.
From stdpp Require Import sorting.
#[local] Open Scope Z_scope.

(** ** The retransmission timeout *)
Module RtoEstimator.
Record t := mk { initialized_ : bool; srtt_ticks_ : Z; rttvar_ticks_ : Z }.
Definition initial : t := mk false 0 0.

(** [std::clamp]. *)
Definition clamp (v lo hi : Z) : Z := if v <? lo then lo else if hi <? v then hi else v.

Definition rto_ticks (fallback_ticks : Z) (r : t) : Z :=
  if negb r.(initialized_) then Z.max 1 fallback_ticks
  else
    let candidate := u64 (r.(srtt_ticks_) + Z.max 1 (u64 (r.(rttvar_ticks_) * 4))) in
    clamp candidate (Z.max 1 (fallback_ticks / 2)) (Z.max 1 (u64 (fallback_ticks * 8))).

Definition observe (sample_ticks : Z) (r : t) : t :=
  let sample_ticks := if sample_ticks =? 0 then 1 else sample_ticks in
  if negb r.(initialized_) then mk true sample_ticks (Z.max 1 (sample_ticks / 2))
  else
    let abs_delta := if r.(srtt_ticks_) >? sample_ticks then r.(srtt_ticks_) - sample_ticks
                     else sample_ticks - r.(srtt_ticks_) in
    mk true (Z.max 1 (u64 (u64 (7 * r.(srtt_ticks_)) + sample_ticks) / 8))
      (Z.max 1 (u64 (u64 (3 * r.(rttvar_ticks_)) + abs_delta) / 4)).
End RtoEstimator.

(** ** The state *)

(** What the event loop is to call later. *)
Inductive later := TickLater | WatchPollLater | RescanLater (reason : string) | TimeoutLater.

Module SenderApp.
Record t := mk {
  options_ : T_NodeOptions.t; streams_ : list T_StreamSendState.t; network_ : T_SenderNetwork.t;
  send_buffer_ : T_SenderSendBuffer.t; rto_ : RtoEstimator.t; next_manifest_id_ : Z; current_tick_ : Z;
  manifest_recovery_attempts_ : Z; dropped_line_once_ : bool; rescan_scheduled_ : bool;
  rescan_pending_ : bool; done_ : bool; failed_ : bool;
  stopped_ : bool; later_ : list (Z * later); world_ : fsys
}.

Definition set_streams v s := mk s.(options_) v s.(network_) s.(send_buffer_) s.(rto_) s.(next_manifest_id_)
  s.(current_tick_) s.(manifest_recovery_attempts_) s.(dropped_line_once_) s.(rescan_scheduled_)
  s.(rescan_pending_) s.(done_) s.(failed_) s.(stopped_) s.(later_) s.(world_).
Definition set_network v s := mk s.(options_) s.(streams_) v s.(send_buffer_) s.(rto_) s.(next_manifest_id_)
  s.(current_tick_) s.(manifest_recovery_attempts_) s.(dropped_line_once_) s.(rescan_scheduled_)
  s.(rescan_pending_) s.(done_) s.(failed_) s.(stopped_) s.(later_) s.(world_).
Definition set_send_buffer v s := mk s.(options_) s.(streams_) s.(network_) v s.(rto_) s.(next_manifest_id_)
  s.(current_tick_) s.(manifest_recovery_attempts_) s.(dropped_line_once_) s.(rescan_scheduled_)
  s.(rescan_pending_) s.(done_) s.(failed_) s.(stopped_) s.(later_) s.(world_).
Definition set_rto v s := mk s.(options_) s.(streams_) s.(network_) s.(send_buffer_) v s.(next_manifest_id_)
  s.(current_tick_) s.(manifest_recovery_attempts_) s.(dropped_line_once_) s.(rescan_scheduled_)
  s.(rescan_pending_) s.(done_) s.(failed_) s.(stopped_) s.(later_) s.(world_).
Definition set_next_manifest_id v s := mk s.(options_) s.(streams_) s.(network_) s.(send_buffer_) s.(rto_) v
  s.(current_tick_) s.(manifest_recovery_attempts_) s.(dropped_line_once_) s.(rescan_scheduled_)
  s.(rescan_pending_) s.(done_) s.(failed_) s.(stopped_) s.(later_) s.(world_).
Definition set_current_tick v s := mk s.(options_) s.(streams_) s.(network_) s.(send_buffer_) s.(rto_)
  s.(next_manifest_id_) v s.(manifest_recovery_attempts_) s.(dropped_line_once_) s.(rescan_scheduled_)
  s.(rescan_pending_) s.(done_) s.(failed_) s.(stopped_) s.(later_) s.(world_).
Definition set_attempts v s := mk s.(options_) s.(streams_) s.(network_) s.(send_buffer_) s.(rto_)
  s.(next_manifest_id_) s.(current_tick_) v s.(dropped_line_once_) s.(rescan_scheduled_)
  s.(rescan_pending_) s.(done_) s.(failed_) s.(stopped_) s.(later_) s.(world_).
Definition set_dropped v s := mk s.(options_) s.(streams_) s.(network_) s.(send_buffer_) s.(rto_)
  s.(next_manifest_id_) s.(current_tick_) s.(manifest_recovery_attempts_) v s.(rescan_scheduled_)
  s.(rescan_pending_) s.(done_) s.(failed_) s.(stopped_) s.(later_) s.(world_).
Definition set_rescan scheduled pending s := mk s.(options_) s.(streams_) s.(network_) s.(send_buffer_) s.(rto_)
  s.(next_manifest_id_) s.(current_tick_) s.(manifest_recovery_attempts_) s.(dropped_line_once_) scheduled
  pending s.(done_) s.(failed_) s.(stopped_) s.(later_) s.(world_).
Definition set_done v s := mk s.(options_) s.(streams_) s.(network_) s.(send_buffer_) s.(rto_)
  s.(next_manifest_id_) s.(current_tick_) s.(manifest_recovery_attempts_) s.(dropped_line_once_)
  s.(rescan_scheduled_) s.(rescan_pending_) v s.(failed_) s.(stopped_) s.(later_) s.(world_).
Definition set_failed v s := mk s.(options_) s.(streams_) s.(network_) s.(send_buffer_) s.(rto_)
  s.(next_manifest_id_) s.(current_tick_) s.(manifest_recovery_attempts_) s.(dropped_line_once_)
  s.(rescan_scheduled_) s.(rescan_pending_) s.(done_) v s.(stopped_) s.(later_) s.(world_).
Definition set_loop stopped calls s := mk s.(options_) s.(streams_) s.(network_) s.(send_buffer_) s.(rto_)
  s.(next_manifest_id_) s.(current_tick_) s.(manifest_recovery_attempts_) s.(dropped_line_once_)
  s.(rescan_scheduled_) s.(rescan_pending_) s.(done_) s.(failed_) stopped calls s.(world_).
Definition set_world v s := mk s.(options_) s.(streams_) s.(network_) s.(send_buffer_) s.(rto_)
  s.(next_manifest_id_) s.(current_tick_) s.(manifest_recovery_attempts_) s.(dropped_line_once_)
  s.(rescan_scheduled_) s.(rescan_pending_) s.(done_) s.(failed_) s.(stopped_) s.(later_) v.

#[export] Instance has_network : Has t T_SenderNetwork.t.
Proof. by refine {| part := network_; set_part := set_network |}; [|intros []|]. Defined.
#[export] Instance has_world : Has t fsys.
Proof. by refine {| part := world_; set_part := set_world |}; [|intros []|]. Defined.

Definition call_later (delay : Z) (what : later) : M t unit :=
  modify (λ s, set_loop s.(stopped_) (s.(later_) ++ [(delay, what)]) s).
Definition stop_loop : M t unit := modify (λ s, set_loop true s.(later_) s).

(** [failed_ = true; loop_.stop();] *)
Definition fail_and_stop : M t unit := modify (set_failed true);; stop_loop.

(** *** The references the source holds into [streams_] *)
Definition stream_at (i : nat) : M t T_StreamSendState.t := λ s,
  match s.(streams_) !! i with Some stream => (Ret stream, s) | None => (Throw "no such stream", s) end.
Definition task_at (i j : nat) : M t T_FileSendTask.t := λ s,
  match s.(streams_) !! i ≫= λ stream, stream.(T_StreamSendState.tasks) !! j with
  | Some task => (Ret task, s)
  | None => (Throw "no such task", s)
  end.
Definition update_stream (i : nat) (f : T_StreamSendState.t → T_StreamSendState.t) : M t unit :=
  modify (λ s, set_streams (alter f i s.(streams_)) s).
Definition update_task (i j : nat) (f : T_FileSendTask.t → T_FileSendTask.t) : M t unit :=
  update_stream i (λ stream,
    T_StreamSendState.set_tasks (alter f j stream.(T_StreamSendState.tasks)) stream).

(** [stream_for_id]. *)
Definition stream_for_id (stream_id : Z) (s : t) : option nat :=
  fst <$> list_find (λ stream, stream.(T_StreamSendState.stream_id) = stream_id) s.(streams_).

(** [active_task(stream)]: the index of the task, when there is one. *)
Definition active_index (stream : T_StreamSendState.t) : option nat :=
  match active_task stream with
  | Some _ => Some (Z.to_nat stream.(T_StreamSendState.current_task))
  | None => None
  end.

(** *** Changes to a task *)
Definition set_begin (sent ready : bool) (line_id : Z) (k : T_FileSendTask.t) : T_FileSendTask.t :=
  T_FileSendTask.mk k.(T_FileSendTask.stream_id) k.(T_FileSendTask.seq) k.(T_FileSendTask.file_id)
    k.(T_FileSendTask.kind) k.(T_FileSendTask.name) k.(T_FileSendTask.link_target)
    k.(T_FileSendTask.source_size) k.(T_FileSendTask.source_checksum) k.(T_FileSendTask.range_checksum)
    k.(T_FileSendTask.reader) k.(T_FileSendTask.chunk_mode) k.(T_FileSendTask.preferred_chunk_mode)
    k.(T_FileSendTask.chunk_count) k.(T_FileSendTask.chunk_resend) sent ready k.(T_FileSendTask.commit_sent)
    line_id k.(T_FileSendTask.commit_line_id) k.(T_FileSendTask.append).
Definition set_commit (sent : bool) (line_id : Z) (k : T_FileSendTask.t) : T_FileSendTask.t :=
  T_FileSendTask.mk k.(T_FileSendTask.stream_id) k.(T_FileSendTask.seq) k.(T_FileSendTask.file_id)
    k.(T_FileSendTask.kind) k.(T_FileSendTask.name) k.(T_FileSendTask.link_target)
    k.(T_FileSendTask.source_size) k.(T_FileSendTask.source_checksum) k.(T_FileSendTask.range_checksum)
    k.(T_FileSendTask.reader) k.(T_FileSendTask.chunk_mode) k.(T_FileSendTask.preferred_chunk_mode)
    k.(T_FileSendTask.chunk_count) k.(T_FileSendTask.chunk_resend) k.(T_FileSendTask.begin_sent)
    k.(T_FileSendTask.begin_ready) sent k.(T_FileSendTask.begin_line_id) line_id k.(T_FileSendTask.append).
Definition set_append (append : T_AppendSendState.t) (k : T_FileSendTask.t) : T_FileSendTask.t :=
  T_FileSendTask.mk k.(T_FileSendTask.stream_id) k.(T_FileSendTask.seq) k.(T_FileSendTask.file_id)
    k.(T_FileSendTask.kind) k.(T_FileSendTask.name) k.(T_FileSendTask.link_target)
    k.(T_FileSendTask.source_size) k.(T_FileSendTask.source_checksum) k.(T_FileSendTask.range_checksum)
    k.(T_FileSendTask.reader) k.(T_FileSendTask.chunk_mode) k.(T_FileSendTask.preferred_chunk_mode)
    k.(T_FileSendTask.chunk_count) k.(T_FileSendTask.chunk_resend) k.(T_FileSendTask.begin_sent)
    k.(T_FileSendTask.begin_ready) k.(T_FileSendTask.commit_sent) k.(T_FileSendTask.begin_line_id)
    k.(T_FileSendTask.commit_line_id) append.
Definition set_resend (resend : T_ChunkResendState.t) (k : T_FileSendTask.t) : T_FileSendTask.t :=
  T_FileSendTask.set_modes k.(T_FileSendTask.chunk_mode) k.(T_FileSendTask.preferred_chunk_mode)
    k.(T_FileSendTask.chunk_count) resend k.

Definition update_append (i j : nat) (f : T_AppendSendState.t → T_AppendSendState.t) : M t unit :=
  update_task i j (λ k, set_append (f k.(T_FileSendTask.append)) k).
Definition update_resend (i j : nat) (f : T_ChunkResendState.t → T_ChunkResendState.t) : M t unit :=
  update_task i j (λ k, set_resend (f k.(T_FileSendTask.chunk_resend)) k).

Definition reset_task_for_manifest_recovery (task : T_FileSendTask.t) : T_FileSendTask.t :=
  set_resend (reset_chunk_resend_state task.(T_FileSendTask.chunk_resend))
    (set_append (reset_append_state task.(T_FileSendTask.append))
      (set_commit false 0 (set_begin false false 0
        (T_FileSendTask.set_chunk_mode task.(T_FileSendTask.preferred_chunk_mode) task)))).

(** ** Messages *)
Definition file_begin_message (chunk_size : Z) (task : T_FileSendTask.t) : T_FileBegin.t :=
  T_FileBegin.mk task.(T_FileSendTask.stream_id) task.(T_FileSendTask.seq) task.(T_FileSendTask.file_id)
    task.(T_FileSendTask.name) task.(T_FileSendTask.source_size) chunk_size task.(T_FileSendTask.chunk_count)
    task.(T_FileSendTask.source_checksum) 0 0 empty_checksum.

Definition create_message (task : T_FileSendTask.t) : T_Create.t :=
  T_Create.mk task.(T_FileSendTask.stream_id) task.(T_FileSendTask.append).(T_AppendSendState.seq)
    task.(T_FileSendTask.file_id) task.(T_FileSendTask.kind) task.(T_FileSendTask.name)
    task.(T_FileSendTask.link_target) task.(T_FileSendTask.source_size) 0 0 empty_checksum.

Definition file_commit_message (task : T_FileSendTask.t) : T_FileCommit.t :=
  T_FileCommit.mk task.(T_FileSendTask.stream_id) task.(T_FileSendTask.seq) task.(T_FileSendTask.file_id).

(** A request for a message, with the bytes it takes on the wire. *)
Definition request_for (message : T_Message) (stream_id file_id seq offset end_offset : Z)
    (kind : EM_SendKind.t) (chunk_index : Z) : T_SendRequest.t :=
  T_SendRequest.mk stream_id file_id seq offset end_offset (encoded_message_size message) false kind chunk_index.

Definition is_recoverable_nack (reason : EM_NackReason.t) : bool :=
  match reason with
  | EM_NackReason.BAD_CHECKSUM | EM_NackReason.BAD_COMMIT | EM_NackReason.SIZE_CONFLICT
  | EM_NackReason.CHECKSUM_MISMATCH | EM_NackReason.BAD_SEQ | EM_NackReason.BAD_OFFSET
  | EM_NackReason.BAD_CHUNK => true
  | _ => false
  end.

Definition recovery_reason_name (reason : EM_NackReason.t) : string :=
  match reason with
  | EM_NackReason.BAD_CHECKSUM => "bad_checksum"
  | EM_NackReason.BAD_COMMIT => "bad_commit"
  | EM_NackReason.SIZE_CONFLICT => "size_conflict"
  | EM_NackReason.CHECKSUM_MISMATCH => "checksum_mismatch"
  | EM_NackReason.BAD_SEQ => "bad_seq"
  | EM_NackReason.BAD_OFFSET => "bad_offset"
  | EM_NackReason.BAD_CHUNK => "bad_chunk"
  | _ => "unrecoverable"
  end.

Definition manifest_label (manifest : T_Manifest1.t) (streams : list T_StreamSendState.t) : string :=
  "message=T_Manifest1 manifest_id=" ++ to_string manifest.(T_Manifest1.manifest_id) ++
  " streams=" ++ to_string (zlen manifest.(T_Manifest1.streams)) ++
  " entries=" ++ to_string (foldl (λ n stream,
     u64 (n + zlen stream.(T_StreamSendState.source_manifest).(T_Manifest1Stream.entries))) 0 streams).

Definition observe_ack_sample (sample : T_AckedSendSample.t) : M t unit :=
  if sample.(T_AckedSendSample.rtt_ticks) =? 0 then mret tt
  else modify (λ s, set_rto (RtoEstimator.observe sample.(T_AckedSendSample.rtt_ticks) s.(rto_)) s).

Fixpoint observe_ack_samples (samples : list T_AckedSendSample.t) : M t unit :=
  match samples with
  | [] => mret tt
  | sample :: samples => observe_ack_sample sample;; observe_ack_samples samples
  end.

Definition current_rto_ticks (s : t) : Z :=
  RtoEstimator.rto_ticks s.(options_).(T_NodeOptions.chunk_retransmit_ticks) s.(rto_).

(** Run an operation of the buffer. *)
Definition on_buffer {A} (f : T_SenderSendBuffer.t → A * T_SenderSendBuffer.t) : M t A := λ s,
  let '(a, b) := f s.(send_buffer_) in (Ret a, set_send_buffer b s).

Definition request_rescan (reason : string) : M t unit :=
  s ← get;
  if negb s.(options_).(T_NodeOptions.watch) || s.(rescan_scheduled_) then mret tt
  else
    modify (λ s, set_rescan true s.(rescan_pending_) s);;
    call_later s.(options_).(T_NodeOptions.watch_rescan_debounce) (RescanLater reason).

(** [network_.stop(); loop_.stop();] *)
Definition stop_network : M t unit := modify (λ s, set_network (T_SenderNetwork.stop s.(network_)) s).

Definition final_fail : M t unit := modify (set_failed true);; stop_network;; stop_loop.

Definition check_all_done : M t unit :=
  s ← get;
  if s.(failed_) || s.(done_) || bool_decide (s.(streams_) = []) then mret tt
  else if negb (forallb T_StreamSendState.complete s.(streams_)) then mret tt
  else
    modify (set_done true);;
    if negb s.(options_).(T_NodeOptions.watch) then stop_network;; stop_loop
    else
      modify (λ s, set_streams ((λ stream,
        T_StreamSendState.set_progress stream.(T_StreamSendState.current_task)
          stream.(T_StreamSendState.manifest_applied) stream.(T_StreamSendState.complete) false stream)
        <$> s.(streams_)) s);;
      s ← get;
      if s.(rescan_pending_) then
        modify (λ s, set_rescan s.(rescan_scheduled_) false s);;
        request_rescan "pending watch event"
      else mret tt.

(** How many turns a loop may take, and what it throws when they are used up. *)
Record limit := mk_limit { turns : nat; when_out : string }.
Coercion limit_of (turns : nat) : limit := mk_limit turns "out of fuel".

(** ** The operations *)
Section operations.
Context {CRC : Crc32c} (regex_extended : string → exc (string → bool)).
Context `{!MapIteration T_SendBufferKey.t T_BufferedSend.t}.
(** The callback the network reports lost sends to, and the turns a loop may take. *)
Context (lost_callback : list T_LostSend.t → M t unit) (loop_fuel : limit).

Definition net_send (message : T_Message) (request : T_SendRequest.t) : M t T_NetworkSendResult.t :=
  T_SenderNetwork.send lost_callback message request.

Definition send_buffered (message : T_Message) (request : T_SendRequest.t) : M t T_NetworkSendResult.t :=
  result ← net_send message request;
  if negb result.(T_NetworkSendResult.sent) then mret result
  else
    modify (λ s, set_send_buffer
      (T_SenderSendBuffer.remember message
         (T_SenderSendBuffer.set_bytes result.(T_NetworkSendResult.bytes) request) s.(current_tick_)
         s.(send_buffer_)) s);;
    mret result.

Definition send_manifest1 : M t unit :=
  s ← get;
  if bool_decide (s.(streams_) = []) then mret tt
  else
    let manifest := manifest1_from_streams s.(next_manifest_id_) s.(streams_) in
    put (set_next_manifest_id (u64 (s.(next_manifest_id_) + 1)) s);;
    T_SenderNetwork.send_control lost_callback (M_Manifest1 manifest) (manifest_label manifest s.(streams_));;
    mret tt.

(** The stream of [recover_with_manifest1]. *)
Definition reset_stream (stream : T_StreamSendState.t) : T_StreamSendState.t :=
  let tasks := stream.(T_StreamSendState.tasks) in
  T_StreamSendState.set_tasks (reset_task_for_manifest_recovery <$> tasks)
    (T_StreamSendState.set_progress
       (if stream.(T_StreamSendState.current_task) >? zlen tasks then zlen tasks
        else stream.(T_StreamSendState.current_task))
       false false (negb (bool_decide (tasks = []))) stream).

Definition recover_with_manifest1 : M t bool :=
  s ← get;
  if s.(failed_) then mret false
  else if s.(manifest_recovery_attempts_) >=? s.(options_).(T_NodeOptions.max_manifest_recovery_attempts)
  then final_fail;; mret false
  else
    put (set_done false (set_streams (reset_stream <$> s.(streams_))
           (set_send_buffer (T_SenderSendBuffer.clear s.(send_buffer_))
             (set_attempts (u64 (s.(manifest_recovery_attempts_) + 1)) s))));;
    send_manifest1;;
    mret true.

Definition mark_task_retransmitted (request : T_SendRequest.t) (line_id : Z) : M t unit :=
  s ← get;
  match stream_for_id request.(T_SendRequest.stream_id) s with
  | None => mret tt
  | Some i =>
      stream ← stream_at i;
      if stream.(T_StreamSendState.complete) then mret tt
      else
        match active_index stream with
        | None => mret tt
        | Some j =>
            task ← task_at i j;
            if negb (task.(T_FileSendTask.file_id) =? request.(T_SendRequest.file_id)) ||
               negb (task.(T_FileSendTask.seq) =? request.(T_SendRequest.seq)) then mret tt
            else
              let chunk_mode := task.(T_FileSendTask.chunk_mode) in
              match request.(T_SendRequest.kind) with
              | EM_SendKind.CREATE =>
                  if negb chunk_mode then update_append i j (mark_append_create_retransmitted line_id) else mret tt
              | EM_SendKind.DATA =>
                  if negb chunk_mode then
                    update_append i j (mark_append_data_retransmitted line_id
                      request.(T_SendRequest.offset) request.(T_SendRequest.end_offset))
                  else mret tt
              | EM_SendKind.FILE_BEGIN =>
                  if chunk_mode then
                    update_task i j (λ k, set_begin true k.(T_FileSendTask.begin_ready) line_id k)
                  else mret tt
              | EM_SendKind.CHUNK =>
                  if chunk_mode then
                    s ← get;
                    update_resend i j (λ r, (mark_chunk_sent request.(T_SendRequest.chunk_index) line_id
                                               s.(current_tick_) r).2)
                  else mret tt
              | EM_SendKind.FILE_COMMIT =>
                  if chunk_mode then update_task i j (set_commit true line_id) else mret tt
              | EM_SendKind.Unnamed _ => mret tt
              end
        end
  end.

(** [flush_retransmits]: the front of the queue until it is empty. *)
Fixpoint flush_loop (fuel : nat) : M t bool :=
  match fuel with
  | O => throw loop_fuel.(when_out)
  | S fuel =>
      s ← get;
      match T_SenderSendBuffer.retransmit_queue_ s.(send_buffer_) with
      | [] => mret true
      | key :: _ =>
          match T_SenderSendBuffer.find key s.(send_buffer_) with
          | None =>
              modify (λ s, set_send_buffer (T_SenderSendBuffer.erase_retransmit 0 s.(send_buffer_)) s);;
              flush_loop fuel
          | Some buffered =>
              if buffered.(T_BufferedSend.nack_retries) >=? s.(options_).(T_NodeOptions.max_retransmit_retries) then
                modify (λ s, set_send_buffer (T_SenderSendBuffer.erase_retransmit 0 s.(send_buffer_)) s);;
                recover_with_manifest1;;
                mret false
              else
                let request := buffered.(T_BufferedSend.request) in
                result ← net_send buffered.(T_BufferedSend.message) request;
                if negb result.(T_NetworkSendResult.sent) then mret false
                else
                  s ← get;
                  on_buffer (T_SenderSendBuffer.mark_retransmitted key result.(T_NetworkSendResult.bytes)
                               s.(current_tick_));;
                  mark_task_retransmitted request result.(T_NetworkSendResult.line_id);;
                  modify (λ s, set_send_buffer (T_SenderSendBuffer.erase_retransmit 0 s.(send_buffer_)) s);;
                  flush_loop fuel
          end
      end
  end.

Definition flush_retransmits : M t bool :=
  s ← get;
  if s.(failed_) || s.(done_) then mret true else flush_loop loop_fuel.(turns).

Fixpoint enqueue_expired (keys : list T_SendBufferKey.t) : M t bool :=
  match keys with
  | [] => mret true
  | key :: keys =>
      s ← get;
      match T_SenderSendBuffer.find key s.(send_buffer_) with
      | None => enqueue_expired keys
      | Some buffered =>
          if buffered.(T_BufferedSend.nack_retries) >=? s.(options_).(T_NodeOptions.max_retransmit_retries)
          then recover_with_manifest1
          else on_buffer (T_SenderSendBuffer.enqueue_retransmit key);; enqueue_expired keys
      end
  end.

Definition enqueue_rto_retransmits : M t bool :=
  s ← get;
  if s.(failed_) || s.(done_) then mret true
  else enqueue_expired (T_SenderSendBuffer.expired_keys s.(current_tick_) (current_rto_ticks s) 32 s.(send_buffer_)).

Definition send_file_begin (i j : nat) : M t unit :=
  stream ← stream_at i;
  task ← task_at i j;
  if negb task.(T_FileSendTask.chunk_mode) || task.(T_FileSendTask.begin_sent) ||
     negb stream.(T_StreamSendState.manifest_applied) then mret tt
  else
    s ← get;
    let begin := file_begin_message s.(options_).(T_NodeOptions.chunk_size) task in
    result ← send_buffered (M_FileBegin begin)
      (request_for (M_FileBegin begin) begin.(T_FileBegin.stream_id) begin.(T_FileBegin.file_id)
         begin.(T_FileBegin.seq) 0 0 EM_SendKind.FILE_BEGIN 0);
    if negb result.(T_NetworkSendResult.sent) then mret tt
    else update_task i j (λ k, set_begin true k.(T_FileSendTask.begin_ready) result.(T_NetworkSendResult.line_id) k).

Definition send_append_if_possible (i j : nat) : M t unit :=
  stream ← stream_at i;
  task ← task_at i j;
  s ← get;
  if task.(T_FileSendTask.chunk_mode) || negb stream.(T_StreamSendState.manifest_applied) || s.(done_) || s.(failed_)
  then mret tt
  else
    let append := task.(T_FileSendTask.append) in
    let stream_id := task.(T_FileSendTask.stream_id) in
    let file_id := task.(T_FileSendTask.file_id) in
    match next_append s.(options_).(T_NodeOptions.chunk_size) task.(T_FileSendTask.source_size) append with
    | None => mret tt
    | Some T_NextAppend.Create =>
        let create := create_message task in
        result ← send_buffered (M_Create create)
          (request_for (M_Create create) stream_id file_id create.(T_Create.seq) 0 0 EM_SendKind.CREATE 0);
        if negb result.(T_NetworkSendResult.sent) then mret tt
        else update_append i j (mark_append_create_sent result.(T_NetworkSendResult.line_id))
    | Some (T_NextAppend.Data offset data_len) =>
        payload ← on (read_task_range regex_extended task offset data_len);
        let data := make_data_from_payload stream_id file_id append.(T_AppendSendState.seq) offset
                      task.(T_FileSendTask.source_size) payload in
        result ← send_buffered (M_Data data)
          (request_for (M_Data data) stream_id file_id append.(T_AppendSendState.seq) offset
             (u64 (offset + data.(T_Data.raw_len))) EM_SendKind.DATA 0);
        if negb result.(T_NetworkSendResult.sent) then mret tt
        else update_append i j (mark_append_data_sent result.(T_NetworkSendResult.line_id) data_len)
    end.

Definition send_commit_if_possible (i j : nat) : M t unit :=
  task ← task_at i j;
  if task.(T_FileSendTask.commit_sent) then mret tt
  else
    let commit := file_commit_message task in
    result ← send_buffered (M_FileCommit commit)
      (request_for (M_FileCommit commit) commit.(T_FileCommit.stream_id) commit.(T_FileCommit.file_id)
         commit.(T_FileCommit.seq) 0 0 EM_SendKind.FILE_COMMIT 0);
    if negb result.(T_NetworkSendResult.sent) then mret tt
    else update_task i j (set_commit true result.(T_NetworkSendResult.line_id)).

Definition maybe_drop_line_once (line_id : Z) : M t unit :=
  s ← get;
  let drop := s.(options_).(T_NodeOptions.drop_line_once) in
  if (drop =? 0) || s.(dropped_line_once_) || negb (line_id =? drop) then mret tt
  else
    modify (set_dropped true);;
    T_SenderNetwork.mark_unavailable lost_callback line_id.

Definition max_chunk_attempts (retries : Z) : Z := if retries =? UINT64_MAX then UINT64_MAX else retries + 1.

(** The [while (true)] of [schedule_chunk_work]: [true] when it was left by [break]. *)
Fixpoint chunk_loop (fuel : nat) (i j : nat) : M t bool :=
  match fuel with
  | O => throw loop_fuel.(when_out)
  | S fuel =>
      task ← task_at i j;
      s ← get;
      match next_unsent_chunk_index task s.(current_tick_) (current_rto_ticks s) with
      | None => mret true
      | Some chunk_index =>
          if chunk_attempts task.(T_FileSendTask.chunk_resend) chunk_index >=?
             max_chunk_attempts s.(options_).(T_NodeOptions.max_retransmit_retries)
          then recover_with_manifest1;; mret false
          else
            let chunk_size := s.(options_).(T_NodeOptions.chunk_size) in
            payload ← on (read_chunk_payload regex_extended task chunk_index chunk_size);
            let chunk := make_chunk_from_payload task.(T_FileSendTask.stream_id) task.(T_FileSendTask.seq)
                           task.(T_FileSendTask.file_id) chunk_index payload chunk_size in
            result ← send_buffered (M_Chunk chunk)
              (request_for (M_Chunk chunk) chunk.(T_Chunk.stream_id) chunk.(T_Chunk.file_id) chunk.(T_Chunk.seq)
                 0 0 EM_SendKind.CHUNK chunk.(T_Chunk.chunk_index));
            if negb result.(T_NetworkSendResult.sent) then mret false
            else
              s ← get;
              update_resend i j (λ r, (mark_chunk_sent chunk_index result.(T_NetworkSendResult.line_id)
                                         s.(current_tick_) r).2);;
              maybe_drop_line_once result.(T_NetworkSendResult.line_id);;
              chunk_loop fuel i j
      end
  end.

Definition schedule_chunk_work (i j : nat) : M t unit :=
  task ← task_at i j;
  s ← get;
  if negb task.(T_FileSendTask.begin_ready) || s.(failed_) || s.(done_) then send_file_begin i j
  else
    finished ← chunk_loop loop_fuel.(turns) i j;
    if finished : bool then
      task ← task_at i j;
      if task_all_chunks_acked task then send_commit_if_possible i j else mret tt
    else mret tt.

(** The loop over the streams, by index. *)
Fixpoint work_streams (ixs : list nat) : M t unit :=
  match ixs with
  | [] => mret tt
  | i :: ixs =>
      stream ← stream_at i;
      (if negb stream.(T_StreamSendState.manifest_applied) || stream.(T_StreamSendState.complete) then mret tt
       else
         match active_index stream with
         | None => update_stream i (λ st, T_StreamSendState.set_progress st.(T_StreamSendState.current_task)
                     st.(T_StreamSendState.manifest_applied) true st.(T_StreamSendState.has_pending_changes) st)
         | Some j =>
             task ← task_at i j;
             if negb task.(T_FileSendTask.chunk_mode) then send_append_if_possible i j
             else schedule_chunk_work i j
         end);;
      work_streams ixs
  end.

Definition schedule_work : M t unit :=
  s ← get;
  if s.(failed_) || s.(done_) then mret tt
  else
    queued ← enqueue_rto_retransmits;
    if negb queued then mret tt
    else
      flushed ← flush_retransmits;
      if negb flushed then mret tt
      else
        s ← get;
        work_streams (seq 0 (length s.(streams_)));;
        check_all_done.

(** ** The answer to the manifest *)
Definition apply_append_plan (i j : nat) (diff : T_SyncStart.t) : M t unit :=
  task ← task_at i j;
  s ← get;
  if append_inflight task.(T_FileSendTask.append) || s.(done_) then mret tt
  else if negb (diff.(T_SyncStart.start_file_id) =? task.(T_FileSendTask.file_id)) ||
          (diff.(T_SyncStart.start_offset) >? task.(T_FileSendTask.source_size))
  then fail_and_stop
  else
    update_append i j (start_append_plan diff task.(T_FileSendTask.seq) task.(T_FileSendTask.source_size));;
    send_append_if_possible i j.

Definition set_complete (i : nat) : M t unit :=
  update_stream i (λ st, T_StreamSendState.set_progress st.(T_StreamSendState.current_task)
    st.(T_StreamSendState.manifest_applied) true st.(T_StreamSendState.has_pending_changes) st).

Definition apply_manifest2_stream (manifest2 : T_Manifest2.t) (i : nat) : M t unit :=
  stream ← stream_at i;
  match apply_manifest2_to_stream manifest2 stream with
  | (Throw _, stream') => update_stream i (λ _, stream');; fail_and_stop
  | (Ret None, stream') => update_stream i (λ _, stream')
  | (Ret (Some result), stream') =>
      update_stream i (λ _, stream');;
      if result.(T_Manifest2ApplyResult.in_sync) then check_all_done
      else
        match active_index stream' with
        | None => set_complete i;; check_all_done
        | Some j =>
            if result.(T_Manifest2ApplyResult.should_start_chunk) then send_file_begin i j
            else if result.(T_Manifest2ApplyResult.should_start_append)
            then apply_append_plan i j result.(T_Manifest2ApplyResult.start)
            else mret tt
        end
  end.

(** The loop of [on_manifest2]: [false] when it returned early. *)
Fixpoint apply_streams (manifest2 : T_Manifest2.t) (ixs : list nat) : M t bool :=
  match ixs with
  | [] => mret true
  | i :: ixs =>
      apply_manifest2_stream manifest2 i;;
      s ← get;
      if s.(failed_) then mret false else apply_streams manifest2 ixs
  end.

Definition on_manifest2 (manifest2 : T_Manifest2.t) : M t unit :=
  s ← get;
  applied ← apply_streams manifest2 (seq 0 (length s.(streams_)));
  if applied : bool then schedule_work else mret tt.

(** ** Progress *)
Definition advance_stream_task (i : nat) : M t unit :=
  modify (set_attempts 0);;
  update_stream i (λ st,
    let current := st.(T_StreamSendState.current_task) in
    T_StreamSendState.set_progress
      (if current <? zlen st.(T_StreamSendState.tasks) then current + 1 else current)
      st.(T_StreamSendState.manifest_applied) st.(T_StreamSendState.complete)
      st.(T_StreamSendState.has_pending_changes) st);;
  stream ← stream_at i;
  match active_index stream with
  | None => set_complete i;; check_all_done
  | Some j =>
      next ← task_at i j;
      if next.(T_FileSendTask.chunk_mode) then send_file_begin i j;; schedule_work
      else apply_append_plan i j
             (T_SyncStart.mk stream.(T_StreamSendState.stream_id) next.(T_FileSendTask.file_id) 0
                EM_StartAction.CREATE_MISSING)
  end.

Definition erase_completed_buffered (heartbeat : T_Heartbeat.t) : M t unit :=
  s ← get;
  samples ← on_buffer (T_SenderSendBuffer.erase_completed heartbeat s.(current_tick_));
  observe_ack_samples samples.

Definition observe_erased (erase : T_SenderSendBuffer.t → option T_AckedSendSample.t * T_SenderSendBuffer.t) : M t unit :=
  sample ← on_buffer erase;
  match sample with Some sample => observe_ack_sample sample | None => mret tt end.

(** The chunks a heartbeat reports received. *)
Fixpoint ack_chunks (i j : nat) (stream_id : Z) (chunks : list T_ReceivedChunk.t) : M t unit :=
  match chunks with
  | [] => mret tt
  | received :: chunks =>
      task ← task_at i j;
      (if negb (received.(T_ReceivedChunk.seq) =? task.(T_FileSendTask.seq)) ||
          negb (received.(T_ReceivedChunk.file_id) =? task.(T_FileSendTask.file_id)) then mret tt
       else
         let '(known, resend) := acknowledge_chunk received.(T_ReceivedChunk.chunk_index)
                                   task.(T_FileSendTask.chunk_resend) in
         update_task i j (set_resend resend);;
         if negb known then mret tt
         else
           s ← get;
           observe_erased (T_SenderSendBuffer.erase_chunk received stream_id s.(current_tick_)));;
      ack_chunks i j stream_id chunks
  end.

Definition on_append_heartbeat (i j : nat) (heartbeat : T_Heartbeat.t) : M t unit :=
  task ← task_at i j;
  if heartbeat.(T_Heartbeat.file_id) =? task.(T_FileSendTask.file_id) then
    update_append i j (λ a, (mark_append_create_ready_from_heartbeat heartbeat a).2);;
    update_append i j (λ a, (mark_append_data_ready_from_heartbeat heartbeat a).2);;
    task ← task_at i j;
    if append_complete_by_heartbeat task.(T_FileSendTask.append) heartbeat task.(T_FileSendTask.kind)
         task.(T_FileSendTask.source_size)
    then advance_stream_task i
    else send_append_if_possible i j
  else send_append_if_possible i j.

Definition on_chunk_heartbeat (i j : nat) (heartbeat : T_Heartbeat.t) : M t unit :=
  task ← task_at i j;
  (if task.(T_FileSendTask.begin_sent) && negb task.(T_FileSendTask.begin_ready) &&
      (heartbeat.(T_Heartbeat.file_id) =? task.(T_FileSendTask.file_id)) &&
      bool_decide (heartbeat.(T_Heartbeat.received_chunks) = []) then
     update_task i j (λ k, set_begin k.(T_FileSendTask.begin_sent) true k.(T_FileSendTask.begin_line_id) k);;
     s ← get;
     observe_erased (T_SenderSendBuffer.erase_file_begin task.(T_FileSendTask.stream_id)
       task.(T_FileSendTask.file_id) task.(T_FileSendTask.seq) s.(current_tick_))
   else mret tt);;
  ack_chunks i j heartbeat.(T_Heartbeat.stream_id) heartbeat.(T_Heartbeat.received_chunks);;
  update_resend i j (λ r, (apply_missing_hints task.(T_FileSendTask.seq) task.(T_FileSendTask.file_id)
    heartbeat.(T_Heartbeat.missing_ranges) r).2);;
  task ← task_at i j;
  if task.(T_FileSendTask.commit_sent) && (heartbeat.(T_Heartbeat.next_seq) >? task.(T_FileSendTask.seq))
  then advance_stream_task i
  else schedule_work.

Definition on_heartbeat (line_id : Z) (heartbeat : T_Heartbeat.t) : M t unit :=
  on (T_SenderNetwork.on_heartbeat line_id heartbeat);;
  erase_completed_buffered heartbeat;;
  s ← get;
  match stream_for_id heartbeat.(T_Heartbeat.stream_id) s with
  | None => mret tt
  | Some i =>
      stream ← stream_at i;
      match active_index stream with
      | None => check_all_done
      | Some j =>
          task ← task_at i j;
          if negb task.(T_FileSendTask.chunk_mode) then on_append_heartbeat i j heartbeat
          else on_chunk_heartbeat i j heartbeat
      end
  end.

(** ** Lost sends *)

(** One lost send: whether it changed anything. *)
Definition lose (lost : T_LostSend.t) : M t bool :=
  s ← get;
  match stream_for_id lost.(T_LostSend.stream_id) s with
  | None => mret false
  | Some i =>
      stream ← stream_at i;
      if stream.(T_StreamSendState.complete) then mret false
      else
        match active_index stream with
        | None => mret false
        | Some j =>
            task ← task_at i j;
            if negb (task.(T_FileSendTask.file_id) =? lost.(T_LostSend.file_id)) then mret false
            else
              queued ← on_buffer (T_SenderSendBuffer.enqueue_retransmit (T_SenderSendBuffer.key_for_lost_send lost));
              if queued : bool then mret true
              else if negb task.(T_FileSendTask.chunk_mode) then
                if append_lost_matches task.(T_FileSendTask.append) lost then
                  update_append i j reset_append_inflight;;
                  update_stream i (λ st, T_StreamSendState.set_progress st.(T_StreamSendState.current_task) false
                    st.(T_StreamSendState.complete) st.(T_StreamSendState.has_pending_changes) st);;
                  mret true
                else mret false
              else if negb (lost.(T_LostSend.seq) =? task.(T_FileSendTask.seq)) then mret false
              else
                match lost.(T_LostSend.kind) with
                | EM_SendKind.FILE_BEGIN =>
                    if task.(T_FileSendTask.begin_sent) && negb task.(T_FileSendTask.begin_ready) then
                      update_task i j (λ k, set_begin false k.(T_FileSendTask.begin_ready) 0 k);; mret true
                    else mret false
                | EM_SendKind.CHUNK =>
                    let '(marked, resend) := mark_chunk_lost lost.(T_LostSend.chunk_index)
                                               task.(T_FileSendTask.chunk_resend) in
                    update_task i j (set_resend resend);;
                    mret marked
                | EM_SendKind.FILE_COMMIT =>
                    if task.(T_FileSendTask.commit_sent) then update_task i j (set_commit false 0);; mret true
                    else mret false
                | _ => mret false
                end
        end
  end.

Fixpoint lose_all (changed : bool) (lost_sends : list T_LostSend.t) : M t bool :=
  match lost_sends with
  | [] => mret changed
  | lost :: lost_sends => c ← lose lost; lose_all (changed || c) lost_sends
  end.

Definition handle_lost_sends (lost_sends : list T_LostSend.t) : M t unit :=
  changed ← lose_all false lost_sends;
  s ← get;
  if changed && negb s.(failed_) && negb s.(done_) then schedule_work else mret tt.

(** ** The callbacks of the network and of the loop *)
Definition on_connected (id : Z) : M t unit :=
  s ← get;
  if s.(done_) && s.(options_).(T_NodeOptions.watch) then mret tt
  else send_manifest1;; schedule_work.

Definition on_nack (nack : T_Nack.t) : M t unit :=
  s ← get;
  found ← on_buffer (T_SenderSendBuffer.enqueue_nack_retransmit nack s.(options_).(T_NodeOptions.chunk_size));
  if negb found then
    if is_recoverable_nack nack.(T_Nack.reason) then recover_with_manifest1;; mret tt
    else final_fail
  else schedule_work.

Definition on_message (line_id : Z) (message : T_Message) : M t unit :=
  match message with
  | M_Manifest1 _ => fail_and_stop
  | M_Manifest2 manifest2 => on_manifest2 manifest2
  | M_Heartbeat heartbeat => on_heartbeat line_id heartbeat
  | M_Nack nack => on_nack nack
  | _ => fail_and_stop
  end.

Definition tick : M t unit :=
  s ← get;
  if s.(failed_) then mret tt
  else
    put (set_current_tick (u64 (s.(current_tick_) + 1)) s);;
    T_SenderNetwork.refill_ticks lost_callback 1;;
    s ← get;
    (if negb s.(done_) then schedule_work else mret tt);;
    call_later 10 TickLater.

Definition timeout : M t unit :=
  s ← get;
  if negb s.(options_).(T_NodeOptions.watch) && negb s.(done_) then fail_and_stop else mret tt.
End operations.

(** ** The streams of the source *)
Section sources.
Context {CRC : Crc32c} (regex_extended : string → exc (string → bool)).

Definition push_stream (stream : T_StreamSendState.t) : M t unit :=
  modify (λ s, set_streams (s.(streams_) ++ [stream]) s).

Definition simulated_stream (options : T_NodeOptions.t) : exc T_StreamSendState.t :=
  let data := make_sender_bytes options.(T_NodeOptions.size) in
  task ← make_simulated_file_task kStreamId kSeq kFileId data
           (Some (Simulated (T_SimulatedSourceReader.mk data))) options.(T_NodeOptions.chunk_size) [];
  Ret (T_StreamSendState.mk task.(T_FileSendTask.stream_id) [] "" None
    (T_Manifest1Stream.mk task.(T_FileSendTask.stream_id) "<simulated>"
       [T_ManifestEntry.mk task.(T_FileSendTask.file_id) task.(T_FileSendTask.seq) task.(T_FileSendTask.kind)
          task.(T_FileSendTask.name) task.(T_FileSendTask.link_target) task.(T_FileSendTask.source_size)
          task.(T_FileSendTask.range_checksum)])
    [task] 0 false false true).

(** [std::sort] by stream id (equal ids in the order of the list), and
    [std::unique]: the first of a run of equal ids. *)
Definition root_le (r1 r2 : T_StreamRootConfig.t) : Prop :=
  r1.(T_StreamRootConfig.stream_id) ≤ r2.(T_StreamRootConfig.stream_id).
#[export] Instance root_le_dec : RelDecision root_le.
Proof. unfold root_le. intros x y. apply _. Defined.

Definition same_root (r1 r2 : T_StreamRootConfig.t) : bool :=
  r1.(T_StreamRootConfig.stream_id) =? r2.(T_StreamRootConfig.stream_id).
Definition sorted_unique (roots : list T_StreamRootConfig.t) : list T_StreamRootConfig.t :=
  unique same_root (merge_sort root_le roots).

(** The subdirectories named by a number. *)
Fixpoint discover_roots (source_root : path) (names : list string) : M fsys (list T_StreamRootConfig.t) :=
  match names with
  | [] => mret []
  | name :: names =>
      directory ← or_throw "status: " (is_directory (source_root ++ [name]));
      roots ← discover_roots source_root names;
      mret (match parse_stream_dir_name (source_root ++ [name]) with
            | Some stream_id =>
                if directory : bool then T_StreamRootConfig.mk stream_id (source_root ++ [name]) "" :: roots
                else roots
            | None => roots
            end)
  end.

Definition source_roots (options : T_NodeOptions.t) : M fsys (list T_StreamRootConfig.t) :=
  let source_root := options.(T_NodeOptions.source_root) in
  let roots := sorted_unique options.(T_NodeOptions.source_streams) in
  found ← with_ec (exists_ source_root);
  if bool_decide (roots ≠ []) then mret roots
  else
    match found with
    | Ok true =>
        names ← or_throw "directory iterator cannot open directory: " (list_directory source_root);
        roots ← discover_roots source_root names;
        mret (match merge_sort root_le roots with
              | [] => [T_StreamRootConfig.mk kStreamId source_root ""]
              | roots => roots
              end)
    | _ => throw ("source root does not exist: " ++ generic_string source_root)
    end.

Fixpoint make_tasks (directory : T_SourceDirectory.t) (chunk_size : Z) (files : list T_SourceFile.t)
    : M fsys (list T_FileSendTask.t) :=
  match files with
  | [] => mret []
  | file :: files =>
      task ← make_real_file_task directory.(T_SourceDirectory.stream_id_) file (Some (Directory directory))
               chunk_size [];
      tasks ← make_tasks directory chunk_size files;
      mret (task :: tasks)
  end.

(** The stream of one root; none when there is nothing to send and nothing to wait for. *)
Definition build_stream (options : T_NodeOptions.t) (configured : T_StreamRootConfig.t)
    : M fsys (option T_StreamSendState.t) :=
  let root := configured.(T_StreamRootConfig.root) in
  found ← with_ec (exists_ root);
  match found with
  | Ok true =>
      let directory := T_SourceDirectory.mk configured.(T_StreamRootConfig.stream_id) root (4 * 1024 * 1024)
                         configured.(T_StreamRootConfig.entry_name_regex) in
      manifest ← T_SourceDirectory.scan_manifest regex_extended directory;
      if bool_decide (manifest.(T_Manifest1Stream.entries) = []) && negb options.(T_NodeOptions.watch)
      then mret None
      else
        files ← T_SourceDirectory.files regex_extended directory;
        tasks ← make_tasks directory options.(T_NodeOptions.chunk_size) files;
        mret (Some (T_StreamSendState.mk configured.(T_StreamRootConfig.stream_id) root
          configured.(T_StreamRootConfig.entry_name_regex) (Some directory) manifest tasks 0 false
          (bool_decide (tasks = [])) (negb (bool_decide (tasks = [])))))
  | _ => throw ("source stream root does not exist: " ++ generic_string root)
  end.

Fixpoint build_streams (roots : list T_StreamRootConfig.t) : M t unit :=
  match roots with
  | [] => mret tt
  | configured :: roots =>
      s ← get;
      stream ← on (build_stream s.(options_) configured);
      match stream with Some stream => push_stream stream | None => mret tt end;;
      build_streams roots
  end.

Definition build_source_streams : M t unit :=
  s ← get;
  if bool_decide (s.(options_).(T_NodeOptions.source_root) = []) then
    stream ← lift_exc (simulated_stream s.(options_));
    push_stream stream
  else
    roots ← on (source_roots s.(options_));
    build_streams roots;;
    s ← get;
    if bool_decide (s.(streams_) = []) && negb s.(options_).(T_NodeOptions.watch)
    then throw "source root has no syncable entries"
    else mret tt.

Definition rebuild_source_streams_for_rescan : M t unit :=
  modify (λ s, set_done false (set_streams [] (set_send_buffer (T_SenderSendBuffer.clear s.(send_buffer_)) s)));;
  build_source_streams.

(** The constructor. *)
Definition create (options : T_NodeOptions.t) (world : fsys) : exc t * fsys :=
  let hello := make_hello EM_Role.SENDER "sender" (u32 options.(T_NodeOptions.chunk_size))
                 options.(T_NodeOptions.recv_window_bytes) in
  match T_SenderNetwork.create (make_line_endpoints options) (make_line_configs options) kMaxFrameBytes
          (T_ReconnectPolicy.mk options.(T_NodeOptions.reconnect_base_delay_ms)
             options.(T_NodeOptions.reconnect_max_delay_ms) 5) hello with
  | Throw e => (Throw e, world)
  | Ret network =>
      let app := mk options [] network T_SenderSendBuffer.initial RtoEstimator.initial 1 0 0 false false false
                   false false false [] world in
      match build_source_streams app with
      | (Ret _, app) => (Ret app, app.(world_))
      | (Throw e, app) => (Throw e, app.(world_))
      end
  end.
End sources.

(** ** The application *)

(** What the event loop delivers: a message of a line, a connection made,
    failed, found broken, or closed, the end of a reconnect delay, or a call
    that was asked for.  [WatchPoll] carries the events each watcher reports. *)
Inductive event :=
  | Receives (line_id : Z) (message : T_Message)
  | Connects (line_id : Z) (connection : conn) (loop : EventLoop.t unit)
  | ConnectFails (line_id : Z)
  | Breaks (line_id : Z)
  | Closes (line_id : Z)
  | ReconnectTimer (line_id : Z)
  | Ticks
  | TimesOut
  | WatchPoll (events : list (list T_WatchEvent.t))
  | Rescans (reason : string).

#[export] Instance has_lines : Has t T_SenderLineSet.t.
Proof.
  refine {| part s := s.(network_).(T_SenderNetwork.lines_);
            set_part l s := set_network (T_SenderNetwork.set_lines l s.(network_)) s |}; [done| |done].
  by intros [? ? [] ?].
Defined.

Section application.
Context {CRC : Crc32c} (regex_extended : string → exc (string → bool)).
Context `{!MapIteration T_SendBufferKey.t T_BufferedSend.t}.
(** How deep the reports of lost sends may nest, and the turns a loop may take. *)
Context (depth : nat) (loop_fuel : limit).

(** [on_lost_sends], called by the network inside the calls of the application. *)
Fixpoint on_lost_sends (depth : nat) (lost_sends : list T_LostSend.t) : M t unit :=
  match depth with
  | O => throw loop_fuel.(when_out)
  | S depth => handle_lost_sends regex_extended (on_lost_sends depth) loop_fuel lost_sends
  end.

Definition lost : list T_LostSend.t → M t unit := on_lost_sends depth.

(** What a timer of [rescan_scheduled_] runs. *)
Definition rescan_and_send_manifest : M t unit :=
  modify (λ s, set_rescan false s.(rescan_pending_) s);;
  s ← get;
  if s.(failed_) then mret tt
  else if negb s.(done_) && negb (bool_decide (s.(streams_) = [])) then
    modify (λ s, set_rescan s.(rescan_scheduled_) true s)
  else
    rebuilt ← try_catch (rebuild_source_streams_for_rescan regex_extended;; mret true)
                (λ _, fail_and_stop;; mret false);
    if negb rebuilt then mret tt
    else
      s ← get;
      if bool_decide (s.(streams_) ≠ []) then send_manifest1 lost else mret tt.

Definition watch_poll_tick (events : list (list T_WatchEvent.t)) : M t unit :=
  s ← get;
  if s.(failed_) || negb s.(options_).(T_NodeOptions.watch) then mret tt
  else
    (if existsb (λ es, negb (bool_decide (es = []))) events then request_rescan "watch event" else mret tt);;
    call_later s.(options_).(T_NodeOptions.watch_poll_interval) WatchPollLater.

(** [start_watchers]: [watcher_starts] says whether the system makes a watcher for a root. *)
Definition start_watchers (watcher_starts : path → bool) : M t unit :=
  s ← get;
  let roots := filter (λ root, root ≠ []) (T_StreamSendState.root <$> s.(streams_)) in
  if negb (forallb watcher_starts roots) then fail_and_stop
  else if bool_decide (roots = []) then mret tt
  else call_later s.(options_).(T_NodeOptions.watch_poll_interval) WatchPollLater.

(** [run] up to the loop. *)
Definition start (watcher_starts : path → bool) : M t unit :=
  on T_SenderNetwork.start;;
  s ← get;
  (if s.(options_).(T_NodeOptions.watch) && bool_decide (s.(options_).(T_NodeOptions.source_root) ≠ [])
   then start_watchers watcher_starts else mret tt);;
  call_later 10 TickLater;;
  call_later 30000 TimeoutLater.

(** What [T_SenderNetwork] gives the lines to call. *)
Definition handle_connected (line_id : Z) : M t unit := T_SenderNetwork.handle_connected line_id.
Definition handle_unavailable : Z → bool → M t unit := T_SenderNetwork.handle_unavailable lost.

Definition handle (e : event) : M t unit :=
  match e with
  | Receives line_id message =>
      T_SenderNetwork.handle_message (on_message regex_extended lost loop_fuel)
        (on_connected regex_extended lost loop_fuel) lost line_id message
  | Connects line_id connection loop =>
      T_SenderLineSet.on_tcp_connected handle_connected line_id connection loop
  | ConnectFails line_id => T_SenderLineSet.on_connect_failed handle_unavailable line_id
  | Breaks line_id => T_SenderLineSet.on_error handle_unavailable line_id
  | Closes line_id => T_SenderLineSet.on_close handle_unavailable line_id
  | ReconnectTimer line_id => on (T_SenderLineSet.reconnect_timer line_id)
  | Ticks => tick regex_extended lost loop_fuel
  | TimesOut => timeout
  | WatchPoll events => watch_poll_tick events
  | Rescans _ => rescan_and_send_manifest
  end.

(** The turns of the loop until it is stopped. *)
Fixpoint handle_all (events : list event) : M t unit :=
  match events with
  | [] => mret tt
  | e :: events =>
      s ← get;
      if s.(stopped_) then mret tt else handle e;; handle_all events
  end.

(** [loop_.run()], which forgets an earlier [stop]; then [run] answers 0 or 1. *)
Definition run_loop (events : list event) : M t unit :=
  modify (λ s, set_loop false s.(later_) s);; handle_all events.

Definition exit_code (s : t) : Z := if s.(failed_) || negb s.(done_) then 1 else 0.
End application.
End SenderApp.
Export (coercions) SenderApp.

(** ** The timeout follows the samples *)
Module RtoFacts.
Import RtoEstimator.

(** An estimate from samples of [m] to [M] ticks. *)
Definition within (m M : Z) (r : t) : Prop :=
  r.(initialized_) = true ∧ m ≤ r.(srtt_ticks_) ≤ M ∧ 1 ≤ r.(rttvar_ticks_) ≤ M.

Lemma observe_within m M sample r :
  1 ≤ m → M * 8 < 18446744073709551616 → m ≤ sample ≤ M → r = initial ∨ within m M r → within m M (observe sample r).
Proof.
  intros Hm HM Hs [->|(Hi & Hr & Hv)]; unfold observe.
  - destruct (Z.eqb_spec sample 0); [lia|]. cbn. split_and!; cbn; [done|lia..|]. uint_lia.
  - destruct (Z.eqb_spec sample 0); [lia|]. rewrite Hi. cbn [negb].
    set (d := if _ >? sample then _ else _).
    assert (0 ≤ d ≤ M) as Hd by (subst d; destruct (Z.gtb_spec (srtt_ticks_ r) sample); lia).
    rewrite !u64_small by uint_lia. split_and!; cbn; [done|uint_lia..].
Qed.

Lemma fold_within m M samples r :
  1 ≤ m → M * 8 < 18446744073709551616 → Forall (λ s, m ≤ s ≤ M) samples → r = initial ∨ within m M r →
  samples = [] ∧ foldl (λ r s, observe s r) r samples = r ∨ within m M (foldl (λ r s, observe s r) r samples).
Proof.
  intros Hm HM Hs. revert r. induction Hs as [|s samples Hs Hss IH]; intros r Hr; cbn; [auto|].
  right. destruct (IH (observe s r)) as [[_ ->]|H]; [right|..|done]; by apply observe_within.
Qed.
End RtoFacts.

(** The retransmission timeout follows the measured round trips: after any
    samples between [m] and [M] ticks the smoothed estimate lies between them,
    and the timeout lies between half and eight times the configured one (never
    0) and is longer than the shortest round trip, unless the ceiling cuts it. *)
Theorem rto_bounds (fallback m M : Z) (samples : list Z) :
  0 ≤ fallback → fallback * 8 < 18446744073709551616 → 1 ≤ m → M * 8 < 18446744073709551616 →
  samples ≠ [] → Forall (λ s, m ≤ s ≤ M) samples →
  let r := foldl (λ r s, RtoEstimator.observe s r) RtoEstimator.initial samples in
  let rto := RtoEstimator.rto_ticks fallback r in
  m ≤ r.(RtoEstimator.srtt_ticks_) ≤ M ∧
  Z.max 1 (fallback / 2) ≤ rto ≤ Z.max 1 (fallback * 8) ∧
  (m < rto ∨ rto = Z.max 1 (fallback * 8)).
Proof.
  intros Hf Hf8 Hm HM Hne Hs r rto.
  destruct (RtoFacts.fold_within m M samples RtoEstimator.initial Hm HM Hs) as [[-> _]|(Hi & Hr & Hv)]; [auto|done|].
  fold r in Hi, Hr, Hv. split; [done|]. subst rto. unfold RtoEstimator.rto_ticks. rewrite Hi. cbn [negb].
  rewrite !u64_small by uint_lia. unfold RtoEstimator.clamp.
  repeat match goal with |- context [?a <? ?b] => destruct (Z.ltb_spec a b) end; uint_lia.
Qed.

Lemma rto_bounds_witness :
  let r := foldl (λ r s, RtoEstimator.observe s r) RtoEstimator.initial [4; 9; 6] in
  4 ≤ r.(RtoEstimator.srtt_ticks_) ≤ 9 ∧ 4 < RtoEstimator.rto_ticks 100 r.
Proof.
  destruct (rto_bounds 100 4 9 [4; 9; 6] ltac:(lia) ltac:(lia) ltac:(lia) ltac:(lia) ltac:(done)
    ltac:(repeat constructor; lia)) as (Hr & _ & [Hlt|Heq]); [by split|].
  vm_compute in Heq. discriminate.
Defined.
