(* ===== verification/SenderRun.v ===== *)
(** * Runs of the sender

    What every run of [SenderApp] keeps: the sender is done only once each file
    of each stream has been confirmed by the receiver. *)
From S2P Require Import Prelude Hoare Crc32c Filesystem Wire Protocol Framing Sync Scheduler Source ChunkResend.
From S2P Require Import AppendState SendBuffer SenderPlan Network NodeCommon SenderApp.
From stdpp Require Import sorting.
#[local] Open Scope Z_scope.

(** ** The network leaves the rest of the application alone *)
Module NetworkFrame.
Section frame.
Context {St : Type} `{HasNet : Has St T_SenderNetwork.t} (I : St → Prop).
Context (I_net : ∀ n s, I s → I (set_part (n : T_SenderNetwork.t) s)).
Context (message_callback_ : Z → T_Message → M St unit) (connected_callback_ : Z → M St unit)
  (lost_send_callback_ : list T_LostSend.t → M St unit).
Context (lost_keeps : ∀ l, keeps I (lost_send_callback_ l)).

Lemma keeps_on_net {A} (m : M T_SenderNetwork.t A) : keeps I (on m).
Proof. apply keeps_on. auto. Qed.
#[local] Hint Resolve keeps_on_net lost_keeps : keeps.

Lemma keeps_modify_net (f : St → T_SenderNetwork.t) : keeps I (modify (λ s, set_part (f s) s)).
Proof. apply keeps_modify. auto. Qed.
Lemma keeps_modify_net_const (n : T_SenderNetwork.t) : keeps I (modify (set_part n)).
Proof. apply keeps_modify. auto. Qed.
#[local] Hint Resolve keeps_modify_net keeps_modify_net_const : keeps.

Lemma keeps_on_lines {A} (m : M T_SenderLineSet.t A) :
  keeps I (on (H := T_SenderNetwork.state_has_lines) m).
Proof. apply keeps_on. intros. apply I_net. done. Qed.
#[local] Hint Resolve keeps_on_lines : keeps.

Lemma keeps_emit_lost_sends : keeps I (T_SenderNetwork.emit_lost_sends lost_send_callback_).
Proof. unfold T_SenderNetwork.emit_lost_sends. solve_keeps. Qed.
#[local] Hint Resolve keeps_emit_lost_sends : keeps.

Lemma keeps_handle_unavailable id b : keeps I (T_SenderNetwork.handle_unavailable lost_send_callback_ id b).
Proof. unfold T_SenderNetwork.handle_unavailable. solve_keeps. Qed.
#[local] Hint Resolve keeps_handle_unavailable : keeps.

Lemma keeps_net_mark_unavailable id : keeps I (T_SenderNetwork.mark_unavailable lost_send_callback_ id).
Proof.
  unfold T_SenderNetwork.mark_unavailable, T_SenderLineSet.mark_unavailable, T_SenderLineSet.mark_unavailable_with,
    T_SenderLineSet.on_close, T_SenderLineSet.mark_unavailable_with. solve_keeps.
Qed.
#[local] Hint Resolve keeps_net_mark_unavailable : keeps.

Lemma keeps_can_send id : keeps I (T_SenderNetwork.can_send id).
Proof. apply keeps_on_lines. Qed.
Lemma keeps_line_send id m : keeps I (T_SenderNetwork.line_send id m).
Proof. apply keeps_on_lines. Qed.
#[local] Hint Resolve keeps_can_send keeps_line_send : keeps.

Lemma keeps_flush_one_control : keeps I (T_SenderNetwork.flush_one_control lost_send_callback_).
Proof. unfold T_SenderNetwork.flush_one_control. solve_keeps. Qed.
#[local] Hint Resolve keeps_flush_one_control : keeps.

Lemma keeps_flush_controls : keeps I (T_SenderNetwork.flush_controls lost_send_callback_).
Proof.
  unfold T_SenderNetwork.flush_controls. apply keeps_gets. intros s _.
  induction (S (length _)) as [|fuel IH]; cbn; solve_keeps.
Qed.
#[local] Hint Resolve keeps_flush_controls : keeps.

Lemma keeps_send m r : keeps I (T_SenderNetwork.send lost_send_callback_ m r).
Proof. unfold T_SenderNetwork.send. solve_keeps. Qed.
Lemma keeps_net_send_control m l : keeps I (T_SenderNetwork.send_control lost_send_callback_ m l).
Proof. unfold T_SenderNetwork.send_control. solve_keeps. Qed.
Lemma keeps_refill_ticks ticks : keeps I (T_SenderNetwork.refill_ticks lost_send_callback_ ticks).
Proof.
  unfold T_SenderNetwork.refill_ticks. solve_keeps.
  induction (T_SenderNetwork.snapshots _); cbn; solve_keeps.
Qed.
Lemma keeps_handle_connected id : keeps I (T_SenderNetwork.handle_connected id).
Proof. unfold T_SenderNetwork.handle_connected. solve_keeps. Qed.

Context (connected_keeps : ∀ id, keeps I (connected_callback_ id)).
#[local] Hint Resolve connected_keeps : keeps.

Lemma keeps_protocol_error id : keeps I (T_SenderNetwork.protocol_error lost_send_callback_ id).
Proof. unfold T_SenderNetwork.protocol_error. solve_keeps. Qed.
#[local] Hint Resolve keeps_protocol_error : keeps.

Lemma keeps_handle_message id m :
  keeps I (message_callback_ id m) →
  keeps I (T_SenderNetwork.handle_message message_callback_ connected_callback_ lost_send_callback_ id m).
Proof. intros. unfold T_SenderNetwork.handle_message, T_SenderNetwork.handle_hello. solve_keeps. Qed.
End frame.
End NetworkFrame.

(** ** What the receiver confirms *)
Module Confirmation.

(** A file as the receiver knows it. *)
Record file_key := mk_key { key_seq : Z; key_file : Z; key_kind : EM_EntryKind.t; key_size : Z }.
Definition key_of (k : T_FileSendTask.t) : file_key :=
  mk_key k.(T_FileSendTask.seq) k.(T_FileSendTask.file_id) k.(T_FileSendTask.kind) k.(T_FileSendTask.source_size).

(** A heartbeat says that a file is on the receiver's disk: the bytes of an
    appended file are durable, or the sequence has passed a committed file. *)
Definition durable (sid : Z) (k : file_key) (hb : T_Heartbeat.t) : Prop :=
  hb.(T_Heartbeat.stream_id) = sid ∧
  (hb.(T_Heartbeat.file_id) = k.(key_file) ∧
   (k.(key_kind) = EM_EntryKind.REGULAR_FILE → k.(key_size) ≤ hb.(T_Heartbeat.durable_offset)) ∨
   k.(key_seq) < hb.(T_Heartbeat.next_seq)).

(** The answer to a manifest says that file [j] is already there: the stream is
    in sync, or is to be started at a later file. *)
Definition skipped (sid : Z) (keys : list file_key) (j : nat) (m2 : T_Manifest2.t) : Prop :=
  ∃ plan, plan ∈ m2.(T_Manifest2.streams) ∧ plan.(T_Manifest2Stream.stream_id) = sid ∧
    (plan.(T_Manifest2Stream.action) = EM_Manifest2Action.IN_SYNC ∨
     ∃ i k, (j < i)%nat ∧ keys !! i = Some k ∧ k.(key_file) = plan.(T_Manifest2Stream.start_file_id)).

(** File [j] of the stream is confirmed by one of the messages. *)
Definition confirmed (messages : list T_Message) (sid : Z) (keys : list file_key) (j : nat) : Prop :=
  ∃ k, keys !! j = Some k ∧
    ((∃ hb, M_Heartbeat hb ∈ messages ∧ durable sid k hb) ∨
     (∃ m2, M_Manifest2 m2 ∈ messages ∧ skipped sid keys j m2)).

Lemma confirmed_mono ms ms' sid keys j : ms ⊆ ms' → confirmed ms sid keys j → confirmed ms' sid keys j.
Proof. intros Hs (k & Hk & [(hb & Hin & Hd)|(m2 & Hin & Hd)]); exists k; split; eauto 10. Qed.

(** What of the application the confirmations are about. *)
Record progress := mk_progress { of_stream : Z; at_task : Z; completed : bool; keys : list file_key }.
Definition progress_of (st : T_StreamSendState.t) : progress :=
  mk_progress st.(T_StreamSendState.stream_id) st.(T_StreamSendState.current_task)
    st.(T_StreamSendState.complete) (key_of <$> st.(T_StreamSendState.tasks)).
Definition view (s : SenderApp.t) : list progress * bool := (progress_of <$> s.(SenderApp.streams_), s.(SenderApp.done_)).

(** The files before the current one are confirmed; a complete stream has no
    other file. *)
Definition sound (ms : list T_Message) (p : progress) : Prop :=
  0 ≤ p.(at_task) ∧
  (∀ j : nat, Z.of_nat j < p.(at_task) → (j < length p.(keys))%nat → confirmed ms p.(of_stream) p.(keys) j) ∧
  (p.(completed) = true → zlen p.(keys) ≤ p.(at_task)).

Definition Inv (ms : list T_Message) (s : SenderApp.t) : Prop :=
  Forall (sound ms) (view s).1 ∧ ((view s).2 = true → Forall (λ p, p.(completed) = true) (view s).1).

Lemma Inv_mono ms ms' s : ms ⊆ ms' → Inv ms s → Inv ms' s.
Proof.
  intros Hs [H1 H2]. split; [|done]. eapply Forall_impl; [exact H1|]. intros p (H0 & Ha & Hb).
  split_and!; [done| |done]. intros. eapply confirmed_mono; eauto.
Qed.

(** *** Changes to one stream *)
Lemma fmap_alter_same {A B} (g : A → B) (f : A → A) i (l : list A) :
  (∀ x, l !! i = Some x → g (f x) = g x) → g <$> alter f i l = g <$> l.
Proof.
  intros Hf. apply list_eq. intros j. rewrite !list_lookup_fmap. destruct (decide (i = j)) as [<-|Hne].
  - rewrite list_lookup_alter_eq. destruct (l !! i) eqn:E; cbn; [|done]. by rewrite Hf.
  - by rewrite list_lookup_alter_ne.
Qed.

Definition with_stream (i : nat) (f : T_StreamSendState.t → T_StreamSendState.t) (s : SenderApp.t) : SenderApp.t :=
  SenderApp.set_streams (alter f i s.(SenderApp.streams_)) s.

Lemma with_stream_view i f s :
  (∀ st, s.(SenderApp.streams_) !! i = Some st → progress_of (f st) = progress_of st) →
  view (with_stream i f s) = view s.
Proof. intros Hf. unfold view. cbn. by rewrite fmap_alter_same. Qed.

(** A stream changes: it stays sound, and complete if the sender is done. *)
Lemma with_stream_Inv ms i f s :
  Inv ms s →
  (∀ st, s.(SenderApp.streams_) !! i = Some st → sound ms (progress_of st) →
     sound ms (progress_of (f st)) ∧ (st.(T_StreamSendState.complete) = true → (f st).(T_StreamSendState.complete) = true)) →
  Inv ms (with_stream i f s).
Proof.
  intros [H1 H2] Hf. unfold Inv, view in *. cbn in *. rewrite !Forall_fmap in *.
  split.
  - apply Forall_alter; [done|]. intros st Hst Hs. by apply Hf.
  - intros Hd. specialize (H2 Hd). apply Forall_alter; [done|]. intros st Hst Hs. cbn in *.
    rewrite Forall_lookup in H1. by apply Hf; [|apply (H1 i)|].
Qed.

Lemma sound_current ms p i :
  sound ms p → 0 ≤ i ≤ p.(at_task) → sound ms (mk_progress p.(of_stream) i false p.(keys)).
Proof. intros (_ & Hc & _) Hi. split_and!; cbn; [lia| |done]. intros. apply Hc; [lia|done]. Qed.

(** What is a matter of the progress only. *)
Class ViewOnly (P : SenderApp.t → Prop) := view_only s s' : view s' = view s → P s → P s'.
#[export] Instance Inv_view_only ms : ViewOnly (Inv ms).
Proof. unfold ViewOnly, Inv. by intros s s' ->. Qed.

(** File [key], the [j]-th of stream [i], is the one that is being sent. *)
Definition sending (i j : nat) (sid : Z) (key : file_key) (s : SenderApp.t) : Prop :=
  ∃ p, (view s).1 !! i = Some p ∧ p.(of_stream) = sid ∧ p.(at_task) = Z.of_nat j ∧ p.(keys) !! j = Some key.
#[export] Instance sending_view_only ms i j sid key : ViewOnly (λ s, Inv ms s ∧ sending i j sid key s).
Proof. unfold ViewOnly, Inv, sending. by intros s s' ->. Qed.
End Confirmation.
Export (hints) Confirmation.

(** ** Every operation keeps the confirmations *)
Module SenderKeeps.
Import SenderApp Confirmation.

(** *** Operations that make no progress *)
Section view_only.
Context (P : t → Prop) `{!ViewOnly P}.

Lemma keeps_modify_view f : (∀ s, view (f s) = view s) → keeps P (modify f).
Proof. intros Hf. apply keeps_modify. intros s. by apply view_only. Qed.
Lemma keeps_put_view s s' : P s → view s' = view s → keeps P (put s').
Proof. intros HI Hv. apply keeps_put. by apply (view_only s). Qed.
Lemma keeps_on_buffer {A} (f : T_SenderSendBuffer.t → A * T_SenderSendBuffer.t) : keeps P (on_buffer f).
Proof.
  intros s r s' HI Hr. unfold on_buffer in Hr. destruct (f _). injection Hr as <- <-. by apply (view_only s).
Qed.
Lemma keeps_world {A} (m : M fsys A) : keeps P (on m).
Proof. apply keeps_on. intros c s. by apply view_only. Qed.
Lemma keeps_network {A} (m : M T_SenderNetwork.t A) : keeps P (on m).
Proof. apply keeps_on. intros c s. by apply view_only. Qed.
Lemma keeps_stream_at i : keeps P (stream_at i).
Proof. intros s r s' HI Hr. unfold stream_at in Hr. by destruct (_ !! _); injection Hr as <- <-. Qed.
Lemma keeps_task_at i j : keeps P (task_at i j).
Proof. intros s r s' HI Hr. unfold task_at in Hr. by destruct (_ ≫= _); injection Hr as <- <-. Qed.

(** Changes that are not progress. *)
Lemma keeps_update_same i f : (∀ st, progress_of (f st) = progress_of st) → keeps P (update_stream i f).
Proof. intros Hf. apply keeps_modify_view. intros s. apply with_stream_view. auto. Qed.
Lemma keeps_update_task i j f : (∀ k, key_of (f k) = key_of k) → keeps P (update_task i j f).
Proof.
  intros Hf. apply keeps_update_same. intros st. unfold progress_of. cbn.
  f_equal. apply fmap_alter_same. auto.
Qed.
Lemma keeps_update_append i j f : keeps P (update_append i j f).
Proof. by apply keeps_update_task. Qed.
Lemma keeps_update_resend i j f : keeps P (update_resend i j f).
Proof. by apply keeps_update_task. Qed.
End view_only.
#[export] Hint Extern 1 (ViewOnly _) => typeclasses eauto : keeps.
#[export] Hint Extern 1 (keeps _ (modify _)) => apply keeps_modify_view; [typeclasses eauto|intros; reflexivity] : keeps.
#[export] Hint Extern 1 (keeps _ (put _)) =>
  eapply keeps_put_view; [typeclasses eauto|eassumption|reflexivity] : keeps.
#[export] Hint Resolve keeps_on_buffer keeps_world keeps_network keeps_stream_at keeps_task_at
  keeps_update_append keeps_update_resend : keeps.
#[export] Hint Extern 1 (keeps _ (update_task _ _ _)) =>
  apply keeps_update_task; [typeclasses eauto|reflexivity] : keeps.
#[export] Hint Extern 1 (keeps _ (update_stream _ _)) =>
  apply keeps_update_same; [typeclasses eauto|reflexivity] : keeps.

Lemma keeps_call_later P `{!ViewOnly P} d w : keeps P (call_later d w).
Proof. by apply keeps_modify_view. Qed.
Lemma keeps_fail_and_stop P `{!ViewOnly P} : keeps P fail_and_stop.
Proof. unfold fail_and_stop, stop_loop. solve_keeps. Qed.
Lemma keeps_final_fail P `{!ViewOnly P} : keeps P final_fail.
Proof. unfold final_fail, stop_network, stop_loop. solve_keeps. Qed.
#[export] Hint Resolve keeps_call_later keeps_fail_and_stop keeps_final_fail : keeps.
Lemma keeps_request_rescan P `{!ViewOnly P} reason : keeps P (request_rescan reason).
Proof. unfold request_rescan. solve_keeps. Qed.
Lemma keeps_observe_one P `{!ViewOnly P} sample : keeps P (observe_ack_sample sample).
Proof. unfold observe_ack_sample; solve_keeps. Qed.
#[export] Hint Resolve keeps_request_rescan keeps_observe_one : keeps.
Lemma keeps_observe P `{!ViewOnly P} samples : keeps P (observe_ack_samples samples).
Proof. induction samples; cbn; solve_keeps. Qed.
#[export] Hint Resolve keeps_observe : keeps.

Section keeps.
Context {CRC : Crc32c} (regex_extended : string → exc (string → bool)).
Context `{!MapIteration T_SendBufferKey.t T_BufferedSend.t}.
Context (lost_callback : list T_LostSend.t → M t unit) (loop_fuel : SenderApp.limit).
Context (ms : list T_Message).
Abbreviation I := (Inv ms).
Context (lost_keeps : ∀ l, keeps I (lost_callback l)).
#[local] Hint Resolve lost_keeps : keeps.

Lemma I_net n s : I s → I (set_part (n : T_SenderNetwork.t) s).
Proof. by apply view_only. Qed.

(** The network. *)
Lemma keeps_net_send m r : keeps I (net_send lost_callback m r).
Proof. apply NetworkFrame.keeps_send; [apply I_net|done]. Qed.
Lemma keeps_send_control m l : keeps I (T_SenderNetwork.send_control lost_callback m l).
Proof. apply NetworkFrame.keeps_net_send_control; [apply I_net|done]. Qed.
Lemma keeps_mark_unavailable id : keeps I (T_SenderNetwork.mark_unavailable lost_callback id).
Proof. apply NetworkFrame.keeps_net_mark_unavailable; [apply I_net|done]. Qed.
Lemma keeps_refill ticks : keeps I (T_SenderNetwork.refill_ticks lost_callback ticks).
Proof. apply NetworkFrame.keeps_refill_ticks; [apply I_net|done]. Qed.
#[local] Hint Resolve keeps_net_send keeps_send_control keeps_mark_unavailable keeps_refill : keeps.

Lemma keeps_send_buffered m r : keeps I (send_buffered lost_callback m r).
Proof. unfold send_buffered. solve_keeps. Qed.
Lemma keeps_send_manifest1 : keeps I (send_manifest1 lost_callback).
Proof. unfold send_manifest1. solve_keeps. Qed.
#[local] Hint Resolve keeps_send_buffered keeps_send_manifest1 : keeps.

(** The reset of a stream goes back, never forward. *)
Lemma reset_sound st : sound ms (progress_of st) → sound ms (progress_of (reset_stream st)).
Proof.
  intros Hs. unfold reset_stream, progress_of. cbn.
  assert (∀ l, key_of <$> (reset_task_for_manifest_recovery <$> l) = key_of <$> l) as ->.
  { intros l. rewrite <- list_fmap_compose. by apply list_fmap_ext. }
  apply (sound_current ms (progress_of st)); [done|]. cbn. destruct Hs as [H0 _]. cbn in H0.
  destruct (Z.gtb_spec (T_StreamSendState.current_task st) (zlen (T_StreamSendState.tasks st)));
    pose proof (zlen_nonneg (T_StreamSendState.tasks st)); lia.
Qed.

Lemma keeps_recover : keeps I (recover_with_manifest1 lost_callback).
Proof.
  unfold recover_with_manifest1. solve_keeps. apply keeps_put.
  destruct H as [H _]. split; [|done]. cbn in *. rewrite !Forall_fmap in *.
  eapply Forall_impl; [exact H|]. intros st. apply reset_sound.
Qed.
#[local] Hint Resolve keeps_recover : keeps.

Lemma keeps_check_all_done : keeps I check_all_done.
Proof.
  unfold check_all_done, stop_network, stop_loop. apply triple_get. intros s HI.
  assert (∀ {A} (a : A), triple (λ s', s' = s) (mret a) (λ _, I) I) as Hret by (intros; by apply triple_ret; intros ? ->).
  destruct (_ || _); [apply Hret|]. destruct (forallb _ _) eqn:Hc; cbn [negb]; [|apply Hret].
  apply (triple_bind _ _ _ (λ _, I)).
  - intros s0 r s' -> [= <- <-]. split; [apply HI|]. intros _. cbn. rewrite Forall_fmap.
    apply Is_true_eq_left in Hc. rewrite forallb_True in Hc. eapply Forall_impl; [exact Hc|].
    intros st. apply Is_true_eq_true.
  - intros []. match goal with |- triple ?P ?m _ _ => change (keeps P m) end.
    solve_keeps. apply keeps_modify_view; [apply _|]. intros s'. unfold view. cbn. f_equal.
    rewrite <- list_fmap_compose. by apply list_fmap_ext.
Qed.
#[local] Hint Resolve keeps_check_all_done : keeps.

(** *** Retransmissions and sends *)
Lemma keeps_mark_task r id : keeps I (mark_task_retransmitted r id).
Proof. unfold mark_task_retransmitted. solve_keeps. Qed.
#[local] Hint Resolve keeps_mark_task : keeps.

Lemma keeps_flush_retransmits : keeps I (flush_retransmits lost_callback loop_fuel).
Proof.
  unfold flush_retransmits. solve_keeps. induction loop_fuel.(turns) as [|fuel IH]; cbn; solve_keeps.
Qed.
Lemma keeps_enqueue_rto : keeps I (enqueue_rto_retransmits lost_callback).
Proof.
  unfold enqueue_rto_retransmits. solve_keeps.
  induction (T_SenderSendBuffer.expired_keys _ _ _ _); cbn; solve_keeps.
Qed.
Lemma keeps_send_file_begin i j : keeps I (send_file_begin lost_callback i j).
Proof. unfold send_file_begin. solve_keeps. Qed.
Lemma keeps_send_append i j : keeps I (send_append_if_possible regex_extended lost_callback i j).
Proof. unfold send_append_if_possible. solve_keeps. Qed.
Lemma keeps_send_commit i j : keeps I (send_commit_if_possible lost_callback i j).
Proof. unfold send_commit_if_possible. solve_keeps. Qed.
Lemma keeps_maybe_drop id : keeps I (maybe_drop_line_once lost_callback id).
Proof. unfold maybe_drop_line_once. solve_keeps. Qed.
#[local] Hint Resolve keeps_flush_retransmits keeps_enqueue_rto keeps_send_file_begin keeps_send_append
  keeps_send_commit keeps_maybe_drop : keeps.

Lemma keeps_chunk_loop fuel i j : keeps I (chunk_loop regex_extended lost_callback loop_fuel fuel i j).
Proof. induction fuel as [|fuel IH]; cbn; solve_keeps. Qed.
#[local] Hint Resolve keeps_chunk_loop : keeps.
Lemma keeps_chunk_work i j : keeps I (schedule_chunk_work regex_extended lost_callback loop_fuel i j).
Proof. unfold schedule_chunk_work. solve_keeps. Qed.
#[local] Hint Resolve keeps_chunk_work : keeps.

(** *** Progress *)
Lemma triple_stream_at {A} (P : t → Prop) i (k : T_StreamSendState.t → M t A) :
  (∀ s, P s → I s) →
  (∀ s st, P s → s.(streams_) !! i = Some st → triple (λ s', s' = s) (k st) (λ _, I) I) →
  triple P (stream_at i ≫= k) (λ _, I) I.
Proof.
  intros HP H s r s' HI Hr. apply bind_cases in Hr as [(st & s1 & E & Hr)|(e & E & ->)];
    unfold stream_at in E; destruct (_ !! i) as [st0|] eqn:El; simplify_eq; [|by apply HP].
  exact (H s1 st HI El s1 r s' eq_refl Hr).
Qed.

Lemma triple_from {A} (P : t → Prop) s (m : M t A) (Q : A → t → Prop) E :
  P s → triple P m Q E → triple (λ s', s' = s) m Q E.
Proof. intros HP H. eapply triple_conseq; [exact H|]. by intros ? ->. Qed.

Lemma no_active_task st :
  active_index st = None → 0 ≤ st.(T_StreamSendState.current_task) →
  zlen st.(T_StreamSendState.tasks) ≤ st.(T_StreamSendState.current_task).
Proof.
  unfold active_index, active_task. destruct (Z.geb_spec st.(T_StreamSendState.current_task) (zlen st.(T_StreamSendState.tasks)));
    [lia|]. intros Ha Hc. exfalso. destruct (_ !! _) eqn:E; [done|]. apply lookup_ge_None in E. unfold zlen in *. lia.
Qed.

Lemma active_index_lt st j :
  active_index st = Some j → 0 ≤ st.(T_StreamSendState.current_task) →
  st.(T_StreamSendState.current_task) = Z.of_nat j ∧ (j < length st.(T_StreamSendState.tasks))%nat.
Proof.
  unfold active_index. destruct (active_task st) as [k|] eqn:E; [|done]. intros [= <-] Hc. unfold active_task in E.
  destruct (_ >=? _); [done|]. apply lookup_lt_Some in E. lia.
Qed.

(** Every file of the stream is behind: it is complete. *)
Lemma set_complete_ok s i st :
  I s → s.(streams_) !! i = Some st → active_index st = None →
  triple (λ s', s' = s) (set_complete i) (λ _, I) I.
Proof.
  intros HI Hi Ha s0 r s' -> [= <- <-]. apply (with_stream_Inv ms i); [done|].
  intros st' E (H0 & Hc & Hd). rewrite Hi in E. injection E as <-. split; [|done]. split_and!; [done..|].
  intros _. cbn. unfold zlen. rewrite length_fmap. by apply no_active_task.
Qed.

Lemma keeps_work_streams ixs : keeps I (work_streams regex_extended lost_callback loop_fuel ixs).
Proof.
  induction ixs as [|i ixs IH]; cbn; [apply keeps_ret|]. apply triple_stream_at; [done|]. intros s st HI Hi.
  apply (triple_bind _ _ _ (λ _, I)); [|intros; exact IH].
  destruct (_ || _); [by apply triple_ret; intros ? ->|].
  destruct (active_index st) eqn:Ha; [|by apply (set_complete_ok s i st)].
  apply (triple_from I); [done|]. match goal with |- triple ?P ?m _ _ => change (keeps P m) end. solve_keeps.
Qed.
#[local] Hint Resolve keeps_work_streams : keeps.

Lemma keeps_schedule_work : keeps I (schedule_work regex_extended lost_callback loop_fuel).
Proof. unfold schedule_work. solve_keeps. Qed.
#[local] Hint Resolve keeps_schedule_work : keeps.

Lemma keeps_apply_append i j d : keeps I (apply_append_plan regex_extended lost_callback i j d).
Proof. unfold apply_append_plan. solve_keeps. Qed.
#[local] Hint Resolve keeps_apply_append : keeps.

(** The file a heartbeat confirms is the current one: the stream moves on. *)
Lemma advance_ok hb i j key :
  M_Heartbeat hb ∈ ms → durable hb.(T_Heartbeat.stream_id) key hb →
  triple (λ s, I s ∧ sending i j hb.(T_Heartbeat.stream_id) key s)
    (advance_stream_task regex_extended lost_callback loop_fuel i) (λ _, I) I.
Proof.
  intros Hhb Hdur. unfold advance_stream_task.
  match goal with |- triple ?P _ _ _ => apply (triple_bind P _ _ (λ _, P)) end.
  { intros s r s' H [= <- <-]. exact H. }
  intros []. apply (triple_bind _ _ _ (λ _, I)).
  - intros s r s' [HI (p & Hp & Hsid & Hat & Hj)] [= <- <-]. cbn in *.
    apply (with_stream_Inv ms i); [exact HI|]. intros st Hst (H0 & Hc & Hdone). cbn in Hst.
    rewrite list_lookup_fmap, Hst in Hp. injection Hp as <-. cbn in *.
    split; [|done]. pose proof (lookup_lt_Some _ _ _ Hj) as Hl. rewrite length_fmap in Hl. unfold zlen in *.
    destruct (Z.ltb_spec (T_StreamSendState.current_task st) (Z.of_nat (length (T_StreamSendState.tasks st)))); [|lia].
    split_and!; cbn; [lia| |].
    + intros n Hn Hln. destruct (decide (n = j)) as [->|Hne]; [|apply Hc; [lia|done]].
      exists key. split; [done|]. left. exists hb. split; [done|]. by rewrite Hsid.
    + intros Ht. specialize (Hdone Ht). rewrite length_fmap in *. unfold zlen. rewrite length_fmap. lia.
  - intros []. apply triple_stream_at; [done|]. intros s st HI Hi.
    destruct (active_index st) eqn:Ha.
    + apply (triple_from I); [done|]. match goal with |- triple ?P ?m _ _ => change (keeps P m) end. solve_keeps.
    + apply (triple_bind _ _ _ (λ _, I)); [by apply (set_complete_ok s i st)|]. intros []. apply keeps_check_all_done.
Qed.

(** *** The answer to the manifest *)
Lemma apply_manifest2_sound m2 st r st' :
  M_Manifest2 m2 ∈ ms → apply_manifest2_to_stream m2 st = (r, st') → sound ms (progress_of st) →
  sound ms (progress_of st') ∧ (st.(T_StreamSendState.complete) = true → st'.(T_StreamSendState.complete) = true).
Proof.
  intros Hm2 Hr Hs. unfold apply_manifest2_to_stream, mbind, M_bind, get, modify in Hr.
  destruct (T_StreamSendState.manifest_applied st || T_StreamSendState.complete st) eqn:Hskip; [by injection Hr as <- <-|].
  apply orb_false_iff in Hskip as [_ Hnc].
  destruct (list_find _ m2.(T_Manifest2.streams)) as [[n plan]|] eqn:Hf; [|by injection Hr as <- <-].
  apply list_find_Some in Hf as (Hin & Hsid & _). apply list_elem_of_lookup_2 in Hin.
  destruct (bool_decide _) eqn:Hsync.
  { apply bool_decide_eq_true in Hsync. injection Hr as <- <-. split; [|done]. destruct Hs as (H0 & Hc & Hd).
    split_and!; cbn; [apply zlen_nonneg| |intros _; unfold zlen; rewrite length_fmap; lia].
    intros j _ Hj. destruct (lookup_lt_is_Some_2 _ _ Hj) as [k Hk]. exists k. split; [done|]. right.
    exists m2. split; [done|]. exists plan. auto. }
  destruct (list_find _ st.(T_StreamSendState.tasks)) as [[i task]|] eqn:Ht; [|by injection Hr as <- <-].
  apply list_find_Some in Ht as (Hti & Hfid & _).
  assert (sound ms (mk_progress st.(T_StreamSendState.stream_id) (Z.of_nat i) false
    (key_of <$> st.(T_StreamSendState.tasks)))) as Hgo.
  { split_and!; cbn; [lia| |done]. intros j Hj Hl. destruct (lookup_lt_is_Some_2 _ _ Hl) as [k Hk].
    exists k. split; [done|]. right. exists m2. split; [done|]. exists plan. split_and!; [done..|]. right.
    exists i, (key_of task). split_and!; [lia| |done]. by rewrite list_lookup_fmap, Hti. }
  rewrite (PlanFacts.active_task_at _ i task) in Hr by done.
  split; [|by rewrite Hnc].
  destruct (bool_decide (plan.(T_Manifest2Stream.action) = EM_Manifest2Action.RESUME_EXISTING));
    injection Hr as <- <-; [|by unfold progress_of; cbn; rewrite Hnc].
  unfold progress_of. cbn. rewrite Nat2Z.id, Hnc, fmap_alter_same by done. exact Hgo.
Qed.

Lemma keeps_apply_manifest2 m2 i :
  M_Manifest2 m2 ∈ ms → keeps I (apply_manifest2_stream regex_extended lost_callback m2 i).
Proof.
  intros Hm2. unfold apply_manifest2_stream. apply triple_stream_at; [done|]. intros s st HI Hi.
  destruct (apply_manifest2_to_stream m2 st) as [r st'] eqn:Hr.
  assert (triple (λ s', s' = s) (update_stream i (λ _, st')) (λ _ s', I s' ∧ s'.(streams_) !! i = Some st') I) as Hup.
  { intros s0 r0 s' -> [= <- <-]. split.
    - apply (with_stream_Inv ms i); [done|]. intros st0 E Hs. rewrite Hi in E. injection E as <-.
      by apply (apply_manifest2_sound m2 _ r).
    - cbn. by rewrite list_lookup_alter_eq, Hi. }
  assert (∀ {A} (m : M t A), keeps I m →
    triple (λ s', s' = s) (update_stream i (λ _, st');; m) (λ _, I) I) as Hrest.
  { intros A m Hm. eapply triple_bind; [exact Hup|]. intros []. eapply triple_conseq; [exact Hm|]. by intros ? []. }
  destruct r as [[result|]|e]; [|intros s0 r s' E Hrun; specialize (Hup s0 r s' E Hrun); by destruct r; [destruct Hup|]
    |apply Hrest; auto with keeps].
  destruct (T_Manifest2ApplyResult.in_sync result); [apply Hrest; auto with keeps|].
  destruct (active_index st') as [j|] eqn:Ha; [apply Hrest; solve_keeps|].
  eapply triple_bind; [exact Hup|]. intros []. apply (triple_bind _ _ _ (λ _, I)); [|intros []; apply keeps_check_all_done].
  intros s0 r s' [HI0 Hi0] Hrun. exact (set_complete_ok s0 i st' HI0 Hi0 Ha s0 r s' eq_refl Hrun).
Qed.

Lemma keeps_on_manifest2 m2 :
  M_Manifest2 m2 ∈ ms → keeps I (on_manifest2 regex_extended lost_callback loop_fuel m2).
Proof.
  intros Hm2. unfold on_manifest2. apply keeps_get. intros s HI. apply keeps_bind; [|intros; solve_keeps].
  generalize (seq 0 (length s.(streams_))). intros ixs.
  induction ixs as [|i ixs IH]; cbn; [apply keeps_ret|].
  apply keeps_bind; [by apply keeps_apply_manifest2|]. intros. solve_keeps.
Qed.

(** *** Heartbeats *)
Lemma keeps_ack_chunks P `{!ViewOnly P} i j sid chunks : keeps P (ack_chunks i j sid chunks).
Proof. induction chunks; cbn; unfold observe_erased; solve_keeps. Qed.
#[local] Hint Resolve keeps_ack_chunks : keeps.

(** The file being sent, read. *)
Lemma triple_task_at {A} i j sid key (k : T_FileSendTask.t → M t A) :
  (∀ task, key_of task = key → triple (λ s, I s ∧ sending i j sid key s) (k task) (λ _, I) I) →
  triple (λ s, I s ∧ sending i j sid key s) (task_at i j ≫= k) (λ _, I) I.
Proof.
  intros H s r s' [HI (p & Hp & Hsid & Hat & Hk)] Hr. pose proof Hp as Hp'. cbn in Hp.
  rewrite list_lookup_fmap in Hp. destruct (streams_ s !! i) as [st|] eqn:Ei; [|done]. injection Hp as Hp.
  pose proof Hk as Hk'. rewrite <- Hp in Hk. cbn in Hk. rewrite list_lookup_fmap in Hk.
  destruct (T_StreamSendState.tasks st !! j) as [task|] eqn:Ej; [|done]. injection Hk as Hk.
  apply (H task Hk s r s'); [split; [done|]; by exists p|].
  rewrite <- Hr. symmetry. apply bind_ret. unfold task_at. by rewrite Ei; cbn; rewrite Ej.
Qed.

(** A step that makes no progress. *)
Lemma quiet_step {A B} (P : t → Prop) `{!ViewOnly P} (m : M t A) (k : A → M t B) :
  (∀ s, P s → I s) → keeps P m → (∀ a, triple P (k a) (λ _, I) I) → triple P (m ≫= k) (λ _, I) I.
Proof.
  intros HP Hm Hk. apply (triple_bind P _ _ (λ _, P)); [|done].
  intros s r s' Hs Hr. specialize (Hm s r s' Hs Hr). by destruct r; [|apply HP].
Qed.

Lemma forget {A} (P : t → Prop) (m : M t A) : (∀ s, P s → I s) → keeps I m → triple P m (λ _, I) I.
Proof. intros HP Hm. eapply triple_conseq; [exact Hm|done]. Qed.

Lemma on_append_heartbeat_ok hb i j key :
  M_Heartbeat hb ∈ ms →
  triple (λ s, I s ∧ sending i j hb.(T_Heartbeat.stream_id) key s)
    (on_append_heartbeat regex_extended lost_callback loop_fuel i j hb) (λ _, I) I.
Proof.
  intros Hhb. unfold on_append_heartbeat. apply triple_task_at. intros task Hkey.
  destruct (Z.eqb_spec hb.(T_Heartbeat.file_id) task.(T_FileSendTask.file_id)) as [Hfile|_];
    [|apply forget; [tauto|apply keeps_send_append]].
  do 2 (apply quiet_step; [apply _|tauto|apply keeps_update_append; apply _|intros []]).
  apply triple_task_at. intros task' Hkey'. destruct (append_complete_by_heartbeat _ _ _ _) eqn:Hdone;
    [|apply forget; [tauto|apply keeps_send_append]].
  apply (advance_ok hb i j key); [done|]. split; [done|]. left. rewrite <- Hkey. split; [done|].
  intros Hkind. rewrite Hkey, <- Hkey'. rewrite <- Hkey' in Hkey. unfold append_complete_by_heartbeat in Hdone.
  assert (task'.(T_FileSendTask.kind) = EM_EntryKind.REGULAR_FILE) as Hreg by (by injection Hkey as _ _ <- _).
  rewrite bool_decide_eq_true_2 in Hdone by done. cbn in *. case_cond; lia.
Qed.

Lemma on_chunk_heartbeat_ok hb i j key :
  M_Heartbeat hb ∈ ms →
  triple (λ s, I s ∧ sending i j hb.(T_Heartbeat.stream_id) key s)
    (on_chunk_heartbeat regex_extended lost_callback loop_fuel i j hb) (λ _, I) I.
Proof.
  intros Hhb. unfold on_chunk_heartbeat. apply triple_task_at. intros task Hkey.
  do 3 (apply quiet_step; [apply _|tauto|unfold observe_erased; solve_keeps|intros []]).
  apply triple_task_at. intros task' Hkey'. destruct (_ && _) eqn:Hdone;
    [|apply forget; [tauto|apply keeps_schedule_work]].
  apply (advance_ok hb i j key); [done|]. split; [done|]. right. rewrite <- Hkey'. cbn.
  apply andb_true_iff in Hdone as [_ Hdone]. lia.
Qed.

Lemma keeps_on_heartbeat line_id hb :
  M_Heartbeat hb ∈ ms → keeps I (on_heartbeat regex_extended lost_callback loop_fuel line_id hb).
Proof.
  intros Hhb. unfold on_heartbeat, erase_completed_buffered. apply keeps_bind; [auto with keeps|]. intros [].
  apply keeps_bind; [solve_keeps|]. intros []. apply triple_get. intros s HI.
  destruct (stream_for_id _ _) as [i|] eqn:Hi; [|by apply triple_ret; intros ? ->].
  apply triple_stream_at; [by intros ? ->|]. intros s' st -> Hst.
  destruct (active_index st) as [j|] eqn:Ha; [|apply (triple_from I); [done|apply keeps_check_all_done]].
  assert (st.(T_StreamSendState.stream_id) = hb.(T_Heartbeat.stream_id)) as Hsid.
  { unfold stream_for_id in Hi. destruct (list_find _ _) as [[i' st']|] eqn:Hf; [|done]. injection Hi as ->.
    apply list_find_Some in Hf as (Hf & Heq & _). rewrite Hst in Hf. by injection Hf as ->. }
  pose proof HI as [Hall _]. rewrite Forall_lookup in Hall.
  specialize (Hall i (progress_of st)). cbn in Hall. rewrite list_lookup_fmap, Hst in Hall.
  destruct (Hall eq_refl) as (H0 & _ & _). destruct (active_index_lt st j Ha H0) as [Hat Hlt].
  destruct (lookup_lt_is_Some_2 _ _ Hlt) as [task Htask].
  assert (sending i j hb.(T_Heartbeat.stream_id) (key_of task) s) as Hsend.
  { exists (progress_of st). cbn. by rewrite !list_lookup_fmap, Hst, Htask. }
  apply (triple_from (λ s, I s ∧ sending i j hb.(T_Heartbeat.stream_id) (key_of task) s)); [done|].
  apply triple_task_at. intros k _. destruct (negb _); [by apply on_append_heartbeat_ok|by apply on_chunk_heartbeat_ok].
Qed.

(** *** Lost sends, and the callbacks *)
Lemma keeps_handle_lost lost_sends : keeps I (handle_lost_sends regex_extended lost_callback loop_fuel lost_sends).
Proof.
  unfold handle_lost_sends. apply keeps_bind; [|intros; solve_keeps]. generalize false.
  induction lost_sends as [|lost lost_sends IH]; intros changed; cbn; [apply keeps_ret|].
  apply keeps_bind; [|intros; apply IH]. unfold lose. solve_keeps.
Qed.

Lemma keeps_on_connected id : keeps I (on_connected regex_extended lost_callback loop_fuel id).
Proof. unfold on_connected. solve_keeps. Qed.

Lemma keeps_on_message id m : m ∈ ms → keeps I (on_message regex_extended lost_callback loop_fuel id m).
Proof.
  intros Hm. destruct m; cbn; auto with keeps.
  - by apply keeps_on_manifest2.
  - by apply keeps_on_heartbeat.
  - unfold on_nack. solve_keeps.
Qed.

Lemma keeps_tick : keeps I (tick regex_extended lost_callback loop_fuel).
Proof. unfold tick. solve_keeps. Qed.

Lemma keeps_timeout : keeps I timeout.
Proof. unfold timeout. solve_keeps. Qed.
End keeps.

(** *** The streams of the source start with nothing confirmed *)
Section sources.
Context {CRC : Crc32c} (regex_extended : string → exc (string → bool)) (ms : list T_Message).

(** Not done, and so far nothing unsound. *)
Definition fresh (s : t) : Prop := Inv ms s ∧ s.(done_) = false.
#[export] Instance fresh_view_only : ViewOnly fresh.
Proof.
  unfold ViewOnly, fresh. intros s s' Hv [HI Hd]. split; [by apply (view_only s)|].
  injection Hv as _ Hv. by rewrite Hv.
Qed.

Lemma push_stream_fresh st :
  st.(T_StreamSendState.current_task) = 0 → (st.(T_StreamSendState.complete) = true → st.(T_StreamSendState.tasks) = []) →
  keeps fresh (push_stream st).
Proof.
  intros H0 Hc s r s' [[Hs _] Hd] [= <- <-]. split; [|done]. split; [|by cbn; rewrite Hd].
  cbn in *. rewrite fmap_app. apply Forall_app. split; [done|]. constructor; [|constructor].
  split_and!; cbn; [by rewrite H0|intros; lia|]. intros Ht. by rewrite (Hc Ht), H0.
Qed.

Lemma build_stream_empty options root w st w' :
  build_stream regex_extended options root w = (Ret (Some st), w') →
  st.(T_StreamSendState.current_task) = 0 ∧
  (st.(T_StreamSendState.complete) = true → st.(T_StreamSendState.tasks) = []).
Proof.
  unfold build_stream. intros H. inv_bind. destruct a as [[]|]; try done. inv_bind.
  case_cond; [done|]. inv_bind. injection H as <- <-. cbn. split; [done|]. by intros ?%bool_decide_eq_true.
Qed.

Lemma keeps_build_streams roots : keeps fresh (build_streams regex_extended roots).
Proof.
  induction roots as [|root roots IH]; cbn; [apply keeps_ret|]. apply keeps_get. intros s _.
  apply (triple_bind _ _ _ (λ st s', fresh s' ∧ ∀ x, st = Some x → x.(T_StreamSendState.current_task) = 0 ∧
    (x.(T_StreamSendState.complete) = true → x.(T_StreamSendState.tasks) = []))).
  - intros s0 r s' H0 Hr. unfold on in Hr. destruct (build_stream _ _ _ _) as [r0 w] eqn:E.
    injection Hr as <- <-. assert (fresh (set_part w s0)) by (by apply (view_only s0)).
    destruct r0 as [x|]; [|done]. split; [done|]. intros y ->. by apply build_stream_empty in E.
  - intros st s0 r s' [Hf Hst] Hr. revert Hr.
    assert (keeps fresh (match st with Some stream => push_stream stream | None => mret tt end;;
      build_streams regex_extended roots)) as Hk; [|intros Hr; exact (Hk s0 r s' Hf Hr)].
    apply keeps_bind; [|done]. destruct st as [st|]; [|apply keeps_ret]. by apply push_stream_fresh; apply Hst.
Qed.

Lemma keeps_build_source_streams : keeps fresh (build_source_streams regex_extended).
Proof.
  unfold build_source_streams. apply keeps_get. intros s _. case_cond.
  - apply (triple_bind _ _ _ (λ st s', fresh s' ∧ simulated_stream s.(options_) = Ret st)).
    + intros s0 r s' Hf Hr. injection Hr as <- <-. by destruct (simulated_stream _).
    + intros st s0 r s' [Hf Hst] Hr. refine (push_stream_fresh st _ _ s0 r s' Hf Hr);
        unfold simulated_stream in Hst; inv_bind; by injection Hst as <-.
  - pose proof keeps_build_streams as Hb. solve_keeps.
Qed.

Lemma keeps_rebuild s r s' : Inv ms s → rebuild_source_streams_for_rescan regex_extended s = (r, s') → Inv ms s'.
Proof.
  intros HI Hr. unfold rebuild_source_streams_for_rescan in Hr. erewrite bind_ret in Hr by reflexivity.
  apply (keeps_run fresh) in Hr; [apply Hr|apply keeps_build_source_streams|].
  split; [|done]. split; [constructor|done].
Qed.
End sources.

(** *** The application *)
Section application.
Context {CRC : Crc32c} (regex_extended : string → exc (string → bool)).
Context `{!MapIteration T_SendBufferKey.t T_BufferedSend.t}.
Context (depth : nat) (loop_fuel : SenderApp.limit).
Abbreviation Lost := (lost regex_extended depth loop_fuel).

Lemma keeps_on_lost_sends ms d lost_sends : keeps (Inv ms) (on_lost_sends regex_extended loop_fuel d lost_sends).
Proof.
  revert lost_sends. induction d as [|d IH]; intros lost_sends; cbn; [apply keeps_throw|].
  by apply keeps_handle_lost.
Qed.

(** The message an event brings. *)
Definition brings (e : event) : list T_Message := match e with Receives _ m => [m] | _ => [] end.

Lemma keeps_handle ms e : brings e ⊆ ms → keeps (Inv ms) (handle regex_extended depth loop_fuel e).
Proof.
  intros Hb. assert (∀ l, keeps (Inv ms) (Lost l)) as Hlost by (intros; apply keeps_on_lost_sends).
  assert (∀ n s, Inv ms s → Inv ms (set_part (n : T_SenderNetwork.t) s)) as Hnet by (intros n s; by apply view_only).
  assert (∀ {A} (m : M T_SenderLineSet.t A), keeps (Inv ms) (on m)) as Hon
    by (intros A m; apply keeps_on; intros c s; by apply view_only).
  assert (∀ id b, keeps (Inv ms) (handle_unavailable regex_extended depth loop_fuel id b)) as Hun
    by (intros; by apply NetworkFrame.keeps_handle_unavailable).
  assert (∀ id, keeps (Inv ms) (handle_connected id)) as Hcon by (intros; by apply NetworkFrame.keeps_handle_connected).
  assert (∀ id, keeps (Inv ms) (T_SenderLineSet.mark_unavailable_with (handle_unavailable regex_extended depth loop_fuel)
    (λ _, throw "closed twice") id)) as Hmark1 by (intros; unfold T_SenderLineSet.mark_unavailable_with; solve_keeps).
  assert (∀ id, keeps (Inv ms) (T_SenderLineSet.on_close (handle_unavailable regex_extended depth loop_fuel) id)) as Hclose
    by (intros; unfold T_SenderLineSet.on_close; solve_keeps).
  destruct e as [id m|id c loop|id|id|id|id| | |events|reason]; cbn [handle].
  - apply NetworkFrame.keeps_handle_message; [done..|intros; by apply keeps_on_connected|].
    apply keeps_on_message; [done|]. apply Hb. by left.
  - unfold T_SenderLineSet.on_tcp_connected. solve_keeps.
  - unfold T_SenderLineSet.on_connect_failed. solve_keeps.
  - unfold T_SenderLineSet.on_error, T_SenderLineSet.mark_unavailable, T_SenderLineSet.mark_unavailable_with. solve_keeps.
  - apply Hclose.
  - apply Hon.
  - by apply keeps_tick.
  - apply keeps_timeout.
  - unfold watch_poll_tick. solve_keeps.
  - unfold rescan_and_send_manifest. apply keeps_bind; [auto with keeps|]. intros [].
    pose proof (keeps_send_manifest1 Lost ms Hlost). solve_keeps.
    intros s0 r s' HI Hr. apply (keeps_rebuild regex_extended ms) in Hr; [|done]. by destruct r.
Qed.

Lemma keeps_start ms watcher_starts : keeps (Inv ms) (start watcher_starts).
Proof. unfold start, start_watchers. solve_keeps. Qed.

Lemma keeps_handle_all ms events :
  (∀ e, e ∈ events → brings e ⊆ ms) → keeps (Inv ms) (handle_all regex_extended depth loop_fuel events).
Proof.
  induction events as [|e events IH]; intros Hb; cbn; [apply keeps_ret|]. apply keeps_get. intros s _.
  destruct (stopped_ s); [apply keeps_ret|]. apply keeps_bind; [apply keeps_handle; apply Hb; by left|].
  intros. apply IH. intros e' He. apply Hb. by right.
Qed.

Lemma create_sound options world s world' :
  create regex_extended options world = (Ret s, world') → Inv [] s.
Proof.
  unfold create. destruct (T_SenderNetwork.create _ _ _ _ _) as [network|]; [|done].
  set (app := mk _ _ _ _ _ _ _ _ _ _ _ _ _ _ _ _). destruct (build_source_streams regex_extended app) as [r s1] eqn:E.
  apply (keeps_run (fresh [])) in E; [|apply keeps_build_source_streams|split; [split; [constructor|done]|done]].
  destruct r; [|done]. intros [= <- <-]. apply E.
Qed.
(** Every file of a sender that is done was confirmed. *)
Lemma done_confirmed options world watcher_starts events s0 world0 r s :
  SenderApp.create regex_extended options world = (Ret s0, world0) →
  (SenderApp.start watcher_starts;; SenderApp.run_loop regex_extended depth loop_fuel events) s0 = (r, s) →
  s.(SenderApp.done_) = true →
  ∀ stream j task, stream ∈ s.(SenderApp.streams_) → stream.(T_StreamSendState.tasks) !! j = Some task →
  confirmed (events ≫= brings) stream.(T_StreamSendState.stream_id) (key_of <$> stream.(T_StreamSendState.tasks)) j.
Proof.
  intros Hcreate Hrun Hdone stream j task Hin Htask. apply create_sound in Hcreate.
  apply (keeps_run (Inv (events ≫= brings))) in Hrun as [Hsound Hc].
  - specialize (Hc Hdone). rewrite Forall_forall in Hsound, Hc.
    assert (progress_of stream ∈ (view s).1) as Hp by (apply list_elem_of_fmap; eauto).
    destruct (Hsound _ Hp) as (_ & Hbefore & Hall). specialize (Hall (Hc _ Hp)). apply lookup_lt_Some in Htask.
    unfold zlen in Hall. cbn in *. rewrite length_fmap in *. apply Hbefore; lia.
  - apply keeps_bind; [apply keeps_start|intros []]. apply keeps_bind; [by apply keeps_modify|intros _].
    apply keeps_handle_all.
    intros e He m Hm. apply list_elem_of_bind. eauto.
  - eapply Inv_mono; [apply list_subseteq_nil|exact Hcreate].
Qed.
End application.
End SenderKeeps.

(** C1: the sender says it is done only when the receiver has confirmed every
    file: in any run of the application, from its construction through any
    events of its lines, timers and watchers (with lines lost and messages
    retransmitted in whatever order), once [done_] is set each file of each
    stream is covered by a message that was received: a heartbeat of the file
    with its last byte durable, a heartbeat of the stream past the file's
    sequence number, or an answer to a manifest that starts after the file. *)
Theorem done_only_when_confirmed {CRC : Crc32c} (regex_extended : string → exc (string → bool))
    `{!MapIteration T_SendBufferKey.t T_BufferedSend.t} (depth : nat) (loop_fuel : SenderApp.limit)
    options world watcher_starts events s0 world0 r s :
  SenderApp.create regex_extended options world = (Ret s0, world0) →
  (SenderApp.start watcher_starts;; SenderApp.run_loop regex_extended depth loop_fuel events) s0 = (r, s) →
  s.(SenderApp.done_) = true →
  ∀ stream j task, stream ∈ s.(SenderApp.streams_) → stream.(T_StreamSendState.tasks) !! j = Some task →
  Confirmation.confirmed (events ≫= SenderKeeps.brings) stream.(T_StreamSendState.stream_id)
    (Confirmation.key_of <$> stream.(T_StreamSendState.tasks)) j.
Proof. apply SenderKeeps.done_confirmed. Qed.

(** ** A run: one line, one file of three bytes *)
#[local] Existing Instance some_order.
Definition sample_options : T_NodeOptions.t :=
  let d := T_NodeOptions.defaults ["tmp"] in
  T_NodeOptions.mk "sender" d.(T_NodeOptions.host) d.(T_NodeOptions.base_port) 1 3 d.(T_NodeOptions.root) [] 0 [] [] []
    [] EM_Compression.NONE EM_ChecksumAlgo.CRC32C kLineWindowBytes 65536 300 100 5 3 64 20 100 2000 50 2 false
    EM_WatchBackend.AUTO 500 200.
Definition sample_line : conn := AsyncFrameConnection.mk 5 kMaxFrameBytes None [] [] [] [].
Definition sample_loop : EventLoop.t unit := EventLoop.mk unit false 1 [] [].
Definition sample_heartbeat (next_seq offset : Z) : T_Message :=
  M_Heartbeat (T_Heartbeat.mk kStreamId next_seq kFileId offset offset kLineWindowBytes [] []).
Definition sample_events : list SenderApp.event :=
  [SenderApp.Connects 1 sample_line sample_loop;
   SenderApp.Receives 1 (M_Hello (make_hello EM_Role.RECEIVER "receiver" 65536 kLineWindowBytes));
   SenderApp.Ticks;
   SenderApp.Receives 1 (M_Manifest2 (T_Manifest2.mk 1
     [T_Manifest2Stream.mk kStreamId EM_Manifest2Action.CREATE_MISSING kFileId 0]));
   SenderApp.Receives 1 (sample_heartbeat 2 0);
   SenderApp.Receives 1 (sample_heartbeat 3 3)].

Definition sample_world : fsys := mk_fsys ∅ [].
Definition sample_start : exc SenderApp.t * fsys := SenderApp.create (λ _, Throw "") sample_options sample_world.
Definition sample_run (s : SenderApp.t) : exc unit * SenderApp.t :=
  (SenderApp.start (λ _, true);; SenderApp.run_loop (λ _, Throw "") 3 10%nat sample_events) s.

(** The application after the events, when the construction succeeds. *)
Definition sample_end : option (exc unit * SenderApp.t) :=
  match sample_start with (Ret s, _) => Some (sample_run s) | (Throw _, _) => None end.

Lemma done_only_when_confirmed_witness :
  ∃ s0 r s, sample_start = (Ret s0, sample_world) ∧ sample_run s0 = (r, s) ∧ s.(SenderApp.done_) = true ∧
    SenderApp.exit_code s = 0 ∧
    ∃ task, Confirmation.confirmed (sample_events ≫= SenderKeeps.brings) kStreamId [Confirmation.key_of task] 0.
Proof.
  destruct sample_start as [[s0|e] w] eqn:E0; [|vm_compute in E0; discriminate].
  destruct (sample_run s0) as [r s] eqn:E1.
  assert (w = sample_world) as -> by (vm_compute in E0; by injection E0 as _ <-).
  assert (sample_end = Some (r, s)) as Hend by (unfold sample_end; by rewrite E0, E1).
  exists s0, r, s.
  assert (s.(SenderApp.done_) = true ∧ SenderApp.exit_code s = 0 ∧
    ∃ stream task, s.(SenderApp.streams_) = [stream] ∧ stream.(T_StreamSendState.tasks) = [task] ∧
      stream.(T_StreamSendState.stream_id) = kStreamId) as (Hdone & Hcode & stream & task & Hs & Ht & Hid).
  { vm_compute in Hend. injection Hend as <- <-. vm_compute. split_and!; [done..|]. eexists _, _. split_and!; reflexivity. }
  split_and!; [done..|]. exists task. rewrite <- Hid.
  assert ([Confirmation.key_of task] = Confirmation.key_of <$> stream.(T_StreamSendState.tasks)) as -> by by rewrite Ht.
  apply (done_only_when_confirmed (λ _, Throw "") 3 10%nat sample_options sample_world (λ _, true) sample_events s0
    sample_world r s E0 E1 Hdone stream 0 task); [rewrite Hs; by left|by rewrite Ht].
Defined.
