(* ===== verification/SenderEnds.v ===== *)
(** * The sender's handlers come to an end

    The model of [SenderApp] gives its loops a number of turns and the reports
    of lost sends a depth.  Here they are shown to be enough: every handler
    settles on a result that neither more turns nor what is thrown when they
    are used up can change.  A report of lost sends is made only when a
    connection has just been given up, so reports nest no deeper than there are
    open lines; the loops send each queued message, each chunk, once as long as
    no line is given up. *)
From S2P Require Import Prelude Hoare Crc32c Filesystem Wire Protocol Framing Sync Scheduler Source ChunkResend.
From S2P Require Import AppendState SendBuffer SenderPlan Network NodeCommon SenderApp SenderRun.
#[local] Open Scope Z_scope.

(** ** The open lines *)
Module OpenLines.
Import SenderLine T_SenderLineSet.

Abbreviation is_open := (λ l, is_Some l.(connection)).
Definition online (s : t) : nat := length (filter is_open s.(lines_)).

(** What leaves no more lines open than there were. *)
Definition calm {A} (m : M t A) : Prop := ∀ k, keeps (λ s, online s ≤ k)%nat m.

Lemma length_filter_alter f i (ls : list SenderLine.t) line :
  ls !! i = Some line →
  (length (filter is_open (alter f i ls)) + length (filter is_open [line]) =
   length (filter is_open ls) + length (filter is_open [f line]))%nat.
Proof.
  intros Hi. assert (i < length ls)%nat by by eapply lookup_lt_Some.
  rewrite <- (take_drop_middle (alter f i ls) i (f line)) by by rewrite list_lookup_alter_eq, Hi.
  rewrite <- (take_drop_middle _ _ _ Hi) at 3.
  rewrite take_alter_ge, drop_alter, decide_False by lia. rewrite !cons_middle, !filter_app, !length_app. lia.
Qed.

Lemma online_alter f i s line :
  s.(lines_) !! i = Some line → (is_open (f line) → is_open line) → (online (set_lines (alter f i s.(lines_)) s) ≤ online s)%nat.
Proof.
  intros Hi Hf. pose proof (length_filter_alter f i _ _ Hi) as Hl. unfold online. cbn.
  rewrite !filter_cons, !filter_nil in Hl. repeat case_decide; cbn in Hl; lia || tauto.
Qed.

Lemma online_alter_lt f i s line :
  s.(lines_) !! i = Some line → is_open line → ¬ is_open (f line) → (online (set_lines (alter f i s.(lines_)) s) < online s)%nat.
Proof.
  intros Hi Ho Hf. pose proof (length_filter_alter f i _ _ Hi) as Hl. unfold online. cbn.
  rewrite !filter_cons, !filter_nil in Hl. repeat case_decide; cbn in Hl; lia || tauto.
Qed.

Lemma find_index_lookup id s i line : find_index id s = Some (i, line) → s.(lines_) !! i = Some line.
Proof. by intros (? & _ & _)%list_find_Some. Qed.

(** *** The operations of the lines that open none *)
Lemma calm_update id f : (∀ l, is_open (f l) → is_open l) → calm (update id f).
Proof.
  intros Hf k s r s' Hs Hr. unfold update in Hr. destruct (find_index id s) as [[i line]|] eqn:E; injection Hr as <- <-; [|done].
  etransitivity; [|exact Hs]. by eapply online_alter; [eapply find_index_lookup|apply Hf].
Qed.
Lemma calm_find id : calm (find id).
Proof. intros k s r s' Hs Hr. unfold find in Hr. by destruct (find_index id s) as [[]|]; injection Hr as <- <-. Qed.
Lemma calm_request r : calm (modify (request r)).
Proof. intros k. by apply keeps_modify. Qed.
#[local] Hint Extern 1 (keeps _ (update _ _)) => apply calm_update; done : keeps.
#[local] Hint Extern 1 (keeps _ (find _)) => apply calm_find : keeps.
#[local] Hint Extern 1 (keeps _ (modify (request _))) => apply calm_request : keeps.

Lemma calm_reconnect id : calm (schedule_reconnect id).
Proof. intros k. unfold schedule_reconnect. solve_keeps. Qed.
Lemma calm_connect id : calm (connect id).
Proof. intros k. unfold connect. solve_keeps. Qed.
#[local] Hint Extern 1 (keeps _ (connect _)) => apply calm_connect : keeps.
Lemma calm_start : calm start_all.
Proof. intros k. unfold start_all. solve_keeps. induction (lines_ _); cbn; solve_keeps. Qed.
Lemma calm_timer id : calm (reconnect_timer id).
Proof. intros k. unfold reconnect_timer. solve_keeps. Qed.
Lemma calm_can_send id : calm (can_send_line id).
Proof. intros k. unfold can_send_line. solve_keeps. Qed.

Lemma calm_send id m : calm (send id m).
Proof.
  intros k s r s' Hs Hr. unfold send in Hr.
  destruct (find_index id s) as [[i line]|] eqn:E.
  - assert (find id s = (Ret line, s)) as Hf by (unfold find; by rewrite E).
    rewrite (bind_ret _ _ _ _ _ Hf) in Hr. destruct line.(connection) as [c|] eqn:Ec; [|by injection Hr as <- <-].
    destruct (_ c); [by injection Hr as <- <-|].
    apply bind_cases in Hr as [(c' & s1 & Hc & Hr)|(e & He & ->)]; [|unfold lift_exc in He; by injection He as _ <-].
    unfold lift_exc in Hc. injection Hc as _ <-. unfold update in Hr. rewrite E in Hr. injection Hr as <- <-.
    etransitivity; [|exact Hs]. eapply online_alter; [by eapply find_index_lookup|]. intros _. by rewrite Ec.
  - assert (find id s = (Throw "unknown sender network line", s)) as Hf by (unfold find; by rewrite E).
    rewrite (bind_throw _ _ _ _ _ Hf) in Hr. by injection Hr as <- <-.
Qed.

(** A line is given up. *)
Lemma update_closes id s i line :
  find_index id s = Some (i, line) → let f := λ l, set_connection None (set_connecting false false l) in
  ∃ s', update id f s = (Ret tt, s') ∧ (online s' ≤ online s)%nat ∧ (is_open line → (online s' < online s)%nat).
Proof.
  intros E f. unfold update. rewrite E. eexists. split; [reflexivity|]. apply find_index_lookup in E. split.
  - eapply online_alter; [exact E|]. by intros [].
  - intros Ho. eapply online_alter_lt; [exact E|exact Ho|]. by intros [].
Qed.
End OpenLines.

(** ** The chunks that may be sent *)
Module Sendable.
Import T_ChunkResendState.

(** The vectors of a task have a place for every chunk. *)
Definition steady (r : t) : Prop :=
  zlen r.(acked) = Z.max 0 r.(chunk_count) ∧ zlen r.(sent) = zlen r.(acked) ∧
  zlen r.(priority) = zlen r.(acked) ∧ Forall (λ i, 0 ≤ i) r.(order).

Lemma steady_initial : steady initial.
Proof. by split_and!. Qed.
Lemma steady_initialize n : steady (initialize_chunk_resend_state n []).
Proof.
  unfold initialize_chunk_resend_state, steady, zlen. cbn. rewrite !length_replicate. split_and!; [lia..|].
  destruct (_ =? n); [constructor|]. unfold default_order. destruct (Z.gtb_spec n 0); [|constructor].
  constructor; [lia|]. apply Forall_forall. intros i Hi%elem_of_seqZ. lia.
Qed.
Lemma steady_reset r : steady r → steady (reset_chunk_resend_state r).
Proof. intros (Ha & Hs & Hp & Ho). unfold steady. cbn. by rewrite !ResendFacts.zlen_fmap. Qed.
Lemma steady_sent i id tick r : steady r → steady (mark_chunk_sent i id tick r).2.
Proof.
  intros (Ha & Hs & Hp & Ho). unfold mark_chunk_sent. destruct (negb _); [done|].
  unfold steady. cbn. by rewrite !ResendFacts.zlen_assign.
Qed.
Lemma steady_acked i r : steady r → steady (acknowledge_chunk i r).2.
Proof.
  intros (Ha & Hs & Hp & Ho). unfold acknowledge_chunk. destruct (negb _); [done|].
  unfold steady. cbn. by rewrite !ResendFacts.zlen_assign.
Qed.
Lemma steady_lost i r : steady r → steady (mark_chunk_lost i r).2.
Proof.
  intros (Ha & Hs & Hp & Ho). unfold mark_chunk_lost. destruct (negb _); [done|]. destruct (_ || _); [done|].
  unfold steady. cbn. by rewrite !ResendFacts.zlen_assign.
Qed.
Lemma steady_hints seq file_id ranges r : steady r → steady (apply_missing_hints seq file_id ranges r).2.
Proof.
  intros H. unfold apply_missing_hints. destruct (_ =? _); [done|]. revert r H.
  induction ranges as [|range ranges IH]; intros r H; cbn [hint_ranges]; [done|].
  destruct (_ || _); [by apply IH|]. destruct (_ >? _); [by apply IH|].
  assert (∀ first last, steady (hint_range first last r).2) as Hr.
  { intros first last. unfold hint_range. generalize false at 1. revert r H.
    induction (seqZ first _) as [|i l IHl]; intros r H b; cbn [foldl]; [done|]. destruct (negb _); apply IHl; [|done].
    destruct H as (Ha & Hs & Hp & Ho). unfold steady. cbn. by rewrite ResendFacts.zlen_assign. }
  match goal with |- context [hint_range ?f ?l r] => specialize (Hr f l); destruct (hint_range f l r) as [changed r1] end.
  specialize (IH r1 Hr). by destruct (hint_ranges seq file_id ranges r1).
Qed.

(** The places where the next chunk is looked for, and how many of them hold
    a chunk that may be sent now. *)
Definition places (r : t) : list Z := seqZ 0 (zlen r.(priority)) ++ r.(order).
Definition may_send (tick rto : Z) (r : t) (i : Z) : bool := can_send_chunk r i false tick rto.
Definition waiting (tick rto : Z) (r : t) : nat := length (filter (λ i, may_send tick rto r i = true) (places r)).

Lemma next_waits tick rto r i :
  steady r → next_chunk_to_send r tick rto = Some i → i ∈ places r ∧ may_send tick rto r i = true ∧ 0 ≤ i < zlen r.(acked).
Proof.
  intros (_ & _ & _ & Ho) Hn. unfold next_chunk_to_send in Hn. unfold places. rewrite elem_of_app.
  assert (∀ b, i ∈ seqZ 0 (zlen r.(priority)) ∨ i ∈ r.(order) → can_send_chunk r i b tick rto = true →
    (i ∈ seqZ 0 (zlen r.(priority)) ∨ i ∈ r.(order)) ∧ may_send tick rto r i = true ∧ 0 ≤ i < zlen r.(acked)) as Hin.
  { intros b Hi Hc. pose proof (ResendFacts.can_send_bound _ _ _ _ _ Hc). split; [done|]. split.
    - unfold may_send, can_send_chunk in *. destruct (_ || _); [done|]. cbn [andb]. destruct b; cbn [andb] in Hc; [|done].
      by destruct (negb (at_bool r.(priority) i)).
    - split; [|done]. destruct Hi as [Hi%elem_of_seqZ|Hi]; [lia|]. rewrite Forall_forall in Ho. auto. }
  destruct (list_find _ (seqZ _ _)) as [[j k]|] eqn:E.
  - injection Hn as ->. apply list_find_Some in E as (Hl & Hc & _). eapply Hin; [left|by apply Is_true_eq_true].
    by eapply list_elem_of_lookup_2.
  - destruct (list_find _ r.(order)) as [[j k]|] eqn:E'; [|done]. injection Hn as ->.
    apply list_find_Some in E' as (Hl & Hc & _). eapply Hin; [right|by apply Is_true_eq_true].
    by eapply list_elem_of_lookup_2.
Qed.

Lemma filter_fewer {A} (P Q : A → Prop) `{∀ x, Decision (P x), ∀ x, Decision (Q x)} (l : list A) a :
  (∀ x, P x → Q x) → a ∈ l → Q a → ¬ P a → (length (filter P l) < length (filter Q l))%nat.
Proof.
  intros HPQ Ha HQ HP. assert (∀ l, length (filter P l) ≤ length (filter Q l))%nat as Hle.
  { intros l'. induction l' as [|x l' IH]; [done|]. rewrite !filter_cons. repeat case_decide; cbn; [lia|naive_solver|lia|lia]. }
  apply list_elem_of_split in Ha as (l1 & l2 & ->). rewrite !filter_app, !filter_cons, !length_app.
  rewrite decide_False, decide_True by done. cbn. pose proof (Hle l1). pose proof (Hle l2). lia.
Qed.

(** A chunk that has just been sent does not wait any longer. *)
Lemma sent_waits_less tick rto line_id now r i :
  steady r → next_chunk_to_send r tick rto = Some i →
  (waiting tick rto (mark_chunk_sent i line_id now r).2 < waiting tick rto r)%nat.
Proof.
  intros Hok Hn. destruct (next_waits _ _ _ _ Hok Hn) as (Hin & Hm & Hi). destruct Hok as (Ha & Hs & Hp & _).
  unfold mark_chunk_sent.
  assert (chunk_index_valid r i = true) as ->.
  { unfold chunk_index_valid. apply andb_true_intro. split; apply Z.ltb_lt; lia. }
  cbn [negb snd]. unfold waiting, places. cbn [priority order]. rewrite ResendFacts.zlen_assign.
  apply (filter_fewer _ _ _ i); [|exact Hin|exact Hm|].
  - intros x. unfold may_send, can_send_chunk. cbn [acked sent priority send_tick].
    destruct (_ || _) eqn:Ex; [done|]. cbn [andb]. unfold at_bool, at_num, assign.
    destruct (decide (Z.to_nat x = Z.to_nat i)) as [->|Hne].
    + rewrite !list_lookup_insert_eq by (unfold zlen in *; lia). done.
    + by rewrite !list_lookup_insert_ne by done.
  - unfold may_send, can_send_chunk. cbn [acked sent priority send_tick]. destruct (_ || _); [done|]. cbn [andb].
    unfold at_bool, assign. by rewrite !list_lookup_insert_eq by (unfold zlen in *; lia).
Qed.
End Sendable.

(** ** What the handlers keep *)
Module EndingInvariant.
Import SenderApp.

Definition task_steady (k : T_FileSendTask.t) : Prop := Sendable.steady k.(T_FileSendTask.chunk_resend).
Definition stream_steady (st : T_StreamSendState.t) : Prop := Forall task_steady st.(T_StreamSendState.tasks).
Definition in_step (s : t) : Prop := Forall stream_steady s.(streams_).

Definition net_open (n : T_SenderNetwork.t) : nat := OpenLines.online n.(T_SenderNetwork.lines_).
Definition open_lines (s : t) : nat := net_open s.(network_).

(** At most [k] lines are open. *)
Definition at_most (k : nat) (s : t) : Prop := in_step s ∧ (open_lines s ≤ k)%nat.

(** Since [s0], nothing but the network has changed, or a line has been given up. *)
Definition since (s0 s : t) : Prop :=
  at_most (open_lines s0) s ∧ (s = set_network s.(network_) s0 ∨ (open_lines s < open_lines s0)%nat).

Lemma since_refl s : in_step s → since s s.
Proof. intros H. split; [by split|]. left. by destruct s. Qed.
Lemma since_at_most k s0 s : (open_lines s0 ≤ k)%nat → since s0 s → at_most k s.
Proof. intros Hk [[Hs Ho] _]. split; [done|lia]. Qed.
Lemma at_most_since k s0 s : (k < open_lines s0)%nat → at_most k s → since s0 s.
Proof. intros Hk [Hs Ho]. split; [split; [done|lia]|right; lia]. Qed.

Lemma open_set n s : open_lines (set_network n s) = net_open n.
Proof. done. Qed.

(** Invariants of the network that opens no line. *)
Class CalmNetwork (Q : t → Prop) :=
  calm_network n s : Q s → (net_open n ≤ open_lines s)%nat → Q (set_network n s).
#[export] Instance at_most_calm k : CalmNetwork (at_most k).
Proof. intros n s [Hs Ho] Hn. split; [done|]. rewrite open_set. lia. Qed.
#[export] Instance since_calm s0 : CalmNetwork (since s0).
Proof.
  intros n s [[Hs Ho] Hq] Hn. split; [split; [done|rewrite open_set; lia]|]. rewrite open_set.
  destruct Hq as [Hq|Hq]; [left|right; lia]. cbn. by rewrite Hq.
Qed.
End EndingInvariant.
Export (hints) EndingInvariant.

(** ** The network *)
Module NetworkEnds.
Import SenderApp EndingInvariant.

Section calm.
Context (Q : t → Prop) `{!CalmNetwork Q}.

Lemma keeps_net_modify f : (∀ s, (net_open (f s) ≤ open_lines s)%nat) → keeps Q (modify (λ s, set_part (f s) s)).
Proof. intros Hf. apply keeps_modify. intros s HQ. by apply calm_network. Qed.

Lemma keeps_net_on {A} (m : M T_SenderNetwork.t A) :
  (∀ n, (net_open (m n).2 ≤ net_open n)%nat) → keeps Q (on m).
Proof.
  intros Hm s r s' HQ Hr. unfold on in Hr. specialize (Hm (part s)). destruct (m (part s)) as [r0 n].
  injection Hr as <- <-. destruct r0; by apply calm_network.
Qed.

Lemma keeps_net_scheduler {A} (m : M T_MultiLineScheduler.t A) : 
  keeps Q (on (C := T_SenderNetwork.t) (on (H := T_SenderNetwork.has_scheduler) m)).
Proof. apply keeps_net_on. intros n. unfold on. by destruct (m (part n)). Qed.

Lemma keeps_net_lines {A} (m : M T_SenderLineSet.t A) :
  OpenLines.calm m → keeps Q (on (H := T_SenderNetwork.state_has_lines) m).
Proof.
  intros Hm s r s' HQ Hr. unfold on in Hr.
  destruct (m (part (Has := T_SenderNetwork.state_has_lines) s)) as [r0 l] eqn:E. injection Hr as <- <-.
  pose proof (keeps_run _ _ _ _ _ (Hm (open_lines s)) (le_n _) E) as Hl.
  destruct r0; by apply (calm_network (T_SenderNetwork.set_lines l s.(network_)) s).
Qed.
Lemma keeps_app_lines {A} (m : M T_SenderLineSet.t A) : OpenLines.calm m → keeps Q (on (H := has_lines) m).
Proof.
  intros Hm s r s' HQ Hr. unfold on in Hr. destruct (m (part (Has := has_lines) s)) as [r0 l] eqn:E.
  injection Hr as <- <-. pose proof (keeps_run _ _ _ _ _ (Hm (open_lines s)) (le_n _) E) as Hl.
  destruct r0; by apply (calm_network (T_SenderNetwork.set_lines l s.(network_)) s).
Qed.
End calm.

Ltac calm_part := intros; apply keeps_net_modify; [typeclasses eauto|intros; exact (le_n _)].
#[local] Hint Extern 1 (keeps _ (modify (λ s, set_part _ s))) => calm_part : keeps.
#[local] Hint Extern 1 (keeps _ (on (C := T_SenderNetwork.t) (on _))) =>
  apply keeps_net_scheduler; typeclasses eauto : keeps.
#[local] Hint Extern 1 (keeps _ (T_SenderNetwork.can_send _)) =>
  apply keeps_net_lines; [typeclasses eauto|apply OpenLines.calm_can_send] : keeps.
#[local] Hint Extern 1 (keeps _ (T_SenderNetwork.line_send _ _)) =>
  apply keeps_net_lines; [typeclasses eauto|apply OpenLines.calm_send] : keeps.
#[local] Hint Extern 1 (keeps _ (on (T_SenderLineSet.schedule_reconnect _))) =>
  apply keeps_net_lines; [typeclasses eauto|apply OpenLines.calm_reconnect] : keeps.

Lemma ends_of_since {A} k (m : nat * limit → M t A) `{!Fuel (nat * limit)} :
  (∀ s0, (open_lines s0 ≤ k)%nat → ends (since s0) m) → ends (at_most k) m.
Proof.
  intros Hm s [Hs Ho]. apply (ends_weaken (since s)); [by apply Hm|by apply since_refl|].
  intros s'. by apply since_at_most.
Qed.

(** The network is read and put back changed. *)
Lemma ends_from_net {A L} `{Fuel L} Q (f : T_SenderNetwork.t → T_SenderNetwork.t) (m : L → M t A) s :
  CalmNetwork Q → Q s → (net_open (f s.(network_)) ≤ open_lines s)%nat → ends Q m →
  ends_from (λ l, modify (set_part (f s.(network_)));; m l) s (λ _, Q).
Proof. intros HQ Hs Hf Hm. exact (Hm _ (calm_network _ s Hs Hf)). Qed.

(** *** Reports of lost sends *)
#[export] Instance bound_fuel : Fuel (nat * limit).
Proof.
  refine {| enough n b := (n ≤ b.1 ∧ n ≤ b.2.(turns))%nat |}. intros n n' b Hn [H1 H2]. split; lia.
Defined.

Section reports.
Context (lost_callback : nat * limit → list T_LostSend.t → M t unit) (k : nat).
(** The report ends when fewer than [k] lines are open. *)
Context (lost_ends : ∀ j, (j < k)%nat → ∀ l, ends (at_most j) (λ b, lost_callback b l)).

Lemma ends_emit j : (j < k)%nat → ends (at_most j) (λ b, T_SenderNetwork.emit_lost_sends (lost_callback b)).
Proof.
  intros Hj s Hs. pose proof (lost_ends j Hj) as Hl.
  destruct (T_MultiLineScheduler.take_lost_sends (part (C := T_SenderNetwork.t) s).(T_SenderNetwork.scheduler_))
    as [lost scheduler] eqn:E.
  set (s1 := set_network (T_SenderNetwork.set_scheduler scheduler s.(network_)) s).
  assert (at_most j s1) as Hs1 by (apply (calm_network _ s); [done|exact (le_n _)]).
  apply (ends_from_enough 0 _ (λ b _, match lost with [] => mret tt | _ => lost_callback b lost end s1)).
  - intros b _. unfold T_SenderNetwork.emit_lost_sends.
    erewrite (bind_ret (gets _) _ s) by reflexivity. rewrite E. by erewrite (bind_ret (modify _)) by reflexivity.
  - destruct lost; [by exists (Ret tt), s1; split; [exists 0%nat|]|]. exact (Hl _ s1 Hs1).
Qed.
#[local] Hint Extern 1 (ends _ (λ b, T_SenderNetwork.emit_lost_sends _)) => apply ends_emit; assumption : ends.

Lemma ends_unavailable j id had :
  (j < k)%nat → ends (at_most j) (λ b, T_SenderNetwork.handle_unavailable (lost_callback b) id had).
Proof. intros Hj. unfold T_SenderNetwork.handle_unavailable. solve_ends. Qed.
#[local] Hint Extern 1 (ends _ (λ b, T_SenderNetwork.handle_unavailable _ _ _)) => apply ends_unavailable; assumption : ends.

(** A line that had no connection has lost nothing. *)
Lemma ends_not_connected Q `{!CalmNetwork Q} id :
  ends Q (λ b, T_SenderNetwork.handle_unavailable (lost_callback b) id false).
Proof. unfold T_SenderNetwork.handle_unavailable. cbv iota. solve_ends. Qed.

(** A line is given up: either it had a connection, and one line less is open
    when its lost sends are reported, or there is nothing to report. *)
Lemma ends_mark_with (close : nat * limit → Z → M t unit) id s0 :
  (∀ j, (j < k)%nat → ends (at_most j) (λ b, close b id)) → (open_lines s0 ≤ k)%nat →
  ends (since s0) (λ b, T_SenderLineSet.mark_unavailable_with (H := T_SenderNetwork.state_has_lines)
    (T_SenderNetwork.handle_unavailable (lost_callback b)) (close b) id).
Proof.
  intros Hclose Hk s Hs. unfold T_SenderLineSet.mark_unavailable_with.
  apply (ends_from_bind _ _ _ (λ r s1, s1 = s ∧ ∀ line, r = Ret line →
    ∃ i, T_SenderLineSet.find_index id s.(network_).(T_SenderNetwork.lines_) = Some (i, line)));
    [|intros line s1 [-> Hf]|by intros e s1 [-> _]].
  { apply ends_from_const. intros r s1 Hr. unfold on, T_SenderLineSet.find in Hr. cbn in Hr.
    destruct (T_SenderLineSet.find_index _ _) as [[i line]|] eqn:E; injection Hr as <- <-;
      (split; [by destruct s as [? ? [] ]|]); [|done]. intros ? [= <-]. by exists i. }
  destruct (Hf line eq_refl) as (i & E). clear Hf. cbv beta. destruct (_ && _); [by apply ends_const; [apply keeps_ret|]|].
  destruct (OpenLines.update_closes _ _ _ _ E) as (l & Hu & Hle & Hlt).
  set (s1 := set_network (T_SenderNetwork.set_lines l s.(network_)) s).
  apply (ends_from_bind _ _ _ (λ r s', s' = s1 ∧ r = Ret tt)); [|intros [] ? [-> _]|by intros e ? [_ ?]].
  { apply ends_from_const. intros r s' Hr. unfold on in Hr. cbn in Hr. rewrite Hu in Hr. by injection Hr as <- <-. }
  assert (since s0 s1) as Hs1 by (by apply (calm_network _ s)).
  destruct (SenderLine.connection line) as [c|] eqn:Ec.
  - assert (open_lines s1 < open_lines s)%nat as Hj by (apply Hlt; by exists c).
    assert (open_lines s1 < open_lines s0)%nat as Hj0 by (destruct Hs as [[_ ?] _]; lia).
    eapply (ends_weaken (at_most (open_lines s1))); [|split; [apply Hs1|done]|intros; by eapply at_most_since].
    assert (open_lines s1 < k)%nat as Hjk by lia. pose proof (Hclose _ Hjk). solve_ends.
  - eapply (ends_weaken (since s0)); [|done|done]. pose proof (ends_not_connected (since s0) id). solve_ends.
Qed.

Lemma ends_close j id : (j < k)%nat →
  ends (at_most j) (λ b, T_SenderLineSet.on_close (H := T_SenderNetwork.state_has_lines)
    (T_SenderNetwork.handle_unavailable (lost_callback b)) id).
Proof.
  intros Hj. apply ends_of_since. intros s0 Hs0. unfold T_SenderLineSet.on_close. solve_ends.
  apply (ends_mark_with (λ _ _, throw "closed twice")); [intros; solve_ends|lia].
Qed.

(** The turns that [flush_controls] takes are enough: as many messages as wait. *)
Lemma flush_one_takes lc s id s1 :
  T_SenderNetwork.flush_one_control lc s = (Ret (Some id), s1) →
  length s.(network_).(T_SenderNetwork.control_queue_) = S (length s1.(network_).(T_SenderNetwork.control_queue_)).
Proof.
  assert (∀ A (m : M T_SenderLineSet.t A) q, keeps (λ s, s.(network_).(T_SenderNetwork.control_queue_) = q)
    (on (H := T_SenderNetwork.state_has_lines) m)) as Hq by (by intros; apply keeps_on).
  unfold T_SenderNetwork.flush_one_control. intros Hr. erewrite (bind_ret (gets _) _ s) in Hr by reflexivity.
  destruct (T_SenderNetwork.control_queue_ (part s)) as [|control queue] eqn:E; [done|]. cbn in E. rewrite E.
  destruct (T_MultiLineScheduler.choose_control_line _) as [line_id|]; [|done].
  apply bind_cases in Hr as [(ready & s2 & H2 & Hr)|(e & _ & ?)]; [|done].
  apply (keeps_run _ _ _ _ _ (Hq _ _ _) E) in H2. destruct (negb ready).
  - by apply bind_cases in Hr as [([] & s3 & _ & Hr)|(e & _ & ?)].
  - apply bind_cases in Hr as [([] & s3 & H3 & Hr)|(e & _ & ?)]; [|done].
    apply (keeps_run _ _ _ _ _ (Hq _ _ _) H2) in H3. erewrite (bind_ret (modify _)) in Hr by reflexivity.
    injection Hr as _ <-. cbn. by rewrite H3.
Qed.
Lemma flush_turns_enough lc when_out when_out' fuel fuel' s :
  (length s.(network_).(T_SenderNetwork.control_queue_) < fuel)%nat →
  (length s.(network_).(T_SenderNetwork.control_queue_) < fuel')%nat →
  T_SenderNetwork.flush_loop lc when_out fuel s = T_SenderNetwork.flush_loop lc when_out' fuel' s.
Proof.
  revert fuel' s. induction fuel as [|fuel IH]; intros [|fuel'] s Hf Hf'; [lia..|]. cbn [T_SenderNetwork.flush_loop].
  destruct (T_SenderNetwork.flush_one_control lc s) as [[[id|]|e] s1] eqn:E.
  - rewrite !(bind_ret _ _ _ _ _ E). apply flush_one_takes in E. apply IH; lia.
  - by rewrite !(bind_ret _ _ _ _ _ E).
  - by rewrite !(bind_throw _ _ _ _ _ E).
Qed.

(** *** The operations of the network *)
Section since.
Context (s0 : t) (s0_open : (open_lines s0 ≤ k)%nat).
Abbreviation Q := (since s0).

Lemma ends_mark id : ends Q (λ b, T_SenderNetwork.mark_unavailable (lost_callback b) id).
Proof. apply (ends_mark_with (λ b, T_SenderLineSet.on_close _)); [intros; by apply ends_close|done]. Qed.
#[local] Hint Resolve ends_mark : ends.

Lemma ends_flush_one : ends Q (λ b, T_SenderNetwork.flush_one_control (lost_callback b)).
Proof. unfold T_SenderNetwork.flush_one_control. solve_ends. Qed.
#[local] Hint Resolve ends_flush_one : ends.
Lemma ends_flush_controls : ends Q (λ b, T_SenderNetwork.flush_controls (lost_callback b)).
Proof.
  unfold T_SenderNetwork.flush_controls. apply ends_gets. intros s _.
  induction (S (length _)) as [|fuel IH]; cbn [T_SenderNetwork.flush_loop]; solve_ends.
Qed.
#[local] Hint Resolve ends_flush_controls : ends.

Lemma ends_send m r : ends Q (λ b, net_send (lost_callback b) m r).
Proof.
  unfold net_send, T_SenderNetwork.send. apply ends_bind; [solve_ends|intros _]. intros s Hs.
  apply ends_from_gets. cbv beta.
  destruct (T_MultiLineScheduler.try_acquire _ _) as [[grant|] scheduler];
    (apply (ends_from_net Q (T_SenderNetwork.set_scheduler scheduler)); [apply _|done|exact (le_n _)|]); solve_ends.
Qed.
Lemma ends_send_control m label : ends Q (λ b, T_SenderNetwork.send_control (lost_callback b) m label).
Proof. unfold T_SenderNetwork.send_control. solve_ends. Qed.
Lemma ends_refill ticks : ends Q (λ b, T_SenderNetwork.refill_ticks (lost_callback b) ticks).
Proof.
  unfold T_SenderNetwork.refill_ticks. solve_ends.
  induction (T_SenderNetwork.snapshots _); cbn [T_SenderNetwork.drop_stale]; solve_ends.
Qed.
End since.
End reports.
End NetworkEnds.
Export (hints) NetworkEnds.

(** ** The handlers *)
Module HandlersEnd.
Import SenderApp EndingInvariant NetworkEnds.

(** Nothing more is needed of the state. *)
Ltac at_once :=
  match goal with
  | |- ends_from ?m ?s (λ _, ?I) =>
      let H := fresh in assert (ends I m) as H; [solve_ends|apply H; assumption]
  end.
Ltac same := intros; match goal with H : at_most _ _ |- _ => exact H end.

(** *** What no report is made in *)
Section keeps.
Context (k : nat).
Abbreviation I := (at_most k).

#[local] Hint Extern 1 (keeps _ (modify _)) => apply keeps_modify; same : keeps.
#[local] Hint Extern 1 (keeps _ (put _)) => apply keeps_put; same : keeps.

Lemma keeps_buffered_op {A} (f : T_SenderSendBuffer.t → A * T_SenderSendBuffer.t) : keeps I (on_buffer f).
Proof. intros s r s' HI Hr. unfold on_buffer in Hr. destruct (f _). by injection Hr as <- <-. Qed.
Lemma keeps_fs {A} (m : M fsys A) : keeps I (on m).
Proof. by apply keeps_on. Qed.
Lemma keeps_read_stream i : keeps I (stream_at i).
Proof. intros s r s' HI Hr. unfold stream_at in Hr. by destruct (_ !! _); injection Hr as <- <-. Qed.
Lemma keeps_read_task i j : keeps I (task_at i j).
Proof. intros s r s' HI Hr. unfold task_at in Hr. by destruct (_ ≫= _); injection Hr as <- <-. Qed.

Lemma keeps_stream_change i f : (∀ st, stream_steady st → stream_steady (f st)) → keeps I (update_stream i f).
Proof.
  intros Hf. apply keeps_modify. intros s [Hs Ho]. split; [|done]. unfold in_step. cbn.
  apply Forall_alter; [exact Hs|]. intros st _. apply Hf.
Qed.
Lemma keeps_task_change i j f : (∀ t, task_steady t → task_steady (f t)) → keeps I (update_task i j f).
Proof.
  intros Hf. apply keeps_stream_change. intros st Hst. unfold stream_steady. cbn.
  apply Forall_alter; [exact Hst|]. intros t _. apply Hf.
Qed.
Lemma keeps_append_change i j f : keeps I (update_append i j f).
Proof. by apply keeps_task_change. Qed.
Lemma keeps_resend_change i j f : (∀ r, Sendable.steady r → Sendable.steady (f r)) → keeps I (update_resend i j f).
Proof. intros Hf. apply keeps_task_change. intros t. apply Hf. Qed.
Lemma keeps_set_complete i : keeps I (set_complete i).
Proof. by apply keeps_stream_change. Qed.

#[local] Hint Resolve keeps_buffered_op keeps_fs keeps_read_stream keeps_read_task keeps_append_change keeps_set_complete : keeps.
#[local] Hint Extern 1 (keeps _ (update_stream _ _)) => apply keeps_stream_change; done : keeps.
#[local] Hint Extern 1 (keeps _ (update_task _ _ _)) => apply keeps_task_change; done : keeps.

Lemma keeps_loop_call d w : keeps I (call_later d w).
Proof. apply keeps_modify. same. Qed.
Lemma keeps_failed : keeps I fail_and_stop.
Proof. intros s r s' HI [= <- <-]. exact HI. Qed.
Lemma keeps_net_stop : keeps I stop_network.
Proof.
  apply keeps_modify. intros s HI. apply (calm_network _ s HI). unfold open_lines, net_open, OpenLines.online. cbn.
  apply Nat.eq_le_incl. induction (T_SenderLineSet.lines_ _) as [|l ls IH]; [done|].
  rewrite fmap_cons, !filter_cons. cbn [SenderLine.connection SenderLine.set_reconnect].
  case_decide; cbn [length]; auto.
Qed.
#[local] Hint Resolve keeps_loop_call keeps_failed keeps_net_stop : keeps.
Lemma keeps_final_stop : keeps I final_fail.
Proof. unfold final_fail, stop_loop. solve_keeps. Qed.
Lemma keeps_rescan_request reason : keeps I (request_rescan reason).
Proof. unfold request_rescan. solve_keeps. Qed.
Lemma keeps_sample sample : keeps I (observe_ack_sample sample).
Proof. unfold observe_ack_sample. solve_keeps. Qed.
#[local] Hint Resolve keeps_final_stop keeps_rescan_request keeps_sample : keeps.
Lemma keeps_samples samples : keeps I (observe_ack_samples samples).
Proof. induction samples; cbn; solve_keeps. Qed.
#[local] Hint Resolve keeps_samples : keeps.

Lemma keeps_done_check : keeps I check_all_done.
Proof.
  unfold check_all_done, stop_loop. solve_keeps. apply keeps_modify. intros s' [Hs Ho]. split; [|exact Ho].
  unfold in_step. cbn. rewrite Forall_fmap. exact Hs.
Qed.
Lemma keeps_task_mark r id : keeps I (mark_task_retransmitted r id).
Proof.
  unfold mark_task_retransmitted. solve_keeps. apply keeps_resend_change. intros. by apply Sendable.steady_sent.
Qed.
(** What is read is steady. *)
Lemma keeps_with_stream {A} i (m : T_StreamSendState.t → M t A) :
  (∀ stream, stream_steady stream → keeps I (m stream)) → keeps I (stream_at i ≫= m).
Proof.
  intros Hm. apply (triple_bind _ _ _ (λ stream s, I s ∧ stream_steady stream)).
  - intros s r s' [HI Ho] Hr. unfold stream_at in Hr. destruct (streams_ s !! i) as [st|] eqn:Es; injection Hr as <- <-; [|done].
    split; [done|]. by eapply Forall_lookup_1 in Es; [|exact HI].
  - intros stream s r s' [HI Ht]. by apply Hm.
Qed.
Lemma keeps_with_task {A} i j (m : T_FileSendTask.t → M t A) :
  (∀ task, task_steady task → keeps I (m task)) → keeps I (task_at i j ≫= m).
Proof.
  intros Hm. apply (triple_bind _ _ _ (λ task s, I s ∧ task_steady task)).
  - intros s r s' [HI Ho] Hr. unfold task_at in Hr. destruct (streams_ s !! i) as [st|] eqn:Es; cbn in Hr;
      [|by injection Hr as <- <-]. destruct (_ !! j) as [task|] eqn:Et; injection Hr as <- <-; [|done].
    split; [done|]. eapply Forall_lookup_1 in Es; [|exact HI]. by eapply Forall_lookup_1 in Et.
  - intros task s r s' [HI Ht]. by apply Hm.
Qed.

Lemma keeps_acked i j sid chunks : keeps I (ack_chunks i j sid chunks).
Proof.
  induction chunks as [|received chunks IH]; cbn [ack_chunks]; [apply keeps_ret|].
  apply keeps_with_task. intros task Ht. apply keeps_bind; [|auto]. destruct (_ || _); [apply keeps_ret|].
  pose proof (Sendable.steady_acked received.(T_ReceivedChunk.chunk_index) _ Ht) as Hk.
  destruct (acknowledge_chunk _ _) as [known resend]. apply keeps_bind; [by apply keeps_task_change|].
  intros _. unfold observe_erased. solve_keeps.
Qed.
Lemma keeps_lose lost : keeps I (lose lost).
Proof.
  unfold lose. apply keeps_get. intros s _. destruct (stream_for_id _ _) as [i|]; [|apply keeps_ret].
  apply keeps_with_stream. intros stream _. destruct (T_StreamSendState.complete _); [apply keeps_ret|].
  destruct (active_index _) as [j|]; [|apply keeps_ret]. apply keeps_with_task. intros task Ht.
  pose proof (Sendable.steady_lost lost.(T_LostSend.chunk_index) _ Ht) as Hk.
  destruct (mark_chunk_lost _ _) as [marked resend]. solve_keeps; by apply keeps_task_change.
Qed.
Lemma keeps_lose_all changed lost_sends : keeps I (lose_all changed lost_sends).
Proof.
  revert changed. induction lost_sends as [|lost lost_sends IH]; intros changed; cbn [lose_all]; [apply keeps_ret|].
  apply keeps_bind; [apply keeps_lose|auto].
Qed.
Lemma plan_steady m2 : keeps stream_steady (apply_manifest2_to_stream m2).
Proof.
  assert (∀ current applied complete pending, keeps stream_steady
    (modify (T_StreamSendState.set_progress current applied complete pending))) as Hp by (intros; by apply keeps_modify).
  assert (keeps stream_steady (modify (update_active_task (T_FileSendTask.set_chunk_mode false)))) as Hm.
  { apply keeps_modify. intros st Hst. by apply Forall_alter. }
  unfold apply_manifest2_to_stream. solve_keeps.
Qed.
Lemma keeps_hints i j seq file_id ranges :
  keeps I (update_resend i j (λ r, (apply_missing_hints seq file_id ranges r).2)).
Proof. apply keeps_resend_change. intros. by apply Sendable.steady_hints. Qed.
Lemma keeps_net_heartbeat line_id hb : keeps I (on (T_SenderNetwork.on_heartbeat line_id hb)).
Proof. apply keeps_net_scheduler. apply _. Qed.
Lemma keeps_erase `{!MapIteration T_SendBufferKey.t T_BufferedSend.t} hb : keeps I (erase_completed_buffered hb).
Proof. unfold erase_completed_buffered. solve_keeps. Qed.
End keeps.

#[local] Hint Resolve keeps_buffered_op keeps_fs keeps_read_stream keeps_read_task keeps_append_change keeps_set_complete
  keeps_loop_call keeps_failed keeps_net_stop keeps_final_stop keeps_rescan_request keeps_sample keeps_samples keeps_net_heartbeat
  keeps_done_check keeps_task_mark keeps_acked keeps_lose_all keeps_hints keeps_erase : keeps.
#[local] Hint Extern 1 (keeps _ (modify _)) => apply keeps_modify; same : keeps.
#[local] Hint Extern 1 (keeps _ (put _)) => apply keeps_put; same : keeps.
#[local] Hint Extern 1 (keeps _ (update_stream _ _)) => apply keeps_stream_change; done : keeps.
#[local] Hint Extern 1 (keeps _ (update_task _ _ _)) => apply keeps_task_change; done : keeps.
#[local] Hint Extern 1 (keeps _ (on (C := T_SenderNetwork.t) (on _))) =>
  apply keeps_net_scheduler; typeclasses eauto : keeps.

Section handlers.
Context {CRC : Crc32c} (regex_extended : string → exc (string → bool)).
Context `{!MapIteration T_SendBufferKey.t T_BufferedSend.t}.
Context (lost_callback : nat * limit → list T_LostSend.t → M t unit).

(** Reports end when fewer than [k] lines are open. *)
Definition below (k : nat) : Prop := ∀ j, (j < k)%nat → ∀ l, ends (at_most j) (λ b, lost_callback b l).
Lemma below_mono j k : (j ≤ k)%nat → below k → below j.
Proof. intros Hj Hk i Hi. apply Hk. lia. Qed.

Section sends.
Context (k : nat) (Hk : below k).
Abbreviation I := (at_most k).

Lemma ends_net_send m r : ends I (λ b, net_send (lost_callback b) m r).
Proof. apply ends_of_since. intros s0 Hs0. by apply (ends_send _ k). Qed.
Lemma ends_control m label : ends I (λ b, T_SenderNetwork.send_control (lost_callback b) m label).
Proof. apply ends_of_since. intros s0 Hs0. by apply (ends_send_control _ k). Qed.
Lemma ends_line_lost id : ends I (λ b, T_SenderNetwork.mark_unavailable (lost_callback b) id).
Proof. apply ends_of_since. intros s0 Hs0. by apply (ends_mark _ k). Qed.
Lemma ends_ticks ticks : ends I (λ b, T_SenderNetwork.refill_ticks (lost_callback b) ticks).
Proof. apply ends_of_since. intros s0 Hs0. by apply (ends_refill _ k). Qed.
#[local] Hint Resolve ends_net_send ends_control ends_line_lost ends_ticks : ends.

Lemma ends_buffered m r : ends I (λ b, send_buffered (lost_callback b) m r).
Proof. unfold send_buffered. solve_ends. Qed.
Lemma ends_manifest1 : ends I (λ b, send_manifest1 (lost_callback b)).
Proof. unfold send_manifest1. solve_ends. Qed.
#[local] Hint Resolve ends_buffered ends_manifest1 : ends.

Lemma ends_recover : ends I (λ b, recover_with_manifest1 (lost_callback b)).
Proof.
  unfold recover_with_manifest1. solve_ends. apply ends_const, keeps_put.
  match goal with H : I ?s |- _ => destruct H as [Hs Ho] end. split; [|exact Ho]. unfold in_step. cbn. rewrite Forall_fmap.
  eapply Forall_impl; [exact Hs|]. intros st Hst. unfold stream_steady. cbn. rewrite Forall_fmap.
  eapply Forall_impl; [exact Hst|]. intros task. apply Sendable.steady_reset.
Qed.
#[local] Hint Resolve ends_recover : ends.

Lemma ends_enqueue : ends I (λ b, enqueue_rto_retransmits (lost_callback b)).
Proof.
  unfold enqueue_rto_retransmits. solve_ends.
  induction (T_SenderSendBuffer.expired_keys _ _ _ _); cbn [enqueue_expired]; solve_ends.
Qed.
Lemma ends_file_begin i j : ends I (λ b, send_file_begin (lost_callback b) i j).
Proof. unfold send_file_begin. solve_ends. Qed.
Lemma ends_append i j : ends I (λ b, send_append_if_possible regex_extended (lost_callback b) i j).
Proof. unfold send_append_if_possible. solve_ends. Qed.
Lemma ends_commit i j : ends I (λ b, send_commit_if_possible (lost_callback b) i j).
Proof. unfold send_commit_if_possible. solve_ends. Qed.
Lemma ends_drop id : ends I (λ b, maybe_drop_line_once (lost_callback b) id).
Proof. unfold maybe_drop_line_once. solve_ends. Qed.
End sends.

(** A line was given up. *)
Lemma ends_below {A} k (m : nat * limit → M t A) s :
  (∀ j, (j < k)%nat → ends (at_most j) m) → at_most k s → (open_lines s < k)%nat → ends_from m s (λ _, at_most k).
Proof.
  intros Hm [Hi _] Hlt. eapply (ends_weaken (at_most (open_lines s))); [by apply Hm|by split|].
  intros s' [Hi' Ho]. split; [done|lia].
Qed.

(** *** The retransmissions *)

(** Every turn that gives up no line takes a message off the queue. *)
Definition queued (s : t) : nat := length s.(send_buffer_).(T_SenderSendBuffer.retransmit_queue_).

Lemma queued_erase s :
  queued (set_send_buffer (T_SenderSendBuffer.erase_retransmit 0 s.(send_buffer_)) s) = pred (queued s).
Proof.
  unfold queued. change (send_buffer_ (set_send_buffer ?b s)) with b. unfold T_SenderSendBuffer.erase_retransmit, zlen.
  destruct (T_SenderSendBuffer.retransmit_queue_ (send_buffer_ s)) as [|key queue] eqn:E; [|done].
  change (0 >=? _) with true. cbv iota. by rewrite E.
Qed.

Lemma buffer_stays b r id : keeps (λ s, s.(send_buffer_) = b) (mark_task_retransmitted r id).
Proof.
  assert (∀ i j f, keeps (λ s, s.(send_buffer_) = b) (update_task i j f)) as Ht by (by intros; apply keeps_modify).
  assert (∀ i, keeps (λ s, s.(send_buffer_) = b) (stream_at i)) as Hs.
  { intros i s r0 s' HI Hr. unfold stream_at in Hr. by destruct (_ !! _); injection Hr as <- <-. }
  assert (∀ i j, keeps (λ s, s.(send_buffer_) = b) (task_at i j)) as Ha.
  { intros i j s r0 s' HI Hr. unfold task_at in Hr. by destruct (_ ≫= _); injection Hr as <- <-. }
  unfold mark_task_retransmitted, update_append, update_resend. solve_keeps.
Qed.

(** A retransmission that was sent comes off the queue. *)
Lemma took_off k s key bytes tick request id (m : nat * limit → M t bool) :
  at_most k s →
  (∀ s', at_most k s' → queued s' = pred (queued s) → ends_from m s' (λ _, at_most k)) →
  ends_from (λ l, on_buffer (T_SenderSendBuffer.mark_retransmitted key bytes tick);;
    mark_task_retransmitted request id;;
    modify (λ s, set_send_buffer (T_SenderSendBuffer.erase_retransmit 0 s.(send_buffer_)) s);; m l) s (λ _, at_most k).
Proof.
  intros Hs Hm. apply (ends_from_bind _ _ _ (λ _ s', at_most k s' ∧ queued s' = queued s)); [|intros _ s1 [Hs1 Hq1]|by intros ? ? []].
  { apply ends_from_const. intros r s' Hr. unfold on_buffer, T_SenderSendBuffer.mark_retransmitted in Hr.
    by destruct (T_SenderSendBuffer.find _ _); injection Hr as <- <-. }
  apply (ends_from_bind _ _ _ (λ _ s', at_most k s' ∧ queued s' = queued s)); [|intros _ s2 [Hs2 Hq2]|by intros ? ? []].
  { apply ends_from_const. intros r s' Hr. split; [exact (keeps_run _ _ _ _ _ (keeps_task_mark k request id) Hs1 Hr)|].
    unfold queued in *. by rewrite (keeps_run _ _ _ _ _ (buffer_stays _ request id) eq_refl Hr). }
  apply ends_from_modify, Hm; [exact Hs2|]. by rewrite queued_erase, Hq2.
Qed.

Lemma ends_flush_loop k : below k → ∀ c,
  ends (at_most k) (λ b, flush_loop (lost_callback b) b.2 (b.2.(turns) - c)).
Proof.
  induction k as [k IHk] using lt_wf_ind. intros Hk c s Hs.
  assert (∃ q, (queued s < q)%nat) as [q Hq] by (exists (S (queued s)); lia).
  revert c s Hs Hq. induction q as [|q IHq]; intros c s Hs Hq; [lia|].
  eapply (ends_from_unfold (S c)).
  { intros b [_ Hb]. replace (b.2.(turns) - c)%nat with (S (b.2.(turns) - S c)) by lia. cbn [flush_loop]. reflexivity. }
  pose proof (ends_recover k Hk). apply ends_from_get.
  destruct (T_SenderSendBuffer.retransmit_queue_ (send_buffer_ s)) as [|key keys] eqn:Eq; [at_once|].
  assert (0 < queued s)%nat as Hpos by (unfold queued; rewrite Eq; cbn; lia).
  destruct (T_SenderSendBuffer.find _ _) as [buffered|].
  2: { apply ends_from_modify, IHq; [exact Hs|]. rewrite queued_erase. lia. }
  destruct (_ >=? _); [at_once|].
  eapply ends_from_bind; [exact (ends_send _ k Hk s (proj2 Hs) _ _ s (since_refl s (proj1 Hs)))| |].
  2: { intros e s1 H1. exact (since_at_most k s s1 (proj2 Hs) H1). }
  intros result s1 H1. pose proof (since_at_most k s s1 (proj2 Hs) H1) as Hs1. cbv beta.
  destruct (negb _); [at_once|]. destruct H1 as [Ha [Heq|Hlt]].
  - apply ends_from_get, took_off; [done|]. intros s2 Hs2 Hq2. apply IHq; [done|].
    rewrite Hq2. assert (queued s1 = queued s) as -> by (by rewrite Heq). lia.
  - apply (ends_below k); [|done|destruct Hs; lia]. intros j Hj.
    pose proof (IHk j Hj (below_mono j k ltac:(lia) Hk) (S c)). solve_ends.
Qed.

Lemma ends_flush k : below k → ends (at_most k) (λ b, flush_retransmits (lost_callback b) b.2).
Proof.
  intros Hk. unfold flush_retransmits. solve_ends. intros s' Hs'.
  apply (ends_from_unfold 0 _ (λ b, flush_loop (lost_callback b) b.2 (b.2.(turns) - 0))); [intros; by rewrite Nat.sub_0_r|].
  by apply ends_flush_loop.
Qed.
(** *** The chunks *)

(** What the choice of the next chunk depends on is as before, or a line has
    been given up. *)
Definition same_work (s s' : t) : Prop :=
  s'.(streams_) = s.(streams_) ∧ s'.(current_tick_) = s.(current_tick_) ∧ s'.(rto_) = s.(rto_) ∧
  s'.(options_) = s.(options_).
Definition worked (s s' : t) : Prop :=
  at_most (open_lines s) s' ∧ (same_work s s' ∨ (open_lines s' < open_lines s)%nat).

Lemma since_worked s s' : since s s' → worked s s'.
Proof. intros [Ha Hq]. split; [done|]. destruct Hq as [->|Hq]; [by left|by right]. Qed.

Lemma ends_buffered_worked k m r s :
  below k → at_most k s → ends_from (λ b, send_buffered (lost_callback b) m r) s (λ _, worked s).
Proof.
  intros Hk [Hi Ho]. unfold send_buffered.
  eapply ends_from_bind; [exact (ends_send _ k Hk s Ho _ _ s (since_refl s Hi))| |intros e s1; apply since_worked].
  intros result s1 H1%since_worked. cbv beta. destruct (negb _); [by apply ends_from_const; intros r' s' [= <- <-]|].
  apply ends_from_modify, ends_from_const. by intros r' s' [= <- <-].
Qed.

Lemma ends_drop_worked k id s :
  below k → at_most k s → ends_from (λ b, maybe_drop_line_once (lost_callback b) id) s (λ _, worked s).
Proof.
  intros Hk Hs. unfold maybe_drop_line_once. apply ends_from_get.
  destruct (_ || _); [apply ends_from_const; intros r' s' [= <- <-]; by apply since_worked, since_refl, Hs|].
  apply ends_from_modify. set (s0 := set_dropped true s).
  eapply ends_from_weaken; [exact (ends_mark _ k Hk s0 (proj2 Hs) id s0 (since_refl s0 (proj1 Hs)))|].
  intros r' s'. apply (since_worked s0).
Qed.

(** The chunks of a task that wait to be sent. *)
Definition task_of (i j : nat) (s : t) : option T_FileSendTask.t :=
  s.(streams_) !! i ≫= λ stream, stream.(T_StreamSendState.tasks) !! j.
Definition waiting_of (i j : nat) (s : t) : nat :=
  match task_of i j s with
  | Some task => Sendable.waiting s.(current_tick_) (current_rto_ticks s) task.(T_FileSendTask.chunk_resend)
  | None => 0
  end.

Lemma waiting_same i j s s' : same_work s s' → waiting_of i j s' = waiting_of i j s.
Proof. intros (Hs & Ht & Hr & Ho). unfold waiting_of, task_of, current_rto_ticks. by rewrite Hs, Ht, Hr, Ho. Qed.

Lemma task_steady_of i j s task : in_step s → task_of i j s = Some task → task_steady task.
Proof.
  intros Hi Ht. unfold task_of in Ht. destruct (streams_ s !! i) as [st|] eqn:Es; [|done]. cbn in Ht.
  eapply Forall_lookup_1 in Es; [|exact Hi]. by eapply Forall_lookup_1 in Ht.
Qed.

(** The state after a chunk was sent. *)
Definition chunk_sent (i j : nat) (chunk_index line_id : Z) (s : t) : t :=
  set_streams (alter (λ stream, T_StreamSendState.set_tasks (alter (λ k, set_resend
    (mark_chunk_sent chunk_index line_id s.(current_tick_) k.(T_FileSendTask.chunk_resend)).2 k) j
    stream.(T_StreamSendState.tasks)) stream) i s.(streams_)) s.

Lemma waiting_sent i j chunk_index line_id s task :
  in_step s → task_of i j s = Some task →
  next_unsent_chunk_index task s.(current_tick_) (current_rto_ticks s) = Some chunk_index →
  (waiting_of i j (chunk_sent i j chunk_index line_id s) < waiting_of i j s)%nat.
Proof.
  intros Hi Ht Hn. pose proof (task_steady_of _ _ _ _ Hi Ht) as Hok. unfold waiting_of. rewrite Ht.
  assert (task_of i j (chunk_sent i j chunk_index line_id s) =
    Some (set_resend (mark_chunk_sent chunk_index line_id s.(current_tick_) task.(T_FileSendTask.chunk_resend)).2 task)) as ->.
  { unfold task_of, chunk_sent in *. cbn. rewrite list_lookup_alter_eq.
    destruct (streams_ s !! i) as [st|]; [|done]. cbn in *. by rewrite list_lookup_alter_eq, Ht. }
  by apply Sendable.sent_waits_less.
Qed.
Lemma keeps_sent_mark k i j chunk_index line_id tick :
  keeps (at_most k) (update_resend i j (λ r, (mark_chunk_sent chunk_index line_id tick r).2)).
Proof. apply keeps_resend_change. intros. by apply Sendable.steady_sent. Qed.
#[local] Hint Resolve keeps_sent_mark : keeps.

(** The end of a turn: with no line given up, what follows has less to send. *)
Lemma ends_after_chunk {A} k i j chunk_index line_id q (m : nat * limit → M t A) s :
  below k → at_most k s → (waiting_of i j (chunk_sent i j chunk_index line_id s) < q)%nat →
  (∀ j, (j < k)%nat → ends (at_most j) m) →
  (∀ s', at_most k s' → (waiting_of i j s' < q)%nat → ends_from m s' (λ _, at_most k)) →
  ends_from (λ b, update_resend i j (λ r, (mark_chunk_sent chunk_index line_id s.(current_tick_) r).2);;
    maybe_drop_line_once (lost_callback b) line_id;; m b) s (λ _, at_most k).
Proof.
  intros Hk Hs Hq Hless Hm. unfold update_resend, update_task, update_stream. apply ends_from_modify.
  match goal with |- ends_from _ ?s' _ => change s' with (chunk_sent i j chunk_index line_id s) end.
  set (s1 := chunk_sent _ _ _ _ _) in *.
  assert (at_most k s1) as Hs1 by exact (keeps_run _ _ _ _ _ (keeps_sent_mark k i j _ _ _) Hs eq_refl).
  eapply ends_from_bind; [apply (ends_drop_worked k _ s1 Hk Hs1)| |].
  - intros _ s2 [[Hi2 Ho2] H2]. assert (at_most k s2) as Hs2 by (split; [done|etrans; [exact Ho2|apply Hs1]]).
    destruct H2 as [Hsame|Hlt]; [apply Hm; [done|by rewrite (waiting_same i j s1 s2 Hsame)]|].
    apply (ends_below k); [done|done|destruct Hs1; lia].
  - intros e s2 [[Hi2 Ho2] _]. split; [done|etrans; [exact Ho2|apply Hs1]].
Qed.

(** Every turn that gives up no line leaves a chunk less to send. *)
Lemma ends_chunk_loop k : below k → ∀ i j c,
  ends (at_most k) (λ b, chunk_loop regex_extended (lost_callback b) b.2 (b.2.(turns) - c) i j).
Proof.
  induction k as [k IHk] using lt_wf_ind. intros Hk i j c s Hs.
  assert (∃ q, (waiting_of i j s < q)%nat) as [q Hq] by (exists (S (waiting_of i j s)); lia).
  revert c s Hs Hq. induction q as [|q IHq]; intros c s Hs Hq; [lia|].
  eapply (ends_from_unfold (S c)).
  { intros b [_ Hb]. replace (b.2.(turns) - c)%nat with (S (b.2.(turns) - S c)) by lia. cbn [chunk_loop]. reflexivity. }
  pose proof (ends_recover k Hk) as Hrec.
  assert (∀ c j', (j' < k)%nat → ends (at_most j')
    (λ b, chunk_loop regex_extended (lost_callback b) b.2 (b.2.(turns) - c) i j)) as Hfewer.
  { intros c' j' Hj. apply IHk; [done|]. by apply (below_mono j' k); [lia|]. }
  apply (ends_from_bind _ _ _ (λ r s1, s1 = s ∧ ∀ task, r = Ret task → task_of i j s = Some task));
    [|intros task ? [-> Ht]|by intros e ? [-> _]].
  { apply ends_from_const. intros r s1 Hr. unfold task_at in Hr. unfold task_of.
    destruct (streams_ s !! i ≫= _) as [task|]; injection Hr as <- <-; [|done]. split; [done|]. by intros ? [= ->]. }
  specialize (Ht task eq_refl). apply ends_from_get.
  destruct (next_unsent_chunk_index _ _ _) as [chunk_index|] eqn:En; [|at_once].
  destruct (_ >=? _); [at_once|].
  apply (ends_from_bind _ _ _ (λ _ s1, ∃ w, s1 = set_world w s)); [|intros payload ? [w ->]|intros e ? [w ->]; exact Hs].
  { apply ends_from_const. intros r s1 Hr. unfold on in Hr. destruct (read_chunk_payload _ _ _ _ _) as [r0 w].
    injection Hr as <- <-. by exists w. }
  set (s1 := set_world w s).
  assert (∀ s', worked s1 s' → at_most k s') as Hkeep by (intros s' [[Hi Ho] _]; split; [done|etrans; [exact Ho|apply Hs]]).
  eapply ends_from_bind; [apply (ends_buffered_worked k _ _ s1 Hk Hs)| |intros e s2 H2; by apply Hkeep].
  intros result s2 H2. pose proof (Hkeep s2 H2) as Hs2. cbv beta. destruct (negb _); [at_once|].
  destruct H2 as [_ [Hsame|Hlt]].
  - apply ends_from_get, (ends_after_chunk k i j chunk_index result.(T_NetworkSendResult.line_id) q);
      [done|done| |apply Hfewer|intros; by apply IHq].
    destruct Hsame as (E1 & E2 & E3 & E4). assert (task_of i j s2 = Some task) as Ht2 by (unfold task_of; by rewrite E1).
    assert (waiting_of i j s2 = waiting_of i j s) as Hw by (by apply (waiting_same i j s1)).
    pose proof (waiting_sent i j chunk_index result.(T_NetworkSendResult.line_id) s2 task (proj1 Hs2) Ht2) as Hlt.
    unfold current_rto_ticks in *. rewrite E2, E3, E4 in Hlt. specialize (Hlt En). lia.
  - apply (ends_below k); [|done|destruct Hs; unfold s1, open_lines in *; cbn in *; lia].
    intros j' Hj. pose proof (ends_drop j' (below_mono j' k ltac:(lia) Hk)). pose proof (Hfewer (S c) j' Hj). solve_ends.
Qed.
(** *** The handlers *)
Section handlers_at.
Context (k : nat) (Hk : below k).
Abbreviation I := (at_most k).

#[local] Hint Extern 1 (ends _ (λ b, send_file_begin _ _ _)) => apply ends_file_begin; assumption : ends.
#[local] Hint Extern 1 (ends _ (λ b, send_append_if_possible _ _ _ _)) => apply ends_append; assumption : ends.
#[local] Hint Extern 1 (ends _ (λ b, send_commit_if_possible _ _ _)) => apply ends_commit; assumption : ends.
#[local] Hint Extern 1 (ends _ (λ b, send_manifest1 _)) => apply ends_manifest1; assumption : ends.
#[local] Hint Extern 1 (ends _ (λ b, recover_with_manifest1 _)) => apply ends_recover; assumption : ends.
#[local] Hint Extern 1 (ends _ (λ b, enqueue_rto_retransmits _)) => apply ends_enqueue; assumption : ends.
#[local] Hint Extern 1 (ends _ (λ b, flush_retransmits _ _)) => apply ends_flush; assumption : ends.
#[local] Hint Extern 1 (ends _ (λ b, T_SenderNetwork.refill_ticks _ _)) => apply ends_ticks; assumption : ends.

Lemma ends_chunks i j : ends I (λ b, chunk_loop regex_extended (lost_callback b) b.2 b.2.(turns) i j).
Proof.
  intros s Hs. apply (ends_from_unfold 0 _ (λ b, chunk_loop regex_extended (lost_callback b) b.2 (b.2.(turns) - 0) i j)).
  - intros. by rewrite Nat.sub_0_r.
  - by apply ends_chunk_loop.
Qed.
#[local] Hint Resolve ends_chunks : ends.
Lemma ends_chunk_work i j : ends I (λ b, schedule_chunk_work regex_extended (lost_callback b) b.2 i j).
Proof. unfold schedule_chunk_work. solve_ends. Qed.
#[local] Hint Resolve ends_chunk_work : ends.
Lemma ends_work_streams ixs : ends I (λ b, work_streams regex_extended (lost_callback b) b.2 ixs).
Proof. induction ixs; cbn [work_streams]; solve_ends. Qed.
#[local] Hint Resolve ends_work_streams : ends.
Lemma ends_schedule : ends I (λ b, schedule_work regex_extended (lost_callback b) b.2).
Proof. unfold schedule_work. solve_ends. Qed.
#[local] Hint Resolve ends_schedule : ends.

Lemma ends_append_plan i j d : ends I (λ b, apply_append_plan regex_extended (lost_callback b) i j d).
Proof. unfold apply_append_plan. solve_ends. Qed.
#[local] Hint Resolve ends_append_plan : ends.
Lemma ends_manifest2_stream m2 i : ends I (λ b, apply_manifest2_stream regex_extended (lost_callback b) m2 i).
Proof.
  unfold apply_manifest2_stream. intros s Hs.
  apply (ends_from_bind _ _ _ (λ r s1, at_most k s1 ∧ ∀ st, r = Ret st → stream_steady st));
    [|intros st s1 [Hs1 Hst]|by intros e s1 [? _]].
  { apply ends_from_const. intros r s1 Hr. unfold stream_at in Hr.
    destruct (streams_ s !! i) as [st|] eqn:Es; injection Hr as <- <-; [|done].
    split; [done|]. intros ? [= <-]. by eapply Forall_lookup_1 in Es; [|apply Hs]. }
  specialize (Hst st eq_refl). destruct (apply_manifest2_to_stream m2 st) as [result st'] eqn:E.
  pose proof (keeps_run _ _ _ _ _ (plan_steady m2) Hst E) as Hst'.
  assert (keeps I (update_stream i (λ _, st'))) by (by apply keeps_stream_change).
  destruct result as [[result|]|]; at_once.
Qed.
#[local] Hint Resolve ends_manifest2_stream : ends.
Lemma ends_manifest2 m2 : ends I (λ b, on_manifest2 regex_extended (lost_callback b) b.2 m2).
Proof.
  unfold on_manifest2. apply ends_get. intros s _. apply ends_bind; [|intros; solve_ends].
  induction (List.seq _ _); cbn [apply_streams]; solve_ends.
Qed.
Lemma ends_advance i : ends I (λ b, advance_stream_task regex_extended (lost_callback b) b.2 i).
Proof. unfold advance_stream_task. solve_ends. Qed.
#[local] Hint Resolve ends_manifest2 ends_advance : ends.
Lemma ends_heartbeat line_id hb : ends I (λ b, on_heartbeat regex_extended (lost_callback b) b.2 line_id hb).
Proof. unfold on_heartbeat, on_append_heartbeat, on_chunk_heartbeat, observe_erased. solve_ends.
Qed.
Lemma ends_lost lost_sends : ends I (λ b, handle_lost_sends regex_extended (lost_callback b) b.2 lost_sends).
Proof. unfold handle_lost_sends. solve_ends. Qed.
Lemma ends_connected id : ends I (λ b, on_connected regex_extended (lost_callback b) b.2 id).
Proof. unfold on_connected. solve_ends. Qed.
#[local] Hint Resolve ends_heartbeat : ends.
Lemma ends_message id m : ends I (λ b, on_message regex_extended (lost_callback b) b.2 id m).
Proof. unfold on_message, on_nack. solve_ends. Qed.
Lemma ends_tick : ends I (λ b, tick regex_extended (lost_callback b) b.2).
Proof. unfold tick. solve_ends. Qed.
End handlers_at.
End handlers.

(** ** The reports nest no deeper than lines are open *)
Section application.
Context {CRC : Crc32c} (regex_extended : string → exc (string → bool)).
Context `{!MapIteration T_SendBufferKey.t T_BufferedSend.t}.

Definition reports (b : nat * limit) : list T_LostSend.t → M t unit := lost regex_extended b.1 b.2.

Lemma reports_below k : below reports k.
Proof.
  induction k as [|k IH]; intros j Hj l; [lia|]. intros s Hs.
  destruct (ends_lost regex_extended reports j (below_mono _ j k ltac:(lia) IH) l s Hs) as (r & s' & [n Hn] & HI).
  exists r, s'. split; [|done]. exists (S n). intros [[|d] b] [H1 H2]; [cbn in H1; lia|].
  apply (Hn (d, b)). cbn in *. split; cbn; lia.
Qed.

(** *** The streams of the source *)
Lemma initialized_steady b n task task' : initialize_file_task b n [] task = Ret task' → task_steady task'.
Proof.
  unfold initialize_file_task. destruct (if b then _ else _) as [count|]; [|done]. cbn. intros [= <-].
  apply Sendable.steady_initialize.
Qed.

Lemma simulated_steady options stream : simulated_stream options = Ret stream → stream_steady stream.
Proof.
  unfold simulated_stream. destruct (make_simulated_file_task _ _ _ _ _ _ _) as [task|] eqn:E; [|done].
  cbn. intros [= <-]. constructor; [|constructor]. by apply initialized_steady in E.
Qed.

Abbreviation anywhere := (λ _ : fsys, True).
Lemma keeps_anywhere {A} (m : M fsys A) : keeps anywhere m.
Proof. intros w r w' _ _. by destruct r. Qed.
#[local] Hint Resolve keeps_anywhere : keeps.

Lemma real_task_steady id file reader n : gives anywhere (make_real_file_task id file reader n []) task_steady.
Proof.
  unfold make_real_file_task. apply gives_after; [auto with keeps|]. intros checksum w r w' _ [= <- <-].
  destruct (initialize_file_task _ _ _ _) as [task|] eqn:E; [|done]. split; [done|]. by eapply initialized_steady.
Qed.
Lemma tasks_steady directory n files : gives anywhere (make_tasks directory n files) (Forall task_steady).
Proof.
  induction files as [|file files IH]; cbn [make_tasks]; [by apply gives_ret|].
  eapply gives_bind; [apply real_task_steady|]. intros task Ht. eapply gives_bind; [exact IH|]. intros tasks Hts.
  apply gives_ret. by constructor.
Qed.
Lemma built_steady options configured :
  gives anywhere (build_stream regex_extended options configured) (λ o, ∀ stream, o = Some stream → stream_steady stream).
Proof.
  unfold build_stream. apply gives_after; [auto with keeps|]. intros [[|]|]; [|apply gives_throw..].
  apply gives_after; [auto with keeps|]. intros manifest. destruct (_ && _); [by apply gives_ret|].
  apply gives_after; [auto with keeps|]. intros files. eapply gives_bind; [apply tasks_steady|].
  intros tasks Ht. apply gives_ret. by intros ? [= <-].
Qed.

Lemma keeps_push k stream : stream_steady stream → keeps (at_most k) (push_stream stream).
Proof.
  intros Hst. apply keeps_modify. intros s [Hs Ho]. split; [|done]. apply Forall_app. by split; [|constructor].
Qed.
Lemma keeps_build_all k roots : keeps (at_most k) (build_streams regex_extended roots).
Proof.
  induction roots as [|configured roots IH]; cbn [build_streams]; [apply keeps_ret|]. apply keeps_get. intros s _.
  apply (keeps_of_gives _ _ (λ _, True)), (gives_bind _ _ _ (λ o, ∀ stream, o = Some stream → stream_steady stream)).
  - intros s1 r s' Hs Hr. unfold on in Hr.
    destruct (build_stream _ _ _ (part s1)) as [r0 w] eqn:E. injection Hr as <- <-.
    pose proof (built_steady _ _ _ _ _ Logic.I E) as Hg. destruct r0 as [o|]; [|done]. split; [exact Hs|apply Hg].
  - intros o Ho. apply gives_of_keeps. apply keeps_bind; [|auto]. destruct o; [by apply keeps_push, Ho|apply keeps_ret].
Qed.
Lemma keeps_source_streams k : keeps (at_most k) (build_source_streams regex_extended).
Proof.
  unfold build_source_streams. apply keeps_get. intros s _. case_bool_decide.
  - intros s1 r s' Hs Hr. apply bind_cases in Hr as [(stream & s2 & E & Hr)|(e & E & ->)].
    + injection E as E <-. exact (keeps_push k stream (simulated_steady _ _ E) _ _ _ Hs Hr).
    + by injection E as _ <-.
  - pose proof (keeps_build_all k). solve_keeps.
Qed.
(** *** The events *)
Section events.
Context (k : nat).
Abbreviation I := (at_most k).
Abbreviation Hk := (reports_below k).

Lemma ends_protocol_error id : ends I (λ b, T_SenderNetwork.protocol_error (reports b) id).
Proof. unfold T_SenderNetwork.protocol_error. pose proof (ends_line_lost reports k Hk id). solve_ends. Qed.
Lemma ends_hello id hello :
  ends I (λ b, T_SenderNetwork.handle_hello (on_connected regex_extended (reports b) b.2) (reports b) id hello).
Proof.
  intros s Hs. unfold T_SenderNetwork.handle_hello. apply ends_from_gets. cbv zeta.
  set (result := negotiate_hello _ _ _).
  apply (ends_from_net I (λ net, T_SenderNetwork.set_negotiated (<[id := result]> net.(T_SenderNetwork.negotiated_lines_)) net));
    [apply _|done|exact (le_n _)|].
  pose proof (ends_protocol_error id). pose proof (ends_connected regex_extended reports k Hk id).
  assert (ends I (λ b, T_SenderNetwork.flush_controls (reports b))).
  { apply ends_of_since. intros s0 Hs0. by apply (ends_flush_controls _ k Hk). }
  solve_ends.
Qed.
Lemma ends_receives id m : ends I (λ b, handle regex_extended b.1 b.2 (Receives id m)).
Proof.
  change (ends I (λ b, T_SenderNetwork.handle_message (on_message regex_extended (reports b) b.2)
    (on_connected regex_extended (reports b) b.2) (reports b) id m)).
  pose proof (ends_protocol_error id). pose proof (ends_message regex_extended reports k Hk id m).
  pose proof (ends_hello id). unfold T_SenderNetwork.handle_message. solve_ends.
Qed.

Lemma ends_breaks id : ends I (λ b, handle regex_extended b.1 b.2 (Breaks id)).
Proof.
  change (ends I (λ b, T_SenderLineSet.on_error (T_SenderNetwork.handle_unavailable (reports b)) id)).
  unfold T_SenderLineSet.on_error. apply ends_get. intros s _. destruct (negb _); [solve_ends|].
  exact (ends_line_lost reports k Hk id).
Qed.
Lemma ends_closes id : ends I (λ b, handle regex_extended b.1 b.2 (Closes id)).
Proof. intros s Hs. exact (ends_close reports (S k) (reports_below (S k)) k id (Nat.lt_succ_diag_r k) s Hs). Qed.
Lemma ends_connect_fails id : ends I (λ b, handle regex_extended b.1 b.2 (ConnectFails id)).
Proof.
  change (ends I (λ b, T_SenderLineSet.on_connect_failed (T_SenderNetwork.handle_unavailable (reports b)) id)).
  pose proof (ends_not_connected reports I id) as Hu. unfold T_SenderLineSet.on_connect_failed.
  apply ends_bind; [apply ends_const, keeps_app_lines; [apply _|by apply OpenLines.calm_update]|intros _].
  apply ends_bind; [exact Hu|intros _].
  apply ends_const, keeps_app_lines; [apply _|apply OpenLines.calm_reconnect].
Qed.
Lemma ends_timer id : ends I (λ b, handle regex_extended b.1 b.2 (ReconnectTimer id)).
Proof.
  change (ends I (λ _ : nat * limit, on (H := has_lines) (T_SenderLineSet.reconnect_timer id))).
  apply ends_const, keeps_app_lines; [apply _|apply OpenLines.calm_timer].
Qed.
Lemma ends_rescans reason : ends I (λ b, handle regex_extended b.1 b.2 (Rescans reason)).
Proof.
  change (ends I (λ b, rescan_and_send_manifest regex_extended b.1 b.2)).
  assert (keeps I (rebuild_source_streams_for_rescan regex_extended)).
  { unfold rebuild_source_streams_for_rescan. pose proof (keeps_source_streams k). apply keeps_bind; [|auto].
    apply keeps_modify. intros s [_ Ho]. split; [constructor|exact Ho]. }
  pose proof (ends_manifest1 reports k Hk : ends I (λ b, send_manifest1 (lost regex_extended b.1 b.2))).
  unfold rescan_and_send_manifest. solve_ends.
Qed.
Lemma ends_poll changes : ends I (λ b, handle regex_extended b.1 b.2 (WatchPoll changes)).
Proof. change (ends I (λ _ : nat * limit, watch_poll_tick changes)). unfold watch_poll_tick. solve_ends. Qed.
Lemma ends_timeout : ends I (λ b, handle regex_extended b.1 b.2 TimesOut).
Proof. change (ends I (λ _ : nat * limit, timeout)). unfold timeout. solve_ends. Qed.
End events.

(** A line that connects is one more that is open. *)
Lemma ends_connects id c loop : ends in_step (λ b, handle regex_extended b.1 b.2 (Connects id c loop)).
Proof.
  change (ends in_step (λ _ : nat * limit, T_SenderLineSet.on_tcp_connected handle_connected id c loop)). apply ends_const.
  assert (∀ A (m : M T_SenderLineSet.t A), keeps in_step (on (H := has_lines) m)) by (intros; by apply keeps_on).
  assert (keeps in_step (handle_connected id)) by (by apply NetworkFrame.keeps_handle_connected).
  unfold T_SenderLineSet.on_tcp_connected. solve_keeps.
Qed.

Lemma ends_handle e : ends in_step (λ b, handle regex_extended b.1 b.2 e).
Proof.
  assert ((∀ k, ends (at_most k) (λ b, handle regex_extended b.1 b.2 e)) → ends in_step (λ b, handle regex_extended b.1 b.2 e))
    as Hsome.
  { intros He s Hs. apply (ends_weaken (at_most (open_lines s))); [apply He|done|]. by intros s' []. }
  destruct e; first [apply ends_connects|apply Hsome; intros k].
  - apply ends_receives.
  - apply ends_connect_fails.
  - apply ends_breaks.
  - apply ends_closes.
  - apply ends_timer.
  - exact (ends_tick regex_extended reports k (reports_below k)).
  - apply ends_timeout.
  - apply ends_poll.
  - apply ends_rescans.
Qed.

Lemma ends_all events : ends in_step (λ b, handle_all regex_extended b.1 b.2 events).
Proof.
  induction events as [|e events IH]; cbn [handle_all]; [apply ends_const, keeps_ret|].
  pose proof (ends_handle e). solve_ends.
Qed.
(** *** From the construction *)
Lemma create_in_step options world app world' : create regex_extended options world = (Ret app, world') → in_step app.
Proof.
  unfold create. destruct (T_SenderNetwork.create _ _ _ _ _) as [network|]; [|done].
  destruct (build_source_streams regex_extended _) as [[[]|] app'] eqn:E; [|done]. intros [= <- _].
  refine (proj1 (keeps_run _ _ _ _ _ (keeps_source_streams _) _ E)). split; [constructor|exact (le_n _)].
Qed.

Lemma keeps_begin watcher_starts : keeps in_step (start watcher_starts).
Proof.
  assert (keeps in_step (on T_SenderNetwork.start)) by (by apply keeps_on).
  assert (∀ d w, keeps in_step (call_later d w)) by (by intros; apply keeps_modify).
  assert (keeps in_step fail_and_stop) by (by intros s r s' Hs [= <- <-]).
  unfold start, start_watchers. solve_keeps.
Qed.

Lemma ends_run watcher_starts events :
  ends in_step (λ b, start watcher_starts;; run_loop regex_extended b.1 b.2 events).
Proof.
  pose proof (keeps_begin watcher_starts). pose proof (ends_all events). unfold run_loop. solve_ends.
  by apply ends_const, keeps_modify.
Qed.
End application.
End HandlersEnd.

(** C11: every run of the sender comes to an end: for an application that was
    constructed, whatever its lines deliver, there is a number of turns and a
    depth of reports with which each handler of each event returns or throws,
    and more turns, a greater depth or another exception for those that run out
    change neither the result nor the state.  Retransmissions, chunks and
    reports of lost sends that call each other cannot go round for ever. *)
Theorem sender_handlers_end {CRC : Crc32c} (regex_extended : string → exc (string → bool))
    `{!MapIteration T_SendBufferKey.t T_BufferedSend.t} options world app world' watcher_starts events :
  SenderApp.create regex_extended options world = (Ret app, world') →
  ∃ n r s', ∀ depth (loop_fuel : SenderApp.limit), (n ≤ depth)%nat → (n ≤ loop_fuel.(SenderApp.turns))%nat →
    (SenderApp.start watcher_starts;; SenderApp.run_loop regex_extended depth loop_fuel events) app = (r, s').
Proof.
  intros Hc%HandlersEnd.create_in_step.
  destruct (HandlersEnd.ends_run regex_extended watcher_starts events app Hc) as (r & s' & [n Hn] & _).
  exists n, r, s'. intros depth loop_fuel Hd Hl. by apply (Hn (depth, loop_fuel)).
Qed.

(** ** On a run *)
#[local] Existing Instance some_order.

Lemma sender_handlers_end_witness :
  ∃ app, sample_start = (Ret app, sample_world) ∧
    ∃ n r s', ∀ depth (loop_fuel : SenderApp.limit), (n ≤ depth)%nat → (n ≤ loop_fuel.(SenderApp.turns))%nat →
      (SenderApp.start (λ _, true);; SenderApp.run_loop (λ _, Throw "") depth loop_fuel sample_events) app = (r, s').
Proof.
  destruct sample_start as [[app|e] w] eqn:E; [|vm_compute in E; discriminate].
  assert (w = sample_world) as -> by (vm_compute in E; by injection E as _ <-).
  exists app. split; [done|].
  exact (sender_handlers_end (λ _, Throw "") sample_options sample_world app sample_world (λ _, true) sample_events E).
Defined.
