(* ===== verification/SenderLoop.v ===== *)
(** * The sender on its loop

    [SenderRun] takes the events of a run as they come; here the application runs
    on [LoopRun], which calls its timers when they are due: the calls it asked
    for become timers of the loop, the stop it asked for ends the loop.  A run
    of a sender that does not watch its sources ends, whatever its lines do. *)
From S2P Require Import Prelude Hoare Crc32c Filesystem Wire Protocol Framing AsyncLoop Sync Scheduler Source ChunkResend.
From S2P Require Import AppendState SendBuffer SenderPlan Network NodeCommon SenderApp SenderRun SenderEnds.
#[local] Open Scope Z_scope.

(** ** A sender that is done has stopped its loop *)
Module EndingFacts.
Import SenderApp.

Definition ending (s : t) : Prop :=
  s.(options_).(T_NodeOptions.watch) = false ∧ (s.(done_) = true → s.(stopped_) = true).

Ltac same := intros; match goal with H : ending _ |- _ => exact H end.

(** Whatever does not set [done_] and does not start the loop again. *)
Lemma ending_reset s s' :
  s'.(options_) = s.(options_) → s'.(done_) = false → ending s → ending s'.
Proof. intros Ho Hd [Hw _]. split; [by rewrite Ho|congruence]. Qed.

#[local] Hint Extern 1 (keeps ending (modify _)) => apply keeps_modify; same : keeps.
#[local] Hint Extern 1 (keeps ending (put _)) => apply keeps_put; same : keeps.

Lemma keeps_buffer {A} (f : T_SenderSendBuffer.t → A * T_SenderSendBuffer.t) : keeps ending (on_buffer f).
Proof. intros s r s' HI Hr. unfold on_buffer in Hr. destruct (f _). by injection Hr as <- <-. Qed.
Lemma keeps_fsys {A} (m : M fsys A) : keeps ending (on m).
Proof. by apply keeps_on. Qed.
Lemma keeps_net {A} (m : M T_SenderNetwork.t A) : keeps ending (on m).
Proof. by apply keeps_on. Qed.
Lemma keeps_line_set {A} (m : M T_SenderLineSet.t A) : keeps ending (on m).
Proof. by apply keeps_on. Qed.
Lemma keeps_stream i : keeps ending (stream_at i).
Proof. intros s r s' HI Hr. unfold stream_at in Hr. by destruct (_ !! _); injection Hr as <- <-. Qed.
Lemma keeps_task i j : keeps ending (task_at i j).
Proof. intros s r s' HI Hr. unfold task_at in Hr. by destruct (_ ≫= _); injection Hr as <- <-. Qed.
Lemma keeps_stream_update i f : keeps ending (update_stream i f).
Proof. apply keeps_modify. same. Qed.
#[local] Hint Resolve keeps_buffer keeps_fsys keeps_net keeps_line_set keeps_stream keeps_task keeps_stream_update : keeps.
#[local] Hint Extern 1 (keeps _ (update_task _ _ _)) => apply keeps_stream_update : keeps.
#[local] Hint Extern 1 (keeps _ (update_append _ _ _)) => apply keeps_stream_update : keeps.
#[local] Hint Extern 1 (keeps _ (update_resend _ _ _)) => apply keeps_stream_update : keeps.
#[local] Hint Extern 1 (keeps _ (set_complete _)) => apply keeps_stream_update : keeps.

Lemma keeps_later_call d w : keeps ending (call_later d w).
Proof. apply keeps_modify. same. Qed.
Lemma keeps_fail_stop : keeps ending fail_and_stop.
Proof. intros s r s' [Hw _] [= <- <-]. by split. Qed.
Lemma keeps_final : keeps ending final_fail.
Proof. intros s r s' [Hw _] [= <- <-]. by split. Qed.
#[local] Hint Resolve keeps_later_call keeps_fail_stop keeps_final : keeps.
Lemma keeps_rescan reason : keeps ending (request_rescan reason).
Proof. unfold request_rescan. solve_keeps. Qed.
Lemma keeps_observe_sample sample : keeps ending (observe_ack_sample sample).
Proof. unfold observe_ack_sample. solve_keeps. Qed.
#[local] Hint Resolve keeps_rescan keeps_observe_sample : keeps.
Lemma keeps_observe_all samples : keeps ending (observe_ack_samples samples).
Proof. induction samples; cbn; solve_keeps. Qed.
#[local] Hint Resolve keeps_observe_all : keeps.

(** The only place that sets [done_] stops the loop. *)
Lemma keeps_all_done : keeps ending check_all_done.
Proof.
  intros s r s' Hs Hr. unfold check_all_done in Hr. rewrite (bind_ret get _ s s s eq_refl) in Hr.
  destruct (_ || _); [by injection Hr as <- <-|]. destruct (negb _); [by injection Hr as <- <-|].
  rewrite (bind_ret (modify _) _ s tt (set_done true s) eq_refl) in Hr.
  destruct Hs as [Hw _]. rewrite Hw in Hr. injection Hr as <- <-. by split.
Qed.
#[local] Hint Resolve keeps_all_done : keeps.

Section operations.
Context {CRC : Crc32c} (regex_extended : string → exc (string → bool)).
Context `{!MapIteration T_SendBufferKey.t T_BufferedSend.t}.

Section lost.
Context (lost_callback : list T_LostSend.t → M t unit) (loop_fuel : SenderApp.limit).
Context (lost_keeps : ∀ l, keeps ending (lost_callback l)).
#[local] Hint Resolve lost_keeps : keeps.

Lemma ending_net n s : ending s → ending (set_part (n : T_SenderNetwork.t) s).
Proof. done. Qed.

Lemma keeps_sends m r : keeps ending (net_send lost_callback m r).
Proof. by apply NetworkFrame.keeps_send. Qed.
Lemma keeps_controls m l : keeps ending (T_SenderNetwork.send_control lost_callback m l).
Proof. by apply NetworkFrame.keeps_net_send_control. Qed.
Lemma keeps_line_lost id : keeps ending (T_SenderNetwork.mark_unavailable lost_callback id).
Proof. by apply NetworkFrame.keeps_net_mark_unavailable. Qed.
Lemma keeps_ticks ticks : keeps ending (T_SenderNetwork.refill_ticks lost_callback ticks).
Proof. by apply NetworkFrame.keeps_refill_ticks. Qed.
#[local] Hint Resolve keeps_sends keeps_controls keeps_line_lost keeps_ticks : keeps.

Lemma keeps_buffered m r : keeps ending (send_buffered lost_callback m r).
Proof. unfold send_buffered. solve_keeps. Qed.
Lemma keeps_offer : keeps ending (send_manifest1 lost_callback).
Proof. unfold send_manifest1. solve_keeps. Qed.
#[local] Hint Resolve keeps_buffered keeps_offer : keeps.

Lemma keeps_recovery : keeps ending (recover_with_manifest1 lost_callback).
Proof.
  unfold recover_with_manifest1. solve_keeps. apply keeps_put. eapply ending_reset; [..|eassumption]; done.
Qed.
#[local] Hint Resolve keeps_recovery : keeps.

Lemma keeps_retransmitted r id : keeps ending (mark_task_retransmitted r id).
Proof. unfold mark_task_retransmitted. solve_keeps. Qed.
#[local] Hint Resolve keeps_retransmitted : keeps.
Lemma keeps_flush : keeps ending (flush_retransmits lost_callback loop_fuel).
Proof. unfold flush_retransmits. solve_keeps. induction loop_fuel.(turns) as [|fuel IH]; cbn; solve_keeps. Qed.
Lemma keeps_enqueue : keeps ending (enqueue_rto_retransmits lost_callback).
Proof.
  unfold enqueue_rto_retransmits. solve_keeps. induction (T_SenderSendBuffer.expired_keys _ _ _ _); cbn; solve_keeps.
Qed.
Lemma keeps_file_begin i j : keeps ending (send_file_begin lost_callback i j).
Proof. unfold send_file_begin. solve_keeps. Qed.
Lemma keeps_append i j : keeps ending (send_append_if_possible regex_extended lost_callback i j).
Proof. unfold send_append_if_possible. solve_keeps. Qed.
Lemma keeps_commit i j : keeps ending (send_commit_if_possible lost_callback i j).
Proof. unfold send_commit_if_possible. solve_keeps. Qed.
Lemma keeps_drop id : keeps ending (maybe_drop_line_once lost_callback id).
Proof. unfold maybe_drop_line_once. solve_keeps. Qed.
#[local] Hint Resolve keeps_flush keeps_enqueue keeps_file_begin keeps_append keeps_commit keeps_drop : keeps.
Lemma keeps_chunks fuel i j : keeps ending (chunk_loop regex_extended lost_callback loop_fuel fuel i j).
Proof. induction fuel as [|fuel IH]; cbn; solve_keeps. Qed.
#[local] Hint Resolve keeps_chunks : keeps.
Lemma keeps_chunk_schedule i j : keeps ending (schedule_chunk_work regex_extended lost_callback loop_fuel i j).
Proof. unfold schedule_chunk_work. solve_keeps. Qed.
#[local] Hint Resolve keeps_chunk_schedule : keeps.
Lemma keeps_streams_work ixs : keeps ending (work_streams regex_extended lost_callback loop_fuel ixs).
Proof. induction ixs; cbn; solve_keeps. Qed.
#[local] Hint Resolve keeps_streams_work : keeps.
Lemma keeps_schedule : keeps ending (schedule_work regex_extended lost_callback loop_fuel).
Proof. unfold schedule_work. solve_keeps. Qed.
#[local] Hint Resolve keeps_schedule : keeps.

Lemma keeps_append_plan i j d : keeps ending (apply_append_plan regex_extended lost_callback i j d).
Proof. unfold apply_append_plan. solve_keeps. Qed.
#[local] Hint Resolve keeps_append_plan : keeps.
Lemma keeps_advance i : keeps ending (advance_stream_task regex_extended lost_callback loop_fuel i).
Proof. unfold advance_stream_task. solve_keeps. Qed.
#[local] Hint Resolve keeps_advance : keeps.
Lemma keeps_manifest2_stream m2 i : keeps ending (apply_manifest2_stream regex_extended lost_callback m2 i).
Proof. unfold apply_manifest2_stream. solve_keeps. Qed.
#[local] Hint Resolve keeps_manifest2_stream : keeps.
Lemma keeps_manifest2 m2 : keeps ending (on_manifest2 regex_extended lost_callback loop_fuel m2).
Proof.
  unfold on_manifest2. apply keeps_get. intros s _. apply keeps_bind; [|intros; solve_keeps].
  induction (seq _ _); cbn; solve_keeps.
Qed.

Lemma keeps_acks i j sid chunks : keeps ending (ack_chunks i j sid chunks).
Proof. induction chunks; cbn; unfold observe_erased; solve_keeps. Qed.
#[local] Hint Resolve keeps_acks : keeps.
Lemma keeps_heartbeat line_id hb : keeps ending (on_heartbeat regex_extended lost_callback loop_fuel line_id hb).
Proof.
  unfold on_heartbeat, erase_completed_buffered, on_append_heartbeat, on_chunk_heartbeat, observe_erased. solve_keeps.
Qed.
Lemma keeps_lost lost_sends : keeps ending (handle_lost_sends regex_extended lost_callback loop_fuel lost_sends).
Proof.
  unfold handle_lost_sends. apply keeps_bind; [|intros; solve_keeps]. generalize false.
  induction lost_sends as [|lost lost_sends IH]; intros changed; cbn; [apply keeps_ret|].
  apply keeps_bind; [|intros; apply IH]. unfold lose. solve_keeps.
Qed.
Lemma keeps_connected id : keeps ending (on_connected regex_extended lost_callback loop_fuel id).
Proof. unfold on_connected. solve_keeps. Qed.
#[local] Hint Resolve keeps_manifest2 keeps_heartbeat : keeps.
Lemma keeps_any_message id m : keeps ending (on_message regex_extended lost_callback loop_fuel id m).
Proof. unfold on_message, on_nack. solve_keeps. Qed.
Lemma keeps_one_tick : keeps ending (tick regex_extended lost_callback loop_fuel).
Proof. unfold tick. solve_keeps. Qed.
End lost.

(** The streams are built again for a rescan. *)
Lemma keeps_sources : keeps ending (build_source_streams regex_extended).
Proof.
  unfold build_source_streams, push_stream. solve_keeps.
  match goal with |- keeps _ (build_streams _ ?roots) => induction roots end; cbn; unfold push_stream; solve_keeps.
Qed.

Context (depth : nat) (loop_fuel : SenderApp.limit).
Lemma keeps_lost_sends d lost_sends : keeps ending (on_lost_sends regex_extended loop_fuel d lost_sends).
Proof.
  revert lost_sends. induction d as [|d IH]; intros lost_sends; cbn; [apply keeps_throw|]. by apply keeps_lost.
Qed.

Lemma keeps_event e : keeps ending (handle regex_extended depth loop_fuel e).
Proof.
  assert (∀ l, keeps ending (lost regex_extended depth loop_fuel l)) as Hlost by (intros; apply keeps_lost_sends).
  assert (∀ id b, keeps ending (handle_unavailable regex_extended depth loop_fuel id b)) as Hun
    by (intros; by apply NetworkFrame.keeps_handle_unavailable).
  assert (∀ id, keeps ending (handle_connected id)) as Hcon by (intros; by apply NetworkFrame.keeps_handle_connected).
  assert (∀ id, keeps ending (T_SenderLineSet.mark_unavailable_with (handle_unavailable regex_extended depth loop_fuel)
    (λ _, throw "closed twice") id)) as Hmark1 by (intros; unfold T_SenderLineSet.mark_unavailable_with; solve_keeps).
  assert (∀ id, keeps ending (T_SenderLineSet.on_close (handle_unavailable regex_extended depth loop_fuel) id)) as Hclose
    by (intros; unfold T_SenderLineSet.on_close; solve_keeps).
  destruct e as [id m|id c loop|id|id|id|id| | |events|reason]; cbn [handle].
  - apply NetworkFrame.keeps_handle_message; [done..|intros; by apply keeps_connected|by apply keeps_any_message].
  - unfold T_SenderLineSet.on_tcp_connected. solve_keeps.
  - unfold T_SenderLineSet.on_connect_failed. solve_keeps.
  - unfold T_SenderLineSet.on_error, T_SenderLineSet.mark_unavailable, T_SenderLineSet.mark_unavailable_with. solve_keeps.
  - apply Hclose.
  - auto with keeps.
  - by apply keeps_one_tick.
  - unfold timeout. solve_keeps.
  - unfold watch_poll_tick. solve_keeps.
  - pose proof (keeps_offer _ Hlost). pose proof keeps_sources.
    unfold rescan_and_send_manifest, rebuild_source_streams_for_rescan. solve_keeps.
    apply keeps_modify. intros s' Hs. by apply (ending_reset s').
Qed.
End operations.
End EndingFacts.

(** ** The application as a client of the loop *)
Module SenderOnLoop.
Import SenderApp LoopRun.

(** The closures the program gives to the loop: what it is to call later, the
    end of a reconnect delay, and the [handle_io] of a line's descriptor. *)
Inductive closure := Later (what : later) | Reconnect (line_id : Z) | Descriptor (line_id : Z).

(** What the connection of a line does with its descriptors. *)
Inductive fd_call :=
  | Watches (fd events line_id : Z)
  | Updates (fd events : Z)
  | Unwatches (fd : Z).

(** What a callback meets when it runs: the clock, what the connection delivers,
    the changes that the watchers report, and the calls for descriptors. *)
Record moment := mk_moment {
  now : Z; delivered : list event; reported : list (list T_WatchEvent.t); fd_calls : list fd_call
}.

(** The program besides the loop, with the moments to come. *)
Record world := mk_world { app_ : SenderApp.t; moments_ : list moment }.
Abbreviation St := (LoopRun.t closure world).

Definition on_app {A} (m : M SenderApp.t A) : M St A := λ s,
  let '(r, app) := m s.(world_).(app_) in (r, set_world (mk_world app s.(world_).(moments_)) s).

Definition next_moment : M St moment :=
  s ← get;
  match s.(world_).(moments_) with
  | [] => mret (mk_moment 0 [] [] [])
  | m :: moments => put (set_world (mk_world s.(world_).(app_) moments) s);; mret m
  end.

Definition fd_op (call : fd_call) : M St unit :=
  s ← get;
  match call with
  | Watches fd events line_id =>
      match EventLoop.watch_fd fd events (Descriptor line_id) s.(loop_) with
      | (Ret _, l) => put (LoopRun.set_loop l s)
      | (Throw e, _) => throw e
      end
  | Updates fd events => put (LoopRun.set_loop (EventLoop.update_fd fd events s.(loop_)) s)
  | Unwatches fd => put (LoopRun.set_loop (EventLoop.unwatch_fd fd s.(loop_)) s)
  end.
Fixpoint fd_ops (calls : list fd_call) : M St unit :=
  match calls with
  | [] => mret tt
  | call :: calls => fd_op call;; fd_ops calls
  end.

(** The calls that the application and its network asked for. *)
Definition requested (app : SenderApp.t) : list (Z * closure) :=
  ((λ c, (c.1, Later c.2)) <$> app.(later_)) ++
  omap (λ r, match r with CallLater delay id => Some (delay, Reconnect id) | ConnectTcp _ _ => None end)
    app.(network_).(T_SenderNetwork.lines_).(T_SenderLineSet.requests_).

Definition clear_requests (app : SenderApp.t) : SenderApp.t :=
  let lines := app.(network_).(T_SenderNetwork.lines_) in
  set_network (T_SenderNetwork.set_lines (T_SenderLineSet.mk_lines lines.(T_SenderLineSet.max_frame_bytes_)
      lines.(T_SenderLineSet.reconnect_policy_) lines.(T_SenderLineSet.lines_)
      lines.(T_SenderLineSet.reconnects_enabled_) []) app.(network_))
    (SenderApp.set_loop app.(stopped_) [] app).

Fixpoint register (now : Z) (calls : list (Z * closure)) : M St unit :=
  match calls with
  | [] => mret tt
  | (delay, cb) :: calls => modify (call_later now delay cb);; register now calls
  end.

(** What a callback asked of the loop. *)
Definition settle (now : Z) : M St unit :=
  s ← get;
  let app := s.(world_).(app_) in
  modify (set_world (mk_world (clear_requests app) s.(world_).(moments_)));;
  register now (requested app);;
  if app.(stopped_) then modify stop else mret tt.

Definition callback (body : moment → M SenderApp.t unit) : M St unit :=
  m ← next_moment;
  on_app (body m);;
  fd_ops m.(fd_calls);;
  settle m.(now).

Section client.
Context {CRC : Crc32c} (regex_extended : string → exc (string → bool)).
Context `{!MapIteration T_SendBufferKey.t T_BufferedSend.t}.
Context (depth : nat) (loop_fuel : SenderApp.limit).

(** An exception of a message's handler fails the connection; the other
    events of a descriptor have no handler above them. *)
Definition deliver (e : event) : M SenderApp.t unit :=
  match e with
  | Receives line_id _ =>
      try_catch (handle regex_extended depth loop_fuel e) (λ _, handle regex_extended depth loop_fuel (Breaks line_id))
  | Connects _ _ _ | ConnectFails _ | Breaks _ | Closes _ => handle regex_extended depth loop_fuel e
  | _ => mret tt
  end.
Fixpoint deliver_all (events : list event) : M SenderApp.t unit :=
  match events with
  | [] => mret tt
  | e :: events => deliver e;; deliver_all events
  end.

Definition io_callback (cb : closure) (revents : Z) : M St unit :=
  match cb with
  | Descriptor _ => callback (λ m, deliver_all m.(delivered))
  | _ => mret tt
  end.

Definition event_of_later (what : later) (m : moment) : event :=
  match what with
  | TickLater => Ticks
  | WatchPollLater => WatchPoll m.(reported)
  | RescanLater reason => Rescans reason
  | TimeoutLater => TimesOut
  end.

Definition timer_callback (cb : closure) : M St unit :=
  match cb with
  | Later what => callback (λ m, handle regex_extended depth loop_fuel (event_of_later what m))
  | Reconnect line_id => callback (λ _, handle regex_extended depth loop_fuel (ReconnectTimer line_id))
  | Descriptor _ => mret tt
  end.

(** [run]: what comes before the loop, and the loop, whose [stopped_] the
    application's mirrors. *)
Definition run_sender (watcher_starts : path → bool) (script : list turn) : M St outcome :=
  callback (λ _, start watcher_starts);;
  on_app (modify (λ s, SenderApp.set_loop false s.(later_) s));;
  LoopRun.run io_callback timer_callback script.

Definition initial (app : SenderApp.t) (moments : list moment) : St :=
  LoopRun.mk (EventLoop.mk closure false 1 [] []) [] (mk_world app moments).

(** *** The client reaches the loop through its operations *)
Lemma fd_op_calls call s r s' : fd_op call s = (r, s') → rtc calls s s'.
Proof.
  unfold fd_op. rewrite (bind_ret get _ s s s eq_refl). destruct call as [fd events id|fd events|fd]; cbn.
  - destruct (EventLoop.watch_fd fd events (Descriptor id) (loop_ s)) as [[[]|e] l] eqn:E; intros [= <- <-];
      [by eapply rtc_once, Calls_watch|apply rtc_refl].
  - intros [= <- <-]. apply rtc_once, Calls_update.
  - intros [= <- <-]. apply rtc_once, Calls_unwatch.
Qed.

Lemma fd_ops_calls cs s r s' : fd_ops cs s = (r, s') → rtc calls s s'.
Proof.
  revert s. induction cs as [|c cs IH]; intros s Hr; cbn in Hr; [by injection Hr as <- <-; apply rtc_refl|].
  apply bind_cases in Hr as [([] & s1 & Hc & Hr)|(e & Hc & ->)]; apply fd_op_calls in Hc; [|done].
  etrans; [done|by apply IH].
Qed.

Lemma register_calls at_ cs s : ∃ s', register at_ cs s = (Ret tt, s') ∧ rtc calls s s' ∧
  s'.(world_) = s.(world_) ∧ s'.(loop_).(EventLoop.stopped_) = s.(loop_).(EventLoop.stopped_) ∧
  ∀ delay cb, (delay, cb) ∈ cs → ∃ x, x ∈ s'.(loop_).(EventLoop.timers_) ∧
    EventLoop.deadline x = at_ + delay * 1000000 ∧ EventLoop.timer_callback x = cb.
Proof.
  revert s. induction cs as [|[delay cb] cs IH]; intros s.
  { exists s. split; [done|]. split; [apply rtc_refl|]. split; [done|]. split; [done|]. by intros ?? ?%not_elem_of_nil. }
  destruct (IH (call_later at_ delay cb s)) as (s' & Hr & Hc & Hw & Hs & Hx). exists s'.
  split; [exact Hr|]. split; [eapply rtc_l; [apply Calls_later|done]|]. split; [done|]. split; [done|].
  intros d c [[= -> ->]|Hin]%elem_of_cons; [|by apply Hx].
  destruct (LoopFacts.rtc_calls_mono _ _ Hc) as [Hsub _].
  exists (EventLoop.mkTimer closure s.(loop_).(EventLoop.next_timer_id_) (at_ + delay * 1000000) cb).
  split; [|done]. apply Hsub. cbn. apply elem_of_app. right. by left.
Qed.

(** What [settle] does: the calls asked for are timers, a stop asked for is a stop. *)
Lemma settle_spec at_ s : ∃ s', settle at_ s = (Ret tt, s') ∧ rtc calls s s' ∧
  s'.(world_) = mk_world (clear_requests s.(world_).(app_)) s.(world_).(moments_) ∧
  s'.(loop_).(EventLoop.stopped_) = s.(loop_).(EventLoop.stopped_) || s.(world_).(app_).(stopped_) ∧
  ∀ delay cb, (delay, cb) ∈ requested s.(world_).(app_) → ∃ x, x ∈ s'.(loop_).(EventLoop.timers_) ∧
    EventLoop.deadline x = at_ + delay * 1000000 ∧ EventLoop.timer_callback x = cb.
Proof.
  unfold settle. rewrite (bind_ret get _ s s s eq_refl). erewrite bind_ret by done.
  set (s1 := set_world _ s).
  destruct (register_calls at_ (requested s.(world_).(app_)) s1) as (s2 & Hr & Hc & Hw & Hs & Hx).
  rewrite (bind_ret _ _ _ _ _ Hr). assert (rtc calls s s2) as Hc2 by (eapply rtc_l; [apply Calls_world|done]).
  destruct (stopped_ s.(world_).(app_)) eqn:Hstop.
  - exists (LoopRun.stop s2). split; [done|]. split; [by eapply rtc_r; [|apply Calls_stop]|].
    split; [done|]. split; [by rewrite orb_true_r|done].
  - exists s2. split; [done|]. split; [done|]. split; [done|]. by rewrite orb_false_r.
Qed.

Lemma callback_calls body s r s' : callback body s = (r, s') → rtc calls s s'.
Proof.
  unfold callback. intros Hr. apply bind_cases in Hr as [(m & s1 & Hm & Hr)|(e & Hm & ->)];
    unfold next_moment in Hm; rewrite (bind_ret get _ s s s eq_refl) in Hm;
    destruct (moments_ (world_ s)) as [|m0 moments]; try done.
  all: assert (rtc calls s s1) as H1 by (injection Hm as _ <-; first [apply rtc_refl|apply rtc_once, Calls_world]).
  all: etrans; [exact H1|]; clear Hm H1.
  all: apply bind_cases in Hr as [([] & s2 & Ha & Hr)|(e & Ha & ->)].
  2,4: unfold on_app in Ha; destruct (body m _); injection Ha as _ <-; apply rtc_once, Calls_world.
  all: assert (rtc calls s1 s2) as H2
    by (unfold on_app in Ha; destruct (body m _); injection Ha as _ <-; apply rtc_once, Calls_world).
  all: etrans; [exact H2|]; clear Ha H2.
  all: apply bind_cases in Hr as [([] & s3 & Hf & Hr)|(e & Hf & ->)]; apply fd_ops_calls in Hf; [|exact Hf].
  all: etrans; [exact Hf|]; clear Hf.
  all: destruct (settle_spec m.(now) s3) as (s4 & Hs & Hc & _); rewrite Hs in Hr; by injection Hr as _ <-.
Qed.

#[export] Instance sender_client : LoopClient io_callback timer_callback.
Proof.
  split.
  - intros [] revents s r s' Hr; try (injection Hr as <- <-; apply rtc_refl). by eapply callback_calls.
  - intros [what|id|id] s r s' Hr; [by eapply callback_calls..|]. injection Hr as <- <-. apply rtc_refl.
Qed.

(** *** What holds between the callbacks *)
Definition settled (w : world) (stopped : bool) : Prop :=
  EndingFacts.ending w.(app_) ∧ (w.(app_).(stopped_) = true → stopped = true).

Lemma clear_ending app : EndingFacts.ending app → EndingFacts.ending (clear_requests app).
Proof. done. Qed.

Lemma fd_op_same call s r s' : fd_op call s = (r, s') →
  s'.(world_) = s.(world_) ∧ s'.(loop_).(EventLoop.stopped_) = s.(loop_).(EventLoop.stopped_).
Proof.
  unfold fd_op. rewrite (bind_ret get _ s s s eq_refl). destruct call as [fd events id|fd events|fd]; cbn.
  - unfold EventLoop.watch_fd. destruct (fd <? 0); intros [= <- <-]; done.
  - by intros [= <- <-].
  - by intros [= <- <-].
Qed.

Lemma fd_ops_same cs s r s' : fd_ops cs s = (r, s') →
  s'.(world_) = s.(world_) ∧ s'.(loop_).(EventLoop.stopped_) = s.(loop_).(EventLoop.stopped_).
Proof.
  revert s. induction cs as [|c cs IH]; intros s Hr; cbn in Hr; [by injection Hr as <- <-|].
  apply bind_cases in Hr as [([] & s1 & Hc & Hr)|(e & Hc & ->)]; apply fd_op_same in Hc as [Hw Hs]; [|done].
  apply IH in Hr as [Hw' Hs']. split; congruence.
Qed.

(** The application after a callback that returns: its body ran, and what it
    asked for is settled. *)
Lemma callback_inv body s s' :
  callback body s = (Ret tt, s') →
  ∃ m app, body m s.(world_).(app_) = (Ret tt, app) ∧ s'.(world_).(app_) = clear_requests app ∧
    s'.(loop_).(EventLoop.stopped_) = s.(loop_).(EventLoop.stopped_) || app.(stopped_) ∧
    m = match s.(world_).(moments_) with m :: _ => m | [] => mk_moment 0 [] [] [] end ∧
    (∀ delay cb, (delay, cb) ∈ requested app → ∃ x, x ∈ s'.(loop_).(EventLoop.timers_) ∧
      EventLoop.deadline x = m.(now) + delay * 1000000 ∧ EventLoop.timer_callback x = cb).
Proof.
  unfold callback. intros Hr. apply M_bind_inv in Hr as (m & s1 & Hm & Hr).
  assert (s1.(world_).(app_) = s.(world_).(app_) ∧ s1.(loop_) = s.(loop_) ∧
    m = match s.(world_).(moments_) with m :: _ => m | [] => mk_moment 0 [] [] [] end) as (Ea & El & Em).
  { unfold next_moment in Hm. rewrite (bind_ret get _ s s s eq_refl) in Hm.
    destruct (moments_ (world_ s)); by injection Hm as <- <-. }
  apply M_bind_inv in Hr as ([] & s2 & Ha & Hr). unfold on_app in Ha. rewrite Ea in Ha.
  destruct (body m (app_ (world_ s))) as [r app] eqn:Eb. injection Ha as -> <-.
  apply M_bind_inv in Hr as ([] & s3 & Hf & Hr). apply fd_ops_same in Hf as [Hw Hs].
  destruct (settle_spec m.(now) s3) as (s4 & Hset & _ & Hw4 & Hs4 & Hx). rewrite Hset in Hr. injection Hr as <-.
  exists m, app. rewrite Hw in *. split; [exact Eb|]. split; [by rewrite Hw4|].
  split; [by rewrite Hs4, Hs, <- El|]. split; [done|]. exact Hx.
Qed.

Lemma callback_settled body :
  (∀ m, keeps EndingFacts.ending (body m)) →
  triple (LoopFacts.holds settled) (callback body) (λ _, LoopFacts.holds settled) (λ _, True).
Proof.
  intros Hb s r s' [He Hs] Hr. destruct r as [[]|]; [|done].
  apply callback_inv in Hr as (m & app & Ha & Eapp & Estop & _ & _).
  apply (keeps_run _ _ _ _ _ (Hb m) He) in Ha. split; rewrite Eapp; [by apply clear_ending|].
  intros Hst. rewrite Estop. change (app.(stopped_) = true) in Hst. by rewrite Hst, orb_true_r.
Qed.

Lemma keeps_deliver e : keeps EndingFacts.ending (deliver e).
Proof.
  destruct e; cbn [deliver]; try apply keeps_ret; try apply EndingFacts.keeps_event.
  apply keeps_catch; intros; apply EndingFacts.keeps_event.
Qed.
Lemma keeps_deliver_all es : keeps EndingFacts.ending (deliver_all es).
Proof.
  induction es as [|e es IH]; cbn; [apply keeps_ret|]. apply keeps_bind; [apply keeps_deliver|by intros _].
Qed.

(** The timer of [run] ends a run that is not watching. *)
Lemma timeout_ends x :
  EventLoop.timer_callback x = Later TimeoutLater → LoopFacts.ends timer_callback settled x.
Proof.
  intros Hx s s' [[Hw Hd] _] Hr. rewrite Hx in Hr. cbn [timer_callback event_of_later] in Hr.
  apply callback_inv in Hr as (m & app & Ha & _ & Estop & _). rewrite Estop. cbn [handle] in Ha.
  unfold timeout in Ha. erewrite bind_ret in Ha by done. rewrite Hw in Ha. cbn [negb andb] in Ha.
  destruct (done_ (app_ (world_ s))) eqn:Hdone; cbn [negb] in Ha; injection Ha as <-.
  - by rewrite Hd, orb_true_r.
  - apply orb_true_r.
Qed.

(** *** Up to the loop *)
Definition unstarted (options : T_NodeOptions.t) (s : SenderApp.t) : Prop :=
  s.(options_) = options ∧ s.(done_) = false ∧ s.(stopped_) = false.

Lemma create_unstarted options w app w' :
  SenderApp.create regex_extended options w = (Ret app, w') → unstarted options app.
Proof.
  unfold SenderApp.create. destruct (T_SenderNetwork.create _ _ _ _ _) as [network|]; [|done].
  match goal with |- context [build_source_streams regex_extended ?a] => set (app0 := a) end.
  destruct (build_source_streams regex_extended app0) as [r s1] eqn:E.
  apply (keeps_run (unstarted options)) in E; [| |done].
  - destruct r; [|done]. by intros [= <- <-].
  - assert (∀ st, keeps (unstarted options) (push_stream st)) by (intros st; by apply keeps_modify).
    assert (∀ {A} (m : M fsys A), keeps (unstarted options) (on m)) by (intros; by apply keeps_on).
    unfold build_source_streams. solve_keeps.
    match goal with |- keeps _ (build_streams _ ?roots) => induction roots end; cbn; solve_keeps.
Qed.

Lemma sender_start_inv options watcher_starts app app' :
  options.(T_NodeOptions.watch) = false → unstarted options app →
  start watcher_starts app = (Ret tt, app') →
  unstarted options app' ∧ (30000, Later TimeoutLater) ∈ requested app'.
Proof.
  intros Hwatch Hu Hr. unfold start in Hr. apply M_bind_inv in Hr as ([] & s1 & Hn & Hr).
  assert (unstarted options s1) as Hu1.
  { assert (keeps (unstarted options) (on T_SenderNetwork.start)) as Hk by by apply keeps_on.
    exact (Hk _ _ _ Hu Hn). }
  rewrite (bind_ret get _ s1 s1 s1 eq_refl) in Hr. destruct Hu1 as (Ho & Hd & Hs). rewrite Ho, Hwatch in Hr.
  cbn [andb] in Hr. rewrite (bind_ret (mret tt) _ s1 tt s1 eq_refl) in Hr. injection Hr as <-.
  split; [done|]. unfold requested. cbn. rewrite fmap_app. apply elem_of_app. left. apply elem_of_app. right. by left.
Qed.
End client.
End SenderOnLoop.

(** ** Enough turns for the loop, too *)
Module LoopEnds.
Import SenderApp LoopRun SenderOnLoop EndingInvariant HandlersEnd.

Section loop.
Context {CB W L : Type} `{Fuel L} (P : t CB W → Prop).
Context (P_world : ∀ s s', s'.(world_) = s.(world_) → P s → P s').
Context (io_callback : L → CB → Z → M (t CB W) unit) (timer_callback : L → CB → M (t CB W) unit).
Context (io_ends : ∀ cb revents, ends P (λ b, io_callback b cb revents))
  (timer_ends : ∀ cb, ends P (λ b, timer_callback b cb)).
#[local] Hint Resolve io_ends timer_ends : ends.
#[local] Hint Extern 1 (keeps _ (modify _)) => apply keeps_modify; intros ? ?; eapply P_world; [|eassumption]; reflexivity : keeps.

Lemma ends_dispatch fds : ends P (λ b, dispatch (io_callback b) fds).
Proof. induction fds as [|[fd revents] fds IH]; cbn [dispatch]; solve_ends. Qed.
Lemma ends_due now due : ends P (λ b, run_due (timer_callback b) now due).
Proof. induction due as [|x due IH]; cbn [run_due]; solve_ends. Qed.
#[local] Hint Resolve ends_dispatch ends_due : ends.
Lemma ends_fire now : ends P (λ b, fire (timer_callback b) now).
Proof. unfold fire. solve_ends. Qed.
#[local] Hint Resolve ends_fire : ends.
Lemma ends_turns script : ends P (λ b, LoopRun.turns (io_callback b) (timer_callback b) script).
Proof. induction script as [|turn script IH]; cbn [LoopRun.turns]; solve_ends. Qed.
#[local] Hint Resolve ends_turns : ends.
Lemma ends_loop script : ends P (λ b, LoopRun.run (io_callback b) (timer_callback b) script).
Proof. unfold LoopRun.run. solve_ends. Qed.
End loop.

(** The application on the loop. *)
Definition app_in_step (s : St) : Prop := in_step s.(world_).(app_).
Abbreviation bound := (nat * limit)%type.

Lemma ends_on_app {A} (m : bound → M SenderApp.t A) : ends in_step m → ends app_in_step (λ b, on_app (m b)).
Proof.
  intros Hm s Hs. destruct (Hm _ Hs) as (r & app & [n Hn] & Happ).
  exists r, (LoopRun.set_world (mk_world app s.(world_).(moments_)) s). split; [|done].
  exists n. intros b Hb. unfold on_app. by rewrite (Hn b Hb).
Qed.

#[local] Hint Extern 1 (keeps _ (modify _)) => apply keeps_modify; intros ? ?; assumption : keeps.
#[local] Hint Extern 1 (keeps _ (put _)) => apply keeps_put; assumption : keeps.
Lemma keeps_moment : keeps app_in_step next_moment.
Proof. unfold next_moment. solve_keeps. Qed.
Lemma keeps_fd_ops calls : keeps app_in_step (fd_ops calls).
Proof. induction calls as [|call calls IH]; cbn [fd_ops]; unfold fd_op; solve_keeps. Qed.
Lemma keeps_settle now : keeps app_in_step (settle now).
Proof.
  assert (∀ calls, keeps app_in_step (register now calls)) as Hr
    by (intros calls; induction calls as [|[delay cb] calls IH]; cbn [register]; solve_keeps).
  unfold settle. solve_keeps.
Qed.
#[local] Hint Resolve keeps_moment keeps_fd_ops keeps_settle : keeps.
Lemma ends_callback (body : bound → moment → M SenderApp.t unit) :
  (∀ m, ends in_step (λ b, body b m)) → ends app_in_step (λ b, callback (body b)).
Proof.
  intros Hb. assert (∀ m, ends app_in_step (λ b, on_app (body b m))) by (intros; by apply ends_on_app).
  unfold callback. solve_ends.
Qed.

Section client.
Context {CRC : Crc32c} (regex_extended : string → exc (string → bool)).
Context `{!MapIteration T_SendBufferKey.t T_BufferedSend.t}.

Lemma ends_deliver_all events : ends in_step (λ b, deliver_all regex_extended b.1 b.2 events).
Proof.
  induction events as [|e events IH]; cbn [deliver_all]; [apply ends_const, keeps_ret|].
  pose proof (ends_handle regex_extended). assert (ends in_step (λ b, deliver regex_extended b.1 b.2 e)); [|solve_ends].
  unfold deliver. destruct e; solve_ends. apply ends_catch; auto.
Qed.

Lemma ends_sender watcher_starts script :
  ends app_in_step (λ b, run_sender regex_extended b.1 b.2 watcher_starts script).
Proof.
  unfold run_sender. apply ends_bind; [|intros _; apply ends_bind; [|intros _]].
  - apply (ends_callback (λ _ _, start watcher_starts)). intros _. apply ends_const, keeps_begin.
  - apply (ends_on_app (λ _, modify _)), ends_const, keeps_modify. by intros s Hs.
  - apply ends_loop; [unfold app_in_step; by intros s s' ->|intros [| |id] revents|intros [what|id|id]];
      cbn [io_callback timer_callback]; try apply ends_const, keeps_ret.
    + apply (ends_callback (λ b m, deliver_all regex_extended b.1 b.2 m.(delivered))). intros m. apply ends_deliver_all.
    + apply (ends_callback (λ b m, handle regex_extended b.1 b.2 (event_of_later what m))). intros m. apply ends_handle.
    + apply (ends_callback (λ b _, handle regex_extended b.1 b.2 (ReconnectTimer id))). intros m. apply ends_handle.
Qed.
End client.
End LoopEnds.

Import SenderOnLoop.

(** Whatever the turns and the depth, the timer of the start ends the run. *)
Lemma sender_run_leaves_poll {CRC : Crc32c} (regex_extended : string → exc (string → bool))
    `{!MapIteration T_SendBufferKey.t T_BufferedSend.t} (depth : nat) (loop_fuel : SenderApp.limit)
    options w app w' watcher_starts first rest (script : list LoopRun.turn) :
  options.(T_NodeOptions.watch) = false →
  SenderApp.create regex_extended options w = (Ret app, w') →
  Exists (LoopFacts.reaches (first.(now) + 30000 * 1000000)) script →
  (run_sender regex_extended depth loop_fuel watcher_starts script (initial app (first :: rest))).1
    ≠ Ret LoopRun.Polling.
Proof.
  intros Hwatch Hcreate Hscript. apply create_unstarted in Hcreate as Hu. unfold run_sender.
  destruct (callback (λ _, SenderApp.start watcher_starts) (initial app (first :: rest))) as [[[]|e] s1] eqn:Ec; [|by erewrite bind_throw].
  erewrite bind_ret by done. apply callback_inv in Ec as (m & app1 & Ha & Eapp & _ & Em & Hx). cbn in Em. subst m.
  destruct (sender_start_inv options watcher_starts app app1 Hwatch Hu Ha) as [(Ho & Hd & Hs) Hin].
  destruct (Hx _ _ Hin) as (x & Hxin & Hdl & Hcb). erewrite bind_ret by done.
  unfold LoopRun.run. erewrite bind_ret by done. apply (LoopFacts.turns_end _ _ settled) with (x := x).
  - intros [what|id|id] revents; try (apply triple_ret; auto).
    apply callback_settled. intros m. apply keeps_deliver_all.
  - intros [what|id|id]; [..|apply triple_ret; auto]; apply callback_settled; intros m; apply EndingFacts.keeps_event.
  - by apply timeout_ends.
  - split; [split|done]; cbn; rewrite Eapp; cbn; [by rewrite Ho|by rewrite Hd].
  - done.
  - by rewrite Hdl.
Qed.

(** C10: a run of the sender ends: one that does not watch its sources has
    returned, or thrown, by the first turn of the loop whose clock reaches 30
    seconds after the start, whatever the kernel answers, its lines do and its
    receivers send until then: there is a number of turns and a depth of reports
    with which its handlers come to an end, and with these or more the run has
    one and the same end.  (When all is sent it stops before, see
    [done_only_when_confirmed].) *)
Theorem sender_run_terminates {CRC : Crc32c} (regex_extended : string → exc (string → bool))
    `{!MapIteration T_SendBufferKey.t T_BufferedSend.t}
    options w app w' watcher_starts first rest (script : list LoopRun.turn) :
  options.(T_NodeOptions.watch) = false →
  SenderApp.create regex_extended options w = (Ret app, w') →
  Exists (LoopFacts.reaches (first.(now) + 30000 * 1000000)) script →
  ∃ n r s, r ≠ Ret LoopRun.Polling ∧
    ∀ depth (loop_fuel : SenderApp.limit), (n ≤ depth)%nat → (n ≤ loop_fuel.(SenderApp.turns))%nat →
    run_sender regex_extended depth loop_fuel watcher_starts script (initial app (first :: rest)) = (r, s).
Proof.
  intros Hwatch Hcreate Hscript.
  destruct (LoopEnds.ends_sender regex_extended watcher_starts script (initial app (first :: rest))
    (HandlersEnd.create_in_step _ _ _ _ _ Hcreate)) as (r & s & [n Hn] & _).
  exists n, r, s. split; [|intros depth loop_fuel Hd Hl; by apply (Hn (depth, loop_fuel))].
  pose proof (sender_run_leaves_poll regex_extended n n options w app w' watcher_starts first rest script
    Hwatch Hcreate Hscript) as Hp.
  pose proof (Hn (n, SenderApp.limit_of n) ltac:(by split)) as Er. cbn [fst snd] in Er. by rewrite Er in Hp.
Qed.

(** ** On concrete runs *)
#[local] Existing Instance some_order.
Definition silent (now : Z) : moment := mk_moment now [] [] [].
(** Nobody answers: the loop wakes up 10 milliseconds and 30 seconds after the start. *)
Definition lonely_script : list LoopRun.turn :=
  [LoopRun.mk_turn 0 (λ _ _, LoopRun.Poll_ready []) 10000000;
   LoopRun.mk_turn 10000000 (λ _ _, LoopRun.Poll_ready []) 30000000000].
Definition lonely_run (app : SenderApp.t) : exc LoopRun.outcome * LoopRun.t closure world :=
  run_sender (λ _, Throw "") 3 10%nat (λ _, true) lonely_script (initial app [silent 0; silent 10000000]).

Lemma sender_run_terminates_witness :
  ∃ app, sample_start = (Ret app, sample_world) ∧
    SenderApp.exit_code (lonely_run app).2.(LoopRun.world_).(app_) = 1 ∧
    ∃ n r s, r ≠ Ret LoopRun.Polling ∧
      ∀ depth (loop_fuel : SenderApp.limit), (n ≤ depth)%nat → (n ≤ loop_fuel.(SenderApp.turns))%nat →
      run_sender (λ _, Throw "") depth loop_fuel (λ _, true) lonely_script (initial app [silent 0; silent 10000000]) = (r, s).
Proof.
  destruct sample_start as [[app|e] w] eqn:E; [|vm_compute in E; discriminate].
  assert (w = sample_world) as -> by (vm_compute in E; by injection E as _ <-).
  exists app. split; [done|]. split.
  - assert (match sample_start with (Ret app, _) => SenderApp.exit_code (lonely_run app).2.(LoopRun.world_).(app_)
              | _ => 1 end = 1) as Hc by (vm_compute; reflexivity).
    by rewrite E in Hc.
  - assert (Exists (LoopFacts.reaches ((silent 0).(now) + 30000 * 1000000)) lonely_script) as Hr
      by (right; left; split; [done|cbn; lia]).
    exact (sender_run_terminates (λ _, Throw "") sample_options sample_world app sample_world (λ _, true)
      (silent 0) [silent 10000000] lonely_script eq_refl E Hr).
Defined.

(** A stop before [run] is lost: a sender whose watcher does not start has
    failed and asked its loop to stop; the loop then runs all the same, and
    nothing in the sender stops it again. *)
Definition watching_options : T_NodeOptions.t :=
  let d := T_NodeOptions.defaults ["tmp"] in
  T_NodeOptions.mk "sender" d.(T_NodeOptions.host) d.(T_NodeOptions.base_port) 1 3 d.(T_NodeOptions.root) ["src"] 0 [] [] []
    [] EM_Compression.NONE EM_ChecksumAlgo.CRC32C kLineWindowBytes 65536 300 100 5 3 64 20 100 2000 50 2 true
    EM_WatchBackend.AUTO 500 200.
Definition watched_world : fsys := mk_fsys {[ [] := Dir; ["src"%string] := Dir ]} [].
Definition failed_watch_script : list LoopRun.turn :=
  lonely_script ++ [LoopRun.mk_turn 30000000000 (λ _ _, LoopRun.Poll_ready []) 3600000000000].
Definition failed_watch_run : option (exc LoopRun.outcome * bool) :=
  match SenderApp.create (λ _, Ret (λ _, true)) watching_options watched_world with
  | (Ret app, _) =>
      let '(r, s) := run_sender (λ _, Ret (λ _, true)) 3 10%nat (λ _, false) failed_watch_script
        (initial app [mk_moment 0 [] [] [Watches 7 EventLoop.POLLOUT 1]; silent 10000000]) in
      Some (r, s.(LoopRun.world_).(app_).(SenderApp.failed_))
  | (Throw _, _) => None
  end.
Lemma stop_before_run_lost : failed_watch_run = Some (Ret LoopRun.Polling, true).
Proof. vm_compute. reflexivity. Qed.
