(* ===== verification/DiskWriter.v ===== *)
(** * The disk writer: [include/receiver/yisync_disk_writer.hpp], [src/receiver/yisync_disk_writer.cpp]

    A thread that runs the tasks of a ring buffer, filled by the thread of the
    event loop.  Each access to an atomic is a step of one of the two threads,
    and a schedule says which thread moves next; the refinement shows that in
    every schedule the ring is a bounded first-in first-out queue, which is the
    writer the receiver's coordinator is modelled with. *)
From Stdlib Require Import ZifyNat.
From S2P Require Import Prelude.

Definition kDefaultDiskWriterQueueCapacity : nat := 128.

(** A message in an [std::array<char, 160>], with its terminator. *)
Definition copy_error (message : string) : string := String.substring 0 159 message.

(** ** The queue the writer promises *)
Module TaskQueue.
Section queue.
Context {T : Type}.

(** Tasks accepted and not yet started, the task being run, and whether the
    writer has been told to stop. *)
Record t := mk { waiting : list T; running : option T; closed : bool }.
Definition empty : t := mk [] None false.

(** What a user of the writer observes. *)
Inductive event :=
  | Accepted (task : T)
  | Refused (task : T)
  | Started (task : T)
  | Finished (task : T) (thrown : option string)
  | Drained
  | Stopping.

Inductive step : t → event → t → Prop :=
  | step_accept task w r : (length w < kDefaultDiskWriterQueueCapacity)%nat →
      step (mk w r false) (Accepted task) (mk (w ++ [task]) r false)
  | step_refuse task w r c : c = true ∨ length w = kDefaultDiskWriterQueueCapacity →
      step (mk w r c) (Refused task) (mk w r c)
  | step_start task w c : step (mk (task :: w) None c) (Started task) (mk w (Some task) c)
  | step_finish task w c thrown : step (mk w (Some task) c) (Finished task thrown) (mk w None c)
  | step_drained c : step (mk [] None c) Drained (mk [] None c)
  | step_stop w r c : step (mk w r c) Stopping (mk w r true).

Inductive steps : t → list event → t → Prop :=
  | steps_nil q : steps q [] q
  | steps_cons q e q1 es q2 : step q e q1 → steps q1 es q2 → steps q (e :: es) q2.

(** The calls of a user that does not look inside the queue: [enqueue] answers
    whether the task was taken; the writer starts the next task, and ends it. *)
Definition enqueue (task : T) (q : t) : bool * t :=
  if q.(closed) || bool_decide (kDefaultDiskWriterQueueCapacity ≤ length q.(waiting))%nat then (false, q)
  else (true, mk (q.(waiting) ++ [task]) q.(running) q.(closed)).
Definition start (q : t) : t :=
  match q.(running), q.(waiting) with
  | None, task :: w => mk w (Some task) q.(closed)
  | _, _ => q
  end.
Definition finish (q : t) : t := mk q.(waiting) None q.(closed).

Lemma enqueue_step task q :
  (length q.(waiting) ≤ kDefaultDiskWriterQueueCapacity)%nat →
  step q (if (enqueue task q).1 then Accepted task else Refused task) (enqueue task q).2.
Proof.
  destruct q as [w r c]. unfold enqueue. cbn [closed waiting running]. intros Hl.
  destruct c; cbn [orb]; [constructor; by left|].
  case_bool_decide; cbn [fst snd]; constructor; [right|]; lia.
Qed.

Lemma steps_app q es1 q1 es2 q2 : steps q es1 q1 → steps q1 es2 q2 → steps q (es1 ++ es2) q2.
Proof. induction 1; cbn; [done|]. intros. econstructor; eauto. Qed.

Definition accepted (es : list event) : list T := es ≫= λ e, match e with Accepted task => [task] | _ => [] end.
Definition started (es : list event) : list T := es ≫= λ e, match e with Started task => [task] | _ => [] end.
Definition finished (es : list event) : list T := es ≫= λ e, match e with Finished task _ => [task] | _ => [] end.

(** First in, first out; nothing is lost or run twice. *)
Lemma steps_fifo q es q' :
  steps q es q' →
  q.(waiting) ++ accepted es = started es ++ q'.(waiting) ∧
  option_list q.(running) ++ started es = finished es ++ option_list q'.(running).
Proof.
  induction 1 as [q|q e q1 es q2 Hs _ [IH1 IH2]]; [by rewrite !app_nil_r|].
  unfold accepted, started, finished in *.
  destruct Hs; cbn in *; rewrite <- ?app_assoc in *; cbn in *; split; congruence.
Qed.
End queue.
Arguments t : clear implicits.
Arguments event : clear implicits.
End TaskQueue.

(** ** The two threads *)
Module SpscDiskWriter.
Import TaskQueue.

Definition kCapacity : nat := kDefaultDiskWriterQueueCapacity + 1.
Definition increment (value : nat) : nat := (value + 1) mod kCapacity.
Arguments increment : simpl never.

Section writer.
Context {T : Type}.

(** Where the writer's thread is in [run]: at the loads of [head_] and [tail_]
    (only this thread stores [head_]), at the load of [stopping_], at the store
    of [busy_], at the move of the task, at the store of [head_], in the task, in
    the handler, at the store of [failed_], at the last store of [busy_], or
    returned. *)
Inductive worker_pc :=
  | AtTop | AtStopping | AtBusy | AtTake | AtPublish (task : option T) | AtRun (task : option T)
  | AtError (what : string) | AtFailed | AtIdle | Returned.

(** Where the event loop's thread is: outside, in [enqueue], [drain] or [stop]. *)
Inductive caller_pc :=
  | Outside | AtRoom (task : T) | AtSlot (task : T) (tail : nat) | AtTail (task : T) (tail : nat)
  | AtHead | AtDrainTail (head : nat) | AtDrainBusy | AtJoin.

Record t := mk {
  queue_ : list (option T); head_ : nat; tail_ : nat; busy_ : bool; stopping_ : bool; failed_ : bool;
  error_ : string; worker : worker_pc; caller : caller_pc
}.

Definition create : t :=
  mk (replicate kCapacity None) 0 0 false false false "" AtTop Outside.

Definition at_worker (pc : worker_pc) (s : t) : t :=
  mk s.(queue_) s.(head_) s.(tail_) s.(busy_) s.(stopping_) s.(failed_) s.(error_) pc s.(caller).
Definition at_caller (pc : caller_pc) (s : t) : t :=
  mk s.(queue_) s.(head_) s.(tail_) s.(busy_) s.(stopping_) s.(failed_) s.(error_) s.(worker) pc.
Definition set_slot (i : nat) (task : option T) (s : t) : t :=
  mk (<[i := task]> s.(queue_)) s.(head_) s.(tail_) s.(busy_) s.(stopping_) s.(failed_) s.(error_) s.(worker) s.(caller).
Definition set_head (head : nat) (s : t) : t :=
  mk s.(queue_) head s.(tail_) s.(busy_) s.(stopping_) s.(failed_) s.(error_) s.(worker) s.(caller).
Definition set_tail (tail : nat) (s : t) : t :=
  mk s.(queue_) s.(head_) tail s.(busy_) s.(stopping_) s.(failed_) s.(error_) s.(worker) s.(caller).
Definition set_busy (busy : bool) (s : t) : t :=
  mk s.(queue_) s.(head_) s.(tail_) busy s.(stopping_) s.(failed_) s.(error_) s.(worker) s.(caller).
Definition set_stopping (s : t) : t :=
  mk s.(queue_) s.(head_) s.(tail_) s.(busy_) true s.(failed_) s.(error_) s.(worker) s.(caller).
Definition set_failed (s : t) : t :=
  mk s.(queue_) s.(head_) s.(tail_) s.(busy_) s.(stopping_) true s.(error_) s.(worker) s.(caller).
Definition set_error (error : string) (s : t) : t :=
  mk s.(queue_) s.(head_) s.(tail_) s.(busy_) s.(stopping_) s.(failed_) error s.(worker) s.(caller).

(** The next step of [run]; [thrown] is what the task throws, if it does. *)
Definition run (thrown : option string) (s : t) : t * list (event T) :=
  match s.(worker) with
  | AtTop => (at_worker (if bool_decide (s.(head_) = s.(tail_)) then AtStopping else AtBusy) s, [])
  | AtStopping => (at_worker (if s.(stopping_) then Returned else AtTop) s, [])
  | AtBusy => (at_worker AtTake (set_busy true s), [])
  | AtTake =>
      (at_worker (AtPublish (default None (s.(queue_) !! s.(head_)))) (set_slot s.(head_) None s), [])
  | AtPublish task =>
      (at_worker (AtRun task) (set_head (increment s.(head_)) s),
       match task with Some task => [Started task] | None => [] end)
  | AtRun (Some task) =>
      (at_worker (match thrown with Some what => AtError what | None => AtIdle end) s, [Finished task thrown])
  | AtRun None => (at_worker (AtError "bad_function_call") s, [])
  | AtError what => (at_worker AtFailed (set_error (copy_error what) s), [])
  | AtFailed => (at_worker AtIdle (set_failed s), [])
  | AtIdle => (at_worker AtTop (set_busy false s), [])
  | Returned => (s, [])
  end.

(** A call of [enqueue]: the load of [stopping_]; the loads and stores after it
    are steps of [continue]. *)
Definition enqueue (task : T) (s : t) : t * list (event T) :=
  if s.(stopping_) then (s, [Refused task]) else (at_caller (AtRoom task) s, []).

Definition drain (s : t) : t * list (event T) := (at_caller AtHead s, []).

(** [stop]: the exchange; then the thread is joined. *)
Definition stop (s : t) : t * list (event T) :=
  if s.(stopping_) then (s, [])
  else (at_caller AtJoin (set_stopping s), [Stopping]).

(** The next step of the call in progress. *)
Definition continue (s : t) : t * list (event T) :=
  match s.(caller) with
  | Outside => (s, [])
  | AtRoom task =>
      let tail := s.(tail_) in
      if bool_decide (increment tail = s.(head_)) then (at_caller Outside s, [Refused task])
      else (at_caller (AtSlot task tail) s, [])
  | AtSlot task tail => (at_caller (AtTail task tail) (set_slot tail (Some task) s), [])
  | AtTail task tail => (at_caller Outside (set_tail (increment tail) s), [Accepted task])
  | AtHead => (at_caller (AtDrainTail s.(head_)) s, [])
  | AtDrainTail head =>
      (at_caller (if bool_decide (head = s.(tail_)) then AtDrainBusy else AtHead) s, [])
  | AtDrainBusy => if s.(busy_) then (at_caller AtHead s, []) else (at_caller Outside s, [Drained])
  | AtJoin => (match s.(worker) with Returned => at_caller Outside s | _ => s end, [])
  end.

(** What the scheduler lets happen next; a call starts only from outside. *)
Inductive action :=
  | Worker (thrown : option string)
  | Continue
  | Enqueue (task : T)
  | Drain
  | Stop.

Definition act (a : action) (s : t) : t * list (event T) :=
  match a with
  | Worker thrown => run thrown s
  | Continue => continue s
  | Enqueue task => match s.(caller) with Outside => enqueue task s | _ => (s, []) end
  | Drain => match s.(caller) with Outside => drain s | _ => (s, []) end
  | Stop => match s.(caller) with Outside => stop s | _ => (s, []) end
  end.

Fixpoint schedule (actions : list action) (s : t) : t * list (event T) :=
  match actions with
  | [] => (s, [])
  | a :: actions =>
      let '(s, es1) := act a s in
      let '(s, es2) := schedule actions s in
      (s, es1 ++ es2)
  end.
End writer.
Arguments t : clear implicits.
End SpscDiskWriter.

(** ** The ring is the queue *)
Module WriterRefinement.
Import SpscDiskWriter.

(** Arithmetic of the ring's positions. *)
Ltac ring_lia :=
  unfold increment, kCapacity, kDefaultDiskWriterQueueCapacity in *; cbn [Nat.add] in *; zify;
  Z.to_euclidean_division_equations; lia.

Section refinement.
Context {T : Type}.

Definition position (s : t T) (i : nat) : nat := (s.(head_) + i) mod kCapacity.
#[local] Arguments position : simpl never.
#[local] Arguments Nat.modulo : simpl never.

(** The slots from the head hold the tasks that wait; the first slot is empty
    while the worker has the task in its hands. *)
Definition holds (s : t T) (w : list T) : Prop :=
  ∀ i task, w !! i = Some task →
    (i = 0%nat ∧ ∃ k, s.(worker) = AtPublish k) ∨ s.(queue_) !! position s i = Some (Some task).

Definition worker_at (s : t T) (q : TaskQueue.t T) : Prop :=
  match s.(worker) with
  | AtTop | AtStopping | Returned => q.(TaskQueue.running) = None
  | AtBusy => q.(TaskQueue.running) = None ∧ q.(TaskQueue.waiting) ≠ []
  | AtTake => q.(TaskQueue.running) = None ∧ q.(TaskQueue.waiting) ≠ [] ∧ s.(busy_) = true
  | AtPublish task =>
      q.(TaskQueue.running) = None ∧ s.(busy_) = true ∧ ∃ k, task = Some k ∧ head q.(TaskQueue.waiting) = Some k
  | AtRun task => s.(busy_) = true ∧ ∃ k, task = Some k ∧ q.(TaskQueue.running) = Some k
  | AtError _ | AtFailed | AtIdle => q.(TaskQueue.running) = None ∧ s.(busy_) = true
  end.

Definition caller_at (s : t T) (q : TaskQueue.t T) : Prop :=
  let room := s.(stopping_) = false ∧ (length q.(TaskQueue.waiting) < kDefaultDiskWriterQueueCapacity)%nat in
  match s.(caller) with
  | Outside | AtHead | AtJoin => True
  | AtRoom _ => s.(stopping_) = false
  | AtSlot _ tail => tail = s.(tail_) ∧ room
  | AtTail task tail => tail = s.(tail_) ∧ room ∧ s.(queue_) !! tail = Some (Some task)
  | AtDrainTail head => head = s.(tail_) → q.(TaskQueue.waiting) = []
  | AtDrainBusy => q.(TaskQueue.waiting) = []
  end.

Definition represents (s : t T) (q : TaskQueue.t T) : Prop :=
  (length s.(queue_) = kCapacity ∧ s.(head_) < kCapacity ∧
   length q.(TaskQueue.waiting) ≤ kDefaultDiskWriterQueueCapacity)%nat ∧
  s.(tail_) = position s (length q.(TaskQueue.waiting)) ∧
  q.(TaskQueue.closed) = s.(stopping_) ∧
  holds s q.(TaskQueue.waiting) ∧ worker_at s q ∧ caller_at s q.

Lemma represents_create : represents create TaskQueue.empty.
Proof. split_and!; try done; cbn; unfold kCapacity, kDefaultDiskWriterQueueCapacity; lia. Qed.

(** The positions of the window are different slots. *)
Lemma position_inj s i j :
  (i ≤ kDefaultDiskWriterQueueCapacity → j ≤ kDefaultDiskWriterQueueCapacity →
   position s i = position s j → i = j)%nat.
Proof. unfold position. ring_lia. Qed.

Lemma position_lt s i : (position s i < kCapacity)%nat.
Proof. unfold position. apply Nat.mod_upper_bound. done. Qed.

Lemma position_0 s : (s.(head_) < kCapacity)%nat → position s 0 = s.(head_).
Proof. unfold position. ring_lia. Qed.

Lemma represents_empty s q :
  represents s q → s.(head_) = s.(tail_) ↔ q.(TaskQueue.waiting) = [].
Proof.
  intros ((_ & Hh & Hl) & Ht & _). split.
  - intros He. apply nil_length_inv, (position_inj s); [lia|unfold kDefaultDiskWriterQueueCapacity; lia|].
    by rewrite <- Ht, position_0.
  - intros He. by rewrite Ht, He, position_0.
Qed.

Lemma represents_full s q :
  represents s q →
  increment s.(tail_) = s.(head_) ↔ length q.(TaskQueue.waiting) = kDefaultDiskWriterQueueCapacity.
Proof. intros ((_ & Hh & Hl) & Ht & _). rewrite Ht. unfold position. split; ring_lia. Qed.

(** *** The worker *)
Lemma holds_at_worker s pc w :
  (∀ k, s.(worker) ≠ AtPublish k) → holds s w → holds (at_worker pc s) w.
Proof. intros Hn Hh i task Hi. destruct (Hh i task Hi) as [[_ [k Hk]]|Hq]; [by destruct (Hn k)|by right]. Qed.

(** The worker moves, the queue stays. *)
Lemma run_silent s q s' :
  represents s q →
  s'.(queue_) = s.(queue_) → s'.(head_) = s.(head_) → s'.(tail_) = s.(tail_) →
  s'.(stopping_) = s.(stopping_) → s'.(caller) = s.(caller) →
  (∀ k, s.(worker) ≠ AtPublish k) → worker_at s' q → represents s' q.
Proof.
  intros ((Hl1 & Hl2 & Hl3) & Ht & Hc & Hh & _ & Hk) Eq Eh Et Es Ec Hn Hw.
  unfold represents, holds, position, caller_at in *. rewrite Eq, Eh, Et, Es, Ec. split_and!; try done.
  intros i task Hi. destruct (Hh i task Hi) as [[_ [k E]]|Hq]; [by destruct (Hn k)|by right].
Qed.

Lemma run_take s q task w :
  represents s q → s.(worker) = AtTake → q.(TaskQueue.waiting) = task :: w →
  (run None s).1.(worker) = AtPublish (Some task) ∧ represents (run None s).1 q.
Proof.
  intros ((Hl1 & Hl2 & Hl3) & Ht & Hc & Hh & Hw & Hk) Ew Eq. unfold run. rewrite Ew. cbn.
  assert (Hq : s.(queue_) !! s.(head_) = Some (Some task)).
  { destruct (Hh 0%nat task) as [[_ [k Ek]]|Hq]; [by rewrite ?Eq|congruence|].
    by rewrite position_0 in Hq by done. }
  rewrite Hq. cbn. split; [done|]. unfold worker_at in Hw. rewrite Ew in Hw. destruct Hw as (Hr & _ & Hb).
  unfold represents, caller_at, worker_at, position in *. cbn. rewrite length_insert. split_and!; try done.
  - intros i task' Hi. destruct (decide (i = 0%nat)) as [->|Hi0]; [left; eauto|right].
    destruct (Hh i task' Hi) as [[-> _]|Hs]; [done|]. unfold position in *. cbn. rewrite list_lookup_insert_ne; [done|].
    intros E. apply Hi0. apply lookup_lt_Some in Hi. symmetry. apply (position_inj s); [lia|lia|].
    rewrite position_0 by done. done.
  - rewrite Eq. eauto.
  - destruct (s.(caller)); try done. destruct Hk as (E1 & (E2 & E3) & Hs). split_and!; [done..|].
    rewrite list_lookup_insert_ne; [done|]. intros E.
    assert (0%nat = length q.(TaskQueue.waiting)) as El; [|rewrite Eq in El; done].
    apply (position_inj s); [lia|lia|]. rewrite position_0 by done. by rewrite E, E1, Ht.
Qed.

Lemma run_publish s q task w k :
  represents s q → s.(worker) = AtPublish k → q.(TaskQueue.waiting) = task :: w →
  ∃ q', TaskQueue.step q (TaskQueue.Started task) q' ∧ (run None s).2 = [TaskQueue.Started task] ∧
    represents (run None s).1 q'.
Proof.
  intros ((Hl1 & Hl2 & Hl3) & Ht & Hc & Hh & Hw & Hk) Ew Eq. unfold run. rewrite Ew. unfold worker_at in Hw. rewrite Ew in Hw.
  destruct Hw as (Hr & Hb & k' & -> & Hk'). rewrite Eq in Hk'. injection Hk' as <-.
  destruct q as [w0 r c]. cbn in *. subst w0 r. exists (TaskQueue.mk w (Some task) c).
  split_and!; [constructor|done|]. unfold represents in *. cbn in *. split_and!; try done.
  - apply Nat.mod_upper_bound. done.
  - lia.
  - rewrite Ht. unfold position. cbn. ring_lia.
  - intros i task' Hi. right. destruct (Hh (S i) task') as [[? _]|Hs]; [done|done|].
    rewrite <- Hs. cbn. f_equal. unfold position. cbn. ring_lia.
  - unfold worker_at. cbn. eauto.
  - unfold caller_at in *. cbn in *. destruct (s.(caller)); try done.
    + destruct Hk as (? & ? & ?). split_and!; [done..|lia].
    + destruct Hk as (? & (? & ?) & ?). split_and!; [done..|lia|done].
    + intros E. by specialize (Hk E).
Qed.

(** Zero or one step of the queue. *)
Lemma run_represents thrown s q :
  represents s q → ∃ q', TaskQueue.steps q (run thrown s).2 q' ∧ represents (run thrown s).1 q'.
Proof.
  intros HR. pose proof HR as (_ & _ & _ & _ & Hw & _). unfold worker_at in Hw.
  destruct (s.(worker)) as [| | | |k|k|what| | |] eqn:Ew; unfold run; rewrite Ew.
  - exists q. split; [constructor|]. apply (run_silent s); try done; [by rewrite Ew|].
    pose proof (represents_empty s q HR). unfold worker_at. cbn.
    destruct (bool_decide_reflect (s.(head_) = s.(tail_))); [done|]. split; [done|]. tauto.
  - exists q. split; [constructor|]. apply (run_silent s); try done; [by rewrite Ew|].
    unfold worker_at. cbn. by destruct (s.(stopping_)).
  - exists q. split; [constructor|]. apply (run_silent s); try done; [by rewrite Ew|].
    unfold worker_at. cbn. tauto.
  - destruct (q.(TaskQueue.waiting)) as [|task w] eqn:Eq; [tauto|].
    exists q. split; [constructor|]. pose proof (run_take s q task w HR Ew Eq) as [_ H].
    unfold run in H. by rewrite Ew in H.
  - destruct Hw as (_ & _ & k' & -> & Hk). destruct (q.(TaskQueue.waiting)) as [|task w] eqn:Eq; [done|].
    destruct (run_publish s q task w _ HR Ew Eq) as (q' & Hs & He & H). exists q'.
    unfold run in H, He. rewrite Ew in H, He. rewrite He. split; [|done].
    econstructor; [done|constructor].
  - destruct Hw as (Hb & k' & -> & Hr). destruct q as [w r c]. cbn in *. subst r.
    exists (TaskQueue.mk w None c). split; [econstructor; [constructor|constructor]|].
    destruct HR as ((Hl1 & Hl2 & Hl3) & Ht & Hc & Hh & _ & Hk). cbn in *.
    unfold represents, holds, position, caller_at, worker_at in *. cbn in *. split_and!; try tauto.
    + intros i task' Hi. destruct (Hh i task' Hi) as [[_ [k E]]|Hq]; [congruence|by right].
    + by destruct thrown.
  - exists q. split; [constructor|]. apply (run_silent s); try done; by rewrite Ew.
  - exists q. split; [constructor|]. apply (run_silent s); try done; by rewrite Ew.
  - exists q. split; [constructor|]. apply (run_silent s); try done; [by rewrite Ew|].
    unfold worker_at. cbn. tauto.
  - exists q. split; [constructor|done].
Qed.

(** *** The caller *)
Lemma caller_silent s q s' :
  represents s q →
  s'.(queue_) = s.(queue_) → s'.(head_) = s.(head_) → s'.(tail_) = s.(tail_) →
  s'.(stopping_) = s.(stopping_) → s'.(worker) = s.(worker) → s'.(busy_) = s.(busy_) →
  caller_at s' q → represents s' q.
Proof.
  intros (Hl & Ht & Hc & Hh & Hw & _) Eq Eh Et Es Ew Eb Hk.
  unfold represents, holds, position, worker_at in *. rewrite Eq, Eh, Et, Es, Ew, ?Eb. tauto.
Qed.

(** The slot behind the window is filled. *)
Lemma represents_fill s q task :
  represents s q → (length q.(TaskQueue.waiting) < kDefaultDiskWriterQueueCapacity)%nat → s.(stopping_) = false →
  represents (at_caller (AtTail task s.(tail_)) (set_slot s.(tail_) (Some task) s)) q.
Proof.
  intros ((Hl1 & Hl2 & Hl3) & Ht & Hc & Hh & Hw & _) Hroom Hs.
  unfold represents, holds, position, caller_at, worker_at in *. cbn. rewrite length_insert. split_and!; try done.
  - intros i task' Hi. destruct (Hh i task' Hi) as [H|H]; [by left|right].
    rewrite list_lookup_insert_ne; [done|]. rewrite Ht. intros E. apply lookup_lt_Some in Hi.
    apply (position_inj s) in E; lia.
  - rewrite list_lookup_insert_eq; [done|]. rewrite Hl1, Ht. apply position_lt.
Qed.

(** The window takes the filled slot in. *)
Lemma represents_accept s q task tail :
  represents s q → s.(caller) = AtTail task tail →
  ∃ q', TaskQueue.step q (TaskQueue.Accepted task) q' ∧
    represents (at_caller Outside (set_tail (increment tail) s)) q'.
Proof.
  intros ((Hl1 & Hl2 & Hl3) & Ht & Hc & Hh & Hw & Hk) Ek. unfold caller_at in Hk. rewrite Ek in Hk.
  destruct Hk as (-> & (Hs & Hroom) & Hslot). destruct q as [w r c]. cbn in *. rewrite Hs in Hc. subst c.
  exists (TaskQueue.mk (w ++ [task]) r false). split; [by constructor|].
  unfold represents. cbn. rewrite length_app. cbn. split_and!; try done.
  - lia.
  - rewrite Ht. unfold position. cbn. ring_lia.
  - intros i task' Hi. unfold position. cbn. apply lookup_snoc_Some in Hi as [[_ Hi]|[-> <-]].
    + by apply Hh.
    + right. by rewrite <- Hslot, Ht.
  - unfold worker_at in *. cbn in *. destruct (s.(worker)); try done.
    + destruct Hw as [? ?]. split; [done|]. by destruct w.
    + destruct Hw as (? & ? & ?). split_and!; try done. by destruct w.
    + destruct Hw as (? & ? & k & ? & Hk). split_and!; try done. exists k. split; [done|]. by destruct w.
Qed.

Lemma continue_represents s q :
  represents s q → ∃ q', TaskQueue.steps q (continue s).2 q' ∧ represents (continue s).1 q'.
Proof.
  intros HR. pose proof HR as (_ & Ht & Hc & Hh & Hw & Hk). unfold caller_at in Hk.
  destruct (s.(caller)) as [|task|task tail|task tail| |h| |] eqn:Ek; unfold continue; rewrite Ek.
  - exists q. split; [constructor|done].
  - pose proof (represents_full s q HR) as Hfull. case_bool_decide as E.
    + exists q. split; [|by apply (caller_silent s)]. destruct q as [w r c].
      econstructor; [|constructor]. constructor. right. tauto.
    + exists q. split; [constructor|]. apply (caller_silent s); try done. unfold caller_at. cbn.
      destruct HR as ((_ & _ & Hl) & _). split_and!; try done. destruct (decide (length q.(TaskQueue.waiting) = kDefaultDiskWriterQueueCapacity)); [tauto|lia].
  - destruct Hk as (-> & Hs & Hroom). exists q. split; [constructor|]. by apply represents_fill.
  - destruct (represents_accept s q task tail HR Ek) as (q' & Hs & H).
    exists q'. split; [|done]. by econstructor; [|constructor].
  - exists q. split; [constructor|]. apply (caller_silent s); try done. unfold caller_at. cbn.
    intros E. by apply (represents_empty s q HR).
  - exists q. split; [constructor|]. apply (caller_silent s); try done. unfold caller_at.
    case_bool_decide; cbn; auto.
  - destruct (s.(busy_)) eqn:Eb; exists q; (split; [|by apply (caller_silent s)]).
    + constructor.
    + destruct q as [w r c]. cbn in *. subst w. assert (r = None) as ->.
      { unfold worker_at in Hw. cbn in Hw. destruct (s.(worker)); intuition congruence. }
      econstructor; constructor.
  - exists q. split; [constructor|]. destruct (s.(worker)) eqn:Ew; try done. by apply (caller_silent s).
Qed.

Lemma act_represents a s q :
  represents s q → ∃ q', TaskQueue.steps q (act a s).2 q' ∧ represents (act a s).1 q'.
Proof.
  intros HR. pose proof HR as (Hl & _ & Hc & _ & Hw & _).
  assert (∃ q', TaskQueue.steps q [] q' ∧ represents s q') as Hsame by (exists q; split; [constructor|done]).
  destruct a as [thrown| |task| |]; cbn [act].
  - by apply run_represents.
  - by apply continue_represents.
  - destruct (s.(caller)); try done. unfold enqueue. destruct (s.(stopping_)) eqn:Es; exists q; split; cbn.
    + destruct q as [w r c]. cbn in *. econstructor; [|constructor]. constructor. by left.
    + done.
    + constructor.
    + by apply (caller_silent s).
  - destruct (s.(caller)); try done. exists q. split; [constructor|]. by apply (caller_silent s).
  - destruct (s.(caller)); try done. unfold stop. destruct (s.(stopping_)) eqn:Es; [done|].
    destruct q as [w r c]. exists (TaskQueue.mk w r true).
    split; [econstructor; constructor|]. destruct HR as ((? & ? & ?) & ? & _ & ? & ? & ?).
    by split_and!.
Qed.

Lemma schedule_represents actions s q :
  represents s q →
  ∃ q', TaskQueue.steps q (schedule actions s).2 q' ∧ represents (schedule actions s).1 q'.
Proof.
  revert s q. induction actions as [|a actions IH]; intros s q HR; cbn; [exists q; split; [constructor|done]|].
  destruct (act_represents a s q HR) as (q1 & H1 & HR1). destruct (act a s) as [s1 es1]. cbn in *.
  destruct (IH s1 q1 HR1) as (q2 & H2 & HR2). destruct (schedule actions s1) as [s2 es2]. cbn in *.
  exists q2. split; [by eapply TaskQueue.steps_app|done].
Qed.

Lemma schedule_app l1 l2 (s : t T) :
  schedule (l1 ++ l2) s =
  (let '(s1, es1) := schedule l1 s in let '(s2, es2) := schedule l2 s1 in (s2, es1 ++ es2)).
Proof.
  revert s. induction l1 as [|a l1 IH]; intros s; cbn; [by destruct (schedule l2 s)|].
  destruct (act a s) as [s1 es1]. rewrite IH. destruct (schedule l1 s1) as [s2 es2].
  destruct (schedule l2 s2) as [s3 es3]. by rewrite app_assoc.
Qed.

(** *** The worker alone runs what waits *)

(** From the top of the loop, one task. *)
Lemma run_one s q task w :
  represents s q → s.(worker) = AtTop → q.(TaskQueue.waiting) = task :: w →
  ∃ s' q', schedule (replicate 6 (Worker None)) s = (s', [TaskQueue.Started task; TaskQueue.Finished task None]) ∧
    TaskQueue.steps q [TaskQueue.Started task; TaskQueue.Finished task None] q' ∧ represents s' q' ∧ s'.(worker) = AtTop ∧ q'.(TaskQueue.waiting) = w.
Proof.
  intros HR Ew Eq.
  destruct (schedule_represents (replicate 6 (Worker None)) s q HR) as (q' & Hs & HR').
  assert (Ht : bool_decide (s.(head_) = s.(tail_)) = false).
  { apply bool_decide_eq_false_2. rewrite (represents_empty s q HR), Eq. done. }
  assert (Hq : s.(queue_) !! s.(head_) = Some (Some task)).
  { destruct HR as ((_ & Hh & _) & _ & _ & Hh' & _). destruct (Hh' 0%nat task) as [[_ [k Ek]]|H];
      [by rewrite Eq|congruence|]. by rewrite position_0 in H by done. }
  eexists _, q'. cbn [replicate schedule act] in *. unfold run in *. rewrite Ew, Ht in *. cbn in *.
  rewrite Hq in *. cbn in *. split_and!; [done..|].
  repeat match goal with H : TaskQueue.steps _ _ _ |- _ => inversion H; clear H; subst
         | H : TaskQueue.step _ _ _ |- _ => inversion H; clear H; subst end; cbn in *. congruence.
Qed.

(** From anywhere in the loop, to its top. *)
Lemma to_top s q :
  represents s q → s.(worker) ≠ Returned → s.(stopping_) = false →
  ∃ n s' q' es, schedule (replicate n (Worker None)) s = (s', es) ∧ TaskQueue.steps q es q' ∧
    represents s' q' ∧ s'.(worker) = AtTop ∧ TaskQueue.accepted es = [].
Proof.
  intros HR Hn Hs.
  assert (∃ n, (schedule (replicate n (Worker None)) s).1.(worker) = AtTop ∧
               TaskQueue.accepted (schedule (replicate n (Worker None)) s).2 = []) as (n & H1 & H2).
  { destruct (s.(worker)) as [| | | |[k|]|[k|]|what| | |] eqn:Ew.
    3-4: destruct (default None (s.(queue_) !! s.(head_))) eqn:Et.
    1: exists 0%nat. 2: exists 1%nat. 3: exists 5%nat. 4: exists 7%nat. 5: exists 4%nat. 6: exists 6%nat.
    7: exists 3%nat. 8: exists 5%nat. 9: exists 2%nat. 10: exists 4%nat. 11: exists 3%nat. 12: exists 2%nat.
    13: exists 1%nat. 14: done.
    all: cbn; unfold run; rewrite ?Ew, ?Hs; cbn; rewrite ?Et, ?Hs; done. }
  destruct (schedule_represents (replicate n (Worker None)) s q HR) as (q' & H & HR').
  destruct (schedule (replicate n (Worker None)) s) as [s' es] eqn:E. cbn in *. exists n, s', q', es. done.
Qed.

Lemma run_stopping thrown (s : t T) : (run thrown s).1.(stopping_) = s.(stopping_).
Proof. unfold run. by repeat case_match. Qed.

Lemma run_all s q :
  represents s q → s.(worker) = AtTop →
  ∃ n s' q' es, schedule (replicate n (Worker None)) s = (s', es) ∧ TaskQueue.steps q es q' ∧
    represents s' q' ∧ q'.(TaskQueue.waiting) = [] ∧ s'.(worker) = AtTop ∧ TaskQueue.accepted es = [].
Proof.
  remember (q.(TaskQueue.waiting)) as w eqn:Eq. symmetry in Eq. revert s q Eq.
  induction w as [|task w IH]; intros s q Eq HR Ew.
  - exists 0%nat, s, q, []. by split_and!; [|constructor|..].
  - destruct (run_one s q task w HR Ew Eq) as (s1 & q1 & E1 & Hs1 & HR1 & Ew1 & Eq1).
    destruct (IH s1 q1 Eq1 HR1 Ew1) as (n & s2 & q2 & es & E2 & Hs2 & HR2 & Hw2 & Ew2 & Ha).
    exists (6 + n)%nat, s2, q2, ([TaskQueue.Started task; TaskQueue.Finished task None] ++ es).
    rewrite replicate_add, schedule_app, E1, E2. split_and!; try done. by eapply TaskQueue.steps_app.
Qed.
End refinement.
End WriterRefinement.

(** * The properties *)
Import SpscDiskWriter WriterRefinement.

Section properties.
Context {T : Type}.

(** C8: in every schedule of the two threads, the ring buffer is a bounded
    first-in first-out queue of 128 tasks: what [enqueue], [drain] and the worker
    do are the steps of the queue ([enqueue] refuses only when it is full or
    stopping, a [drain] that returns has seen every task accepted before it
    end); the tasks are started in the order they were accepted, each once, one
    at a time; and from any state the worker alone, while it has not returned
    and nothing is being stopped, ends every task that waits. *)
Theorem disk_writer_refines (actions : list action) :
  let '(s, es) := schedule actions (create (T := T)) in
  ∃ q, TaskQueue.steps TaskQueue.empty es q ∧
    TaskQueue.accepted es = TaskQueue.started es ++ q.(TaskQueue.waiting) ∧
    TaskQueue.started es = TaskQueue.finished es ++ option_list q.(TaskQueue.running) ∧
    (length q.(TaskQueue.waiting) ≤ kDefaultDiskWriterQueueCapacity)%nat ∧
    (s.(worker) ≠ Returned → s.(stopping_) = false →
     ∃ n, let es' := (schedule (replicate n (Worker None)) s).2 in
       TaskQueue.finished (es ++ es') = TaskQueue.accepted es).
Proof.
  destruct (schedule_represents actions create TaskQueue.empty represents_create) as (q & Hs & HR).
  destruct (schedule actions create) as [s es]. cbn in *. exists q.
  pose proof (TaskQueue.steps_fifo _ _ _ Hs) as [H1 H2]. cbn in H1, H2.
  split_and!; [done..|by apply HR|]. intros Hw Hst.
  destruct (to_top s q HR Hw Hst) as (n & s1 & q1 & es1 & E1 & Hs1 & HR1 & Ew1 & Ha1).
  destruct (run_all s1 q1 HR1 Ew1) as (m & s2 & q2 & es2 & E2 & Hs2 & HR2 & Hw2 & Ew2 & Ha2).
  exists (n + m)%nat. rewrite replicate_add, schedule_app, E1, E2. cbn.
  pose proof (TaskQueue.steps_app _ _ _ _ _ Hs (TaskQueue.steps_app _ _ _ _ _ Hs1 Hs2)) as Hall.
  apply TaskQueue.steps_fifo in Hall as [H3 H4]. cbn in H3, H4.
  assert (q2.(TaskQueue.running) = None) as Hr.
  { destruct HR2 as (_ & _ & _ & _ & Hw' & _). unfold worker_at in Hw'. by rewrite Ew2 in Hw'. }
  rewrite Hw2, app_nil_r in H3. rewrite Hr in H4. cbn in H4. rewrite app_nil_r in H4.
  rewrite <- H4, <- H3.
  unfold TaskQueue.accepted in *. rewrite !bind_app, Ha1, Ha2. by rewrite !app_nil_r.
Qed.
End properties.

(** * On concrete schedules *)
Section witnesses.

(** [enqueue] from its call to its return. *)
Definition enqueue_calls (task : nat) : list action := [Enqueue task; Continue; Continue; Continue].

(** The second task comes while the first is being taken; the first throws. *)
Definition sample_actions : list action :=
  enqueue_calls 7 ++ [Worker None; Worker None; Enqueue 8%nat; Worker None; Continue; Worker None; Continue;
    Worker (Some "disk full"%string); Continue; Worker None; Worker None].

Lemma disk_writer_refines_witness :
  (schedule sample_actions create).2 =
    [TaskQueue.Accepted 7%nat; TaskQueue.Started 7%nat; TaskQueue.Finished 7%nat (Some "disk full"%string);
     TaskQueue.Accepted 8%nat] ∧
  (schedule sample_actions create).1.(failed_) = true ∧
  ∃ n, TaskQueue.finished ((schedule sample_actions create).2 ++
         (schedule (replicate n (Worker None)) (schedule sample_actions create).1).2) = [7; 8]%nat.
Proof.
  split_and!; [vm_compute; reflexivity..|].
  pose proof (disk_writer_refines sample_actions) as H.
  destruct (schedule sample_actions create) as [s es] eqn:E.
  assert (Ew : (schedule sample_actions create).1.(worker) = AtIdle) by (vm_compute; reflexivity).
  assert (Es : (schedule sample_actions create).1.(stopping_) = false) by (vm_compute; reflexivity).
  assert (Ea : TaskQueue.accepted (schedule sample_actions create).2 = [7; 8]%nat) by (vm_compute; reflexivity).
  rewrite E in Ew, Es, Ea. cbn [fst snd] in Ew, Es, Ea.
  destruct H as (q & _ & _ & _ & _ & H). destruct H as [n Hn]; [by rewrite Ew|done|].
  exists n. rewrite Ea in Hn. exact Hn.
Defined.

(** A 129th task is refused. *)
Lemma full_queue_refuses :
  (schedule ((seq 0 128 ≫= enqueue_calls) ++ [Enqueue 128%nat; Continue]) create).2 =
  (TaskQueue.Accepted <$> seq 0 128) ++ [TaskQueue.Refused 128%nat].
Proof. vm_compute. reflexivity. Qed.

(** The worker finds the ring empty; a task is accepted and the writer stopped
    before the worker looks at the flag: it returns, [stop] returns, and the
    task is never run. *)
Lemma stop_loses_task :
  let '(s, es) := schedule ([Worker None] ++ enqueue_calls 7 ++ [Stop; Worker None; Continue]) create in
  es = [TaskQueue.Accepted 7%nat; TaskQueue.Stopping] ∧ s.(worker) = Returned ∧ s.(caller) = Outside.
Proof. vm_compute. split_and!; reflexivity. Qed.
End witnesses.
