(* ===== verification/ReceiverStreams.v ===== *)
(** * The receiver's streams: [include/receiver/yisync_receiver_streams.hpp], [src/receiver/yisync_receiver_streams.cpp]

    What the receiver keeps of each stream: its directory, its two receivers,
    how far an appended file is durable, and the commit that is being written. *)
From S2P Require Import Prelude Hoare Crc32c Filesystem Wire Protocol Sync ReceiverPaths AppendReceiver ChunkReceiver.
#[local] Open Scope Z_scope.

Module T_ChunkCommitCompletion.
Record t := mk { completed : bool; failed : bool; error : string }.
Definition pending : t := mk false false "".
End T_ChunkCommitCompletion.

(** The fields [append_*] of a context but the receiver; an empty path is [None]. *)
Module AppendDurable.
Record t := mk {
  durable_file_id : Z; durable_path : option path; durable_offset : Z; durable_target : Z;
  fsync_active_target : Z; heartbeat_line_id : Z; fsync_queued : bool; fsync_completed : Z;
  fsync_failed : bool; fsync_error : string
}.
Definition initial : t := mk 0 None 0 0 0 0 false 0 false "".

Definition set_path (p : option path) (d : t) : t :=
  mk d.(durable_file_id) p d.(durable_offset) d.(durable_target) d.(fsync_active_target)
    d.(heartbeat_line_id) d.(fsync_queued) d.(fsync_completed) d.(fsync_failed) d.(fsync_error).
Definition set_offset (offset : Z) (d : t) : t :=
  mk d.(durable_file_id) d.(durable_path) offset d.(durable_target) d.(fsync_active_target)
    d.(heartbeat_line_id) d.(fsync_queued) d.(fsync_completed) d.(fsync_failed) d.(fsync_error).
Definition set_target (target : Z) (d : t) : t :=
  mk d.(durable_file_id) d.(durable_path) d.(durable_offset) target d.(fsync_active_target)
    d.(heartbeat_line_id) d.(fsync_queued) d.(fsync_completed) d.(fsync_failed) d.(fsync_error).
Definition set_active (queued : bool) (target : Z) (d : t) : t :=
  mk d.(durable_file_id) d.(durable_path) d.(durable_offset) d.(durable_target) target
    d.(heartbeat_line_id) queued d.(fsync_completed) d.(fsync_failed) d.(fsync_error).
Definition set_line (line_id : Z) (d : t) : t :=
  mk d.(durable_file_id) d.(durable_path) d.(durable_offset) d.(durable_target) d.(fsync_active_target)
    line_id d.(fsync_queued) d.(fsync_completed) d.(fsync_failed) d.(fsync_error).
Definition set_completed (completed : Z) (d : t) : t :=
  mk d.(durable_file_id) d.(durable_path) d.(durable_offset) d.(durable_target) d.(fsync_active_target)
    d.(heartbeat_line_id) d.(fsync_queued) completed d.(fsync_failed) d.(fsync_error).
Definition set_failed (failed : bool) (error : string) (d : t) : t :=
  mk d.(durable_file_id) d.(durable_path) d.(durable_offset) d.(durable_target) d.(fsync_active_target)
    d.(heartbeat_line_id) d.(fsync_queued) d.(fsync_completed) failed error.
End AppendDurable.

(** The fields [chunk_commit_*]; the shared pointer to the completion is a
    reference into the coordinator's store. *)
Module ChunkCommit.
Record t := mk {
  queued : bool; line_id : Z; seq : Z; file_id : Z; final_size : Z; final_path : path; completion : option nat
}.
Definition none : t := mk false 0 0 0 0 [] None.
End ChunkCommit.

Module T_ReceiverStreamContext.
Record t := mk {
  stream_id : Z; root : path; append : option T_ReceiverStream.t; chunk : option T_ChunkedReceiverStream.t;
  durable : AppendDurable.t; chunk_commit : ChunkCommit.t
}.
Definition fresh (stream_id : Z) (root : path) : t :=
  mk stream_id root None None AppendDurable.initial ChunkCommit.none.

Definition set_append (r : option T_ReceiverStream.t) (c : t) : t :=
  mk c.(stream_id) c.(root) r c.(chunk) c.(durable) c.(chunk_commit).
Definition set_chunk (r : option T_ChunkedReceiverStream.t) (c : t) : t :=
  mk c.(stream_id) c.(root) c.(append) r c.(durable) c.(chunk_commit).
Definition set_durable (d : AppendDurable.t) (c : t) : t :=
  mk c.(stream_id) c.(root) c.(append) c.(chunk) d c.(chunk_commit).
Definition set_commit (k : ChunkCommit.t) (c : t) : t :=
  mk c.(stream_id) c.(root) c.(append) c.(chunk) c.(durable) k.
End T_ReceiverStreamContext.

Module T_ReceiverStreamMap.
Import T_ReceiverStreamContext.

(** [roots_] is the map of the application that the constructor points to: the
    application changes it through [set_roots].  The receivers of the contexts
    work on [world]: a call gives it to them, and they are put away without it. *)
Record t := mk_map {
  default_root_ : path; default_stream_id_ : Z; roots_ : option (gmap Z path);
  streams_ : gmap Z T_ReceiverStreamContext.t; world : fsys
}.

Definition nowhere : fsys := mk_fsys ∅ [].

Definition create (default_stream_id : Z) (default_root : path) (roots : option (gmap Z path)) (w : fsys) : t :=
  mk_map default_root default_stream_id roots ∅ w.

Definition set_world (w : fsys) (s : t) : t :=
  mk_map s.(default_root_) s.(default_stream_id_) s.(roots_) s.(streams_) w.
Definition set_streams (m : gmap Z T_ReceiverStreamContext.t) (s : t) : t :=
  mk_map s.(default_root_) s.(default_stream_id_) s.(roots_) m s.(world).
Definition set_roots (m : option (gmap Z path)) (s : t) : t :=
  mk_map s.(default_root_) s.(default_stream_id_) m s.(streams_) s.(world).

#[export] Instance has_world : HasWorld t.
Proof. refine {| the_world := world; with_world := set_world |}; first [by intros []|by intros ? []|by intros ? ? []]. Defined.

Definition stream_root_for (stream_id : Z) (s : t) : path :=
  match s.(roots_) ≫= lookup stream_id with
  | Some root => root
  | None =>
      if stream_id =? s.(default_stream_id_) then s.(default_root_)
      else s.(default_root_) ++ [to_string stream_id]
  end.

(** A context that is there, and a change to it through a reference. *)
Definition context (stream_id : Z) : M t T_ReceiverStreamContext.t := λ s,
  match s.(streams_) !! stream_id with
  | Some c => (Ret c, s)
  | None => (Throw "", s)
  end.
Definition update_context (stream_id : Z) (f : T_ReceiverStreamContext.t → T_ReceiverStreamContext.t) : M t unit :=
  modify (λ s, set_streams (alter f stream_id s.(streams_)) s).

(** The context is there when this returns. *)
Definition context_for (stream_id : Z) : M t unit :=
  s ← get;
  match s.(streams_) !! stream_id with
  | Some _ => mret tt
  | None =>
      let root := stream_root_for stream_id s in
      on_world (or_throw "" (create_directories root));;
      modify (λ s, set_streams (<[stream_id := fresh stream_id root]> s.(streams_)) s)
  end.

Section receivers.
Context {CRC : Crc32c}.

(** A constructor that may throw, on the world of the map. *)
Definition construct {R} (make : fsys → exc R * fsys) : M t R := λ s,
  let '(r, w) := make s.(world) in (r, set_world w s).

Definition append_receiver_for (stream_id : Z) : M t unit :=
  context_for stream_id;;
  c ← context stream_id;
  match c.(append) with
  | Some _ => mret tt
  | None =>
      r ← construct (T_ReceiverStream.create stream_id c.(root));
      update_context stream_id (set_append (Some (T_ReceiverStream.set_world nowhere r)))
  end.

Definition chunk_receiver_for (stream_id : Z) : M t unit :=
  context_for stream_id;;
  c ← context stream_id;
  match c.(chunk) with
  | Some _ => mret tt
  | None =>
      r ← construct (T_ChunkedReceiverStream.create stream_id c.(root));
      update_context stream_id (set_chunk (Some (T_ChunkedReceiverStream.set_world nowhere r)))
  end.
End receivers.

(** A call of a receiver's method. *)
Definition on_append {A} (stream_id : Z) (m : M T_ReceiverStream.t A) : M t A := λ s,
  match s.(streams_) !! stream_id with
  | Some c =>
      match c.(append) with
      | Some r =>
          let '(a, r) := m (T_ReceiverStream.set_world s.(world) r) in
          (a, set_streams (<[stream_id := set_append (Some (T_ReceiverStream.set_world nowhere r)) c]> s.(streams_))
                (set_world r.(T_ReceiverStream.world) s))
      | None => (Throw "", s)
      end
  | None => (Throw "", s)
  end.

Definition on_chunk {A} (stream_id : Z) (m : M T_ChunkedReceiverStream.t A) : M t A := λ s,
  match s.(streams_) !! stream_id with
  | Some c =>
      match c.(chunk) with
      | Some r =>
          let '(a, r) := m (T_ChunkedReceiverStream.set_world s.(world) r) in
          (a, set_streams (<[stream_id := set_chunk (Some (T_ChunkedReceiverStream.set_world nowhere r)) c]> s.(streams_))
                (set_world r.(T_ChunkedReceiverStream.world) s))
      | None => (Throw "", s)
      end
  | None => (Throw "", s)
  end.

(** *** What is still to be written: any context will do, in any order. *)
Definition busy (c : T_ReceiverStreamContext.t) : bool :=
  c.(durable).(AppendDurable.fsync_queued) ||
  (c.(durable).(AppendDurable.durable_target) >? c.(durable).(AppendDurable.durable_offset)) ||
  c.(chunk_commit).(ChunkCommit.queued).

Definition append_durable_idle (s : t) : bool :=
  forallb (λ '(_, c), negb (busy c)) (map_to_list s.(streams_)).

Definition has_pending_chunk_commit (s : t) : bool :=
  existsb (λ '(_, c), c.(chunk_commit).(ChunkCommit.queued)) (map_to_list s.(streams_)).
End T_ReceiverStreamMap.

(** ** What the operations on the streams leave as it is

    A field of the contexts that the receivers do not touch: a call of them, and
    a context that is made, leave it as it is in every stream. *)
Module StreamFrame.
Import T_ReceiverStreamContext.
Export (hints) T_ReceiverStreamMap.

Class ContextField {X} (field : T_ReceiverStreamContext.t → X) (none : X) : Prop := {
  field_append r c : field (set_append r c) = field c;
  field_chunk r c : field (set_chunk r c) = field c;
  field_fresh stream_id root : field (fresh stream_id root) = none
}.
#[export] Instance commit_field : ContextField chunk_commit ChunkCommit.none.
Proof. done. Qed.
#[export] Instance durable_field : ContextField durable AppendDurable.initial.
Proof. done. Qed.

Section frame.
Context {CRC : Crc32c} {X} (field : T_ReceiverStreamContext.t → X) (none : X) `{!ContextField field none}.

Definition field_in (m : T_ReceiverStreamMap.t) (sid : Z) : X :=
  from_option field none (m.(T_ReceiverStreamMap.streams_) !! sid).

Definition quiet_map {A} (m : M T_ReceiverStreamMap.t A) : Prop :=
  ∀ c r c', m c = (r, c') → ∀ sid, field_in c' sid = field_in c sid.

Lemma quiet_bind {A B} (m : M T_ReceiverStreamMap.t A) (k : A → M T_ReceiverStreamMap.t B) :
  quiet_map m → (∀ a, quiet_map (k a)) → quiet_map (m ≫= k).
Proof.
  intros Hm Hk c r c' Hr sid. apply bind_cases in Hr as [(a & c1 & E & Hr)|(e & E & ->)].
  - rewrite (Hk _ _ _ _ Hr). by eapply Hm.
  - by eapply Hm.
Qed.
Lemma quiet_ret {A} (a : A) : quiet_map (mret a).
Proof. by intros c r c' [= _ <-]. Qed.
Lemma quiet_world {A} (m : M fsys A) : quiet_map (on_world m).
Proof. intros c r c' Hr sid. apply on_world_inv in Hr as (w & _ & ->). done. Qed.
Lemma quiet_construct {R} (make : fsys → exc R * fsys) : quiet_map (T_ReceiverStreamMap.construct make).
Proof. intros c r c' Hr sid. unfold T_ReceiverStreamMap.construct in Hr. destruct (make _). by injection Hr as _ <-. Qed.
Lemma quiet_context sid : quiet_map (T_ReceiverStreamMap.context sid).
Proof. intros c r c' Hr. unfold T_ReceiverStreamMap.context in Hr. by case_match; injection Hr as _ <-. Qed.

Lemma quiet_insert sid c m : field c = field_in m sid →
  ∀ sid', field_in (T_ReceiverStreamMap.set_streams (<[sid := c]> m.(T_ReceiverStreamMap.streams_)) m) sid' = field_in m sid'.
Proof.
  intros Hc sid'. unfold field_in at 1. cbn. destruct (decide (sid = sid')) as [<-|Hne].
  - by rewrite lookup_insert_eq.
  - by rewrite lookup_insert_ne.
Qed.

Lemma quiet_update sid f : (∀ c, field (f c) = field c) → quiet_map (T_ReceiverStreamMap.update_context sid f).
Proof.
  intros Hf c r c' [= _ <-] sid'. unfold field_in. cbn. destruct (decide (sid = sid')) as [<-|Hne].
  - rewrite lookup_alter_eq. destruct (_ !! sid); cbn; auto.
  - by rewrite lookup_alter_ne.
Qed.

Lemma quiet_context_for sid : quiet_map (T_ReceiverStreamMap.context_for sid).
Proof.
  intros c r c' Hr sid'. unfold T_ReceiverStreamMap.context_for in Hr. rewrite (bind_ret get _ c c c eq_refl) in Hr.
  destruct (T_ReceiverStreamMap.streams_ c !! sid) as [x|] eqn:E; [by injection Hr as _ <-|]. cbv zeta in Hr.
  apply bind_cases in Hr as [(a & c1 & E1 & Hr)|(e & E1 & ->)].
  - apply on_world_inv in E1 as (w & _ & ->). injection Hr as _ <-.
    refine (quiet_insert sid _ (T_ReceiverStreamMap.set_world w c) _ sid'). unfold field_in. cbn. rewrite E. cbn. apply field_fresh.
  - apply on_world_inv in E1 as (w & _ & ->). done.
Qed.

Lemma quiet_on_append {A} sid (m : M T_ReceiverStream.t A) : quiet_map (T_ReceiverStreamMap.on_append sid m).
Proof.
  intros c r c' Hr sid'. unfold T_ReceiverStreamMap.on_append in Hr.
  destruct (T_ReceiverStreamMap.streams_ c !! sid) as [x|] eqn:E; [|by injection Hr as _ <-].
  destruct x.(append) as [rcv|]; [|by injection Hr as _ <-]. destruct (m _) as [a rcv']. injection Hr as _ <-.
  refine (quiet_insert sid _ (T_ReceiverStreamMap.set_world _ c) _ sid'). unfold field_in. cbn. rewrite E. cbn. apply field_append.
Qed.

Lemma quiet_on_chunk {A} sid (m : M T_ChunkedReceiverStream.t A) : quiet_map (T_ReceiverStreamMap.on_chunk sid m).
Proof.
  intros c r c' Hr sid'. unfold T_ReceiverStreamMap.on_chunk in Hr.
  destruct (T_ReceiverStreamMap.streams_ c !! sid) as [x|] eqn:E; [|by injection Hr as _ <-].
  destruct x.(chunk) as [rcv|]; [|by injection Hr as _ <-]. destruct (m _) as [a rcv']. injection Hr as _ <-.
  refine (quiet_insert sid _ (T_ReceiverStreamMap.set_world _ c) _ sid'). unfold field_in. cbn. rewrite E. cbn. apply field_chunk.
Qed.

Lemma quiet_append_receiver_for sid : quiet_map (T_ReceiverStreamMap.append_receiver_for sid).
Proof using CRC ContextField0.
  unfold T_ReceiverStreamMap.append_receiver_for. apply quiet_bind; [apply quiet_context_for|]. intros _.
  apply quiet_bind; [apply quiet_context|]. intros c. destruct (append c); [apply quiet_ret|].
  apply quiet_bind; [apply quiet_construct|]. intros r. apply quiet_update. intros x. apply field_append.
Qed.
Lemma quiet_chunk_receiver_for sid : quiet_map (T_ReceiverStreamMap.chunk_receiver_for sid).
Proof using CRC ContextField0.
  unfold T_ReceiverStreamMap.chunk_receiver_for. apply quiet_bind; [apply quiet_context_for|]. intros _.
  apply quiet_bind; [apply quiet_context|]. intros c. destruct (chunk c); [apply quiet_ret|].
  apply quiet_bind; [apply quiet_construct|]. intros r. apply quiet_update. intros x. apply field_chunk.
Qed.
End frame.
#[export] Hint Extern 1 (quiet_map _ _ _) =>
  first [by apply quiet_world|by apply quiet_context|by apply quiet_context_for|by apply quiet_on_append
        |by apply quiet_on_chunk|by apply quiet_append_receiver_for|by apply quiet_chunk_receiver_for] : keeps.
End StreamFrame.
