(* ===== verification/Coordinator.v ===== *)
(** * The receiver's coordinator: [include/receiver/yisync_receiver_coordinator.hpp], [src/receiver/yisync_receiver_coordinator.cpp]

    Messages of the sender are given to the receivers of their stream; what has
    to reach the disk is given to the writer, and [poll_completions] tells the
    sender once it is there.  The handlers return the actions to execute. *)
From S2P Require Import Prelude Hoare Crc32c Filesystem Wire Protocol Sync ReceiverPaths AppendReceiver ChunkReceiver.
From S2P Require Import DiskWriter ReceiverStreams NodeCommon.
#[local] Open Scope Z_scope.

Module T_ReceiverHeartbeatAction.
Record t := mk { line_id : Z; heartbeat : T_Heartbeat.t; flush : bool; only_if_line_open : bool }.
End T_ReceiverHeartbeatAction.

Module T_ReceiverNackAction.
Record t := mk { line_id : Z; nack : T_Nack.t; only_if_line_open : bool }.
End T_ReceiverNackAction.

Module T_ReceiverActionBatch.
Record t := mk {
  heartbeats : list T_ReceiverHeartbeatAction.t; nacks : list T_ReceiverNackAction.t;
  schedule_quiet_stop : bool; schedule_commit_poll : bool; failed : bool; failure : string
}.
Definition empty : t := mk [] [] false false false "".

Definition push_heartbeat (h : T_ReceiverHeartbeatAction.t) (a : t) : t :=
  mk (a.(heartbeats) ++ [h]) a.(nacks) a.(schedule_quiet_stop) a.(schedule_commit_poll) a.(failed) a.(failure).
Definition push_nack (line_id : Z) (n : T_Nack.t) (only_if_line_open : bool) (a : t) : t :=
  mk a.(heartbeats) (a.(nacks) ++ [T_ReceiverNackAction.mk line_id n only_if_line_open])
    a.(schedule_quiet_stop) a.(schedule_commit_poll) a.(failed) a.(failure).
Definition quiet_stop (a : t) : t :=
  mk a.(heartbeats) a.(nacks) true a.(schedule_commit_poll) a.(failed) a.(failure).
Definition commit_poll (a : t) : t :=
  mk a.(heartbeats) a.(nacks) a.(schedule_quiet_stop) true a.(failed) a.(failure).
Definition fail (failure : string) (a : t) : t :=
  mk a.(heartbeats) a.(nacks) a.(schedule_quiet_stop) a.(schedule_commit_poll) true failure.
End T_ReceiverActionBatch.

(** What the writer is given: the fsync of an appended file, with the context it
    reports to, and the writing of a commit, with its completion. *)
Inductive Task :=
  | FsyncTask (target_path : path) (durable_target : Z) (stream_id : Z)
  | CommitTask (task : T_ChunkCommitTask.t) (completion : nat).

Module T_ReceiverCoordinator.
Import T_ReceiverStreamContext.
Export (hints) T_ReceiverStreamMap.

(** [disk_writer_] is the queue the writer refines, with what its thread caught;
    [completions] are the objects behind the shared pointers. *)
Record t := mk_coordinator {
  streams_ : T_ReceiverStreamMap.t; disk_writer_ : TaskQueue.t Task; writer_error : option string;
  completions : list T_ChunkCommitCompletion.t; recv_window_bytes_ : Z; max_missing_ranges_per_heartbeat_ : Z
}.

Definition create (streams : T_ReceiverStreamMap.t) (recv_window_bytes max_missing_ranges_per_heartbeat : Z) : t :=
  mk_coordinator streams TaskQueue.empty None [] recv_window_bytes max_missing_ranges_per_heartbeat.

Definition set_streams (m : T_ReceiverStreamMap.t) (s : t) : t :=
  mk_coordinator m s.(disk_writer_) s.(writer_error) s.(completions) s.(recv_window_bytes_) s.(max_missing_ranges_per_heartbeat_).
Definition set_writer (q : TaskQueue.t Task) (s : t) : t :=
  mk_coordinator s.(streams_) q s.(writer_error) s.(completions) s.(recv_window_bytes_) s.(max_missing_ranges_per_heartbeat_).
Definition set_writer_error (e : option string) (s : t) : t :=
  mk_coordinator s.(streams_) s.(disk_writer_) e s.(completions) s.(recv_window_bytes_) s.(max_missing_ranges_per_heartbeat_).
Definition set_completions (l : list T_ChunkCommitCompletion.t) (s : t) : t :=
  mk_coordinator s.(streams_) s.(disk_writer_) s.(writer_error) l s.(recv_window_bytes_) s.(max_missing_ranges_per_heartbeat_).

#[export] Instance has_streams : Has t T_ReceiverStreamMap.t.
Proof. by refine {| part := streams_; set_part := set_streams |}; [|intros []|]. Defined.

Definition context (stream_id : Z) : M t T_ReceiverStreamContext.t := on (T_ReceiverStreamMap.context stream_id).
Definition update_context (stream_id : Z) (f : T_ReceiverStreamContext.t → T_ReceiverStreamContext.t) : M t unit :=
  on (T_ReceiverStreamMap.update_context stream_id f).
Definition update_durable (stream_id : Z) (f : AppendDurable.t → AppendDurable.t) : M t unit :=
  update_context stream_id (λ c, set_durable (f c.(durable)) c).

(** A call on the file system. *)
Definition on_disk {A} (m : M fsys A) : M t A := on (C := T_ReceiverStreamMap.t) (on_world m).

(** [disk_writer_.enqueue]. *)
Definition enqueue (task : Task) : M t bool := λ s,
  let '(queued, q) := TaskQueue.enqueue task s.(disk_writer_) in (Ret queued, set_writer q s).

Definition chunk_commit_error_reason (error : string) : EM_NackReason.t :=
  if bool_decide (is_Some (String.index 0 "checksum" error)) then EM_NackReason.CHECKSUM_MISMATCH
  else if bool_decide (is_Some (String.index 0 "already exists" error)) then EM_NackReason.FILE_EXISTS
  else EM_NackReason.IO_ERROR.

(** *** Appended files *)
Definition reset_append_durable_context (stream_id file_id : Z) (p : option path) (durable_offset : Z) : M t unit :=
  update_durable stream_id (λ d,
    if d.(AppendDurable.durable_file_id) =? file_id then
      match p with Some _ => AppendDurable.set_path p d | None => d end
    else
      AppendDurable.mk file_id p durable_offset durable_offset 0 d.(AppendDurable.heartbeat_line_id) false
        durable_offset false "").

Definition maybe_enqueue_append_fsync (stream_id target_offset : Z) : M t unit :=
  c ← context stream_id;
  if target_offset <=? c.(durable).(AppendDurable.durable_offset) then mret tt
  else
    update_durable stream_id (λ d, AppendDurable.set_target (Z.max d.(AppendDurable.durable_target) target_offset) d);;
    if c.(durable).(AppendDurable.fsync_queued) then mret tt
    else
      match c.(durable).(AppendDurable.durable_path) with
      | None => mret tt
      | Some p =>
          let durable_target := Z.max c.(durable).(AppendDurable.durable_target) target_offset in
          update_durable stream_id (AppendDurable.set_failed false "");;
          queued ← enqueue (FsyncTask p durable_target stream_id);
          if queued : bool then update_durable stream_id (AppendDurable.set_active true durable_target)
          else mret tt
      end.

Section handlers.
Context {CRC : Crc32c}.

Definition refresh_chunk (stream_id : Z) : M t unit :=
  c ← context stream_id;
  match c.(chunk) with
  | Some _ => on (T_ReceiverStreamMap.on_chunk stream_id T_ChunkedReceiverStream.refresh_committed_from_disk)
  | None => mret tt
  end.
Definition refresh_append (stream_id : Z) : M t unit :=
  c ← context stream_id;
  match c.(append) with
  | Some _ => on (T_ReceiverStreamMap.on_append stream_id T_ReceiverStream.refresh_committed_from_disk)
  | None => mret tt
  end.

(** What a method of the receiver that does not change it answers. *)
Definition append_receiver {A} (stream_id : Z) (f : T_ReceiverStream.t → A) : M t A :=
  on (T_ReceiverStreamMap.on_append stream_id (gets f)).
Definition chunk_receiver {A} (stream_id : Z) (f : T_ChunkedReceiverStream.t → A) : M t A :=
  on (T_ReceiverStreamMap.on_chunk stream_id (gets f)).

Definition current_offset (r : T_ReceiverStream.t) : Z :=
  r.(T_ReceiverStream.state_).(T_ReceiverStreamState.current_offset).

Definition apply_create (line_id : Z) (create : T_Create.t) : M t T_ReceiverActionBatch.t :=
  let sid := create.(T_Create.stream_id) in
  on (T_ReceiverStreamMap.append_receiver_for sid);;
  result ← on (T_ReceiverStreamMap.on_append sid (T_ReceiverStream.apply_create create));
  match result with
  | Some nack => mret (T_ReceiverActionBatch.push_nack line_id nack false T_ReceiverActionBatch.empty)
  | None =>
      on (T_ReceiverStreamMap.context_for sid);;
      p ← append_receiver sid T_ReceiverStream.current_path_;
      reset_append_durable_context sid create.(T_Create.file_id) p 0;;
      refresh_chunk sid;;
      s ← get;
      hb ← append_receiver sid (λ r, T_ReceiverStream.heartbeat s.(recv_window_bytes_) (current_offset r) r);
      mret (T_ReceiverActionBatch.quiet_stop (T_ReceiverActionBatch.push_heartbeat
              (T_ReceiverHeartbeatAction.mk line_id hb true false) T_ReceiverActionBatch.empty))
  end.

Definition apply_data (line_id : Z) (data : T_Data.t) : M t T_ReceiverActionBatch.t :=
  let sid := data.(T_Data.stream_id) in
  on (T_ReceiverStreamMap.append_receiver_for sid);;
  result ← on (T_ReceiverStreamMap.on_append sid (T_ReceiverStream.apply_data data));
  match result with
  | Some nack => mret (T_ReceiverActionBatch.push_nack line_id nack false T_ReceiverActionBatch.empty)
  | None =>
      on (T_ReceiverStreamMap.context_for sid);;
      update_durable sid (AppendDurable.set_line line_id);;
      p ← append_receiver sid T_ReceiverStream.current_path_;
      reset_append_durable_context sid data.(T_Data.file_id) p data.(T_Data.offset);;
      offset ← append_receiver sid current_offset;
      maybe_enqueue_append_fsync sid offset;;
      s ← get;
      c ← context sid;
      hb ← append_receiver sid (T_ReceiverStream.heartbeat s.(recv_window_bytes_) c.(durable).(AppendDurable.durable_offset));
      refresh_chunk sid;;
      mret (T_ReceiverActionBatch.quiet_stop (T_ReceiverActionBatch.push_heartbeat
              (T_ReceiverHeartbeatAction.mk line_id hb false false) T_ReceiverActionBatch.empty))
  end.

(** *** Chunked files *)
Definition apply_begin (line_id : Z) (begin : T_FileBegin.t) : M t T_ReceiverActionBatch.t :=
  let sid := begin.(T_FileBegin.stream_id) in
  on (T_ReceiverStreamMap.chunk_receiver_for sid);;
  result ← on (T_ReceiverStreamMap.on_chunk sid (T_ChunkedReceiverStream.apply_begin begin));
  match result with
  | Some nack => mret (T_ReceiverActionBatch.push_nack line_id nack false T_ReceiverActionBatch.empty)
  | None =>
      s ← get;
      next_seq ← chunk_receiver sid T_ChunkedReceiverStream.expected_seq;
      mret (T_ReceiverActionBatch.push_heartbeat
              (T_ReceiverHeartbeatAction.mk line_id
                 (T_Heartbeat.mk sid next_seq begin.(T_FileBegin.file_id) 0 0 s.(recv_window_bytes_) [] [])
                 true false) T_ReceiverActionBatch.empty)
  end.

Definition apply_chunk (line_id : Z) (chunk : T_Chunk.t) : M t T_ReceiverActionBatch.t :=
  let sid := chunk.(T_Chunk.stream_id) in
  on (T_ReceiverStreamMap.chunk_receiver_for sid);;
  result ← on (T_ReceiverStreamMap.on_chunk sid (T_ChunkedReceiverStream.apply_chunk chunk));
  match result with
  | Some nack => mret (T_ReceiverActionBatch.push_nack line_id nack false T_ReceiverActionBatch.empty)
  | None =>
      s ← get;
      next_seq ← chunk_receiver sid T_ChunkedReceiverStream.expected_seq;
      missing ← chunk_receiver sid (T_ChunkedReceiverStream.missing_ranges chunk.(T_Chunk.seq)
                                     s.(max_missing_ranges_per_heartbeat_));
      mret (T_ReceiverActionBatch.push_heartbeat
              (T_ReceiverHeartbeatAction.mk line_id
                 (T_Heartbeat.mk sid next_seq chunk.(T_Chunk.file_id) 0 0 s.(recv_window_bytes_)
                    [T_ReceivedChunk.mk chunk.(T_Chunk.seq) chunk.(T_Chunk.file_id) chunk.(T_Chunk.chunk_index)]
                    missing)
                 false false) T_ReceiverActionBatch.empty)
  end.

Definition clear_chunk_commit (stream_id : Z) : M t unit := update_context stream_id (set_commit ChunkCommit.none).

(** The path and the size of a file that was committed. *)
Definition committed_file_info (stream_id file_id : Z) : M t (path * Z) :=
  s ← get;
  let root := T_ReceiverStreamMap.stream_root_for stream_id s.(streams_) in
  manifest ← on_disk (scan stream_id root);
  size ← on_disk (file_size_or_zero (root ++ [file_name_for_id file_id]));
  mret (match list_find (λ e, e.(T_ManifestEntry.file_id) = file_id) manifest.(T_Manifest1Stream.entries) with
        | Some (_, entry) => (root ++ path_parts entry.(T_ManifestEntry.name), entry.(T_ManifestEntry.size))
        | None => (root ++ [file_name_for_id file_id], size)
        end).

Definition commit_nack (commit : T_FileCommit.t) (expected_seq expected_file_id : Z) (reason : EM_NackReason.t)
    (detail : string) : T_Nack.t :=
  T_Nack.mk commit.(T_FileCommit.stream_id) commit.(T_FileCommit.seq) expected_seq commit.(T_FileCommit.file_id) 0
    expected_file_id 0 reason detail.

(** The commit is prepared: it goes to the writer, or is taken back. *)
Definition queue_commit (line_id : Z) (commit : T_FileCommit.t) (task : T_ChunkCommitTask.t)
    : M t T_ReceiverActionBatch.t :=
  let sid := commit.(T_FileCommit.stream_id) in
  s ← get;
  let completion := length s.(completions) in
  modify (set_completions (s.(completions) ++ [T_ChunkCommitCompletion.pending]));;
  update_context sid (set_commit (ChunkCommit.mk true line_id task.(T_ChunkCommitTask.seq)
    task.(T_ChunkCommitTask.file_id) task.(T_ChunkCommitTask.final_size) task.(T_ChunkCommitTask.final_path)
    (Some completion)));;
  queued ← enqueue (CommitTask task completion);
  if negb queued then
    on (T_ReceiverStreamMap.on_chunk sid (modify (T_ChunkedReceiverStream.abort_commit commit.(T_FileCommit.seq))));;
    clear_chunk_commit sid;;
    expected ← chunk_receiver sid T_ChunkedReceiverStream.expected_seq;
    mret (T_ReceiverActionBatch.push_nack line_id
            (commit_nack commit expected commit.(T_FileCommit.file_id) EM_NackReason.IO_ERROR
               "disk writer queue full while enqueueing commit") false T_ReceiverActionBatch.empty)
  else mret (T_ReceiverActionBatch.commit_poll T_ReceiverActionBatch.empty).

Definition apply_commit (line_id : Z) (commit : T_FileCommit.t) : M t T_ReceiverActionBatch.t :=
  let sid := commit.(T_FileCommit.stream_id) in
  on (T_ReceiverStreamMap.context_for sid);;
  c ← context sid;
  let k := c.(chunk_commit) in
  if k.(ChunkCommit.queued) then
    if (k.(ChunkCommit.seq) =? commit.(T_FileCommit.seq)) && (k.(ChunkCommit.file_id) =? commit.(T_FileCommit.file_id))
    then mret T_ReceiverActionBatch.empty
    else
      let expected := match c.(chunk) with
                      | Some r => r.(T_ChunkedReceiverStream.expected_seq)
                      | None => commit.(T_FileCommit.seq)
                      end in
      mret (T_ReceiverActionBatch.push_nack line_id
              (commit_nack commit expected k.(ChunkCommit.file_id) EM_NackReason.BAD_COMMIT
                 "another commit is already pending") false T_ReceiverActionBatch.empty)
  else
    on (T_ReceiverStreamMap.chunk_receiver_for sid);;
    '(result, task) ← on (T_ReceiverStreamMap.on_chunk sid (T_ChunkedReceiverStream.prepare_commit commit));
    match result with
    | Some nack => mret (T_ReceiverActionBatch.push_nack line_id nack false T_ReceiverActionBatch.empty)
    | None =>
        if task.(T_ChunkCommitTask.seq) =? 0 then
          expected ← chunk_receiver sid T_ChunkedReceiverStream.expected_seq;
          if commit.(T_FileCommit.seq) <? expected then
            info ← committed_file_info sid commit.(T_FileCommit.file_id);
            s ← get;
            mret (T_ReceiverActionBatch.push_heartbeat
                    (T_ReceiverHeartbeatAction.mk line_id
                       (T_Heartbeat.mk sid expected commit.(T_FileCommit.file_id) info.2 info.2
                          s.(recv_window_bytes_) [] []) true false) T_ReceiverActionBatch.empty)
          else mret T_ReceiverActionBatch.empty
        else queue_commit line_id commit task
    end.

(** *** What the writer has done *)
Definition poll_append_fsync (stream_id : Z) (actions : T_ReceiverActionBatch.t) : M t T_ReceiverActionBatch.t :=
  c ← context stream_id;
  let d := c.(durable) in
  if d.(AppendDurable.fsync_failed) then
    mret (T_ReceiverActionBatch.fail ("RECEIVER append fsync failed stream=" ++ to_string stream_id ++ " error=" ++
            d.(AppendDurable.fsync_error)) actions)
  else
    let completed := d.(AppendDurable.fsync_completed) in
    actions ← (if completed >? d.(AppendDurable.durable_offset) then
      update_durable stream_id (AppendDurable.set_offset completed);;
      match c.(append) with
      | Some r =>
          if d.(AppendDurable.heartbeat_line_id) =? 0 then mret actions
          else
            s ← get;
            mret (T_ReceiverActionBatch.push_heartbeat
                    (T_ReceiverHeartbeatAction.mk d.(AppendDurable.heartbeat_line_id)
                       (T_ReceiverStream.heartbeat s.(recv_window_bytes_) completed r) false false) actions)
      | None => mret actions
      end
    else mret actions);
    (if d.(AppendDurable.fsync_queued) && (completed >=? d.(AppendDurable.fsync_active_target))
     then update_durable stream_id (AppendDurable.set_active false 0) else mret tt);;
    c ← context stream_id;
    let d := c.(durable) in
    (if negb d.(AppendDurable.fsync_queued) && (d.(AppendDurable.durable_target) >? d.(AppendDurable.durable_offset))
     then maybe_enqueue_append_fsync stream_id d.(AppendDurable.durable_target) else mret tt);;
    mret actions.

(** The commit has been written. *)
Definition finish_chunk_commit (stream_id : Z) (k : ChunkCommit.t) (actions : T_ReceiverActionBatch.t)
    : M t T_ReceiverActionBatch.t :=
  let result := T_ChunkCommitResult.mk stream_id k.(ChunkCommit.seq) k.(ChunkCommit.file_id)
                  k.(ChunkCommit.final_size) k.(ChunkCommit.final_path) in
  finished ← try_catch
    (on (T_ReceiverStreamMap.on_chunk stream_id (T_ChunkedReceiverStream.finish_commit result));; mret None)
    (λ what, mret (Some what));
  match finished with
  | Some what =>
      mret (T_ReceiverActionBatch.fail ("RECEIVER chunk commit finish failed stream=" ++ to_string stream_id ++
              " error=" ++ what) actions)
  | None =>
      refresh_append stream_id;;
      expected ← chunk_receiver stream_id T_ChunkedReceiverStream.expected_seq;
      s ← get;
      clear_chunk_commit stream_id;;
      mret (T_ReceiverActionBatch.quiet_stop (T_ReceiverActionBatch.push_heartbeat
              (T_ReceiverHeartbeatAction.mk k.(ChunkCommit.line_id)
                 (T_Heartbeat.mk stream_id expected k.(ChunkCommit.file_id) k.(ChunkCommit.final_size)
                    k.(ChunkCommit.final_size) s.(recv_window_bytes_) [] []) true true) actions))
  end.

Definition poll_chunk_commit (stream_id : Z) (actions : T_ReceiverActionBatch.t) : M t T_ReceiverActionBatch.t :=
  c ← context stream_id;
  let k := c.(chunk_commit) in
  if negb k.(ChunkCommit.queued) then mret actions
  else
    s ← get;
    match k.(ChunkCommit.completion) ≫= (λ i, s.(completions) !! i) with
    | None =>
        mret (T_ReceiverActionBatch.fail ("RECEIVER chunk commit missing completion stream=" ++ to_string stream_id) actions)
    | Some completion =>
        if completion.(T_ChunkCommitCompletion.failed) then
          (match c.(chunk) with
           | Some _ => on (T_ReceiverStreamMap.on_chunk stream_id
                             (modify (T_ChunkedReceiverStream.abort_commit k.(ChunkCommit.seq))))
           | None => mret tt
           end);;
          let expected := match c.(chunk) with
                          | Some r => r.(T_ChunkedReceiverStream.expected_seq)
                          | None => k.(ChunkCommit.seq)
                          end in
          clear_chunk_commit stream_id;;
          mret (T_ReceiverActionBatch.fail "receiver chunk commit failed"
                  (T_ReceiverActionBatch.push_nack k.(ChunkCommit.line_id)
                     (T_Nack.mk stream_id k.(ChunkCommit.seq) expected k.(ChunkCommit.file_id) 0
                        k.(ChunkCommit.file_id) 0 (chunk_commit_error_reason completion.(T_ChunkCommitCompletion.error))
                        completion.(T_ChunkCommitCompletion.error)) true actions))
        else if negb completion.(T_ChunkCommitCompletion.completed) then mret actions
        else
          match c.(chunk) with
          | None =>
              mret (T_ReceiverActionBatch.fail ("RECEIVER chunk commit completed without receiver stream=" ++
                      to_string stream_id) actions)
          | Some _ => finish_chunk_commit stream_id k actions
          end
    end.

Fixpoint poll_streams (stream_ids : list Z) (actions : T_ReceiverActionBatch.t) : M t T_ReceiverActionBatch.t :=
  match stream_ids with
  | [] => mret actions
  | stream_id :: stream_ids =>
      actions ← poll_append_fsync stream_id actions;
      if actions.(T_ReceiverActionBatch.failed) then mret actions
      else
        actions ← poll_chunk_commit stream_id actions;
        if actions.(T_ReceiverActionBatch.failed) then mret actions
        else poll_streams stream_ids actions
  end.

Definition poll_completions `{!MapIteration Z T_ReceiverStreamContext.t} : M t T_ReceiverActionBatch.t :=
  s ← get;
  poll_streams (iteration s.(streams_).(T_ReceiverStreamMap.streams_)).*1 T_ReceiverActionBatch.empty.

(** *** The writer's thread *)

(** The function given to [enqueue]; what it catches goes to the object it
    reports to. *)
Definition run_task (task : Task) : M t unit :=
  match task with
  | FsyncTask p durable_target stream_id =>
      try_catch
        (on_disk (fsync_file_for_durable_offset p);;
         update_durable stream_id (AppendDurable.set_completed durable_target))
        (λ what, update_durable stream_id (AppendDurable.set_failed true (copy_error what)))
  | CommitTask task completion =>
      try_catch
        (on_disk (T_ChunkedReceiverStream.write_commit_task task);;
         modify (λ s, set_completions (alter (λ c, T_ChunkCommitCompletion.mk true c.(T_ChunkCommitCompletion.failed)
                    c.(T_ChunkCommitCompletion.error)) completion s.(completions)) s))
        (λ what, modify (λ s, set_completions (alter (λ c, T_ChunkCommitCompletion.mk
                    c.(T_ChunkCommitCompletion.completed) true (copy_error what)) completion s.(completions)) s))
  end.

(** The writer takes the next task off the queue. *)
Definition writer_start : M t unit := modify (λ s, set_writer (TaskQueue.start s.(disk_writer_)) s).

(** The task the writer has in hand ends; what it throws is kept. *)
Definition writer_finish : M t unit :=
  s ← get;
  match s.(disk_writer_).(TaskQueue.running) with
  | None => mret tt
  | Some task =>
      try_catch (run_task task) (λ what, modify (set_writer_error (Some (copy_error what))));;
      modify (λ s, set_writer (TaskQueue.finish s.(disk_writer_)) s)
  end.
End handlers.
End T_ReceiverCoordinator.

(** ** Runs *)
Module CoordinatorRun.
Import T_ReceiverCoordinator.

Section run.
Context {CRC : Crc32c} `{!MapIteration Z T_ReceiverStreamContext.t}.

(** What the event loop gives the coordinator, and the moves of the writer. *)
Inductive event :=
  | OnCreate (line_id : Z) (create : T_Create.t)
  | OnData (line_id : Z) (data : T_Data.t)
  | OnBegin (line_id : Z) (begin : T_FileBegin.t)
  | OnChunk (line_id : Z) (chunk : T_Chunk.t)
  | OnCommit (line_id : Z) (commit : T_FileCommit.t)
  | OnPoll
  | WriterStart
  | WriterFinish.

Definition handle (e : event) : M t T_ReceiverActionBatch.t :=
  match e with
  | OnCreate line_id create => apply_create line_id create
  | OnData line_id data => apply_data line_id data
  | OnBegin line_id begin => apply_begin line_id begin
  | OnChunk line_id chunk => apply_chunk line_id chunk
  | OnCommit line_id commit => apply_commit line_id commit
  | OnPoll => poll_completions
  | WriterStart => writer_start;; mret T_ReceiverActionBatch.empty
  | WriterFinish => writer_finish;; mret T_ReceiverActionBatch.empty
  end.

(** An exception leaves the state as it is; the events go on. *)
Fixpoint run (es : list event) (s : t) : list (exc T_ReceiverActionBatch.t) * t :=
  match es with
  | [] => ([], s)
  | e :: es =>
      let '(r, s) := handle e s in
      let '(rs, s) := run es s in
      (r :: rs, s)
  end.

Definition state_after (es : list event) (s : t) : t := (run es s).2.

Lemma run_app es1 es2 s :
  run (es1 ++ es2) s = (let '(rs1, s) := run es1 s in let '(rs2, s) := run es2 s in (rs1 ++ rs2, s)).
Proof.
  revert s. induction es1 as [|e es1 IH]; intros s; cbn; [by destruct (run es2 s)|].
  destruct (handle e s) as [r s1]. rewrite IH. destruct (run es1 s1) as [rs1 s2]. by destruct (run es2 s2).
Qed.

Lemma run_snoc es e s : state_after (es ++ [e]) s = (handle e (state_after es s)).2.
Proof.
  unfold state_after. rewrite run_app. destruct (run es s) as [rs s1]. cbn. by destruct (handle e s1).
Qed.
End run.
End CoordinatorRun.
