(* ===== verification/CommitConfirmation.v ===== *)
(** * Commits: what the coordinator confirms

    Every run of the coordinator and the writer: a commit is confirmed only after
    the writer has verified and renamed the file, and none is left unanswered. *)
From S2P Require Import Prelude Hoare Crc32c Filesystem Wire Protocol Sync ReceiverPaths AppendReceiver ChunkReceiver.
From S2P Require Import DiskWriter ReceiverStreams NodeCommon Coordinator.
#[local] Open Scope Z_scope.
Export (hints) T_ReceiverStreamMap.

(** ** What becomes of the commits *)
Module CommitFacts.
Import T_ReceiverStreamContext T_ReceiverCoordinator CoordinatorRun StreamFrame.

(** What commits are about: the one of each stream, the completions, and the
    commits the writer has been given and not ended. *)
Definition commit_in (m : T_ReceiverStreamMap.t) (sid : Z) : ChunkCommit.t :=
  from_option chunk_commit ChunkCommit.none (m.(T_ReceiverStreamMap.streams_) !! sid).
Definition commit_at (s : t) (sid : Z) : ChunkCommit.t := commit_in s.(streams_) sid.
Definition commit_of (task : Task) : option (T_ChunkCommitTask.t * nat) :=
  match task with CommitTask task i => Some (task, i) | FsyncTask _ _ _ => None end.
Definition commit_tasks (q : TaskQueue.t Task) : list (T_ChunkCommitTask.t * nat) :=
  omap commit_of (option_list q.(TaskQueue.running) ++ q.(TaskQueue.waiting)).

Definition same_commits (s s' : t) : Prop :=
  (∀ sid, commit_at s' sid = commit_at s sid) ∧ s'.(completions) = s.(completions) ∧
  commit_tasks s'.(disk_writer_) = commit_tasks s.(disk_writer_).

(** What is a matter of the commits only. *)
Class CommitOnly (P : t → Prop) := commit_only s s' : same_commits s s' → P s → P s'.

(** *** Operations that leave the commits alone *)
Section frame.
Context {CRC : Crc32c} (P : t → Prop) `{!CommitOnly P}.

Lemma keeps_quiet {A} (m : M T_ReceiverStreamMap.t A) : quiet_map chunk_commit ChunkCommit.none m → keeps P (on m).
Proof.
  intros Hm s r s' HP Hr. unfold on in Hr. destruct (m (part s)) as [r0 c] eqn:E. injection Hr as <- <-.
  assert (P (set_part c s)) by (apply (commit_only s); [|done]; split_and!; [|done..]; exact (Hm _ _ _ E)).
  by destruct r0.
Qed.
End frame.
#[export] Hint Extern 1 (keeps _ (on _)) => apply keeps_quiet; [typeclasses eauto|solve [eauto with keeps]] : keeps.
#[export] Hint Extern 1 (CommitOnly _) => typeclasses eauto : keeps.

Lemma enqueue_tasks task q queued q' :
  TaskQueue.enqueue task q = (queued, q') →
  commit_tasks q' = commit_tasks q ++ (if queued then option_list (commit_of task) else []).
Proof.
  unfold TaskQueue.enqueue. destruct (_ || _); intros [= <- <-]; [by rewrite app_nil_r|].
  unfold commit_tasks. cbn. rewrite app_assoc, omap_app. by destruct task.
Qed.

Section frame_hooks.
Context {CRC : Crc32c} (P : t → Prop) `{!CommitOnly P}.

Lemma keeps_update_durable sid f : keeps P (update_durable sid f).
Proof. apply keeps_quiet; [done|]. by apply quiet_update. Qed.
Lemma keeps_on_disk {A} (m : M fsys A) : keeps P (on_disk m).
Proof. apply keeps_quiet; [done|]. apply quiet_world. Qed.
Lemma keeps_context sid : keeps P (context sid).
Proof. apply keeps_quiet; [done|]. apply quiet_context. Qed.
Lemma keeps_append_receiver {A} sid (f : T_ReceiverStream.t → A) : keeps P (append_receiver sid f).
Proof. apply keeps_quiet; [done|]. by apply quiet_on_append. Qed.
Lemma keeps_chunk_receiver {A} sid (f : T_ChunkedReceiverStream.t → A) : keeps P (chunk_receiver sid f).
Proof. apply keeps_quiet; [done|]. by apply quiet_on_chunk. Qed.
Lemma keeps_writer_error e : keeps P (modify (set_writer_error e)).
Proof. apply keeps_modify. intros s. by apply commit_only. Qed.

Lemma keeps_enqueue_fsync p target sid : keeps P (enqueue (FsyncTask p target sid)).
Proof.
  intros s r s' HP Hr. unfold enqueue in Hr. destruct (TaskQueue.enqueue _ _) as [queued q] eqn:E.
  injection Hr as <- <-. apply (commit_only s); [|done]. split_and!; [done..|].
  cbn. rewrite (enqueue_tasks _ _ _ _ E). destruct queued; cbn; by rewrite app_nil_r.
Qed.

Lemma keeps_writer_start : keeps P writer_start.
Proof.
  apply keeps_modify. intros s. apply commit_only. split_and!; [done..|]. cbn.
  destruct s.(disk_writer_) as [[|task w] [r|] c]; done.
Qed.
End frame_hooks.
#[export] Hint Resolve keeps_update_durable keeps_on_disk keeps_context keeps_append_receiver keeps_chunk_receiver
  keeps_writer_error keeps_enqueue_fsync keeps_writer_start : keeps.

Section frame_handlers.
Context {CRC : Crc32c} (P : t → Prop) `{!CommitOnly P}.

Lemma keeps_reset sid id p offset : keeps P (reset_append_durable_context sid id p offset).
Proof. unfold reset_append_durable_context. solve_keeps. Qed.
Lemma keeps_maybe_enqueue sid target : keeps P (maybe_enqueue_append_fsync sid target).
Proof. unfold maybe_enqueue_append_fsync. solve_keeps. Qed.
Lemma keeps_refresh_chunk sid : keeps P (refresh_chunk sid).
Proof. unfold refresh_chunk. solve_keeps. Qed.
Lemma keeps_refresh_append sid : keeps P (refresh_append sid).
Proof. unfold refresh_append. solve_keeps. Qed.
Lemma keeps_committed_file_info sid id : keeps P (committed_file_info sid id).
Proof. unfold committed_file_info. solve_keeps. Qed.
End frame_handlers.
#[export] Hint Resolve keeps_reset keeps_maybe_enqueue keeps_refresh_chunk keeps_refresh_append
  keeps_committed_file_info : keeps.

(** The context of a stream, read. *)
Lemma context_run sid s c s' :
  context sid s = (Ret c, s') →
  s' = s ∧ commit_at s sid = c.(chunk_commit) ∧ s.(streams_).(T_ReceiverStreamMap.streams_) !! sid = Some c.
Proof.
  unfold context, on, T_ReceiverStreamMap.context. cbn. unfold commit_at, commit_in.
  destruct (_ !! sid) as [x|]; [intros [= -> <-]|by intros]. split; [by destruct s|done].
Qed.

(** *** Commits and their tasks *)
Section commits.
Context {CRC : Crc32c} `{!MapIteration Z T_ReceiverStreamContext.t}.
Implicit Types W : T_ChunkCommitTask.t → Prop.

Definition commit_matches (sid : Z) (k : ChunkCommit.t) (task : T_ChunkCommitTask.t) : Prop :=
  task.(T_ChunkCommitTask.stream_id) = sid ∧ task.(T_ChunkCommitTask.file_id) = k.(ChunkCommit.file_id) ∧
  task.(T_ChunkCommitTask.final_size) = k.(ChunkCommit.final_size) ∧
  task.(T_ChunkCommitTask.final_path) = k.(ChunkCommit.final_path).

Definition ended (c : T_ChunkCommitCompletion.t) : Prop :=
  c.(T_ChunkCommitCompletion.completed) = true ∨ c.(T_ChunkCommitCompletion.failed) = true.

(** Each completion belongs to a task, which was written ([W]) if it is completed;
    a commit that is queued waits for one that has ended or that the writer has. *)
Definition Inv W (s : t) : Prop :=
  ∃ ts, length ts = length s.(completions) ∧
    (∀ task i, (task, i) ∈ commit_tasks s.(disk_writer_) → ts !! i = Some task) ∧
    (∀ i c task, s.(completions) !! i = Some c → ts !! i = Some task →
       c.(T_ChunkCommitCompletion.completed) = true → W task) ∧
    (∀ sid, (commit_at s sid).(ChunkCommit.queued) = true →
       ∃ i c task, (commit_at s sid).(ChunkCommit.completion) = Some i ∧ s.(completions) !! i = Some c ∧
         ts !! i = Some task ∧ commit_matches sid (commit_at s sid) task ∧
         ((task, i) ∈ commit_tasks s.(disk_writer_) ∨ ended c)).

#[local] Instance Inv_commit_only W : CommitOnly (Inv W).
Proof.
  intros s s' (Hk & Hc & Ht) (ts & H1 & H2 & H3 & H4). exists ts. rewrite Hc, Ht. split_and!; [done..|].
  intros sid. rewrite Hk. apply H4.
Qed.

Lemma Inv_written_mono W W' s : (∀ task, W task → W' task) → Inv W s → Inv W' s.
Proof.
  intros HW (ts & H1 & H2 & H3 & H4). exists ts. split_and!; [done..| |done].
  intros i c task Hc Ht Hd. eauto.
Qed.

(** A batch confirms only commits that were written. *)
Definition confirms W (a : T_ReceiverActionBatch.t) : Prop :=
  Forall (λ h, h.(T_ReceiverHeartbeatAction.only_if_line_open) = true →
    let hb := h.(T_ReceiverHeartbeatAction.heartbeat) in
    ∃ task, W task ∧ task.(T_ChunkCommitTask.stream_id) = hb.(T_Heartbeat.stream_id) ∧
      task.(T_ChunkCommitTask.file_id) = hb.(T_Heartbeat.file_id) ∧
      hb.(T_Heartbeat.offset) = task.(T_ChunkCommitTask.final_size) ∧
      hb.(T_Heartbeat.durable_offset) = task.(T_ChunkCommitTask.final_size)) a.(T_ReceiverActionBatch.heartbeats).

Lemma confirms_empty W : confirms W T_ReceiverActionBatch.empty.
Proof. constructor. Qed.
Lemma confirms_plain W line hb flush a :
  confirms W a → confirms W (T_ReceiverActionBatch.push_heartbeat (T_ReceiverHeartbeatAction.mk line hb flush false) a).
Proof. intros Ha. apply Forall_app. split; [done|]. by constructor. Qed.
Lemma confirms_quiet_stop W a : confirms W a → confirms W (T_ReceiverActionBatch.quiet_stop a).
Proof. done. Qed.
Lemma confirms_commit_poll W a : confirms W a → confirms W (T_ReceiverActionBatch.commit_poll a).
Proof. done. Qed.
Lemma confirms_fail W e a : confirms W a → confirms W (T_ReceiverActionBatch.fail e a).
Proof. done. Qed.
Lemma confirms_push_nack W line n b a : confirms W a → confirms W (T_ReceiverActionBatch.push_nack line n b a).
Proof. done. Qed.
#[local] Hint Resolve confirms_empty confirms_plain confirms_quiet_stop confirms_commit_poll confirms_fail
  confirms_push_nack : yisync.

Lemma create_confirms W line create : gives (Inv W) (apply_create line create) (confirms W).
Proof. unfold apply_create. solve_gives; auto 10 with yisync. Qed.
Lemma data_confirms W line data : gives (Inv W) (apply_data line data) (confirms W).
Proof. unfold apply_data. solve_gives; auto 10 with yisync. Qed.
Lemma begin_confirms W line begin : gives (Inv W) (apply_begin line begin) (confirms W).
Proof. unfold apply_begin. solve_gives; auto 10 with yisync. Qed.
Lemma chunk_confirms W line chunk : gives (Inv W) (apply_chunk line chunk) (confirms W).
Proof. unfold apply_chunk. solve_gives; auto 10 with yisync. Qed.

Lemma commit_at_update s sid f sid' :
  commit_at (set_streams (T_ReceiverStreamMap.set_streams
    (alter f sid s.(streams_).(T_ReceiverStreamMap.streams_)) s.(streams_)) s) sid' = commit_at s sid' ∨
  sid' = sid ∧ ∃ c, s.(streams_).(T_ReceiverStreamMap.streams_) !! sid = Some c ∧
    commit_at (set_streams (T_ReceiverStreamMap.set_streams
      (alter f sid s.(streams_).(T_ReceiverStreamMap.streams_)) s.(streams_)) s) sid' = (f c).(chunk_commit).
Proof.
  unfold commit_at, commit_in. cbn. destruct (decide (sid' = sid)) as [->|Hne].
  - rewrite lookup_alter_eq. destruct (_ !! sid) as [c|]; cbn; [right|by left]. eauto.
  - rewrite lookup_alter_ne by done. by left.
Qed.

Lemma keeps_clear W sid : keeps (Inv W) (clear_chunk_commit sid).
Proof.
  intros s r s' (ts & H1 & H2 & H3 & H4) [= <- <-]. exists ts. split_and!; [done..|].
  intros sid' Hq. cbn in *.
  destruct (commit_at_update s sid (set_commit ChunkCommit.none) sid') as [E|(-> & c & _ & E)];
    rewrite E in *; [by apply H4|done].
Qed.
#[local] Hint Resolve keeps_clear : keeps.

(** The task of a commit is handed over. *)
Lemma hand_over W s sid line task q queued :
  Inv W s → task.(T_ChunkCommitTask.stream_id) = sid →
  TaskQueue.enqueue (CommitTask task (length s.(completions))) s.(disk_writer_) = (queued, q) →
  let k := ChunkCommit.mk true line task.(T_ChunkCommitTask.seq) task.(T_ChunkCommitTask.file_id)
             task.(T_ChunkCommitTask.final_size) task.(T_ChunkCommitTask.final_path) (Some (length s.(completions))) in
  let m := T_ReceiverStreamMap.set_streams
             (alter (set_commit (if queued then k else ChunkCommit.none)) sid
                s.(streams_).(T_ReceiverStreamMap.streams_)) s.(streams_) in
  Inv W (set_writer q (set_streams m (set_completions (s.(completions) ++ [T_ChunkCommitCompletion.pending]) s))).
Proof.
  intros (ts & H1 & H2 & H3 & H4) Hsid Eq k m. exists (ts ++ [task]). cbn. rewrite (enqueue_tasks _ _ _ _ Eq).
  split_and!.
  - by rewrite !length_app, H1.
  - intros task' i [Hin|Hin]%elem_of_app; [by apply lookup_app_l_Some, H2|].
    destruct queued; [|by apply elem_of_nil in Hin]. apply list_elem_of_singleton in Hin as [= -> ->].
    by rewrite <- H1, lookup_app_r, Nat.sub_diag by lia.
  - intros i c task' Hc Ht Hd. apply lookup_snoc_Some in Hc as [[Hi Hc]|[-> <-]]; [|done].
    rewrite lookup_app_l in Ht by lia. eauto.
  - intros sid' Hq.
    destruct (commit_at_update s sid (set_commit (if queued then k else ChunkCommit.none)) sid') as [E|(-> & c & Hc & E)];
      unfold commit_at in E, Hq |- *; cbn in E, Hq |- *; subst m; rewrite E in *.
    + destruct (H4 sid' Hq) as (i & c & task' & E1 & E2 & E3 & E4 & E5). exists i, c, task'.
      split; [done|]. do 2 (split; [by apply lookup_app_l_Some|]). split; [done|].
      destruct E5 as [E5|E5]; [left|by right]. apply elem_of_app. by left.
    + destruct queued; [|done]. exists (length s.(completions)), T_ChunkCommitCompletion.pending, task.
      split; [done|]. split; [by rewrite lookup_app_r, Nat.sub_diag by lia|].
      split; [by rewrite <- H1, lookup_app_r, Nat.sub_diag by lia|]. split; [done|].
      left. apply elem_of_app. right. by left.
Qed.

Lemma commit_at_alter s sid k sid' :
  is_Some (s.(streams_).(T_ReceiverStreamMap.streams_) !! sid) →
  commit_at (set_streams (T_ReceiverStreamMap.set_streams
    (alter (set_commit k) sid s.(streams_).(T_ReceiverStreamMap.streams_)) s.(streams_)) s) sid' =
  if decide (sid' = sid) then k else commit_at s sid'.
Proof.
  intros [c Hc]. unfold commit_at, commit_in. cbn. case_decide as E.
  - subst. by rewrite lookup_alter_eq, Hc.
  - by rewrite lookup_alter_ne.
Qed.

(** The stream's chunk receiver is there. *)
Definition has_chunk (sid : Z) (s : t) : Prop :=
  ∃ c r, s.(streams_).(T_ReceiverStreamMap.streams_) !! sid = Some c ∧ c.(chunk) = Some r.

Lemma has_chunk_stream sid s : has_chunk sid s → is_Some (s.(streams_).(T_ReceiverStreamMap.streams_) !! sid).
Proof. intros (c & r & Hc & _). by exists c. Qed.

Lemma on_chunk_modify sid f s :
  has_chunk sid s →
  ∃ s', on (T_ReceiverStreamMap.on_chunk sid (modify f)) s = (Ret tt, s') ∧ same_commits s s' ∧ has_chunk sid s' ∧
    s'.(disk_writer_) = s.(disk_writer_).
Proof.
  intros (c & r & Hc & Hr).
  destruct (on (T_ReceiverStreamMap.on_chunk sid (modify f)) s) as [a s'] eqn:E.
  pose proof (quiet_on_chunk chunk_commit ChunkCommit.none sid (modify f)) as Hq. unfold on in E. cbn in E.
  destruct (T_ReceiverStreamMap.on_chunk sid (modify f) s.(streams_)) as [a' m] eqn:Em.
  specialize (Hq _ _ _ Em). unfold T_ReceiverStreamMap.on_chunk in Em. rewrite Hc, Hr in Em. cbn in Em.
  injection Em as <- <-. injection E as <- <-. eexists. split; [done|]. split; [done|]. split; [|done].
  do 2 eexists. cbn. rewrite lookup_insert_eq. done.
Qed.

Lemma queue_commit_confirms W line commit task s r s' :
  Inv W s → has_chunk commit.(T_FileCommit.stream_id) s →
  task.(T_ChunkCommitTask.stream_id) = commit.(T_FileCommit.stream_id) →
  queue_commit line commit task s = (r, s') →
  match r with Ret a => Inv W s' ∧ confirms W a | Throw _ => Inv W s' end.
Proof.
  intros HI Hchunk Hsid H. unfold queue_commit in H.
  set (sid := commit.(T_FileCommit.stream_id)) in *.
  rewrite (bind_ret get _ s s s eq_refl) in H. cbv zeta in H.
  rewrite (bind_ret (modify _) _ s tt _ eq_refl) in H.
  rewrite (bind_ret (update_context _ _) _ _ tt _ eq_refl) in H.
  destruct (TaskQueue.enqueue (CommitTask task (length s.(completions))) s.(disk_writer_)) as [queued q] eqn:Eq.
  match type of H with (enqueue ?e ≫= _) ?s1 = _ =>
    assert (enqueue e s1 = (Ret queued, set_writer q s1)) as Een by (unfold enqueue; cbn; by rewrite Eq) end.
  rewrite (bind_ret _ _ _ _ _ Een) in H. clear Een.
  pose proof (hand_over W s sid line task q queued HI Hsid Eq) as Hover. cbv zeta in Hover.
  destruct queued; cbn [negb] in H.
  - injection H as <- <-. split; [done|]. apply confirms_commit_poll, confirms_empty.
  - match type of H with (_ ≫= _) ?x = _ => set (s2 := x) in H end.
    assert (Hchunk2 : has_chunk sid s2).
    { destruct Hchunk as (c & r0 & Hc & Hr). do 2 eexists. subst s2. cbn. rewrite lookup_alter_eq, Hc. cbn. eauto. }
    destruct (on_chunk_modify sid (T_ChunkedReceiverStream.abort_commit commit.(T_FileCommit.seq)) s2 Hchunk2)
      as (s3 & E3 & Hs3 & Hchunk3 & Hw3).
    rewrite (bind_ret _ _ _ _ _ E3) in H. clear E3.
    destruct (clear_chunk_commit sid s3) as [u s4] eqn:E4.
    assert (HI4 : Inv W s4).
    { eapply (commit_only (P := Inv W)); [|exact Hover]. injection E4 as _ <-. destruct Hs3 as (Ek & Ec & Et).
      split_and!; [|done|]; [|by cbn; rewrite Et].
      intros sid'. cbn in Ek |- *.
      rewrite (commit_at_alter s3) by by apply has_chunk_stream.
      etransitivity; [|symmetry; apply (commit_at_alter (set_writer q (set_completions _ s)) sid ChunkCommit.none);
        by apply has_chunk_stream].
      case_decide as Hd; [done|]. rewrite Ek. subst s2. cbn.
      etransitivity; [apply (commit_at_alter (set_writer q (set_completions _ s)) sid); by apply has_chunk_stream|].
      by rewrite decide_False. }
    assert (Eu : u = Ret tt) by by injection E4. subst u. rewrite (bind_ret _ _ _ _ _ E4) in H.
    match type of H with ?m s4 = _ => assert (Hg : gives (Inv W) m (confirms W)) end; [|exact (Hg s4 r s' HI4 H)].
    solve_gives. auto with yisync.
Qed.

(** A call that returned found its receiver. *)
Lemma on_chunk_ret {A} sid (m : M T_ChunkedReceiverStream.t A) s a s' :
  on (T_ReceiverStreamMap.on_chunk sid m) s = (Ret a, s') →
  has_chunk sid s' ∧ ∃ r r', m r = (Ret a, r').
Proof.
  unfold on. cbn. destruct (T_ReceiverStreamMap.on_chunk sid m s.(streams_)) as [a' c'] eqn:E. intros [= -> <-].
  unfold T_ReceiverStreamMap.on_chunk in E. destruct (_ !! sid) as [c|] eqn:Ec; [|done].
  destruct (chunk c) as [r|] eqn:Er; [|done].
  destruct (m (T_ChunkedReceiverStream.set_world _ r)) as [a'' r'] eqn:Em. injection E as -> <-. split; [|eauto].
  do 2 eexists. cbn. rewrite lookup_insert_eq. done.
Qed.

Lemma prepare_triple W sid commit :
  commit.(T_FileCommit.stream_id) = sid →
  triple (Inv W) (on (T_ReceiverStreamMap.on_chunk sid (T_ChunkedReceiverStream.prepare_commit commit)))
    (λ p s, Inv W s ∧ has_chunk sid s ∧
       (p.2.(T_ChunkCommitTask.seq) ≠ 0 → p.2.(T_ChunkCommitTask.stream_id) = sid)) (Inv W).
Proof.
  intros Hsid s r s' HI Hr.
  assert (Hk : keeps (Inv W) (on (T_ReceiverStreamMap.on_chunk sid (T_ChunkedReceiverStream.prepare_commit commit))))
    by eauto with keeps.
  pose proof (keeps_run _ _ _ _ _ Hk HI Hr) as HI'. destruct r as [[result task]|e]; [|done].
  destruct (on_chunk_ret _ _ _ _ _ Hr) as (Hc & r0 & r1 & E). split_and!; [done..|]. cbn. intros Hseq.
  apply ChunkSafety.prepare_commit_cases in E as [(n & task' & [= -> ->] & Hz & _)|[(e & [=] & _)|H1]]; [done|].
  destruct H1 as (f & w & _ & Hid & _ & _ & _ & _ & _ & [= -> ->] & _). cbn. congruence.
Qed.

Lemma commit_confirms W line commit : gives (Inv W) (apply_commit line commit) (confirms W).
Proof.
  unfold apply_commit. cbv zeta. apply gives_after; [solve_keeps|]. intros _.
  apply gives_after; [solve_keeps|]. intros c. destruct (ChunkCommit.queued _).
  { destruct (_ && _); solve_gives; auto with yisync. }
  apply gives_after; [solve_keeps|]. intros _.
  eapply triple_bind; [by apply prepare_triple|]. intros [result task].
  destruct result as [nack|].
  { intros s r s' (HI & _) [= <- <-]. split; [done|]. auto with yisync. }
  destruct (Z.eqb_spec task.(T_ChunkCommitTask.seq) 0) as [_|Hseq].
  - intros s r s' (HI & _) Hr. revert s r s' HI Hr. change (gives (Inv W)
      (expected ← chunk_receiver commit.(T_FileCommit.stream_id) T_ChunkedReceiverStream.expected_seq;
       if commit.(T_FileCommit.seq) <? expected then
         info ← committed_file_info commit.(T_FileCommit.stream_id) commit.(T_FileCommit.file_id);
         s ← get;
         mret (T_ReceiverActionBatch.push_heartbeat
           (T_ReceiverHeartbeatAction.mk line
              (T_Heartbeat.mk commit.(T_FileCommit.stream_id) expected commit.(T_FileCommit.file_id) info.2 info.2
                 s.(recv_window_bytes_) [] []) true false) T_ReceiverActionBatch.empty)
       else mret T_ReceiverActionBatch.empty) (confirms W)).
    solve_gives; auto with yisync.
  - intros s r s' (HI & Hc & Hsid) Hr. eapply queue_commit_confirms; eauto.
Qed.

(** *** Polls *)
Lemma poll_fsync_confirms W sid a :
  confirms W a → gives (Inv W) (poll_append_fsync sid a) (confirms W).
Proof.
  intros Ha. unfold poll_append_fsync. cbv zeta. apply gives_after; [solve_keeps|]. intros c.
  destruct (AppendDurable.fsync_failed _); [solve_gives; auto with yisync|].
  apply (gives_bind _ _ _ (confirms W)).
  - solve_gives; auto with yisync.
  - intros a' Ha'. solve_gives; done.
Qed.

Lemma finish_confirms W sid k task a :
  confirms W a → W task → commit_matches sid k task →
  gives (Inv W) (finish_chunk_commit sid k a) (confirms W).
Proof.
  intros Ha HW (Hsid & Hfile & Hsize & _). unfold finish_chunk_commit. cbv zeta.
  apply gives_after; [solve_keeps|]. intros [what|]; [solve_gives; auto with yisync|].
  solve_gives. apply confirms_quiet_stop, Forall_app. split; [done|]. constructor; [|done]. intros _. cbn.
  exists task. split_and!; congruence.
Qed.

Lemma poll_commit_confirms W sid a :
  confirms W a → gives (Inv W) (poll_chunk_commit sid a) (confirms W).
Proof.
  intros Ha s r s' HI Hr. unfold poll_chunk_commit in Hr.
  destruct (context sid s) as [[c|e] s1] eqn:Ec; cycle 1.
  { rewrite (bind_throw _ _ _ _ _ Ec) in Hr. injection Hr as <- <-.
    exact (keeps_run _ _ _ _ _ (keeps_context (Inv W) sid) HI Ec). }
  rewrite (bind_ret _ _ _ _ _ Ec) in Hr. cbv zeta in Hr.
  apply context_run in Ec as (-> & Hk & _).
  destruct (ChunkCommit.queued c.(chunk_commit)) eqn:Eq; cbn [negb] in Hr; [|by injection Hr as <- <-].
  rewrite (bind_ret get _ s s s eq_refl) in Hr.
  pose proof HI as (ts & H1 & H2 & H3 & H4). rewrite <- Hk in Eq.
  destruct (H4 sid Eq) as (i & comp & task & Ei & Ecomp & Et & Em & _). rewrite <- Hk, Ei in Hr. cbn in Hr.
  rewrite Ecomp in Hr. rewrite Hk in *.
  match type of Hr with ?m s = _ => assert (Hg : gives (Inv W) m (confirms W)) end; [|exact (Hg s r s' HI Hr)].
  destruct (T_ChunkCommitCompletion.failed comp).
  - apply gives_after; [solve_keeps|]. intros _. apply gives_after; [solve_keeps|]. intros _.
    apply gives_ret. auto with yisync.
  - destruct (T_ChunkCommitCompletion.completed comp) eqn:Ed; cbn [negb]; [|by apply gives_ret].
    destruct (chunk c); [|apply gives_ret; auto with yisync].
    by eapply finish_confirms; eauto.
Qed.

Lemma poll_confirms W ids a : confirms W a → gives (Inv W) (poll_streams ids a) (confirms W).
Proof.
  revert a. induction ids as [|sid ids IH]; intros a Ha; cbn; [by apply gives_ret|].
  apply (gives_bind _ _ _ (confirms W)); [by apply poll_fsync_confirms|]. intros a1 Ha1.
  destruct (T_ReceiverActionBatch.failed a1); [by apply gives_ret|].
  apply (gives_bind _ _ _ (confirms W)); [by apply poll_commit_confirms|]. intros a2 Ha2.
  destruct (T_ReceiverActionBatch.failed a2); [by apply gives_ret|auto].
Qed.

(** *** The writer *)
Definition the_disk (s : t) : fsys := s.(streams_).(T_ReceiverStreamMap.world).

(** The writer has [task] in hand and writes it. *)
Definition writes (s : t) (task : T_ChunkCommitTask.t) : Prop :=
  (∃ i, s.(disk_writer_).(TaskQueue.running) = Some (CommitTask task i)) ∧
  ∃ result, (T_ChunkedReceiverStream.write_commit_task task (the_disk s)).1 = Ret result.

#[local] Instance same_commits_only s0 : CommitOnly (same_commits s0).
Proof.
  intros s s' (Hk & Hc & Ht) (Hk0 & Hc0 & Ht0). split_and!; [|congruence..]. intros sid. by rewrite Hk, Hk0.
Qed.
Lemma same_commits_refl s : same_commits s s.
Proof. done. Qed.

Lemma on_disk_run {A} (m : M fsys A) s r s' :
  on_disk m s = (r, s') → same_commits s s' ∧ s'.(disk_writer_) = s.(disk_writer_) ∧
    m (the_disk s) = (r, the_disk s').
Proof.
  intros Hr. split; [exact (keeps_run _ _ _ _ _ (keeps_on_disk (same_commits s) m) (same_commits_refl s) Hr)|].
  unfold on_disk, on, on_world in Hr. cbn in Hr. unfold the_disk.
  destruct (m _) as [r0 w]. injection Hr as <- <-. done.
Qed.

(** *** The answer to a repeated FILE_COMMIT *)

(** [size] is what the directory [root] tells of the file [id]: the size of the
    first entry of that id in a scan of it, or of the file of that name. *)
Definition on_record (w : fsys) (sid : Z) (root : path) (id size : Z) : Prop :=
  ∃ w0 w1 manifest, w0.(nodes) = w.(nodes) ∧ scan sid root w0 = (Ret manifest, w1) ∧
    match list_find (λ e, e.(T_ManifestEntry.file_id) = id) manifest.(T_Manifest1Stream.entries) with
    | Some (_, e) => e.(T_ManifestEntry.size) = size ∧ measured w.(nodes) root e
    | None => size = 0 ∨ ∃ data, status w.(nodes) (root ++ [file_name_for_id id]) = Ok (File data) ∧ size = zlen data
    end.

Lemma on_disk_inv {A} (m : M fsys A) s r s' :
  on_disk m s = (r, s') → ∃ w, m (the_disk s) = (r, w) ∧ s' = set_streams (T_ReceiverStreamMap.set_world w s.(streams_)) s.
Proof.
  intros Hr. unfold on_disk, on, on_world in Hr. cbn in Hr. unfold the_disk. destruct (m _) as [r0 w].
  injection Hr as <- <-. by exists w.
Qed.

Lemma committed_info_on_record sid id s info s' :
  committed_file_info sid id s = (Ret info, s') →
  s'.(streams_).(T_ReceiverStreamMap.streams_) = s.(streams_).(T_ReceiverStreamMap.streams_) ∧
  on_record (the_disk s') sid (T_ReceiverStreamMap.stream_root_for sid s'.(streams_)) id info.2.
Proof.
  intros Hr. unfold committed_file_info in Hr. rewrite (bind_ret get _ s s s eq_refl) in Hr. cbv zeta in Hr.
  apply M_bind_inv in Hr as (manifest & s1 & E1 & Hr). apply M_bind_inv in Hr as (size & s2 & E2 & Hr).
  injection Hr as <- <-. apply on_disk_inv in E1 as (w1 & E1 & ->). apply on_disk_inv in E2 as (w2 & E2 & ->).
  split; [done|]. change (the_disk (set_streams ?m ?x)) with (m.(T_ReceiverStreamMap.world)) in *. cbn in E2 |- *.
  assert (read_only (scan sid (T_ReceiverStreamMap.stream_root_for sid s.(streams_)))) as Hro by apply read_only_scan.
  destruct (read_only_run _ _ _ _ Hro E1) as [Hw1 _].
  destruct (read_only_run _ _ _ _ (read_only_file_size_or_zero _) E2) as [Hw2 _].
  exists (the_disk s), w1, manifest. split; [congruence|]. split; [exact E1|].
  destruct (list_find _ _) as [[i e]|] eqn:Ef; cbn [snd].
  - split; [done|]. apply list_find_Some in Ef as (He & _). apply list_elem_of_lookup_2 in He.
    rewrite Hw2, Hw1. by eapply scan_measured.
  - rewrite Hw2. by apply file_size_or_zero_inv in E2.
Qed.

Lemma queue_commit_no_heartbeat line commit task s a s' :
  queue_commit line commit task s = (Ret a, s') → a.(T_ReceiverActionBatch.heartbeats) = [].
Proof.
  unfold queue_commit. cbv zeta. intros Hr. do 4 (apply M_bind_inv in Hr as (? & ? & _ & Hr)).
  case_match; [|by injection Hr as <- <-]. do 3 (apply M_bind_inv in Hr as (? & ? & _ & Hr)). by injection Hr as <- <-.
Qed.

(** A heartbeat that answers a FILE_COMMIT says that its number is past, and the
    size that the disk has of its file. *)
Definition past_commit (s : t) (line : Z) (commit : T_FileCommit.t) (h : T_ReceiverHeartbeatAction.t) : Prop :=
  let hb := h.(T_ReceiverHeartbeatAction.heartbeat) in
  let sid := commit.(T_FileCommit.stream_id) in
  h.(T_ReceiverHeartbeatAction.line_id) = line ∧ hb.(T_Heartbeat.stream_id) = sid ∧
  hb.(T_Heartbeat.file_id) = commit.(T_FileCommit.file_id) ∧ commit.(T_FileCommit.seq) < hb.(T_Heartbeat.next_seq) ∧
  (∃ c r, s.(streams_).(T_ReceiverStreamMap.streams_) !! sid = Some c ∧ c.(chunk) = Some r ∧
     hb.(T_Heartbeat.next_seq) = r.(T_ChunkedReceiverStream.expected_seq)) ∧
  hb.(T_Heartbeat.offset) = hb.(T_Heartbeat.durable_offset) ∧
  on_record (the_disk s) sid (T_ReceiverStreamMap.stream_root_for sid s.(streams_)) commit.(T_FileCommit.file_id)
    hb.(T_Heartbeat.durable_offset).

Lemma commit_answer line commit s a s' h :
  apply_commit line commit s = (Ret a, s') → h ∈ a.(T_ReceiverActionBatch.heartbeats) → past_commit s' line commit h.
Proof.
  unfold apply_commit. cbv zeta. intros Hr Hh.
  apply M_bind_inv in Hr as (? & s1 & _ & Hr). apply M_bind_inv in Hr as (c & s2 & _ & Hr).
  destruct (ChunkCommit.queued _).
  { destruct (_ && _); injection Hr as <- <-; by apply elem_of_nil in Hh. }
  apply M_bind_inv in Hr as (? & s3 & _ & Hr). apply M_bind_inv in Hr as ([result task] & s4 & _ & Hr).
  destruct result as [nack|]; [injection Hr as <- <-; by apply elem_of_nil in Hh|].
  destruct (Z.eqb_spec task.(T_ChunkCommitTask.seq) 0) as [_|_].
  2:{ apply queue_commit_no_heartbeat in Hr. rewrite Hr in Hh. by apply elem_of_nil in Hh. }
  apply M_bind_inv in Hr as (expected & s5 & E5 & Hr).
  destruct (Z.ltb_spec commit.(T_FileCommit.seq) expected) as [Hlt|_];
    [|injection Hr as <- <-; by apply elem_of_nil in Hh].
  apply M_bind_inv in Hr as (info & s6 & E6 & Hr). rewrite (bind_ret get _ s6 s6 s6 eq_refl) in Hr.
  injection Hr as <- <-. apply list_elem_of_singleton in Hh as ->.
  destruct (committed_info_on_record _ _ _ _ _ E6) as [Hstreams Hrecord].
  assert (∃ c r, s5.(streams_).(T_ReceiverStreamMap.streams_) !! commit.(T_FileCommit.stream_id) = Some c ∧
    c.(chunk) = Some r ∧ expected = r.(T_ChunkedReceiverStream.expected_seq)) as Hexp.
  { unfold chunk_receiver, on, T_ReceiverStreamMap.on_chunk in E5. cbn in E5. destruct (_ !! _) as [c5|]; [|done].
    destruct (chunk c5) as [r5|] eqn:Er; [|done]. injection E5 as <- <-. do 2 eexists. cbn.
    rewrite lookup_insert_eq. done. }
  unfold past_commit. cbn. rewrite Hstreams. by split_and!.
Qed.

Lemma update_durable_run sid f s :
  ∃ s', update_durable sid f s = (Ret tt, s') ∧ same_commits s s' ∧ s'.(disk_writer_) = s.(disk_writer_).
Proof.
  eexists. split; [reflexivity|]. split; [|done].
  exact (keeps_run (same_commits s) (update_durable sid f) s _ _
           (keeps_update_durable (same_commits s) sid f) (same_commits_refl s) eq_refl).
Qed.

Lemma run_fsync p target sid s :
  ∃ s', run_task (FsyncTask p target sid) s = (Ret tt, s') ∧ same_commits s s' ∧ s'.(disk_writer_) = s.(disk_writer_).
Proof.
  unfold run_task, try_catch. destruct (on_disk (fsync_file_for_durable_offset p) s) as [[a|e] s1] eqn:E;
    [rewrite (bind_ret _ _ _ _ _ E)|rewrite (bind_throw _ _ _ _ _ E)];
    apply on_disk_run in E as (Hs & Hq & _).
  - destruct (update_durable_run sid (AppendDurable.set_completed target) s1) as (s2 & -> & Hs2 & Hq2).
    exists s2. split_and!; [done|by eapply (commit_only s1)..|congruence].
  - destruct (update_durable_run sid (AppendDurable.set_failed true (copy_error e)) s1) as (s2 & -> & Hs2 & Hq2).
    exists s2. split_and!; [done|by eapply (commit_only s1)..|congruence].
Qed.

(** How the writer marks the completion of a commit. *)
Definition mark (x : exc T_ChunkCommitResult.t) (c : T_ChunkCommitCompletion.t) : T_ChunkCommitCompletion.t :=
  match x with
  | Ret _ => T_ChunkCommitCompletion.mk true c.(T_ChunkCommitCompletion.failed) c.(T_ChunkCommitCompletion.error)
  | Throw what => T_ChunkCommitCompletion.mk c.(T_ChunkCommitCompletion.completed) true (copy_error what)
  end.

Lemma run_commit task i s x s1 :
  on_disk (T_ChunkedReceiverStream.write_commit_task task) s = (x, s1) →
  run_task (CommitTask task i) s = (Ret tt, set_completions (alter (mark x) i s1.(completions)) s1).
Proof.
  intros E. unfold run_task, try_catch. destruct x as [a|e].
  - by rewrite (bind_ret _ _ _ _ _ E).
  - by rewrite (bind_throw _ _ _ _ _ E).
Qed.

(** A completion ends. *)
Lemma completion_ends W W' s s1 task i q f :
  Inv W s → same_commits s s1 → commit_tasks s.(disk_writer_) = (task, i) :: commit_tasks q →
  (∀ c, ended (f c)) → (∀ t, W t → W' t) →
  (∀ c, (f c).(T_ChunkCommitCompletion.completed) = true →
     c.(T_ChunkCommitCompletion.completed) = true ∨ W' task) →
  Inv W' (set_writer q (set_completions (alter f i s1.(completions)) s1)).
Proof.
  intros (ts & H1 & H2 & H3 & H4) (Hk & Hc & _) Ht Hf HW Hd. rewrite Ht in *.
  exists ts. cbn. rewrite length_alter, Hc. split_and!; [done| | |].
  - intros task' i' Hin. apply H2. by right.
  - intros i' c task' Hi' Ht' Hdone. destruct (decide (i = i')) as [<-|Hne].
    + rewrite list_lookup_alter_eq in Hi'. apply fmap_Some in Hi' as (c0 & Hc0 & ->).
      assert (ts !! i = Some task) as Ets by (apply H2; by left).
      rewrite Ht' in Ets. injection Ets as ->. destruct (Hd _ Hdone); [|done]. eauto.
    + rewrite list_lookup_alter_ne in Hi' by done. eauto.
  - intros sid Hq. change (commit_at s1 sid).(ChunkCommit.queued) with (commit_at s1 sid).(ChunkCommit.queued) in Hq.
    change (commit_at (set_writer q (set_completions (alter f i s.(completions)) s1)) sid) with (commit_at s1 sid) in *.
    rewrite Hk in *. destruct (H4 sid Hq) as (i' & c & task' & E1 & E2 & E3 & E4 & E5).
    destruct (decide (i = i')) as [<-|Hne].
    + exists i, (f c), task'. rewrite list_lookup_alter_eq, E2. cbn. split; [done|]. split; [done|]. split; [done|].
      split; [done|]. by right.
    + exists i', c, task'. rewrite list_lookup_alter_ne by done. split; [done|]. split; [done|]. split; [done|].
      split; [done|]. destruct E5 as [[E5|E5]%elem_of_cons|E5]; [congruence|by left|by right].
Qed.

Lemma writer_finish_Inv W s r s' :
  Inv W s → writer_finish s = (r, s') → Inv (λ task, W task ∨ writes s task) s'.
Proof.
  intros HI Hr. unfold writer_finish in Hr. rewrite (bind_ret get _ s s s eq_refl) in Hr.
  destruct (s.(disk_writer_)) as [w [task|] c] eqn:Ew; cbn [TaskQueue.running] in Hr; cycle 1.
  { injection Hr as <- <-. by apply (Inv_written_mono W); [auto|]. }
  assert (Hfin : ∀ s1, same_commits s s1 → s1.(disk_writer_) = s.(disk_writer_) → commit_of task = None →
    Inv W (set_writer (TaskQueue.finish s1.(disk_writer_)) s1)).
  { intros s1 Hs Hq Hn. apply (commit_only s); [|done]. destruct Hs as (Hk & Hc & _). split_and!; [done..|]. cbn.
    rewrite Hq, Ew. unfold commit_tasks. cbn. by rewrite Hn. }
  destruct task as [p target sid|task i].
  - apply (Inv_written_mono W); [auto|]. 
    destruct (run_fsync p target sid s) as (s1 & E & Hs & Hq).
    unfold try_catch, mbind, M_bind in Hr. rewrite E in Hr. injection Hr as _ <-. by apply Hfin.
  - assert (Ht : commit_tasks s.(disk_writer_) = (task, i) :: commit_tasks (TaskQueue.finish s.(disk_writer_))) by by rewrite Ew.
    destruct (on_disk (T_ChunkedReceiverStream.write_commit_task task) s) as [x s1] eqn:E.
    unfold try_catch, mbind, M_bind in Hr. rewrite (run_commit _ i _ _ _ E) in Hr. injection Hr as _ <-.
    apply on_disk_run in E as (Hs & Hq & E). cbn. rewrite Hq.
    eapply (completion_ends W); [done|done|done| |by left|].
    + intros c0. destruct x; [by left|by right].
    + intros c0 Hc0. destruct x as [a|e]; [|by left]. right. right.
      split; [exists i; by rewrite Ew|]. exists a. by rewrite E.
Qed.

(** The disk after a commit was written. *)
Lemma writes_disk s task :
  writes s task →
  let w := the_disk s in
  (checksum_matches task.(T_ChunkCommitTask.file_checksum) task.(T_ChunkCommitTask.temp_path) w).1 = Ret true ∧
  ChunkSafety.renamed w.(nodes) (the_disk (writer_finish s).2).(nodes)
    task.(T_ChunkCommitTask.temp_path) task.(T_ChunkCommitTask.final_path).
Proof.
  intros ([i Hi] & result & Hw). cbv zeta.
  destruct (T_ChunkedReceiverStream.write_commit_task task (the_disk s)) as [x w'] eqn:Ec. cbn in Hw. subst x.
  destruct (on_disk (T_ChunkedReceiverStream.write_commit_task task) s) as [x s1] eqn:E.
  pose proof (on_disk_run _ _ _ _ E) as (_ & _ & E'). rewrite Ec in E'. injection E' as <- ->.
  assert (the_disk (writer_finish s).2 = the_disk s1) as ->.
  { unfold writer_finish. rewrite (bind_ret get _ s s s eq_refl), Hi.
    unfold try_catch, mbind, M_bind. by rewrite (run_commit _ i _ _ _ E). }
  by destruct (ChunkSafety.write_commit_task_ok _ _ _ _ Ec) as (_ & H1 & H2).
Qed.

(** *** A commit is not left waiting *)
Definition settled (sid : Z) (s : t) : Prop := (commit_at s sid).(ChunkCommit.queued) = false.
#[local] Instance settled_only sid : CommitOnly (settled sid).
Proof. intros s s' (Hk & _). unfold settled. by rewrite Hk. Qed.
Definition no_commit (s : t) : Prop := commit_tasks s.(disk_writer_) = [].
#[local] Instance no_commit_only : CommitOnly no_commit.
Proof. intros s s' (_ & _ & Ht). unfold no_commit. by rewrite Ht. Qed.

Lemma keeps_settled_clear sid sid' : keeps (settled sid) (clear_chunk_commit sid').
Proof.
  intros s r s' HQ [= <- <-]. unfold settled in *. cbn in *.
  destruct (commit_at_update s sid' (set_commit ChunkCommit.none) sid) as [E|(-> & c & _ & E)]; by rewrite E.
Qed.
Lemma keeps_no_commit_clear sid : keeps no_commit (clear_chunk_commit sid).
Proof. by intros s r s' HQ [= <- <-]. Qed.
#[local] Hint Resolve keeps_settled_clear keeps_no_commit_clear : keeps.

Lemma clear_settles sid : triple (λ _, True) (clear_chunk_commit sid) (λ _, settled sid) (λ _, True).
Proof.
  intros s r s' _ [= <- <-]. unfold settled. cbn.
  destruct (s.(streams_).(T_ReceiverStreamMap.streams_) !! sid) as [c|] eqn:E.
  - rewrite commit_at_alter by by rewrite E. by rewrite decide_True.
  - unfold commit_at, commit_in. cbn. by rewrite lookup_alter_eq, E.
Qed.

Lemma finish_settles sid k a :
  triple (λ _, True) (finish_chunk_commit sid k a)
    (λ a' s', a'.(T_ReceiverActionBatch.failed) = false → settled sid s') (λ _, True).
Proof.
  unfold finish_chunk_commit. cbv zeta. apply (triple_bind _ _ _ (λ _ _, True)); [by intros ??? _ ?; case_match|].
  intros [what|]; [by apply triple_ret|].
  do 2 (apply (triple_bind _ _ _ (λ _ _, True)); [by intros ??? _ ?; case_match|]; intros ?).
  apply triple_get. intros s0 _. apply (triple_conseq _ (λ _, True)); [|done].
  eapply triple_bind; [apply clear_settles|]. cbn. intros u. by apply triple_ret.
Qed.

Lemma keeps_poll_fsync P `{!CommitOnly P} sid a : keeps P (poll_append_fsync sid a).
Proof. unfold poll_append_fsync. solve_keeps. Qed.
Lemma keeps_poll_commit P `{!CommitOnly P} sid a :
  (∀ sid, keeps P (clear_chunk_commit sid)) → keeps P (poll_chunk_commit sid a).
Proof. intros Hc. unfold poll_chunk_commit, finish_chunk_commit. solve_keeps. Qed.
Lemma keeps_poll P `{!CommitOnly P} ids a :
  (∀ sid, keeps P (clear_chunk_commit sid)) → keeps P (poll_streams ids a).
Proof.
  intros Hc. revert a. induction ids as [|sid ids IH]; intros a; cbn; [apply keeps_ret|].
  apply keeps_bind; [by apply keeps_poll_fsync|]. intros a1. case_match; [apply keeps_ret|].
  apply keeps_bind; [by apply keeps_poll_commit|]. intros a2. case_match; [apply keeps_ret|auto].
Qed.

Lemma poll_commit_settles W sid a s a' s' :
  Inv W s → no_commit s → poll_chunk_commit sid a s = (Ret a', s') →
  a'.(T_ReceiverActionBatch.failed) = false → settled sid s'.
Proof.
  intros HI HN Hr Hf. unfold poll_chunk_commit in Hr.
  destruct (context sid s) as [[c|e] s1] eqn:Ec; [|by rewrite (bind_throw _ _ _ _ _ Ec) in Hr].
  rewrite (bind_ret _ _ _ _ _ Ec) in Hr. cbv zeta in Hr.
  apply context_run in Ec as (-> & Hk & _).
  destruct (ChunkCommit.queued c.(chunk_commit)) eqn:Eq; cbn [negb] in Hr;
    [|injection Hr as <- <-; unfold settled; by rewrite Hk].
  rewrite (bind_ret get _ s s s eq_refl) in Hr.
  pose proof HI as (ts & H1 & H2 & H3 & H4). rewrite <- Hk in Eq.
  destruct (H4 sid Eq) as (i & comp & task & Ei & Ecomp & Et & Em & He). rewrite <- Hk, Ei in Hr. cbn in Hr.
  rewrite Ecomp in Hr. destruct He as [He|He]; [rewrite HN in He; by apply elem_of_nil in He|].
  destruct (T_ChunkCommitCompletion.failed comp) eqn:Ef.
  - exfalso. apply M_bind_inv in Hr as (? & ? & _ & Hr). apply M_bind_inv in Hr as (? & ? & _ & Hr).
    injection Hr as <- <-. done.
  - destruct He as [He|He]; [|congruence]. rewrite He in Hr. cbn in Hr. destruct (chunk c); [|by injection Hr as <- <-].
    exact (finish_settles sid _ a s _ _ I Hr Hf).
Qed.

Lemma poll_settles W ids a s a' s' sid :
  Inv W s → no_commit s → confirms W a → poll_streams ids a s = (Ret a', s') →
  a'.(T_ReceiverActionBatch.failed) = false → sid ∈ ids ∨ settled sid s → settled sid s'.
Proof.
  revert a s. induction ids as [|sid0 ids IH]; intros a s HI HN Ha Hr Hf Hs; cbn in Hr.
  { injection Hr as <- <-. destruct Hs as [Hs|Hs]; [by apply elem_of_nil in Hs|done]. }
  apply M_bind_inv in Hr as (a1 & s1 & E1 & Hr).
  destruct (poll_fsync_confirms W sid0 a Ha s _ _ HI E1) as [HI1 Ha1].
  pose proof (keeps_run _ _ _ _ _ (keeps_poll_fsync no_commit sid0 a) HN E1) as HN1.
  destruct (T_ReceiverActionBatch.failed a1) eqn:Ef1; [injection Hr as <- <-; congruence|].
  apply M_bind_inv in Hr as (a2 & s2 & E2 & Hr).
  destruct (poll_commit_confirms W sid0 a1 Ha1 s1 _ _ HI1 E2) as [HI2 Ha2].
  pose proof (keeps_run _ _ _ _ _ (keeps_poll_commit no_commit sid0 a1 keeps_no_commit_clear) HN1 E2) as HN2.
  destruct (T_ReceiverActionBatch.failed a2) eqn:Ef2; [injection Hr as <- <-; congruence|].
  apply (IH _ _ HI2 HN2 Ha2 Hr Hf).
  destruct Hs as [Hs|Hs].
  - apply elem_of_cons in Hs as [->|Hs]; [right|by left].
    exact (poll_commit_settles W _ _ _ _ _ HI1 HN1 E2 Ef2).
  - right. apply (keeps_run _ _ _ _ _ (keeps_poll_commit (settled sid) sid0 a1 (keeps_settled_clear sid))) in E2; [done|].
    by apply (keeps_run _ _ _ _ _ (keeps_poll_fsync (settled sid) sid0 a)) in E1.
Qed.

Lemma settled_pending s :
  (∀ sid, settled sid s) → T_ReceiverStreamMap.has_pending_chunk_commit s.(streams_) = false.
Proof.
  intros Hs. unfold T_ReceiverStreamMap.has_pending_chunk_commit. apply not_true_is_false. intros H.
  apply existsb_exists in H as ([sid c] & Hin & Hq). apply list_elem_of_In, elem_of_map_to_list in Hin.
  specialize (Hs sid). unfold settled, commit_at, commit_in in Hs. rewrite Hin in Hs. cbn in Hs. congruence.
Qed.

(** *** Runs *)

(** [task] was written by one of the events. *)
Definition written (es : list event) (s0 : t) (task : T_ChunkCommitTask.t) : Prop :=
  ∃ es1 es2, es = es1 ++ WriterFinish :: es2 ∧ writes (state_after es1 s0) task.

Lemma written_snoc es e s0 task : written es s0 task → written (es ++ [e]) s0 task.
Proof. intros (es1 & es2 & -> & H). exists es1, (es2 ++ [e]). by rewrite <- app_assoc. Qed.

Lemma handle_Inv W e s r s' :
  Inv W s → handle e s = (r, s') →
  Inv (λ task, W task ∨ e = WriterFinish ∧ writes s task) s' ∧ (∀ a, r = Ret a → confirms W a).
Proof.
  assert (Hg : ∀ (m : M t T_ReceiverActionBatch.t), gives (Inv W) m (confirms W) → Inv W s → m s = (r, s') →
    Inv (λ task, W task ∨ e = WriterFinish ∧ writes s task) s' ∧ (∀ a, r = Ret a → confirms W a)).
  { intros m Hm HI Hr. specialize (Hm s r s' HI Hr). split; [apply (Inv_written_mono W); [auto|]; destruct r; [apply Hm|done]|].
    intros a ->. apply Hm. }
  intros HI Hr. destruct e as [line m|line m|line m|line m|line m| | |]; cbn [handle] in Hr.
  - by apply (Hg _ (create_confirms W line m)).
  - by apply (Hg _ (data_confirms W line m)).
  - by apply (Hg _ (begin_confirms W line m)).
  - by apply (Hg _ (chunk_confirms W line m)).
  - by apply (Hg _ (commit_confirms W line m)).
  - apply (Hg _ (gives_get _ _ _ (λ s _, poll_confirms W _ _ (confirms_empty W))) HI Hr).
  - apply (Hg (writer_start;; mret T_ReceiverActionBatch.empty)); [|done..].
    apply gives_after; [eauto with keeps|]. intros _. apply gives_ret, confirms_empty.
  - apply bind_cases in Hr as [([] & s1 & E & Hr)|(e & E & ->)].
    + injection Hr as <- <-. split; [|intros a [= <-]; apply confirms_empty].
      apply (Inv_written_mono (λ task, W task ∨ writes s task)); [tauto|]. by eapply writer_finish_Inv.
    + split; [|done]. apply (Inv_written_mono (λ task, W task ∨ writes s task)); [tauto|]. by eapply writer_finish_Inv.
Qed.

Lemma Inv_create W default_id default_root roots w window max_ranges :
  Inv W (create (T_ReceiverStreamMap.create default_id default_root roots w) window max_ranges).
Proof.
  exists []. split_and!; [done|..].
  - intros task i Hin. by apply elem_of_nil in Hin.
  - done.
  - intros sid. unfold commit_at, commit_in. cbn. by rewrite lookup_empty.
Qed.

Lemma reach_Inv es s0 : Inv (λ _, False) s0 → Inv (written es s0) (state_after es s0).
Proof.
  intros HI. induction es as [|e es IH] using rev_ind.
  - apply (Inv_written_mono (λ _, False)); [done|exact HI].
  - rewrite run_snoc. destruct (handle e (state_after es s0)) as [r s'] eqn:E.
    destruct (handle_Inv _ _ _ _ _ IH E) as [H _]. eapply Inv_written_mono; [|exact H].
    intros task [Hw|[-> Hw]]; [by apply written_snoc|]. by exists es, [].
Qed.
End commits.
End CommitFacts.

(** * The properties *)
Import T_ReceiverCoordinator CoordinatorRun.

Section properties.
Context {CRC : Crc32c} `{!MapIteration Z T_ReceiverStreamContext.t}.

(** C6: in every run of the coordinator, whatever messages come and whatever the
    writer and the system do: a heartbeat that reports the end of a commit names
    a file whose task the writer has ended before, in that step the temporary
    file matched the checksum that FILE_BEGIN gave for the file (by the
    algorithm and over the range it names), and it was renamed to its final
    path; a heartbeat that answers a FILE_COMMIT at once does so only for a
    number that the stream has passed, and reports the size that the disk has
    of the file; and no commit is left unanswered, since a poll that finds the
    writer idle and succeeds leaves none pending. *)
Theorem commits_confirmed es e r s' default_id default_root roots w window max_ranges :
  let s0 := create (T_ReceiverStreamMap.create default_id default_root roots w) window max_ranges in
  let s := state_after es s0 in
  handle e s = (r, s') →
  (∀ a h, r = Ret a → h ∈ a.(T_ReceiverActionBatch.heartbeats) →
     h.(T_ReceiverHeartbeatAction.only_if_line_open) = true →
     ∃ task es1 es2, es = es1 ++ WriterFinish :: es2 ∧
       let hb := h.(T_ReceiverHeartbeatAction.heartbeat) in
       let disk := CommitFacts.the_disk (state_after es1 s0) in
       hb.(T_Heartbeat.stream_id) = task.(T_ChunkCommitTask.stream_id) ∧
       hb.(T_Heartbeat.file_id) = task.(T_ChunkCommitTask.file_id) ∧
       hb.(T_Heartbeat.durable_offset) = task.(T_ChunkCommitTask.final_size) ∧
       (checksum_matches task.(T_ChunkCommitTask.file_checksum) task.(T_ChunkCommitTask.temp_path) disk).1 = Ret true ∧
       ChunkSafety.renamed disk.(nodes) (CommitFacts.the_disk (state_after (es1 ++ [WriterFinish]) s0)).(nodes)
         task.(T_ChunkCommitTask.temp_path) task.(T_ChunkCommitTask.final_path)) ∧
  (∀ line commit a h, e = OnCommit line commit → r = Ret a → h ∈ a.(T_ReceiverActionBatch.heartbeats) →
     CommitFacts.past_commit s' line commit h) ∧
  (e = OnPoll → s.(disk_writer_).(TaskQueue.running) = None → s.(disk_writer_).(TaskQueue.waiting) = [] →
     ∀ a, r = Ret a → a.(T_ReceiverActionBatch.failed) = false →
     T_ReceiverStreamMap.has_pending_chunk_commit s'.(streams_) = false).
Proof.
  intros s0 s Hr.
  pose proof (CommitFacts.reach_Inv es s0 (CommitFacts.Inv_create _ _ _ _ _ _ _)) as HI. fold s in HI.
  destruct (CommitFacts.handle_Inv _ _ _ _ _ HI Hr) as [_ Hc]. split; [|split].
  - intros a h Ha Hh Honly. specialize (Hc a Ha). unfold CommitFacts.confirms in Hc. rewrite Forall_forall in Hc.
    destruct (Hc h Hh Honly) as (task & (es1 & es2 & -> & Hw) & E1 & E2 & E3 & E4).
    exists task, es1, es2. cbv zeta. destruct (CommitFacts.writes_disk _ _ Hw) as [Hsum Hren].
    split_and!; [done..|]. rewrite run_snoc. cbn [handle].
    assert (∀ s, (writer_finish s).2 = ((writer_finish;; mret T_ReceiverActionBatch.empty) s).2) as <-; [|done].
    intros s1. unfold mbind, M_bind. by destruct (writer_finish s1) as [[] ?].
  - intros line commit a h -> -> Hh. by eapply CommitFacts.commit_answer.
  - intros -> Hrun Hwait a -> Hf. cbn [handle] in Hr. unfold poll_completions in Hr.
    rewrite (bind_ret get _ s s s eq_refl) in Hr. apply CommitFacts.settled_pending. intros sid.
    eapply CommitFacts.poll_settles; [exact HI| |apply CommitFacts.confirms_empty|exact Hr|done|].
    + unfold CommitFacts.no_commit, CommitFacts.commit_tasks. by rewrite Hrun, Hwait.
    + unfold CommitFacts.settled, CommitFacts.commit_at, CommitFacts.commit_in.
      destruct (_ !! sid) as [c|] eqn:E; [left|by right].
      apply list_elem_of_fmap. exists (sid, c). split; [done|]. by apply elem_of_iteration.
Qed.
End properties.

(** * On concrete runs *)
Section witnesses.
#[local] Existing Instance crc_ref_impl.
#[local] Existing Instance some_order.

Definition sample_world : fsys := mk_fsys (<[["s"] := Dir]> ∅) [].
Definition sample_coordinator : t := create (T_ReceiverStreamMap.create 3 ["s"] None sample_world) 1000 10.

(** A file of two chunks, the second first; the writer writes it. *)
Definition sample_bytes : Bytes := replicate (Z.to_nat 65540) x07.
Definition sample_events : list event :=
  [OnBegin 1 (T_FileBegin.mk 3 1 9 "9.file" 65540 65536 2 empty_checksum 0 0 empty_checksum);
   OnChunk 2 (ChunkFacts.chunk_message sample_bytes 65536 3 1 9 1);
   OnChunk 1 (ChunkFacts.chunk_message sample_bytes 65536 3 1 9 0);
   OnCommit 1 (T_FileCommit.mk 3 1 9); OnPoll; WriterStart; OnCommit 2 (T_FileCommit.mk 3 1 9); WriterFinish].

Definition confirmation : T_ReceiverHeartbeatAction.t :=
  T_ReceiverHeartbeatAction.mk 1 (T_Heartbeat.mk 3 2 9 65540 65540 1000 [] []) true true.

Lemma sample_poll :
  (handle OnPoll (state_after sample_events sample_coordinator)).1 =
  Ret (T_ReceiverActionBatch.quiet_stop
         (T_ReceiverActionBatch.push_heartbeat confirmation T_ReceiverActionBatch.empty)).
Proof. vm_compute. reflexivity. Qed.

(** The FILE_COMMIT comes again after that, on another line. *)
Definition repeated : event := OnCommit 2 (T_FileCommit.mk 3 1 9).
Definition repeated_answer : T_ReceiverHeartbeatAction.t :=
  T_ReceiverHeartbeatAction.mk 2 (T_Heartbeat.mk 3 2 9 65540 65540 1000 [] []) true false.

Lemma sample_repeated :
  (handle repeated (state_after (sample_events ++ [OnPoll]) sample_coordinator)).1 =
  Ret (T_ReceiverActionBatch.push_heartbeat repeated_answer T_ReceiverActionBatch.empty).
Proof. vm_compute. reflexivity. Qed.

Lemma commits_confirmed_witness :
  (∃ task es1 es2, sample_events = es1 ++ WriterFinish :: es2 ∧ task.(T_ChunkCommitTask.final_size) = 65540 ∧
     task.(T_ChunkCommitTask.file_id) = 9) ∧
  T_ReceiverStreamMap.has_pending_chunk_commit
    (handle OnPoll (state_after sample_events sample_coordinator)).2.(streams_) = false ∧
  CommitFacts.past_commit (handle repeated (state_after (sample_events ++ [OnPoll]) sample_coordinator)).2
    2 (T_FileCommit.mk 3 1 9) repeated_answer.
Proof.
  destruct (commits_confirmed sample_events OnPoll
    (handle OnPoll (state_after sample_events sample_coordinator)).1
    (handle OnPoll (state_after sample_events sample_coordinator)).2 3 ["s"] None sample_world 1000 10
    (surjective_pairing _)) as (H1 & _ & H2).
  destruct (commits_confirmed (sample_events ++ [OnPoll]) repeated
    (handle repeated (state_after (sample_events ++ [OnPoll]) sample_coordinator)).1
    (handle repeated (state_after (sample_events ++ [OnPoll]) sample_coordinator)).2 3 ["s"] None sample_world 1000 10
    (surjective_pairing _)) as (_ & H3 & _).
  split; [|split].
  - destruct (H1 _ confirmation sample_poll) as (task & es1 & es2 & E & _ & E2 & E3 & _).
    + apply list_elem_of_here.
    + reflexivity.
    + exists task, es1, es2. split; [exact E|]. split; [symmetry; exact E3|symmetry; exact E2].
  - refine (H2 _ _ _ _ sample_poll _).
    + reflexivity.
    + vm_compute. reflexivity.
    + vm_compute. reflexivity.
    + reflexivity.
  - refine (H3 2 (T_FileCommit.mk 3 1 9) _ repeated_answer eq_refl sample_repeated _). apply list_elem_of_here.
Defined.
End witnesses.
