(* ===== verification/WriterIdle.v ===== *)
(** * What is left in the writer's queue

    The streams know what the writer has: a commit in its queue is the one that
    some stream waits for; and an fsync is the one of its stream's file, as long
    as no stream passes to another file with an fsync queued.  Streams that wait
    for nothing have then nothing in the queue. *)
From S2P Require Import Prelude Hoare Crc32c Filesystem Wire Protocol Sync ReceiverPaths AppendReceiver ChunkReceiver.
From S2P Require Import DiskWriter ReceiverStreams NodeCommon Coordinator CommitConfirmation.
#[local] Open Scope Z_scope.
Export (hints) T_ReceiverStreamMap.

(** ** Commits *)
Module CommitQueue.
Import T_ReceiverStreamContext StreamFrame T_ReceiverCoordinator CommitFacts.

(** A commit that the writer has not ended is the one that a stream waits for. *)
Definition awaited (s : t) (x : T_ChunkCommitTask.t * nat) : Prop :=
  ∃ sid c, (commit_at s sid).(ChunkCommit.queued) = true ∧ (commit_at s sid).(ChunkCommit.completion) = Some x.2 ∧
    s.(completions) !! x.2 = Some c ∧ ¬ ended c.
Definition inv (s : t) : Prop :=
  NoDup (commit_tasks s.(disk_writer_)).*2 ∧ ∀ x, x ∈ commit_tasks s.(disk_writer_) → awaited s x.

(** The stream's commit is not in the writer. *)
Definition free (sid : Z) (s : t) : Prop :=
  ∀ x, x ∈ commit_tasks s.(disk_writer_) → (commit_at s sid).(ChunkCommit.queued) = true →
  (commit_at s sid).(ChunkCommit.completion) ≠ Some x.2.

#[export] Instance inv_only : CommitOnly inv.
Proof.
  intros s s' (Hk & Hc & Ht) [Hd Ha]. unfold inv. rewrite Ht. split; [done|]. intros x Hx.
  destruct (Ha x Hx) as (sid & c & H1 & H2 & H3 & H4). exists sid, c. by rewrite Hk, Hc.
Qed.
#[export] Instance free_only sid : CommitOnly (free sid).
Proof. intros s s' (Hk & _ & Ht) Hf. unfold free. by rewrite Ht, Hk. Qed.
Definition inv_free (sid : Z) (s : t) : Prop := inv s ∧ free sid s.
#[export] Instance inv_free_only sid : CommitOnly (inv_free sid).
Proof. intros s s' Hs [HI HF]. split; by eapply commit_only. Qed.

Lemma settled_free sid s : settled sid s → free sid s.
Proof. intros Hs x _ Hq. unfold settled in Hs. congruence. Qed.

Lemma ended_free s sid i c :
  inv s → (commit_at s sid).(ChunkCommit.completion) = Some i → s.(completions) !! i = Some c → ended c → free sid s.
Proof.
  intros [_ Ha] Hi Hc He x Hx _ Heq. destruct (Ha x Hx) as (_ & c' & _ & _ & H3 & H4). naive_solver.
Qed.

(** The commit of a stream changes. *)
Lemma set_commit_inv s sid k :
  inv s → free sid s → inv (update_context sid (set_commit k) s).2.
Proof.
  intros [Hd Ha] Hf. split; [done|]. intros x Hx. destruct (Ha x Hx) as (sid' & c & H1 & H2 & H3 & H4).
  destruct (commit_at_update s sid (set_commit k) sid') as [E|(-> & _)]; [|by destruct (Hf x Hx H1)].
  exists sid', c. cbn in E |- *. rewrite E. done.
Qed.

Lemma clear_keeps sid : triple (inv_free sid) (clear_chunk_commit sid) (λ _, inv) inv.
Proof. intros s r s' [HI HF] [= <- <-]. by apply set_commit_inv. Qed.

Section commits.
Context {CRC : Crc32c} `{!MapIteration Z T_ReceiverStreamContext.t}.

(** A commit is handed over, or refused. *)
Lemma hand_over_inv s sid k task queued q :
  inv s → free sid s → is_Some (s.(streams_).(T_ReceiverStreamMap.streams_) !! sid) →
  k.(ChunkCommit.queued) = true → k.(ChunkCommit.completion) = Some (length s.(completions)) →
  TaskQueue.enqueue (CommitTask task (length s.(completions))) s.(disk_writer_) = (queued, q) →
  let s1 := (update_context sid (set_commit k) (set_completions (s.(completions) ++ [T_ChunkCommitCompletion.pending]) s)).2 in
  inv (set_writer q s1) ∧ (queued = false → free sid (set_writer q s1)).
Proof.
  intros [Hd Ha] Hf Hctx Hq Hi Eq s1. pose proof (enqueue_tasks _ _ _ _ Eq) as Ht.
  assert (Hold : ∀ x, x ∈ commit_tasks s.(disk_writer_) → (x.2 < length s.(completions))%nat).
  { intros x Hx. destruct (Ha x Hx) as (_ & c & _ & _ & Hc & _). by apply lookup_lt_Some in Hc. }
  assert (Hat : ∀ sid', commit_at (set_writer q s1) sid' = if decide (sid' = sid) then k else commit_at s sid').
  { intros sid'. apply (commit_at_alter (set_completions _ s)). exact Hctx. }
  assert (Hx : ∀ x, x ∈ commit_tasks s.(disk_writer_) → awaited (set_writer q s1) x).
  { intros x Hx. destruct (Ha x Hx) as (sid' & c & H1 & H2 & H3 & H4). exists sid', c. rewrite Hat.
    destruct (decide (sid' = sid)) as [->|]; [by destruct (Hf x Hx H1)|]. do 2 (split; [done|]). split; [|done].
    by apply lookup_app_l_Some. }
  unfold inv, free. cbn [set_writer disk_writer_]. rewrite Ht. split; [split|].
  - rewrite fmap_app. apply NoDup_app. split; [done|]. destruct queued; cbn; (split; [|repeat constructor; by apply not_elem_of_nil]).
    + intros i (x & -> & Hin)%list_elem_of_fmap Heq%list_elem_of_singleton. specialize (Hold x Hin). lia.
    + by intros i _ ?%elem_of_nil.
  - intros x [Hin|Hin]%elem_of_app; [by apply Hx|]. destruct queued; [|by apply elem_of_nil in Hin].
    apply list_elem_of_singleton in Hin as ->. exists sid, T_ChunkCommitCompletion.pending. rewrite Hat, decide_True by done.
    do 2 (split; [done|]). split; [by apply list_lookup_middle|]. by intros [?|?].
  - intros -> x Hin _. rewrite app_nil_r in Hin. rewrite Hat, decide_True, Hi by done. specialize (Hold x Hin).
    intros [= E]. lia.
Qed.

Lemma queue_commit_keeps line commit task :
  triple (λ s, inv_free commit.(T_FileCommit.stream_id) s ∧ has_chunk commit.(T_FileCommit.stream_id) s)
    (queue_commit line commit task) (λ _, inv) inv.
Proof.
  intros s r s' ([HI HF] & HC) Hr. unfold queue_commit in Hr. cbv zeta in Hr. set (sid := commit.(T_FileCommit.stream_id)) in *.
  rewrite (bind_ret get _ s s s eq_refl), (bind_ret (modify _) _ s tt _ eq_refl) in Hr.
  rewrite (bind_ret (update_context _ _) _ _ tt _ eq_refl) in Hr.
  destruct (TaskQueue.enqueue (CommitTask task (length s.(completions))) s.(disk_writer_)) as [queued q] eqn:Eq.
  match type of Hr with (enqueue ?e ≫= _) ?s1 = _ =>
    assert (enqueue e s1 = (Ret queued, set_writer q s1)) as Een by (unfold enqueue; cbn; by rewrite Eq) end.
  rewrite (bind_ret _ _ _ _ _ Een) in Hr. clear Een.
  destruct (hand_over_inv s sid (ChunkCommit.mk true line task.(T_ChunkCommitTask.seq) task.(T_ChunkCommitTask.file_id)
    task.(T_ChunkCommitTask.final_size) task.(T_ChunkCommitTask.final_path) (Some (length s.(completions))))
    task queued q HI HF (has_chunk_stream _ _ HC) eq_refl eq_refl Eq) as [HI1 HF1].
  destruct queued; cbn [negb] in Hr; [by injection Hr as <- <-|].
  match type of Hr with ?m ?s1 = _ => cut (triple (inv_free sid) m (λ _, inv) inv) end.
  { intros Hm. specialize (Hm _ _ _ (conj HI1 (HF1 eq_refl)) Hr). by destruct r. }
  apply triple_then; [solve [eauto with keeps]|by intros ? []|]. cbn beta. intros _.
  eapply triple_bind; [apply clear_keeps|]. cbn. intros _. apply keeps_bind; [eauto with keeps|]. intros. apply keeps_ret.
Qed.

(** *** The handlers *)
Lemma create_keeps line m : keeps inv (apply_create line m).
Proof. unfold apply_create. solve_keeps. Qed.
Lemma data_keeps line m : keeps inv (apply_data line m).
Proof. unfold apply_data. solve_keeps. Qed.
Lemma begin_keeps line m : keeps inv (apply_begin line m).
Proof. unfold apply_begin. solve_keeps. Qed.
Lemma chunk_keeps line m : keeps inv (apply_chunk line m).
Proof. unfold apply_chunk. solve_keeps. Qed.

Lemma commit_keeps line commit : keeps inv (apply_commit line commit).
Proof.
  unfold apply_commit. cbv zeta. set (sid := commit.(T_FileCommit.stream_id)). apply keeps_bind; [eauto with keeps|]. intros _.
  intros s r s' HI Hr. apply bind_cases in Hr as [(c & s1 & E & Hr)|(e & E & ->)];
    [|exact (keeps_run _ _ _ _ _ (keeps_context inv sid) HI E)].
  apply context_run in E as (-> & Hk & _). destruct (ChunkCommit.queued _) eqn:Eq.
  { destruct (_ && _); by injection Hr as <- <-. }
  assert (settled sid s) as Hs by (unfold settled; by rewrite Hk). apply settled_free in Hs.
  match type of Hr with ?m s = _ => cut (triple (inv_free sid) m (λ _, inv) inv) end.
  { intros Hm. specialize (Hm _ _ _ (conj HI Hs) Hr). by destruct r. }
  clear - CRC. apply triple_then; [solve [eauto with keeps]|by intros ? []|]. cbn beta. intros _.
  apply (triple_bind _ _ _ (λ _ s, inv_free sid s ∧ has_chunk sid s)).
  { intros s r s' HI Hr. assert (keeps (inv_free sid)
      (on (T_ReceiverStreamMap.on_chunk sid (T_ChunkedReceiverStream.prepare_commit commit)))) as Hq by eauto with keeps.
    pose proof (keeps_run _ _ _ _ _ Hq HI Hr) as HI'. destruct r; [|apply HI']. split; [done|].
    by apply on_chunk_ret in Hr as [? _]. }
  intros [result task]. destruct result as [nack|]; [by apply triple_ret; intros ? [[] ?]|].
  destruct (_ =? 0); [|apply queue_commit_keeps]. apply (triple_conseq _ inv); [|by intros ? [[] ?]].
  apply keeps_bind; [solve [eauto with keeps]|]. intros expected. solve_keeps.
Qed.

(** *** Polls *)
Lemma poll_commit_keeps sid a : keeps inv (poll_chunk_commit sid a).
Proof.
  intros s r s' HI Hr. unfold poll_chunk_commit in Hr. apply bind_cases in Hr as [(c & s1 & E & Hr)|(e & E & ->)];
    [|exact (keeps_run _ _ _ _ _ (keeps_context inv sid) HI E)].
  apply context_run in E as (-> & Hk & _). cbv zeta in Hr. destruct (ChunkCommit.queued _); cbn [negb] in Hr; [|by injection Hr as <- <-].
  rewrite (bind_ret get _ s s s eq_refl) in Hr.
  destruct (_ ≫= _) as [comp|] eqn:Ec; [|by injection Hr as <- <-]. apply bind_Some in Ec as (i & Ei & Ec). rewrite <- Hk in Ei.
  assert (ended comp → free sid s) as HF by (by apply (ended_free s sid i comp)).
  match type of Hr with ?m s = _ => assert (triple (λ s, inv s ∧ (ended comp → free sid s)) m (λ _, inv) inv) as Hm end;
    [|specialize (Hm _ _ _ (conj HI HF) Hr); by destruct r].
  clear - CRC. destruct (T_ChunkCommitCompletion.failed comp) eqn:Ef.
  - apply (triple_conseq _ (inv_free sid)); [|intros s [? Hf]; split; [done|apply Hf; by right]].
    apply triple_then; [destruct (chunk c); eauto with keeps|by intros ? []|]. cbn beta. intros _.
    eapply triple_bind; [apply clear_keeps|]. cbn. intros _. apply keeps_ret.
  - destruct (T_ChunkCommitCompletion.completed comp) eqn:Ed; cbn [negb]; [|apply triple_ret; by intros ? []].
    destruct (chunk c); [|apply triple_ret; by intros ? []].
    apply (triple_conseq _ (inv_free sid)); [|intros s [? Hf]; split; [done|apply Hf; by left]].
    unfold finish_chunk_commit. apply triple_then; [solve_keeps|by intros ? []|]. intros [what|]; [apply triple_ret; by intros ? []|].
    do 2 (apply triple_then; [solve [eauto with keeps]|by intros ? []|]; intros ?). apply triple_get. intros s0 Hs0.
    apply (triple_conseq _ (inv_free sid)); [|by intros ? ->].
    eapply triple_bind; [apply clear_keeps|]. cbn. intros _. apply keeps_ret.
Qed.

Lemma poll_keeps ids a : keeps inv (poll_streams ids a).
Proof.
  revert a. induction ids as [|sid ids IH]; intros a; cbn; [apply keeps_ret|].
  apply keeps_bind; [apply (keeps_poll_fsync inv)|]. intros a1. case_match; [apply keeps_ret|].
  apply keeps_bind; [apply poll_commit_keeps|]. intros a2. case_match; [apply keeps_ret|auto].
Qed.

(** *** The writer *)
Lemma finish_keeps : keeps inv writer_finish.
Proof.
  intros s r s' HI Hr. cut (inv s'); [by destruct r|].
  unfold writer_finish in Hr. rewrite (bind_ret get _ s s s eq_refl) in Hr.
  destruct (s.(disk_writer_)) as [w [task|] cl] eqn:Ew; cbn [TaskQueue.running] in Hr; [|by injection Hr as <- <-].
  assert (Hfin : ∀ s1, same_commits s s1 → s1.(disk_writer_) = s.(disk_writer_) → commit_of task = None →
    inv (set_writer (TaskQueue.finish s1.(disk_writer_)) s1)).
  { intros s1 Hs Hq Hn. apply (commit_only s); [|done]. destruct Hs as (Hk & Hc & _). split_and!; [done..|]. cbn.
    rewrite Hq, Ew. unfold commit_tasks. cbn. by rewrite Hn. }
  destruct task as [p target sid|task i].
  - destruct (run_fsync p target sid s) as (s1 & E & Hs & Hq).
    unfold try_catch, mbind, M_bind in Hr. rewrite E in Hr. injection Hr as _ <-. by apply Hfin.
  - assert (Ht : commit_tasks s.(disk_writer_) = (task, i) :: commit_tasks (TaskQueue.finish s.(disk_writer_))) by by rewrite Ew.
    destruct (on_disk (T_ChunkedReceiverStream.write_commit_task task) s) as [x s1] eqn:E.
    unfold try_catch, mbind, M_bind in Hr. rewrite (run_commit _ i _ _ _ E) in Hr. injection Hr as _ <-.
    apply on_disk_run in E as ((Hk & Hc & _) & Hq & _). destruct HI as [Hd Ha]. rewrite Ht in Hd, Ha.
    cbn in Hd. apply NoDup_cons in Hd as [Hni Hd]. unfold inv. cbn. rewrite Hq. split; [done|].
    intros y Hy. destruct (Ha y) as (sid & c & H1 & H2 & H3 & H4); [by right|]. exists sid, c. cbn.
    unfold commit_at in Hk |- *. cbn. rewrite Hk, Hc. do 2 (split; [done|]). split; [|done].
    rewrite list_lookup_alter_ne; [done|]. intros ->. apply Hni. apply list_elem_of_fmap. by exists y.
Qed.

Lemma create_inv default_id default_root roots w window max_ranges :
  inv (create (T_ReceiverStreamMap.create default_id default_root roots w) window max_ranges).
Proof. split; [constructor|]. intros x Hx. by apply elem_of_nil in Hx. Qed.

(** With no stream that waits for a commit, the writer has none. *)
Lemma none_left s : inv s → (∀ sid, settled sid s) → commit_tasks s.(disk_writer_) = [].
Proof.
  intros [_ Ha] Hs. destruct (commit_tasks _) as [|x l]; [done|]. destruct (Ha x) as (sid & _ & Hq & _); [by left|].
  specialize (Hs sid). unfold settled in Hs. congruence.
Qed.
End commits.
End CommitQueue.

(** ** The fsyncs of appended files *)
Module FsyncQueue.
Import T_ReceiverStreamContext StreamFrame T_ReceiverCoordinator.
Import (hints) CommitFacts.

Definition durable_at (s : t) (sid : Z) : AppendDurable.t := field_in durable AppendDurable.initial s.(streams_) sid.
Definition fsync_of (task : Task) : option (Z * Z) :=
  match task with FsyncTask _ target sid => Some (sid, target) | CommitTask _ _ => None end.
Definition fsync_tasks (q : TaskQueue.t Task) : list (Z * Z) :=
  omap fsync_of (option_list q.(TaskQueue.running) ++ q.(TaskQueue.waiting)).

Definition same_fsyncs (s s' : t) : Prop :=
  (∀ sid, durable_at s' sid = durable_at s sid) ∧ fsync_tasks s'.(disk_writer_) = fsync_tasks s.(disk_writer_).

(** What is a matter of the appended files only. *)
Class FsyncOnly (P : t → Prop) := fsync_only s s' : same_fsyncs s s' → P s → P s'.

(** *** Operations that leave the appended files alone *)
Section frame.
Context {CRC : Crc32c} (P : t → Prop) `{!FsyncOnly P}.

Lemma fsync_keeps_quiet {A} (m : M T_ReceiverStreamMap.t A) : quiet_map durable AppendDurable.initial m → keeps P (on m).
Proof.
  intros Hm s r s' HP Hr. unfold on in Hr. destruct (m (part s)) as [r0 c] eqn:E. injection Hr as <- <-.
  assert (P (set_part c s)) by (apply (fsync_only s); [|done]; split; [exact (Hm _ _ _ E)|done]).
  by destruct r0.
Qed.

Lemma fsync_keeps_on_disk {A} (m : M fsys A) : keeps P (on_disk m).
Proof. apply fsync_keeps_quiet. apply quiet_world. Qed.
Lemma fsync_keeps_context sid : keeps P (context sid).
Proof. apply fsync_keeps_quiet. apply quiet_context. Qed.
Lemma fsync_keeps_append_receiver {A} sid (f : T_ReceiverStream.t → A) : keeps P (append_receiver sid f).
Proof. apply fsync_keeps_quiet. by apply quiet_on_append. Qed.
Lemma fsync_keeps_chunk_receiver {A} sid (f : T_ChunkedReceiverStream.t → A) : keeps P (chunk_receiver sid f).
Proof. apply fsync_keeps_quiet. by apply quiet_on_chunk. Qed.
Lemma keeps_set_commit sid k : keeps P (update_context sid (set_commit k)).
Proof. apply fsync_keeps_quiet. by apply quiet_update. Qed.
Lemma fsync_keeps_clear sid : keeps P (clear_chunk_commit sid).
Proof. apply keeps_set_commit. Qed.
Lemma fsync_keeps_writer_error e : keeps P (modify (set_writer_error e)).
Proof. apply keeps_modify. intros s. by apply fsync_only. Qed.
Lemma keeps_completions f : keeps P (modify (λ s, set_completions (f s) s)).
Proof. apply keeps_modify. intros s. by apply fsync_only. Qed.
Lemma keeps_completions_const l : keeps P (modify (set_completions l)).
Proof. apply keeps_modify. intros s. by apply fsync_only. Qed.

Lemma fsync_enqueue_tasks task q queued q' :
  TaskQueue.enqueue task q = (queued, q') →
  fsync_tasks q' = fsync_tasks q ++ (if queued then option_list (fsync_of task) else []).
Proof.
  unfold TaskQueue.enqueue. destruct (_ || _); intros [= <- <-]; [by rewrite app_nil_r|].
  unfold fsync_tasks. cbn. rewrite app_assoc, omap_app. by destruct task.
Qed.

Lemma keeps_enqueue_commit task i : keeps P (enqueue (CommitTask task i)).
Proof.
  intros s r s' HP Hr. unfold enqueue in Hr. destruct (TaskQueue.enqueue _ _) as [queued q] eqn:E.
  injection Hr as <- <-. apply (fsync_only s); [|done]. split; [done|].
  cbn. rewrite (fsync_enqueue_tasks _ _ _ _ E). destruct queued; cbn; by rewrite app_nil_r.
Qed.

Lemma fsync_keeps_writer_start : keeps P writer_start.
Proof.
  apply keeps_modify. intros s. apply fsync_only. split; [done|]. cbn.
  destruct s.(disk_writer_) as [[|task w] [r|] c]; done.
Qed.
End frame.
#[export] Hint Extern 1 (keeps _ (on _)) => apply fsync_keeps_quiet; [typeclasses eauto|solve [eauto with keeps]] : keeps.
#[export] Hint Extern 1 (FsyncOnly _) => typeclasses eauto : keeps.
#[export] Hint Resolve fsync_keeps_on_disk fsync_keeps_context fsync_keeps_append_receiver fsync_keeps_chunk_receiver
  keeps_set_commit fsync_keeps_clear fsync_keeps_writer_error keeps_completions keeps_completions_const keeps_enqueue_commit fsync_keeps_writer_start : keeps.

Section handlers.
Context {CRC : Crc32c} (P : t → Prop) `{!FsyncOnly P}.

Lemma fsync_keeps_refresh_chunk sid : keeps P (refresh_chunk sid).
Proof. unfold refresh_chunk. solve_keeps. Qed.
Lemma fsync_keeps_refresh_append sid : keeps P (refresh_append sid).
Proof. unfold refresh_append. solve_keeps. Qed.
Lemma fsync_keeps_committed_file_info sid id : keeps P (committed_file_info sid id).
Proof. unfold committed_file_info. solve_keeps. Qed.
#[local] Hint Resolve fsync_keeps_refresh_append fsync_keeps_committed_file_info : keeps.
Lemma fsync_keeps_begin line m : keeps P (apply_begin line m).
Proof. unfold apply_begin. solve_keeps. Qed.
Lemma keeps_chunk line m : keeps P (apply_chunk line m).
Proof. unfold apply_chunk. solve_keeps. Qed.
Lemma fsync_keeps_commit line m : keeps P (apply_commit line m).
Proof. unfold apply_commit, queue_commit. solve_keeps. Qed.
Lemma fsync_keeps_poll_commit sid a : keeps P (poll_chunk_commit sid a).
Proof. unfold poll_chunk_commit, finish_chunk_commit. solve_keeps. Qed.
End handlers.
#[export] Hint Resolve fsync_keeps_refresh_chunk fsync_keeps_refresh_append fsync_keeps_poll_commit : keeps.

(** *** The invariant *)

(** An fsync in the writer is the one its stream has queued, and its target is
    still ahead; a stream with none queued knows all that was completed. *)
Definition inv (s : t) : Prop :=
  NoDup (fsync_tasks s.(disk_writer_)).*1 ∧
  (∀ sid target, (sid, target) ∈ fsync_tasks s.(disk_writer_) →
     (durable_at s sid).(AppendDurable.fsync_queued) = true ∧
     (durable_at s sid).(AppendDurable.fsync_active_target) = target ∧
     (durable_at s sid).(AppendDurable.fsync_completed) < target) ∧
  ∀ sid, (durable_at s sid).(AppendDurable.fsync_queued) = false →
    (durable_at s sid).(AppendDurable.fsync_completed) ≤ (durable_at s sid).(AppendDurable.durable_offset).
#[export] Instance inv_only : FsyncOnly inv.
Proof.
  intros s s' [Hd Ht] (H1 & H2 & H3). unfold inv. rewrite Ht. split; [done|]. split.
  - intros sid target. rewrite Hd. apply H2.
  - intros sid. rewrite Hd. apply H3.
Qed.

(** The stream has no fsync queued, or is at this file already. *)
Definition calm (sid id : Z) (s : t) : Prop :=
  (durable_at s sid).(AppendDurable.fsync_queued) = true → (durable_at s sid).(AppendDurable.durable_file_id) = id.
Definition inv_calm (sid id : Z) (s : t) : Prop := inv s ∧ calm sid id s.
#[export] Instance inv_calm_only sid id : FsyncOnly (inv_calm sid id).
Proof. intros s s' Hs [HI HC]. split; [by eapply fsync_only|]. destruct Hs as [Hd _]. unfold calm. by rewrite Hd. Qed.

Lemma durable_at_update s sid f sid' :
  durable_at (update_durable sid f s).2 sid' =
  if decide (sid' = sid ∧ is_Some (s.(streams_).(T_ReceiverStreamMap.streams_) !! sid))
  then f (durable_at s sid) else durable_at s sid'.
Proof.
  unfold durable_at, field_in. cbn. destruct (decide (sid' = sid)) as [->|Hne].
  - rewrite lookup_alter_eq. destruct (_ !! sid) as [c|]; cbn; [by rewrite decide_True by eauto|].
    rewrite decide_False; [done|]. intros [_ [? [=]]].
  - rewrite lookup_alter_ne by done. rewrite decide_False; [done|tauto].
Qed.

(** A change of the stream's durable context that the writer's tasks stand. *)
Lemma update_inv sid f s :
  inv s → let d := durable_at s sid in
  (f d).(AppendDurable.fsync_completed) = d.(AppendDurable.fsync_completed) ∧
    (f d).(AppendDurable.fsync_queued) = d.(AppendDurable.fsync_queued) ∧
    (f d).(AppendDurable.fsync_active_target) = d.(AppendDurable.fsync_active_target) ∨
  (∀ target, (sid, target) ∉ fsync_tasks s.(disk_writer_)) →
  ((f d).(AppendDurable.fsync_queued) = false →
     (f d).(AppendDurable.fsync_completed) ≤ (f d).(AppendDurable.durable_offset)) →
  inv (update_durable sid f s).2.
Proof.
  intros (H1 & H2 & H3) d Hd Hf. subst d. split; [done|]. split.
  - intros sid' target Hin. rewrite durable_at_update. destruct (decide _) as [[-> _]|_]; [|by apply H2].
    destruct Hd as [(-> & -> & ->)|Hno]; [by apply H2|by destruct (Hno target)].
  - intros sid'. rewrite durable_at_update. destruct (decide _) as [[-> _]|_]; [done|apply H3].
Qed.

Lemma keeps_update sid f :
  (∀ d, (f d).(AppendDurable.fsync_completed) = d.(AppendDurable.fsync_completed) ∧
     (f d).(AppendDurable.fsync_queued) = d.(AppendDurable.fsync_queued) ∧
     (f d).(AppendDurable.fsync_active_target) = d.(AppendDurable.fsync_active_target) ∧
     (f d).(AppendDurable.durable_offset) = d.(AppendDurable.durable_offset)) →
  keeps inv (update_durable sid f).
Proof.
  intros Hf s r s' HI Hr. assert (r = Ret tt) as -> by by injection Hr.
  replace s' with (update_durable sid f s).2 by by rewrite Hr.
  destruct (Hf (durable_at s sid)) as (E1 & E2 & E3 & E4). apply update_inv; [done|by left|].
  rewrite E1, E2, E4. apply HI.
Qed.

Lemma not_queued_no_task s sid target :
  inv s → (durable_at s sid).(AppendDurable.fsync_queued) = false → (sid, target) ∉ fsync_tasks s.(disk_writer_).
Proof. intros (_ & H2 & _) Hq Hin. destruct (H2 _ _ Hin). congruence. Qed.

Section steps.
Context {CRC : Crc32c} `{!MapIteration Z T_ReceiverStreamContext.t}.

(** Passing to a file is safe when no fsync of another is queued. *)
Lemma reset_inv sid id p offset :
  triple (inv_calm sid id) (reset_append_durable_context sid id p offset) (λ _, inv) inv.
Proof.
  intros s r s' [HI HC] Hr. unfold reset_append_durable_context in Hr. cut (inv s'); [by destruct r|].
  match type of Hr with update_durable sid ?f s = _ =>
    replace s' with (update_durable sid f s).2 by (by rewrite Hr); apply (update_inv sid f) end; [done|..].
  - destruct (Z.eqb_spec (durable_at s sid).(AppendDurable.durable_file_id) id) as [_|Hne]; [left; by destruct p|right].
    intros target. apply not_queued_no_task; [done|]. destruct (AppendDurable.fsync_queued _) eqn:E; [|done].
    by destruct (Hne (HC E)).
  - destruct (Z.eqb_spec (durable_at s sid).(AppendDurable.durable_file_id) id); [|cbn; lia].
    destruct p; cbn; apply HI.
Qed.

(** The context of a stream, read. *)
Lemma fsync_context_run sid s c s' :
  context sid s = (Ret c, s') →
  s' = s ∧ durable_at s sid = c.(durable) ∧ is_Some (s.(streams_).(T_ReceiverStreamMap.streams_) !! sid).
Proof.
  unfold context, on, T_ReceiverStreamMap.context. cbn. unfold durable_at, field_in.
  destruct (_ !! sid) as [x|]; [intros [= -> <-]|by intros]. split; [by destruct s|]. split; [done|eauto].
Qed.

(** An fsync is handed over. *)
Lemma fsync_hand_over_inv s sid p target q :
  inv s → is_Some (s.(streams_).(T_ReceiverStreamMap.streams_) !! sid) →
  (durable_at s sid).(AppendDurable.fsync_queued) = false → (durable_at s sid).(AppendDurable.durable_offset) < target →
  TaskQueue.enqueue (FsyncTask p target sid) s.(disk_writer_) = (true, q) →
  inv (update_durable sid (AppendDurable.set_active true target) (set_writer q s)).2.
Proof.
  intros HI Hctx Hq Ht Eq. pose proof HI as (H1 & H2 & H3). specialize (H3 sid Hq).
  unfold inv. change (disk_writer_ (update_durable sid _ (set_writer q s)).2) with q.
  rewrite (fsync_enqueue_tasks _ _ _ _ Eq). cbn [fsync_of option_list].
  assert (Hat : ∀ sid', durable_at (update_durable sid (AppendDurable.set_active true target) (set_writer q s)).2 sid' =
    if decide (sid' = sid) then AppendDurable.set_active true target (durable_at s sid) else durable_at s sid').
  { intros sid'. rewrite durable_at_update. change (durable_at (set_writer q s)) with (durable_at s). cbn.
    destruct (decide (sid' = sid)); [by rewrite decide_True|by rewrite decide_False by tauto]. }
  split; [|split].
  - rewrite fmap_app. apply NoDup_app. split; [done|]. split; [|repeat constructor; by apply not_elem_of_nil].
    intros sid' ([sid0 t0] & -> & Hin)%list_elem_of_fmap Heq%list_elem_of_singleton. cbn in Heq. subst sid0.
    by apply (not_queued_no_task s sid t0) in Hq.
  - intros sid' target' [Hin|Hin]%elem_of_app; rewrite Hat.
    + destruct (decide (sid' = sid)) as [->|]; [by apply (not_queued_no_task s sid target') in Hq|by apply H2].
    + apply list_elem_of_singleton in Hin as [= -> ->]. rewrite decide_True by done. cbn. split_and!; [done..|lia].
  - intros sid'. rewrite Hat. destruct (decide (sid' = sid)); [done|apply HI].
Qed.

Lemma fsync_keeps_maybe_enqueue sid target : keeps inv (maybe_enqueue_append_fsync sid target).
Proof.
  unfold maybe_enqueue_append_fsync. intros s r s' HI Hr.
  apply bind_cases in Hr as [(c & s1 & E & Hr)|(e & E & ->)]; [|exact (keeps_run _ _ _ _ _ (fsync_keeps_context inv sid) HI E)].
  apply fsync_context_run in E as (-> & Hd & Hctx). destruct (Z.leb_spec target c.(durable).(AppendDurable.durable_offset));
    [by injection Hr as <- <-|].
  set (f1 := λ d, AppendDurable.set_target (Z.max d.(AppendDurable.durable_target) target) d) in Hr.
  rewrite (bind_ret (update_durable sid f1) _ s tt (update_durable sid f1 s).2 eq_refl) in Hr.
  assert (inv (update_durable sid f1 s).2) as HI1 by (by apply (keeps_run _ _ s _ _ (keeps_update sid f1 ltac:(done)) HI eq_refl)).
  destruct (AppendDurable.fsync_queued c.(durable)) eqn:Eq; [by injection Hr as <- <-|].
  destruct (AppendDurable.durable_path c.(durable)) as [p|]; [|by injection Hr as <- <-]. cbv zeta in Hr.
  set (s1 := (update_durable sid f1 s).2) in *. set (f2 := AppendDurable.set_failed false "") in Hr.
  rewrite (bind_ret (update_durable sid f2) _ s1 tt (update_durable sid f2 s1).2 eq_refl) in Hr.
  assert (inv (update_durable sid f2 s1).2) as HI2 by (by apply (keeps_run _ _ s1 _ _ (keeps_update sid f2 ltac:(done)) HI1 eq_refl)).
  assert (is_Some (s1.(streams_).(T_ReceiverStreamMap.streams_) !! sid)) as Hctx1.
  { destruct Hctx as [x Hx]. subst s1. cbn. rewrite lookup_alter_eq, Hx. eauto. }
  assert (durable_at (update_durable sid f2 s1).2 sid = f2 (f1 c.(durable))) as Hd2.
  { rewrite durable_at_update, decide_True by done. subst s1. by rewrite durable_at_update, decide_True, Hd by done. }
  assert (is_Some ((update_durable sid f2 s1).2.(streams_).(T_ReceiverStreamMap.streams_) !! sid)) as Hctx2.
  { destruct Hctx1 as [x Hx]. cbn -[s1]. rewrite lookup_alter_eq, Hx. eauto. }
  set (s2 := (update_durable sid f2 s1).2) in *. unfold enqueue in Hr.
  destruct (TaskQueue.enqueue (FsyncTask p (AppendDurable.durable_target c.(durable) `max` target) sid) s2.(disk_writer_))
    as [queued q] eqn:En.
  match type of Hr with ((?m ≫= ?k) s2) = _ => rewrite (bind_ret m k s2 queued (set_writer q s2)) in Hr end;
    [|by rewrite En].
  destruct queued.
  - assert (r = Ret tt) as -> by by injection Hr. replace s' with
      (update_durable sid (AppendDurable.set_active true (Z.max c.(durable).(AppendDurable.durable_target) target))
         (set_writer q s2)).2 by by rewrite Hr.
    eapply fsync_hand_over_inv; [done|done|by rewrite Hd2|rewrite Hd2; cbn; lia|exact En].
  - injection Hr as <- <-. apply (fsync_only s2); [|done]. split; [done|]. cbn [set_writer disk_writer_].
    by rewrite (fsync_enqueue_tasks _ _ _ _ En), app_nil_r.
Qed.
#[local] Hint Resolve fsync_keeps_maybe_enqueue : keeps.

Lemma keeps_line sid id line : keeps (inv_calm sid id) (update_durable sid (AppendDurable.set_line line)).
Proof.
  intros s r s' [HI HC] Hr. assert (r = Ret tt) as -> by by injection Hr.
  split; [exact (keeps_run _ _ _ _ _ (keeps_update sid (AppendDurable.set_line line) ltac:(done)) HI Hr)|].
  replace s' with (update_durable sid (AppendDurable.set_line line) s).2 by by rewrite Hr.
  unfold calm. rewrite durable_at_update. by destruct (decide _) as [_|_].
Qed.

Lemma fsync_create_inv line m :
  triple (inv_calm m.(T_Create.stream_id) m.(T_Create.file_id)) (apply_create line m) (λ _, inv) inv.
Proof.
  unfold apply_create. cbv zeta. apply triple_then; [solve [eauto with keeps]|by intros ? []|]. intros ?.
  apply triple_then; [solve [eauto with keeps]|by intros ? []|]. intros [n|]; [apply triple_ret; by intros ? []|].
  apply triple_then; [solve [eauto with keeps]|by intros ? []|]. intros ?.
  apply triple_then; [solve [eauto with keeps]|by intros ? []|]. intros p.
  eapply triple_bind; [apply reset_inv|]. cbn beta. intros _. apply keeps_bind; [solve [eauto with keeps]|]. intros ?. solve_keeps.
Qed.

Lemma data_inv line m :
  triple (inv_calm m.(T_Data.stream_id) m.(T_Data.file_id)) (apply_data line m) (λ _, inv) inv.
Proof.
  unfold apply_data. cbv zeta. apply triple_then; [solve [eauto with keeps]|by intros ? []|]. intros ?.
  apply triple_then; [solve [eauto with keeps]|by intros ? []|]. intros [n|]; [apply triple_ret; by intros ? []|].
  apply triple_then; [solve [eauto with keeps]|by intros ? []|]. intros ?.
  apply triple_then; [apply keeps_line|by intros ? []|]. intros ?.
  apply triple_then; [solve [eauto with keeps]|by intros ? []|]. intros p.
  eapply triple_bind; [apply reset_inv|]. cbn beta. intros _. apply keeps_bind; [solve [eauto with keeps]|]. intros ?. solve_keeps.
Qed.

(** *** Polls *)

(** What a poll has read of the stream, and the offset it has told. *)
Definition told (sid completed active : Z) (s : t) : Prop :=
  inv s ∧ (durable_at s sid).(AppendDurable.fsync_completed) = completed ∧
  (durable_at s sid).(AppendDurable.fsync_active_target) = active ∧
  completed ≤ (durable_at s sid).(AppendDurable.durable_offset).
#[local] Instance told_only sid completed active : FsyncOnly (told sid completed active).
Proof. intros s s' Hs [HI HT]. split; [by eapply fsync_only|]. destruct Hs as [Hd _]. by rewrite Hd. Qed.

Lemma tell sid s completed :
  inv s → is_Some (s.(streams_).(T_ReceiverStreamMap.streams_) !! sid) →
  (durable_at s sid).(AppendDurable.fsync_completed) = completed →
  told sid completed (durable_at s sid).(AppendDurable.fsync_active_target)
    (update_durable sid (AppendDurable.set_offset completed) s).2.
Proof.
  intros HI Hctx Hc. split.
  - apply update_inv; [done|by left|]. cbn. intros _. lia.
  - rewrite durable_at_update, decide_True by done. cbn. split_and!; done || lia.
Qed.

(** All that was completed is told: an fsync that is done leaves the queue. *)
Lemma leave_queue sid completed active :
  active ≤ completed → triple (told sid completed active) (update_durable sid (AppendDurable.set_active false 0)) (λ _, inv) inv.
Proof.
  intros Hle s r s' (HI & Hc & Ha & Ho) Hr. cut (inv s'); [by destruct r|].
  replace s' with (update_durable sid (AppendDurable.set_active false 0) s).2 by by rewrite Hr.
  apply update_inv; [done| |cbn; lia]. right. intros target Hin. destruct HI as (_ & H2 & _).
  destruct (H2 _ _ Hin) as (_ & H3 & H4). lia.
Qed.

Lemma fsync_keeps_poll_fsync sid a : keeps inv (poll_append_fsync sid a).
Proof.
  unfold poll_append_fsync. intros s r s' HI Hr.
  apply bind_cases in Hr as [(c & s1 & E & Hr)|(e & E & ->)]; [|exact (keeps_run _ _ _ _ _ (fsync_keeps_context inv sid) HI E)].
  apply fsync_context_run in E as (-> & Hd & Hctx). cbv zeta in Hr. rewrite <- Hd in Hr.
  destruct (AppendDurable.fsync_failed _); [by injection Hr as <- <-|].
  set (completed := (durable_at s sid).(AppendDurable.fsync_completed)) in *.
  set (active := (durable_at s sid).(AppendDurable.fsync_active_target)) in *.
  match type of Hr with (?m ≫= ?k) s = _ =>
    assert (∀ r1 s1, m s = (r1, s1) → told sid completed active s1) as Hm;
      [|assert (∀ a1, triple (told sid completed active) (k a1) (λ _, inv) inv) as Hk] end.
  - intros r1 s1 E. destruct (Z.gtb_spec completed (durable_at s sid).(AppendDurable.durable_offset)).
    + rewrite (bind_ret (update_durable sid _) _ s tt _ eq_refl) in E.
      refine (keeps_run (told sid completed active) _ _ _ _ _ (tell sid s completed HI Hctx eq_refl) E). solve_keeps.
    + injection E as <- <-. by split_and!; [|done..|].
  - intros a1. eapply triple_bind.
    + instantiate (1 := λ _, inv). destruct (_ && _) eqn:Eq; [|apply triple_ret; by intros ? []].
      apply andb_prop in Eq as [_ Eq]. apply leave_queue. lia.
    + cbn beta. intros _. apply keeps_bind; [solve [eauto with keeps]|]. intros c1. solve_keeps.
  - apply bind_cases in Hr as [(a1 & s1 & E & Hr)|(e & E & ->)]; apply Hm in E; [by apply (Hk a1 s1)|apply E].
Qed.
#[local] Hint Resolve fsync_keeps_poll_fsync : keeps.

Lemma fsync_poll_keeps ids a : keeps inv (poll_streams ids a).
Proof.
  revert a. induction ids as [|sid ids IH]; intros a; cbn; [apply keeps_ret|].
  apply keeps_bind; [apply fsync_keeps_poll_fsync|]. intros a1. case_match; [apply keeps_ret|].
  apply keeps_bind; [apply (fsync_keeps_poll_commit inv)|]. intros a2. case_match; [apply keeps_ret|auto].
Qed.

(** *** The writer *)

(** An fsync ends: it is completed, or failed. *)
Lemma ends_inv s sid target q (f : AppendDurable.t → AppendDurable.t) :
  inv s → fsync_tasks s.(disk_writer_) = (sid, target) :: fsync_tasks q →
  (∀ d, (f d).(AppendDurable.fsync_queued) = d.(AppendDurable.fsync_queued)) →
  inv (set_writer q (update_durable sid f s).2).
Proof.
  intros (H1 & H2 & H3) Ht Hf. rewrite Ht in H1, H2. cbn in H1. apply NoDup_cons in H1 as [Hni H1].
  destruct (H2 sid target) as (Hq & _); [by left|].
  assert (Hat : ∀ sid', sid' ≠ sid → durable_at (set_writer q (update_durable sid f s).2) sid' = durable_at s sid').
  { intros sid' Hne. change (durable_at (set_writer q ?x)) with (durable_at x). rewrite durable_at_update.
    rewrite decide_False; [done|tauto]. }
  unfold inv. cbn [set_writer disk_writer_]. split; [done|]. split.
  - intros sid' target' Hin. rewrite Hat; [by apply H2; right|]. intros ->. apply Hni. apply list_elem_of_fmap. by exists (sid, target').
  - intros sid'. destruct (decide (sid' = sid)) as [->|Hne]; [|rewrite Hat by done; apply H3].
    change (durable_at (set_writer q ?x)) with (durable_at x). rewrite durable_at_update.
    destruct (decide _) as [_|_]; [rewrite Hf|]; congruence.
Qed.

Lemma fsync_run_fsync p target sid s :
  ∃ s1 f, run_task (FsyncTask p target sid) s = (Ret tt, (update_durable sid f s1).2) ∧ same_fsyncs s s1 ∧
    s1.(disk_writer_) = s.(disk_writer_) ∧ ∀ d, (f d).(AppendDurable.fsync_queued) = d.(AppendDurable.fsync_queued).
Proof.
  unfold run_task, try_catch. destruct (on_disk (fsync_file_for_durable_offset p) s) as [[a|e] s1] eqn:E;
    [rewrite (bind_ret _ _ _ _ _ E)|rewrite (bind_throw _ _ _ _ _ E)];
    apply CommitFacts.on_disk_inv in E as (w & _ & ->); by do 2 eexists.
Qed.

Lemma fsync_run_commit task i s :
  ∃ s1, run_task (CommitTask task i) s = (Ret tt, s1) ∧ same_fsyncs s s1 ∧ s1.(disk_writer_) = s.(disk_writer_).
Proof.
  unfold run_task, try_catch. destruct (on_disk (T_ChunkedReceiverStream.write_commit_task task) s) as [[a|e] s1] eqn:E;
    [rewrite (bind_ret _ _ _ _ _ E)|rewrite (bind_throw _ _ _ _ _ E)];
    apply CommitFacts.on_disk_inv in E as (w & _ & ->); by eexists.
Qed.

Lemma fsync_finish_keeps : keeps inv writer_finish.
Proof.
  intros s r s' HI Hr. cut (inv s'); [by destruct r|].
  unfold writer_finish in Hr. rewrite (bind_ret get _ s s s eq_refl) in Hr.
  destruct (s.(disk_writer_)) as [w [task|] cl] eqn:Ew; cbn [TaskQueue.running] in Hr; [|by injection Hr as <- <-].
  destruct task as [p target sid|task i].
  - destruct (fsync_run_fsync p target sid s) as (s1 & f & E & Hs & Hq & Hf).
    unfold try_catch, mbind, M_bind in Hr. rewrite E in Hr. injection Hr as _ <-.
    change (inv (set_writer (TaskQueue.finish s1.(disk_writer_)) (update_durable sid f s1).2)). rewrite Hq, Ew.
    apply (ends_inv s1 sid target); [by eapply fsync_only|by rewrite Hq, Ew|done].
  - destruct (fsync_run_commit task i s) as (s1 & E & Hs & Hq).
    unfold try_catch, mbind, M_bind in Hr. rewrite E in Hr. injection Hr as _ <-. cbn. rewrite Hq, Ew.
    apply (fsync_only s); [|done]. destruct Hs as [Hd _]. split; [exact Hd|]. by rewrite Ew.
Qed.

Lemma initial_inv default_id default_root roots w window max_ranges :
  inv (create (T_ReceiverStreamMap.create default_id default_root roots w) window max_ranges).
Proof.
  split; [constructor|]. split; [intros sid target Hx; by apply elem_of_nil in Hx|].
  intros sid. unfold durable_at, field_in. cbn. by rewrite lookup_empty.
Qed.

(** With no fsync queued by a stream, the writer has none. *)
Lemma fsync_none_left s :
  inv s → (∀ sid, (durable_at s sid).(AppendDurable.fsync_queued) = false) → fsync_tasks s.(disk_writer_) = [].
Proof.
  intros (_ & H2 & _) Hs. destruct (fsync_tasks _) as [|[sid target] l]; [done|].
  destruct (H2 sid target) as [Hq _]; [by left|]. by rewrite Hs in Hq.
Qed.
End steps.
End FsyncQueue.

(** ** Both: nothing is left *)
Lemma queue_empty (q : TaskQueue.t Task) :
  CommitFacts.commit_tasks q = [] → FsyncQueue.fsync_tasks q = [] → q.(TaskQueue.running) = None ∧ q.(TaskQueue.waiting) = [].
Proof.
  unfold CommitFacts.commit_tasks, FsyncQueue.fsync_tasks. destruct q as [w r c]. cbn.
  destruct r as [[]|]; [done|done|]. cbn. destruct w as [|[] w]; done.
Qed.
