(* ===== verification/ReceiverTransfer.v ===== *)
(** * Transfers through the coordinator

    Whole files, from the sender's messages to the heartbeat that says they are
    on disk: the coordinator, its receivers and the writer together. *)
From S2P Require Import Prelude Hoare Crc32c Filesystem Wire Protocol Sync ReceiverPaths AppendReceiver ChunkReceiver.
From S2P Require Import DiskWriter ReceiverStreams NodeCommon Coordinator CommitConfirmation.
#[local] Open Scope Z_scope.
Export (hints) T_ReceiverStreamMap.

(** ** A chunked file *)
Module ChunkedFile.
Import T_ReceiverStreamContext T_ReceiverCoordinator CoordinatorRun.

Section transfer.
Context {CRC : Crc32c} `{!MapIteration Z T_ReceiverStreamContext.t}.

(** The receiver as its context keeps it. *)
Definition put_away : T_ChunkedReceiverStream.t → T_ChunkedReceiverStream.t :=
  T_ChunkedReceiverStream.set_world T_ReceiverStreamMap.nowhere.

(** The coordinator [s], with one stream, whose chunk receiver is [r]. *)
Definition holding (s : t) (sid : Z) (c : T_ReceiverStreamContext.t) (r : T_ChunkedReceiverStream.t) : t :=
  set_streams (T_ReceiverStreamMap.mk_map s.(streams_).(T_ReceiverStreamMap.default_root_)
    s.(streams_).(T_ReceiverStreamMap.default_stream_id_) s.(streams_).(T_ReceiverStreamMap.roots_)
    {[sid := set_chunk (Some (put_away r)) c]} r.(T_ChunkedReceiverStream.world)) s.

Lemma on_chunk_holding {A} (m : M T_ChunkedReceiverStream.t A) s sid c r a r' :
  m r = (a, r') → on (T_ReceiverStreamMap.on_chunk sid m) (holding s sid c r) = (a, holding s sid c r').
Proof.
  intros Hm. unfold on, T_ReceiverStreamMap.on_chunk. cbn. rewrite lookup_singleton_eq. cbn.
  assert (T_ChunkedReceiverStream.set_world r.(T_ChunkedReceiverStream.world) (put_away r) = r) as -> by by destruct r.
  rewrite Hm. unfold holding, T_ReceiverStreamMap.set_streams. cbn. by rewrite insert_singleton_eq.
Qed.

Lemma chunk_receiver_holding {A} (f : T_ChunkedReceiverStream.t → A) s sid c r :
  chunk_receiver sid f (holding s sid c r) = (Ret (f r), holding s sid c r).
Proof. by apply on_chunk_holding. Qed.

Lemma context_for_holding s sid c r :
  on (T_ReceiverStreamMap.context_for sid) (holding s sid c r) = (Ret tt, holding s sid c r).
Proof. unfold on, T_ReceiverStreamMap.context_for, mbind, M_bind, get. cbn. by rewrite lookup_singleton_eq. Qed.

Lemma context_holding s sid c r :
  context sid (holding s sid c r) = (Ret (set_chunk (Some (put_away r)) c), holding s sid c r).
Proof. unfold context, on, T_ReceiverStreamMap.context. cbn. by rewrite lookup_singleton_eq. Qed.

Lemma chunk_receiver_for_holding s sid c r :
  on (T_ReceiverStreamMap.chunk_receiver_for sid) (holding s sid c r) = (Ret tt, holding s sid c r).
Proof.
  unfold on, T_ReceiverStreamMap.chunk_receiver_for, T_ReceiverStreamMap.context_for,
    T_ReceiverStreamMap.context, mbind, M_bind, get. cbn.
  by repeat (rewrite lookup_singleton_eq; cbn).
Qed.

Lemma clear_holding s sid c r :
  clear_chunk_commit sid (holding s sid c r) = (Ret tt, holding s sid (set_commit ChunkCommit.none c) r).
Proof.
  unfold clear_chunk_commit, update_context, on, T_ReceiverStreamMap.update_context, modify, holding,
    T_ReceiverStreamMap.set_streams. cbn. by rewrite alter_singleton_eq.
Qed.

(** *** The handlers, when the receiver accepts *)
Lemma begin_step line begin s sid c r r' :
  begin.(T_FileBegin.stream_id) = sid →
  T_ChunkedReceiverStream.apply_begin begin r = (Ret None, r') →
  apply_begin line begin (holding s sid c r) =
  (Ret (T_ReceiverActionBatch.push_heartbeat (T_ReceiverHeartbeatAction.mk line
          (T_Heartbeat.mk sid r'.(T_ChunkedReceiverStream.expected_seq) begin.(T_FileBegin.file_id) 0 0
             s.(recv_window_bytes_) [] []) true false) T_ReceiverActionBatch.empty),
   holding s sid c r').
Proof.
  intros Hid Hr. unfold apply_begin. rewrite Hid. cbv zeta.
  rewrite (bind_ret _ _ _ _ _ (chunk_receiver_for_holding s sid c r)).
  rewrite (bind_ret _ _ _ _ _ (on_chunk_holding _ s sid c r _ _ Hr)).
  rewrite (bind_ret get _ _ _ _ eq_refl).
  by rewrite (bind_ret _ _ _ _ _ (chunk_receiver_holding _ s sid c r')).
Qed.

(** The batch that acknowledges a chunk. *)
Definition acknowledges (line sid seq file_id window index : Z) (a : T_ReceiverActionBatch.t) : Prop :=
  ∃ next_seq missing,
    a = T_ReceiverActionBatch.push_heartbeat (T_ReceiverHeartbeatAction.mk line
          (T_Heartbeat.mk sid next_seq file_id 0 0 window [T_ReceivedChunk.mk seq file_id index] missing)
          false false) T_ReceiverActionBatch.empty.

Lemma chunk_step line chunk s sid c r r' :
  chunk.(T_Chunk.stream_id) = sid →
  T_ChunkedReceiverStream.apply_chunk chunk r = (Ret None, r') →
  ∃ a, apply_chunk line chunk (holding s sid c r) = (Ret a, holding s sid c r') ∧
    acknowledges line sid chunk.(T_Chunk.seq) chunk.(T_Chunk.file_id) s.(recv_window_bytes_) chunk.(T_Chunk.chunk_index) a.
Proof.
  intros Hid Hr. eexists. unfold apply_chunk. rewrite Hid. cbv zeta.
  rewrite (bind_ret _ _ _ _ _ (chunk_receiver_for_holding s sid c r)).
  rewrite (bind_ret _ _ _ _ _ (on_chunk_holding _ s sid c r _ _ Hr)).
  rewrite (bind_ret get _ _ _ _ eq_refl).
  rewrite (bind_ret _ _ _ _ _ (chunk_receiver_holding _ s sid c r')).
  rewrite (bind_ret _ _ _ _ _ (chunk_receiver_holding _ s sid c r')).
  split; [reflexivity|]. by do 2 eexists.
Qed.

Definition pending_commit (line : Z) (task : T_ChunkCommitTask.t) (completion : nat) : ChunkCommit.t :=
  ChunkCommit.mk true line task.(T_ChunkCommitTask.seq) task.(T_ChunkCommitTask.file_id)
    task.(T_ChunkCommitTask.final_size) task.(T_ChunkCommitTask.final_path) (Some completion).

Lemma commit_step line commit task s sid c r r' :
  commit.(T_FileCommit.stream_id) = sid → c.(chunk_commit).(ChunkCommit.queued) = false →
  T_ChunkedReceiverStream.prepare_commit commit r = (Ret (None, task), r') →
  task.(T_ChunkCommitTask.seq) ≠ 0 → s.(disk_writer_) = TaskQueue.empty →
  let n := length s.(completions) in
  apply_commit line commit (holding s sid c r) =
  (Ret (T_ReceiverActionBatch.commit_poll T_ReceiverActionBatch.empty),
   holding (set_writer (TaskQueue.mk [CommitTask task n] None false)
              (set_completions (s.(completions) ++ [T_ChunkCommitCompletion.pending]) s)) sid
     (set_commit (pending_commit line task n) c) r').
Proof.
  intros Hid Hq Hr Hseq Hw n. unfold apply_commit. rewrite Hid. cbv zeta.
  rewrite (bind_ret _ _ _ _ _ (context_for_holding s sid c r)).
  rewrite (bind_ret _ _ _ _ _ (context_holding s sid c r)). cbn [chunk_commit set_chunk]. rewrite Hq.
  rewrite (bind_ret _ _ _ _ _ (chunk_receiver_for_holding s sid c r)).
  rewrite (bind_ret _ _ _ _ _ (on_chunk_holding _ s sid c r _ _ Hr)).
  rewrite (proj2 (Z.eqb_neq _ _) Hseq). unfold queue_commit. rewrite Hid. cbv zeta.
  rewrite (bind_ret get _ _ _ _ eq_refl).
  rewrite (bind_ret (modify _) _ _ tt _ eq_refl).
  rewrite (bind_ret (update_context _ _) _ _ tt _ eq_refl).
  rewrite (bind_ret (enqueue _) _ _ true
    (holding (set_writer (TaskQueue.mk [CommitTask task n] None false)
              (set_completions (s.(completions) ++ [T_ChunkCommitCompletion.pending]) s)) sid
     (set_commit (pending_commit line task n) c) r')); [done|].
  unfold enqueue. cbn. rewrite Hw. cbn. unfold holding, T_ReceiverStreamMap.set_streams, set_streams, set_writer. cbn.
  by rewrite alter_singleton_eq.
Qed.

(** The writer takes the commit and writes it. *)
Lemma write_step task n s sid c r result w :
  s.(disk_writer_) = TaskQueue.mk [CommitTask task n] None false →
  T_ChunkedReceiverStream.write_commit_task task r.(T_ChunkedReceiverStream.world) = (Ret result, w) →
  ∃ s1, handle WriterStart (holding s sid c r) = (Ret T_ReceiverActionBatch.empty, s1) ∧
    handle WriterFinish s1 = (Ret T_ReceiverActionBatch.empty,
      holding (set_writer TaskQueue.empty (set_completions
        (alter (CommitFacts.mark (Ret result)) n s.(completions)) s)) sid c (T_ChunkedReceiverStream.set_world w r)).
Proof.
  intros Hq Hw.
  set (s1 := holding (set_writer (TaskQueue.mk [] (Some (CommitTask task n)) false) s) sid c r).
  set (s2 := holding (set_writer (TaskQueue.mk [] (Some (CommitTask task n)) false) s) sid c
               (T_ChunkedReceiverStream.set_world w r)).
  exists s1. split.
  { cbn [handle]. unfold writer_start. rewrite (bind_ret (modify _) _ _ tt s1); [done|].
    unfold modify, s1, holding. cbn. by rewrite Hq. }
  assert (E : on_disk (T_ChunkedReceiverStream.write_commit_task task) s1 = (Ret result, s2)).
  { unfold on_disk, on, on_world, the_world. cbn [part has_streams streams_ s1 holding set_streams T_ReceiverStreamMap.has_world
      T_ReceiverStreamMap.world]. by rewrite Hw. }
  cbn [handle]. rewrite (bind_ret writer_finish _ s1 tt (holding (set_writer TaskQueue.empty (set_completions
    (alter (CommitFacts.mark (Ret result)) n s.(completions)) s)) sid c (T_ChunkedReceiverStream.set_world w r))); [done|].
  unfold writer_finish. rewrite (bind_ret get _ s1 s1 s1 eq_refl).
  change (TaskQueue.running (disk_writer_ s1)) with (Some (CommitTask task n)). cbv match.
  rewrite (bind_ret (try_catch _ _) _ s1 tt (set_completions (alter (CommitFacts.mark (Ret result)) n s2.(completions)) s2));
    [done|]. unfold try_catch at 1. by rewrite (CommitFacts.run_commit _ n _ _ _ E).
Qed.

(** The poll that finds it written. *)
Lemma poll_step s sid c r r' line task n comp :
  c.(append) = None → c.(durable) = AppendDurable.initial → c.(chunk_commit) = pending_commit line task n →
  s.(completions) !! n = Some comp → comp.(T_ChunkCommitCompletion.completed) = true →
  comp.(T_ChunkCommitCompletion.failed) = false →
  T_ChunkedReceiverStream.finish_commit (T_ChunkCommitResult.mk sid task.(T_ChunkCommitTask.seq)
    task.(T_ChunkCommitTask.file_id) task.(T_ChunkCommitTask.final_size) task.(T_ChunkCommitTask.final_path)) r
    = (Ret tt, r') →
  handle OnPoll (holding s sid c r) =
  (Ret (T_ReceiverActionBatch.quiet_stop (T_ReceiverActionBatch.push_heartbeat
     (T_ReceiverHeartbeatAction.mk line (T_Heartbeat.mk sid r'.(T_ChunkedReceiverStream.expected_seq)
        task.(T_ChunkCommitTask.file_id) task.(T_ChunkCommitTask.final_size) task.(T_ChunkCommitTask.final_size)
        s.(recv_window_bytes_) [] []) true true) T_ReceiverActionBatch.empty)),
   holding s sid (set_commit ChunkCommit.none c) r').
Proof.
  intros Ha Hd Hc Hcomp Hdone Hfail Hr. cbn [handle]. unfold poll_completions.
  rewrite (bind_ret get _ _ _ _ eq_refl).
  assert (iteration (T_ReceiverStreamMap.streams_ (streams_ (holding s sid c r))) = [(sid, set_chunk (Some (put_away r)) c)]) as ->.
  { apply Permutation_singleton_r. rewrite iteration_perm. cbn. by rewrite map_to_list_singleton. }
  cbn [fmap list_fmap fst poll_streams].
  rewrite (bind_ret (poll_append_fsync sid _) _ _ T_ReceiverActionBatch.empty (holding s sid c r)).
  2:{ unfold poll_append_fsync. rewrite (bind_ret _ _ _ _ _ (context_holding s sid c r)). cbv zeta.
      cbn [durable set_chunk]. rewrite Hd. cbn.
      rewrite (bind_ret (mret _) _ _ _ _ eq_refl). rewrite (bind_ret (mret _) _ _ _ _ eq_refl).
      rewrite (bind_ret _ _ _ _ _ (context_holding s sid c r)). cbn [durable set_chunk]. rewrite Hd. done. }
  cbn [T_ReceiverActionBatch.failed T_ReceiverActionBatch.empty].
  rewrite (bind_ret (poll_chunk_commit sid _) _ _ (T_ReceiverActionBatch.quiet_stop (T_ReceiverActionBatch.push_heartbeat
     (T_ReceiverHeartbeatAction.mk line (T_Heartbeat.mk sid r'.(T_ChunkedReceiverStream.expected_seq)
        task.(T_ChunkCommitTask.file_id) task.(T_ChunkCommitTask.final_size) task.(T_ChunkCommitTask.final_size)
        s.(recv_window_bytes_) [] []) true true) T_ReceiverActionBatch.empty))
   (holding s sid (set_commit ChunkCommit.none c) r')); [done|].
  unfold poll_chunk_commit. rewrite (bind_ret _ _ _ _ _ (context_holding s sid c r)). cbv zeta.
  cbn [chunk_commit set_chunk chunk]. rewrite Hc. cbn [ChunkCommit.queued ChunkCommit.completion pending_commit negb].
  rewrite (bind_ret get _ _ _ _ eq_refl). cbn [mbind option_bind holding set_streams completions].
  rewrite Hcomp, Hfail, Hdone. cbn [negb]. unfold finish_chunk_commit. cbv zeta.
  cbn [ChunkCommit.seq ChunkCommit.file_id ChunkCommit.final_size ChunkCommit.final_path ChunkCommit.line_id pending_commit].
  rewrite (bind_ret _ _ _ None (holding s sid c r')).
  2:{ unfold try_catch. by rewrite (bind_ret _ _ _ _ _ (on_chunk_holding _ s sid c r _ _ Hr)). }
  rewrite (bind_ret (refresh_append sid) _ _ tt (holding s sid c r')).
  2:{ unfold refresh_append. rewrite (bind_ret _ _ _ _ _ (context_holding s sid c r')). cbn [append set_chunk]. by rewrite Ha. }
  rewrite (bind_ret _ _ _ _ _ (chunk_receiver_holding _ s sid c r')).
  rewrite (bind_ret get _ _ _ _ eq_refl).
  by rewrite (bind_ret _ _ _ _ _ (clear_holding s sid c r')).
Qed.

(** *** Chunks in any order, on any lines *)
Import ChunkFacts ChunkTransfer CommitTransfer FileTransfer.

Section file.
Context (data : Bytes) (cs : Z).
Context (Hcs : 0 < cs < 4294967296) (Hsize : 65536 < zlen data < 4611686018427387904).

Definition chunk_events (sid seq file_id : Z) (chunks : list (Z * Z)) : list event :=
  (λ '(line, i), OnChunk line (chunk_message data cs sid seq file_id i)) <$> chunks.

Lemma chunks_steps chunks s c r seq f content :
  collecting data cs r seq f content → Forall (λ li, 0 ≤ li.2 < count data cs) chunks →
  let sid := r.(T_ChunkedReceiverStream.stream_id) in
  ∃ f' content' acks,
    run (chunk_events sid seq f.(ActiveFile.file_id) chunks) (holding s sid c r) =
      (Ret <$> acks, holding s sid c (after_chunks r seq f' content')) ∧
    Forall2 (λ li, acknowledges li.1 sid seq f.(ActiveFile.file_id) s.(recv_window_bytes_) li.2) chunks acks ∧
    tracks data cs f' content' ∧ same_file f f' ∧
    ∀ i, 0 ≤ i → i ∈ chunks.*2 ∨ ActiveFile.has f (Z.to_nat i) = true → ActiveFile.has f' (Z.to_nat i) = true.
Proof.
  intros Hcol His sid. subst sid. revert r f content Hcol.
  induction His as [|[line i] chunks Hi His IH]; intros r f content Hcol; cbn [chunk_events fmap list_fmap run].
  - exists f, content, []. rewrite (after_same data cs) by done. split_and!; [done|constructor|apply Hcol|done|].
    intros i _ [Hi|Hi]; [by apply elem_of_nil in Hi|done].
  - cbn in Hi. destruct (apply_chunk_plain data cs Hcs Hsize r seq f content i Hcol Hi)
      as (f1 & c1 & Hrun1 & Ht1 & Hsame1 & Hhas1).
    pose proof (collecting_after data cs r seq f content f1 c1 Hcol Hsame1 Ht1) as Hcol1.
    destruct (IH _ f1 c1 Hcol1) as (f2 & c2 & acks & Hrun2 & Hacks & Ht2 & Hsame2 & Hhas2).
    destruct (chunk_step line _ s _ c r _ eq_refl Hrun1) as (a & Ha & Hack).
    change (T_ChunkedReceiverStream.stream_id (after_chunks r seq f1 c1)) with (r.(T_ChunkedReceiverStream.stream_id)) in *.
    rewrite (proj1 (proj2 Hsame1)) in Hrun2, Hacks.
    exists f2, c2, (a :: acks). cbn [handle]. change (T_Chunk.stream_id _) with (r.(T_ChunkedReceiverStream.stream_id)) in Ha.
    rewrite Ha. unfold chunk_events in Hrun2. rewrite Hrun2. rewrite after_after by apply Hsame2.
    split_and!; [done|by constructor|done|by transitivity f1|].
    intros j Hj Hin. apply Hhas2; [done|]. rewrite Hhas1. destruct Hin as [Hin|Hin].
    + cbn in Hin. apply elem_of_cons in Hin as [->|Hin]; [right; by rewrite bool_decide_eq_true_2|by left].
    + right. by rewrite Hin, orb_true_r.
Qed.

Definition confirmed (line sid seq file_id size window : Z) : T_ReceiverActionBatch.t :=
  T_ReceiverActionBatch.quiet_stop (T_ReceiverActionBatch.push_heartbeat
    (T_ReceiverHeartbeatAction.mk line (T_Heartbeat.mk sid (seq + 1) file_id size size window [] []) true true)
    T_ReceiverActionBatch.empty).

(** The commit, the writer and the poll. *)
Lemma commit_run line s c r seq f ds name :
  collecting data cs r seq f data → f.(ActiveFile.received_count) = f.(ActiveFile.chunk_count) →
  f.(ActiveFile.seq) = seq → 0 < seq → seq + 1 < 18446744073709551616 →
  (∃ tc, name_ok tc ∧ f.(ActiveFile.temp_path) = r.(T_ChunkedReceiverStream.temp_root) ++ [tc]) →
  f.(ActiveFile.final_path) = r.(T_ChunkedReceiverStream.root) ++ ds ++ [name] →
  let t := r.(T_ChunkedReceiverStream.world).(nodes) in
  dir_path t r.(T_ChunkedReceiverStream.temp_root) →
  t !! f.(ActiveFile.temp_path) = Some (File data) → free_place t r.(T_ChunkedReceiverStream.root) ds name →
  checksum_of data f.(ActiveFile.file_checksum) →
  c.(append) = None → c.(durable) = AppendDurable.initial → c.(chunk_commit) = ChunkCommit.none →
  s.(disk_writer_) = TaskQueue.empty →
  let sid := r.(T_ChunkedReceiverStream.stream_id) in
  ∃ s' c' r',
    run [OnCommit line (T_FileCommit.mk sid seq f.(ActiveFile.file_id)); WriterStart; WriterFinish; OnPoll]
      (holding s sid c r) =
    ([Ret (T_ReceiverActionBatch.commit_poll T_ReceiverActionBatch.empty); Ret T_ReceiverActionBatch.empty;
      Ret T_ReceiverActionBatch.empty;
      Ret (confirmed line sid seq f.(ActiveFile.file_id) (zlen data) s.(recv_window_bytes_))],
     holding s' sid (set_commit ChunkCommit.none c') r') ∧
    r'.(T_ChunkedReceiverStream.world).(nodes) =
      <[r.(T_ChunkedReceiverStream.root) ++ ds ++ [name] := File data]>
        (delete f.(ActiveFile.temp_path) (add_dirs t [] (r.(T_ChunkedReceiverStream.root) ++ ds))).
Proof.
  intros Hcol Hcount Hfseq Hpos Hsmall Htemp Hfinal t Htr Hn Hplace Hsum Happ Hdur Hcom Hw sid.
  pose proof (prepare_commit_plain data cs r seq f (T_FileCommit.mk sid seq f.(ActiveFile.file_id)) ds name Hcol Hcount
    eq_refl eq_refl eq_refl Hfinal Hplace) as Hprep.
  set (task := T_ChunkedReceiverStream.make_commit_task _ _) in Hprep.
  set (r1 := T_ChunkedReceiverStream.set_active _ _) in Hprep.
  assert (Htseq : task.(T_ChunkCommitTask.seq) ≠ 0) by (change (f.(ActiveFile.seq) ≠ 0); lia).
  assert (Hidle : c.(chunk_commit).(ChunkCommit.queued) = false) by by rewrite Hcom.
  pose proof (commit_step line (T_FileCommit.mk sid seq f.(ActiveFile.file_id)) task s sid c r r1 eq_refl Hidle Hprep
    Htseq Hw) as Hcommit.
  cbv zeta in Hcommit. set (n := length s.(completions)) in *.
  set (s1 := set_writer _ _) in Hcommit. set (c1 := set_commit _ c) in Hcommit.
  assert (Hr1 : r1.(T_ChunkedReceiverStream.world) = mk_fsys t []).
  { destruct Hcol as (_ & _ & _ & Hf & _). change (r.(T_ChunkedReceiverStream.world) = mk_fsys t []).
    subst t. destruct (T_ChunkedReceiverStream.world r). cbn in *. by rewrite Hf. }
  pose proof (write_task_plain data Hsize r f ds name t Htemp Hfinal Htr Hn Hplace Hsum) as Hwrite.
  rewrite <- Hr1 in Hwrite.
  destruct (write_step task n s1 sid c1 r1 _ _ eq_refl Hwrite) as (s2 & Hstart & Hfinish).
  set (w3 := mk_fsys (<[_ := _]> _) []) in *.
  pose proof (finish_commit_plain data cs r seq f w3 ds name Hcol Hfseq Hpos Hsmall) as Hdone.
  rewrite <- Hfinal in Hdone. set (s3 := set_writer TaskQueue.empty _) in Hfinish.
  assert (Hcomp : s3.(completions) !! n = Some (T_ChunkCommitCompletion.mk true false "")).
  { subst s3 s1. cbn. rewrite list_lookup_alter_eq. subst n. by rewrite list_lookup_middle. }
  pose proof (poll_step s3 sid c1 _ _ line task n _ Happ Hdur eq_refl Hcomp eq_refl eq_refl
    Hdone) as Hpoll.
  do 3 eexists. split.
  - cbn [run handle]. rewrite Hcommit. cbn [handle] in Hstart, Hfinish, Hpoll. rewrite Hstart, Hfinish.
    change (T_ChunkedReceiverStream.set_world w3 r1) with
      (T_ChunkedReceiverStream.set_active (<[seq := ActiveFile.set_pending true f]> r.(T_ChunkedReceiverStream.active))
         (T_ChunkedReceiverStream.set_world w3 r)).
    rewrite Hpoll. destruct Hcol as (_ & _ & _ & _ & Hfs & _). unfold confirmed. cbn. by rewrite Hfs.
  - done.
Qed.
End file.
End transfer.
End ChunkedFile.

(** ** An appended file *)
Module AppendedFile.
Import T_ReceiverStreamContext T_ReceiverCoordinator CoordinatorRun.
Import AppendFacts AppendTransfer CreateFacts.

Section transfer.
Context {CRC : Crc32c} `{!MapIteration Z T_ReceiverStreamContext.t}.

Definition put_away : T_ReceiverStream.t → T_ReceiverStream.t := T_ReceiverStream.set_world T_ReceiverStreamMap.nowhere.

(** The coordinator [s] with one stream, its append receiver [r], how far it is
    durable, and the queue of the writer. *)
Definition appending (s : t) (sid : Z) (c : T_ReceiverStreamContext.t) (r : T_ReceiverStream.t) (d : AppendDurable.t)
    (q : TaskQueue.t Task) : t :=
  set_writer q (set_streams (T_ReceiverStreamMap.mk_map s.(streams_).(T_ReceiverStreamMap.default_root_)
    s.(streams_).(T_ReceiverStreamMap.default_stream_id_) s.(streams_).(T_ReceiverStreamMap.roots_)
    {[sid := set_durable d (set_append (Some (put_away r)) c)]} r.(T_ReceiverStream.world)) s).

Lemma on_append_appending {A} (m : M T_ReceiverStream.t A) s sid c r d q a r' :
  m r = (a, r') → on (T_ReceiverStreamMap.on_append sid m) (appending s sid c r d q) = (a, appending s sid c r' d q).
Proof.
  intros Hm. unfold on, T_ReceiverStreamMap.on_append. cbn. rewrite lookup_singleton_eq. cbn.
  assert (T_ReceiverStream.set_world r.(T_ReceiverStream.world) (put_away r) = r) as -> by by destruct r.
  rewrite Hm. unfold appending, T_ReceiverStreamMap.set_streams. cbn. by rewrite insert_singleton_eq.
Qed.
Lemma append_receiver_appending {A} (f : T_ReceiverStream.t → A) s sid c r d q :
  append_receiver sid f (appending s sid c r d q) = (Ret (f r), appending s sid c r d q).
Proof. by apply on_append_appending. Qed.
Lemma context_for_appending s sid c r d q :
  on (T_ReceiverStreamMap.context_for sid) (appending s sid c r d q) = (Ret tt, appending s sid c r d q).
Proof. unfold on, T_ReceiverStreamMap.context_for, mbind, M_bind, get. cbn. by rewrite lookup_singleton_eq. Qed.
Lemma context_appending s sid c r d q :
  context sid (appending s sid c r d q) =
  (Ret (set_durable d (set_append (Some (put_away r)) c)), appending s sid c r d q).
Proof. unfold context, on, T_ReceiverStreamMap.context. cbn. by rewrite lookup_singleton_eq. Qed.
Lemma append_receiver_for_appending s sid c r d q :
  on (T_ReceiverStreamMap.append_receiver_for sid) (appending s sid c r d q) = (Ret tt, appending s sid c r d q).
Proof.
  unfold on, T_ReceiverStreamMap.append_receiver_for, T_ReceiverStreamMap.context_for,
    T_ReceiverStreamMap.context, mbind, M_bind, get. cbn.
  by repeat (rewrite lookup_singleton_eq; cbn).
Qed.
Lemma update_durable_appending f s sid c r d q :
  update_durable sid f (appending s sid c r d q) = (Ret tt, appending s sid c r (f d) q).
Proof.
  unfold update_durable, update_context, on, T_ReceiverStreamMap.update_context, modify, appending,
    T_ReceiverStreamMap.set_streams. cbn. by rewrite alter_singleton_eq.
Qed.
Lemma refresh_chunk_appending s sid c r d q :
  c.(chunk) = None → refresh_chunk sid (appending s sid c r d q) = (Ret tt, appending s sid c r d q).
Proof.
  intros Hc. unfold refresh_chunk. rewrite (bind_ret _ _ _ _ _ (context_appending s sid c r d q)).
  cbn [chunk set_durable set_append]. by rewrite Hc.
Qed.
Lemma enqueue_appending task s sid c r d w run :
  (length w < kDefaultDiskWriterQueueCapacity)%nat →
  enqueue task (appending s sid c r d (TaskQueue.mk w run false)) =
  (Ret true, appending s sid c r d (TaskQueue.mk (w ++ [task]) run false)).
Proof.
  intros Hw. unfold enqueue. cbn. unfold TaskQueue.enqueue. cbn [TaskQueue.closed TaskQueue.waiting orb].
  rewrite bool_decide_eq_false_2 by lia. done.
Qed.

(** *** How far the file is durable *)

(** [L] bytes are in the file; the writer has at most one fsync, and
    [fsync_completed] is the target of the last one that ended. *)
Definition tracked (sid fid : Z) (p : path) (L : Z) (d : AppendDurable.t) (q : TaskQueue.t Task) : Prop :=
  d.(AppendDurable.durable_file_id) = fid ∧ d.(AppendDurable.durable_path) = Some p ∧
  d.(AppendDurable.fsync_failed) = false ∧ d.(AppendDurable.durable_target) = L ∧
  0 ≤ d.(AppendDurable.durable_offset) ∧
  let active := d.(AppendDurable.fsync_active_target) in
  (d.(AppendDurable.fsync_queued) = false ∧ q = TaskQueue.empty ∧
     d.(AppendDurable.durable_offset) = L ∧ d.(AppendDurable.fsync_completed) = L) ∨
  (d.(AppendDurable.fsync_queued) = true ∧ d.(AppendDurable.durable_offset) < active ≤ L ∧
   ((q = TaskQueue.mk [FsyncTask p active sid] None false ∨ q = TaskQueue.mk [] (Some (FsyncTask p active sid)) false) ∧
      d.(AppendDurable.fsync_completed) = d.(AppendDurable.durable_offset) ∨
    q = TaskQueue.empty ∧ d.(AppendDurable.fsync_completed) = active)).

(** [maybe_enqueue_append_fsync] when the file has grown, or a poll found that
    it had. *)
Lemma maybe_enqueue_grown s sid c r d q p L :
  d.(AppendDurable.durable_path) = Some p → d.(AppendDurable.durable_offset) < L →
  d.(AppendDurable.durable_target) ≤ L → (d.(AppendDurable.fsync_queued) = false → q = TaskQueue.empty) →
  ∃ d' q', maybe_enqueue_append_fsync sid L (appending s sid c r d q) = (Ret tt, appending s sid c r d' q') ∧
    d' = (if d.(AppendDurable.fsync_queued) then AppendDurable.set_target L d
          else AppendDurable.set_active true L (AppendDurable.set_failed false "" (AppendDurable.set_target L d))) ∧
    q' = (if d.(AppendDurable.fsync_queued) then q else TaskQueue.mk [FsyncTask p L sid] None false).
Proof.
  intros Hp Hlt Htarget Hq. do 2 eexists. split; [|split; reflexivity]. unfold maybe_enqueue_append_fsync.
  rewrite (bind_ret _ _ _ _ _ (context_appending s sid c r d q)). cbn [durable set_durable].
  destruct (Z.leb_spec L d.(AppendDurable.durable_offset)); [lia|].
  rewrite Z.max_r by done. rewrite (bind_ret _ _ _ _ _ (update_durable_appending _ s sid c r d q)).
  rewrite Z.max_r by done. destruct (AppendDurable.fsync_queued d); [done|]. rewrite Hp. cbv zeta.
  rewrite (bind_ret _ _ _ _ _ (update_durable_appending _ s sid c r _ q)). rewrite (Hq eq_refl).
  rewrite (bind_ret _ _ _ _ _ (enqueue_appending _ s sid c r _ [] None ltac:(unfold kDefaultDiskWriterQueueCapacity; cbn; lia))).
  by rewrite update_durable_appending.
Qed.

Lemma tracked_grown sid fid p L L' d q :
  tracked sid fid p L d q → L < L' →
  tracked sid fid p L'
    (if d.(AppendDurable.fsync_queued) then AppendDurable.set_target L' d
     else AppendDurable.set_active true L' (AppendDurable.set_failed false "" (AppendDurable.set_target L' d)))
    (if d.(AppendDurable.fsync_queued) then q else TaskQueue.mk [FsyncTask p L' sid] None false).
Proof.
  intros (H1 & H2 & H3 & H4 & H5 & [(Hq & -> & H6 & H7)|(Hq & H6 & H7)]) HL; rewrite Hq.
  - split_and!; try done. right. cbn. split_and!; [done|lia..|]. left. split; [by left|congruence].
  - split_and!; try done. right. cbn. split_and!; [done|lia..|done].
Qed.

(** *** Pieces, polls and the writer, in any order *)
Inductive move :=
  | Piece (line : Z) (piece : Bytes)
  | Meanwhile (e : event).

(** What may happen between two pieces. *)
Definition background (e : event) : Prop := e = OnPoll ∨ e = WriterStart ∨ e = WriterFinish.

Fixpoint events (sid seq fid final offset : Z) (moves : list move) : list event :=
  match moves with
  | [] => []
  | Piece line piece :: moves =>
      OnData line (data_message sid seq fid final offset piece) ::
      events sid seq fid final (offset + zlen piece) moves
  | Meanwhile e :: moves => e :: events sid seq fid final offset moves
  end.

Definition pieces (moves : list move) : Bytes :=
  moves ≫= λ m, match m with Piece _ piece => piece | Meanwhile _ => [] end.

Definition proper (m : move) : Prop :=
  match m with Piece line piece => line ≠ 0 ∧ piece ≠ [] | Meanwhile e => background e end.

(** The fsync that ends with this event: its target. *)
Definition synced (e : event) (s : t) : list Z :=
  match e, s.(disk_writer_).(TaskQueue.running) with
  | WriterFinish, Some (FsyncTask p target _) =>
      match (fsync_file_for_durable_offset p (CommitFacts.the_disk s)).1 with Ret _ => [target] | Throw _ => [] end
  | _, _ => []
  end.

(** No event is refused or fails, and a heartbeat reports as durable only what
    an fsync that has ended ([ended]) was asked for. *)
Fixpoint honest (es : list event) (s : t) (ended : list Z) : Prop :=
  match es with
  | [] => True
  | e :: es =>
      (∃ a, (handle e s).1 = Ret a ∧ a.(T_ReceiverActionBatch.nacks) = [] ∧ a.(T_ReceiverActionBatch.failed) = false ∧
         Forall (λ h, h.(T_ReceiverHeartbeatAction.heartbeat).(T_Heartbeat.durable_offset) ∈ ended)
           a.(T_ReceiverActionBatch.heartbeats)) ∧
      honest es (handle e s).2 (synced e s ++ ended)
  end.

(** A heartbeat of the run reports [offset]. *)
Definition reports (rs : list (exc T_ReceiverActionBatch.t)) (offset : Z) : Prop :=
  ∃ a h, Ret a ∈ rs ∧ h ∈ a.(T_ReceiverActionBatch.heartbeats) ∧
    h.(T_ReceiverHeartbeatAction.heartbeat).(T_Heartbeat.durable_offset) = offset.

(** The coordinator in the middle of the file [p]. *)
Record within (sid fid seq final : Z) (p : path) (content : Bytes) (ended : list Z)
    (c : T_ReceiverStreamContext.t) (r : T_ReceiverStream.t) (d : AppendDurable.t) (q : TaskQueue.t Task) : Prop := {
  at_p : at_file r p content;
  of_sid : r.(T_ReceiverStream.stream_id_) = sid;
  of_fid : r.(T_ReceiverStream.state_).(T_ReceiverStreamState.current_file_id) = fid;
  of_seq : receiving seq final r;
  plain_context : c.(chunk) = None ∧ c.(chunk_commit) = ChunkCommit.none;
  on_line : content ≠ [] → d.(AppendDurable.heartbeat_line_id) ≠ 0;
  on_disk_so_far : tracked sid fid p (zlen content) d q;
  offset_ended : d.(AppendDurable.durable_offset) ∈ ended ∧ d.(AppendDurable.fsync_completed) ∈ ended
}.

(** How a background event moves the writer towards rest: [L] bytes are there. *)
Definition progress (e : event) (L : Z) (d : AppendDurable.t) (q : TaskQueue.t Task)
    (d' : AppendDurable.t) (q' : TaskQueue.t Task) : Prop :=
  let caught_up (d : AppendDurable.t) :=
    d.(AppendDurable.fsync_queued) = false ∨ d.(AppendDurable.fsync_active_target) = L in
  match e with
  | WriterStart => d' = d ∧ q'.(TaskQueue.waiting) = []
  | WriterFinish => q.(TaskQueue.waiting) = [] → q' = TaskQueue.empty ∧ (caught_up d → caught_up d')
  | OnPoll => q = TaskQueue.empty → caught_up d' ∧ (caught_up d → d'.(AppendDurable.fsync_queued) = false)
  | _ => True
  end.

(** One event: its batch, the state after it, and what it says is durable. *)
Definition event_ok (sid fid seq final : Z) (p : path) (content : Bytes) (ended : list Z) (s : t)
    (c : T_ReceiverStreamContext.t) (r : T_ReceiverStream.t) (d : AppendDurable.t) (q : TaskQueue.t Task)
    (e : event) (content' : Bytes) : Prop :=
  ∃ a r' d' q', handle e (appending s sid c r d q) = (Ret a, appending s sid c r' d' q') ∧
    within sid fid seq final p content' (synced e (appending s sid c r d q) ++ ended) c r' d' q' ∧
    a.(T_ReceiverActionBatch.nacks) = [] ∧ a.(T_ReceiverActionBatch.failed) = false ∧
    Forall (λ h, h.(T_ReceiverHeartbeatAction.heartbeat).(T_Heartbeat.durable_offset) ∈ ended)
      a.(T_ReceiverActionBatch.heartbeats) ∧
    (d'.(AppendDurable.durable_offset) = d.(AppendDurable.durable_offset) ∨
     reports [Ret a] d'.(AppendDurable.durable_offset)) ∧
    progress e (zlen content') d q d' q'.

Lemma piece_event sid fid seq final p content ended s c r d q line piece :
  within sid fid seq final p content ended c r d q →
  line ≠ 0 → piece ≠ [] → 0 ≤ seq → seq + 1 < 18446744073709551616 →
  zlen content + zlen piece ≤ final < 9223372036854775808 →
  event_ok sid fid seq final p content ended s c r d q
    (OnData line (data_message sid seq fid final (zlen content) piece)) (content ++ piece).
Proof.
  intros [Hat Hsid Hfid Hrec Hc Hl Hd Ho] Hline Hne Hs0 Hs1 Hlen.
  destruct (apply_piece seq final r p content piece Hat Hrec Hs0 Hs1 Hne Hlen)
    as (r' & Hr & Hat' & Hrec' & Hid' & Hfid' & _). rewrite Hsid, Hfid in Hr.
  assert (zlen content < zlen (content ++ piece)) as Hgrow.
  { rewrite zlen_app. destruct piece; [done|]. rewrite zlen_cons. pose proof (zlen_nonneg piece). lia. }
  pose proof Hd as (Hd1 & Hd2 & Hd3 & Hd4 & Hd5 & Hd6).
  pose proof Hat' as (_ & _ & Hpath & _ & _ & Hoff & _).
  set (d1 := AppendDurable.set_path (Some p) (AppendDurable.set_line line d)).
  destruct (maybe_enqueue_grown s sid c r' d1 q p (zlen (content ++ piece)) eq_refl) as (d2 & q2 & Hm & Ed & Eq).
  { cbn. destruct Hd6 as [(_ & _ & -> & _)|(_ & ? & _)]; lia. }
  { cbn. lia. }
  { cbn. intros E. destruct Hd6 as [(_ & -> & _)|(E' & _)]; [done|congruence]. }
  do 4 eexists. split.
  { cbn [handle]. unfold apply_data. change (T_Data.stream_id _) with sid. cbv zeta.
    rewrite (bind_ret _ _ _ _ _ (append_receiver_for_appending s sid c r d q)).
    rewrite (bind_ret _ _ _ _ _ (on_append_appending _ s sid c r d q _ _ Hr)).
    rewrite (bind_ret _ _ _ _ _ (context_for_appending s sid c r' d q)).
    rewrite (bind_ret _ _ _ _ _ (update_durable_appending _ s sid c r' d q)).
    rewrite (bind_ret _ _ _ _ _ (append_receiver_appending _ s sid c r' _ q)).
    unfold reset_append_durable_context.
    rewrite (bind_ret _ _ _ _ _ (update_durable_appending _ s sid c r' _ q)).
    change (T_Data.file_id _) with fid. cbn [AppendDurable.durable_file_id AppendDurable.set_line].
    rewrite Hd1, Z.eqb_refl, Hpath. fold d1.
    rewrite (bind_ret _ _ _ _ _ (append_receiver_appending _ s sid c r' d1 q)).
    unfold current_offset. rewrite Hoff, (bind_ret _ _ _ _ _ Hm).
    rewrite (bind_ret get _ _ _ _ eq_refl).
    rewrite (bind_ret _ _ _ _ _ (context_appending s sid c r' d2 q2)).
    rewrite (bind_ret _ _ _ _ _ (append_receiver_appending _ s sid c r' d2 q2)).
    rewrite (bind_ret _ _ _ _ _ (refresh_chunk_appending s sid c r' d2 q2 (proj1 Hc))). reflexivity. }
  assert (Ho2 : d2.(AppendDurable.durable_offset) = d.(AppendDurable.durable_offset)) by (rewrite Ed; by destruct (AppendDurable.fsync_queued d1)).
  assert (Hf2 : d2.(AppendDurable.fsync_completed) = d.(AppendDurable.fsync_completed)) by (rewrite Ed; by destruct (AppendDurable.fsync_queued d1)).
  split_and!; [|done|done| |by left|done].
  - split; try done; try congruence.
    + intros _. rewrite Ed. by destruct (AppendDurable.fsync_queued d1).
    + rewrite Ed, Eq. apply (tracked_grown sid fid p (zlen content)); [|done].
      destruct d. unfold tracked in *. cbn in *. done.
    + by rewrite Ho2, Hf2.
  - constructor; [|done]. cbn. rewrite Ho2. apply Ho.
Qed.

(** An event with nothing to say. *)
Lemma event_quiet sid fid seq final p content ended s c r d q e d' q' :
  handle e (appending s sid c r d q) = (Ret T_ReceiverActionBatch.empty, appending s sid c r d' q') →
  within sid fid seq final p content (synced e (appending s sid c r d q) ++ ended) c r d' q' →
  d'.(AppendDurable.durable_offset) = d.(AppendDurable.durable_offset) → progress e (zlen content) d q d' q' →
  event_ok sid fid seq final p content ended s c r d q e content.
Proof.
  intros He Hw Hd Hp. exists T_ReceiverActionBatch.empty, r, d', q'.
  split; [done|]. split; [done|]. split; [done|]. split; [done|]. split; [by apply Forall_nil_2|]. by split; [left|].
Qed.

(** Nothing changes. *)
Lemma event_same sid fid seq final p content ended s c r d q e :
  within sid fid seq final p content ended c r d q →
  handle e (appending s sid c r d q) = (Ret T_ReceiverActionBatch.empty, appending s sid c r d q) →
  synced e (appending s sid c r d q) = [] → progress e (zlen content) d q d q →
  event_ok sid fid seq final p content ended s c r d q e content.
Proof.
  intros Hw He Hsync Hp. apply (event_quiet sid fid seq final p content ended s c r d q e d q He); [by rewrite Hsync|done|done].
Qed.

(** A poll of the one stream is a poll of its fsync. *)
Lemma poll_appending s sid c r d q a d' q' :
  c.(chunk_commit) = ChunkCommit.none → a.(T_ReceiverActionBatch.failed) = false →
  poll_append_fsync sid T_ReceiverActionBatch.empty (appending s sid c r d q) = (Ret a, appending s sid c r d' q') →
  handle OnPoll (appending s sid c r d q) = (Ret a, appending s sid c r d' q').
Proof.
  intros Hc Ha Hp. cbn [handle]. unfold poll_completions. rewrite (bind_ret get _ _ _ _ eq_refl).
  assert (iteration (T_ReceiverStreamMap.streams_ (streams_ (appending s sid c r d q))) =
    [(sid, set_durable d (set_append (Some (put_away r)) c))]) as ->.
  { apply Permutation_singleton_r. rewrite iteration_perm. cbn. by rewrite map_to_list_singleton. }
  cbn [fmap list_fmap fst poll_streams]. rewrite (bind_ret _ _ _ _ _ Hp), Ha.
  rewrite (bind_ret (poll_chunk_commit sid a) _ _ a (appending s sid c r d' q')); [by rewrite Ha|].
  unfold poll_chunk_commit. rewrite (bind_ret _ _ _ _ _ (context_appending s sid c r d' q')).
  cbn [chunk_commit set_durable set_append]. by rewrite Hc.
Qed.

Lemma poll_event sid fid seq final p content ended s c r d q :
  within sid fid seq final p content ended c r d q →
  event_ok sid fid seq final p content ended s c r d q OnPoll content.
Proof.
  intros Hw. pose proof Hw as [Hat Hsid Hfid Hrec Hc Hl Hd Ho].
  destruct Hd as (Hd1 & Hd2 & Hd3 & Hd4 & Hd5 & [(Hq & -> & H6 & H7)|(Hq & H6 & [[Hqq H7]|[-> H7]])]).
  - apply event_same; [done| |done|by intros _; split; [left|]]. apply poll_appending; [apply Hc|done|].
    unfold poll_append_fsync. rewrite (bind_ret _ _ _ _ _ (context_appending s sid c r d _)).
    cbn [durable set_durable]. rewrite Hd3, H6, H7, Z.gtb_ltb, Z.ltb_irrefl, Hq. cbn [andb].
    rewrite !(bind_ret (mret _) _ _ _ _ eq_refl), (bind_ret _ _ _ _ _ (context_appending s sid c r d _)).
    cbn [durable set_durable]. by rewrite Hq, Hd4, H6, Z.gtb_ltb, Z.ltb_irrefl.
  - apply event_same; [done| |done|by destruct Hqq as [-> | ->]]. apply poll_appending; [apply Hc|done|].
    unfold poll_append_fsync. rewrite (bind_ret _ _ _ _ _ (context_appending s sid c r d _)).
    cbn [durable set_durable]. rewrite Hd3, H7, Z.gtb_ltb, Z.ltb_irrefl, Hq. cbn [andb].
    destruct (Z.geb_spec d.(AppendDurable.durable_offset) d.(AppendDurable.fsync_active_target)); [lia|].
    rewrite !(bind_ret (mret _) _ _ _ _ eq_refl), (bind_ret _ _ _ _ _ (context_appending s sid c r d _)).
    cbn [durable set_durable]. by rewrite Hq.
  - set (n := d.(AppendDurable.fsync_active_target)) in *.
    set (d1 := AppendDurable.set_active false 0 (AppendDurable.set_offset n d)).
    assert (Hne : d.(AppendDurable.heartbeat_line_id) ≠ 0).
    { apply Hl. intros ->. rewrite zlen_nil in H6. lia. }
    set (hb := T_ReceiverHeartbeatAction.mk d.(AppendDurable.heartbeat_line_id)
                 (T_ReceiverStream.heartbeat s.(recv_window_bytes_) n (put_away r)) false false).
    set (a := T_ReceiverActionBatch.push_heartbeat hb T_ReceiverActionBatch.empty).
    assert (Hp : ∃ d' q', handle OnPoll (appending s sid c r d TaskQueue.empty) = (Ret a, appending s sid c r d' q') ∧
      (n = zlen content ∧ d' = d1 ∧ q' = TaskQueue.empty ∨
       n < zlen content ∧ q' = TaskQueue.mk [FsyncTask p (zlen content) sid] None false ∧
       d' = AppendDurable.set_active true (zlen content) (AppendDurable.set_failed false "" (AppendDurable.set_target (zlen content) d1)))).
    { assert (Hmore : ∀ d' q', (if d1.(AppendDurable.durable_target) >? n then
          maybe_enqueue_append_fsync sid d1.(AppendDurable.durable_target) else mret tt) (appending s sid c r d1 TaskQueue.empty) =
          (Ret tt, appending s sid c r d' q') →
        handle OnPoll (appending s sid c r d TaskQueue.empty) = (Ret a, appending s sid c r d' q')).
      { intros d' q' Hm. apply poll_appending; [apply Hc|done|].
        unfold poll_append_fsync. rewrite (bind_ret _ _ _ _ _ (context_appending s sid c r d _)).
        cbn [durable set_durable append set_append]. rewrite Hd3, H7. destruct (Z.gtb_spec n d.(AppendDurable.durable_offset)); [|lia].
        rewrite (bind_ret _ _ _ a (appending s sid c r (AppendDurable.set_offset n d) TaskQueue.empty)).
        2:{ rewrite (bind_ret _ _ _ _ _ (update_durable_appending _ s sid c r d _)).
            rewrite (proj2 (Z.eqb_neq _ _) Hne), (bind_ret get _ _ _ _ eq_refl). done. }
        rewrite Hq. fold n. rewrite (proj2 (Z.geb_le n n)) by lia. cbn [andb].
        rewrite (bind_ret _ _ _ _ _ (update_durable_appending _ s sid c r _ _)). fold d1.
        rewrite (bind_ret _ _ _ _ _ (context_appending s sid c r d1 _)). cbn [durable set_durable].
        change (AppendDurable.fsync_queued d1) with false. change (AppendDurable.durable_offset d1) with n. cbn [negb andb].
        by rewrite (bind_ret _ _ _ _ _ Hm). }
      change (AppendDurable.durable_target d1) with (AppendDurable.durable_target d) in Hmore. rewrite Hd4 in Hmore.
      destruct (Z.gtb_spec (zlen content) n) as [Hlt|Hge].
      - destruct (maybe_enqueue_grown s sid c r d1 TaskQueue.empty p (zlen content)) as (d' & q' & Hm & Ed & Eq);
          [done|done|by change (AppendDurable.durable_target d ≤ zlen content); lia|done|].
        exists d', q'. split; [by apply Hmore|]. right. by subst d' q'.
      - exists d1, TaskQueue.empty. split; [by apply Hmore|]. left. split_and!; [lia|done..]. }
    destruct Hp as (d' & q' & Hp & Hcase).
    assert (Hoff : d'.(AppendDurable.durable_offset) = n ∧ d'.(AppendDurable.fsync_completed) = n)
      by (destruct Hcase as [(_ & -> & _)|(_ & _ & ->)]; done).
    exists a, r, d', q'. split; [done|]. split; [|split; [done|]; split; [done|]; split; [|split]].
    + split; try done.
      * destruct Hcase as [(_ & -> & _)|(_ & _ & ->)]; done.
      * destruct Hcase as [(HL & -> & ->)|(HL & -> & ->)]; split_and!; try done; [lia|left|cbn; lia|right].
        -- split_and!; [done|done|cbn; lia|cbn; lia].
        -- cbn. split_and!; [done|lia|lia|]. left. split; [by left|done].
      * cbn [synced]. rewrite (proj1 Hoff), (proj2 Hoff). cbn. rewrite <- H7. by split; apply Ho.
    + constructor; [|done]. cbn. rewrite <- H7. apply Ho.
    + right. exists a, hb. split_and!; [by left|by left|]. by rewrite (proj1 Hoff).
    + intros _. destruct Hcase as [(HL & -> & _)|(HL & _ & ->)]; [by split; [left|]|]. split; [by right|].
      fold n. rewrite Hq. intros [?|?]; [done|lia].
Qed.

Lemma start_event sid fid seq final p content ended s c r d q :
  within sid fid seq final p content ended c r d q →
  event_ok sid fid seq final p content ended s c r d q WriterStart content.
Proof.
  intros Hw. apply (event_quiet sid fid seq final p content ended s c r d q WriterStart d (TaskQueue.start q)); [done| |done|].
  2:{ split; [done|]. destruct Hw as [_ _ _ _ _ _ (_ & _ & _ & _ & _ & [(_ & -> & _)|(_ & _ & [[[-> | ->] _]|[-> _]])]) _]; done. }
  destruct Hw as [Hat Hsid Hfid Hrec Hc Hl Hd Ho]. split; try done.
  destruct Hd as (Hd1 & Hd2 & Hd3 & Hd4 & Hd5 & [(Hq & -> & H6 & H7)|(Hq & H6 & [[Hqq H7]|[-> H7]])]).
  - split_and!; try done. by left.
  - split_and!; try done. right. split_and!; try done; [lia..|]. left. split; [|done]. right. by destruct Hqq as [-> | ->].
  - split_and!; try done. right. split_and!; try done; [lia..|]. by right.
Qed.

Lemma fsync_plain w p content :
  plain_file w p content → w.(faults) = [] → fsync_file_for_durable_offset p w = (Ret tt, w).
Proof.
  intros Hp Hf. destruct (plain_file_resolve w p content Hp) as [Hr Hn].
  unfold fsync_file_for_durable_offset.
  rewrite (bind_ret _ _ w (Ok tt) w).
  2:{ unfold with_ec, open_rdonly. by rewrite (syscall_ok _ w tt) by (done || unfold status; by rewrite Hr, Hn). }
  unfold or_throw, fsync_fd. by rewrite (syscall_ok _ w tt).
Qed.

Lemma finish_event sid fid seq final p content ended s c r d q :
  within sid fid seq final p content ended c r d q →
  event_ok sid fid seq final p content ended s c r d q WriterFinish content.
Proof.
  intros Hw. pose proof Hw as [Hat Hsid Hfid Hrec Hc Hl Hd Ho].
  pose proof Hd as (Hd1 & Hd2 & Hd3 & Hd4 & Hd5 & Hd6).
  destruct Hd6 as [(_ & -> & _)|(Hq & H6 & [[[-> | ->] H7]|[-> H7]])];
    [by apply event_same|by apply event_same| |by apply event_same].
  set (n := d.(AppendDurable.fsync_active_target)) in *.
  destruct Hat as (Hact & Hkind & Hpath & Hplain & Hf & Hrest).
  pose proof (fsync_plain _ _ _ Hplain Hf) as Hsync.
  set (q0 := TaskQueue.mk [] (Some (FsyncTask p n sid)) false) in *.
  set (d1 := AppendDurable.set_completed n d).
  apply (event_quiet sid fid seq final p content ended s c r d q0 WriterFinish d1 TaskQueue.empty).
  { cbn [handle]. rewrite (bind_ret writer_finish _ _ tt (appending s sid c r d1 TaskQueue.empty)); [done|].
    unfold writer_finish. rewrite (bind_ret get _ _ _ _ eq_refl).
    change (TaskQueue.running (disk_writer_ (appending s sid c r d q0))) with (Some (FsyncTask p n sid)). cbv match.
    rewrite (bind_ret (try_catch _ _) _ _ tt (appending s sid c r d1 q0)); [done|].
    unfold try_catch, run_task, try_catch.
    rewrite (bind_ret (on_disk _) _ _ tt (appending s sid c r d q0)).
    2:{ unfold on_disk, on, on_world, the_world. cbn [part has_streams streams_ appending set_writer set_streams
          T_ReceiverStreamMap.has_world T_ReceiverStreamMap.world]. by rewrite Hsync. }
    by rewrite update_durable_appending. }
  2,3: done.
  assert (synced WriterFinish (appending s sid c r d q0) = [n]) as ->.
  { cbn [synced]. change (TaskQueue.running _) with (Some (FsyncTask p n sid)). cbv match.
    change (CommitFacts.the_disk _) with (r.(T_ReceiverStream.world)). by rewrite Hsync. }
  split; try done.
  - split_and!; try done. right. split; [done|]. split; [done|]. by right.
  - cbn. split; [right; apply Ho|left].
Qed.

(** *** A whole run *)
Lemma moves_run sid fid seq final p moves s c r d q content ended :
  within sid fid seq final p content ended c r d q → 0 ≤ seq → seq + 1 < 18446744073709551616 →
  Forall proper moves → zlen content + zlen (pieces moves) ≤ final < 9223372036854775808 →
  let es := events sid seq fid final (zlen content) moves in
  honest es (appending s sid c r d q) ended ∧
  ∃ rs ended' r' d' q', run es (appending s sid c r d q) = (rs, appending s sid c r' d' q') ∧
    within sid fid seq final p (content ++ pieces moves) ended' c r' d' q' ∧
    (d'.(AppendDurable.durable_offset) = d.(AppendDurable.durable_offset) ∨ reports rs d'.(AppendDurable.durable_offset)).
Proof.
  intros Hw Hs0 Hs1 Hm. revert r d q content ended Hw.
  induction Hm as [|m moves Hp Hm IH]; intros r d q content ended Hw Hlen es.
  { subst es. cbn. split; [done|]. exists [], ended, r, d, q. rewrite app_nil_r. split_and!; [done|done|by left]. }
  assert (∃ e content', es = e :: events sid seq fid final (zlen content') moves ∧
    content ++ pieces (m :: moves) = content' ++ pieces moves ∧
    event_ok sid fid seq final p content ended s c r d q e content') as (e & content' & Ees & Econt & He).
  { destruct m as [line piece|e]; cbn in Hp.
    - destruct Hp as [Hline Hne]. exists (OnData line (data_message sid seq fid final (zlen content) piece)), (content ++ piece).
      split_and!; [by rewrite zlen_app|unfold pieces; cbn; by rewrite app_assoc|].
      apply piece_event; try done. change (pieces (Piece line piece :: moves)) with (piece ++ pieces moves) in Hlen.
      rewrite zlen_app in Hlen. pose proof (zlen_nonneg (pieces moves)). lia.
    - exists e, content. split_and!; [done|done|].
      destruct Hp as [-> | [-> | ->]]; [by apply poll_event|by apply start_event|by apply finish_event]. }
  destruct He as (a & r' & d' & q' & Hrun & Hw' & Hn & Hf & Hh & Hrep & _).
  assert (Hlen' : zlen content' + zlen (pieces moves) ≤ final < 9223372036854775808).
  { rewrite <- zlen_app, <- Econt, zlen_app. done. }
  destruct (IH r' d' q' content' _ Hw' Hlen') as (Hhon & rs & ended' & r2 & d2 & q2 & Hrun2 & Hw2 & Hrep2).
  rewrite Ees, Econt. cbn [honest run]. rewrite Hrun. cbn [fst snd]. split.
  - split; [by exists a|]. done.
  - rewrite Hrun2. exists (Ret a :: rs), ended', r2, d2, q2. split_and!; [done|done|].
    destruct Hrep2 as [->|(a2 & h2 & H1 & H2 & H3)]; [|right; exists a2, h2; split_and!; [by right|done|done]].
    destruct Hrep as [->|(a1 & h1 & H1 & H2 & H3)]; [by left|right]. apply list_elem_of_singleton in H1 as [= ->].
    exists a, h1. split_and!; [by left|done|done].
Qed.

(** *** The beginning and the end *)
Lemma create_event line create s sid c r d r1 p :
  T_ReceiverStream.apply_create create r = (Ret None, r1) → at_file r1 p [] →
  receiving create.(T_Create.seq) create.(T_Create.final_size) r1 →
  r1.(T_ReceiverStream.stream_id_) = sid → create.(T_Create.stream_id) = sid →
  r1.(T_ReceiverStream.state_).(T_ReceiverStreamState.current_file_id) = create.(T_Create.file_id) →
  c.(chunk) = None → c.(chunk_commit) = ChunkCommit.none →
  d.(AppendDurable.durable_file_id) ≠ create.(T_Create.file_id) →
  ∃ a d1, handle (OnCreate line create) (appending s sid c r d TaskQueue.empty) =
      (Ret a, appending s sid c r1 d1 TaskQueue.empty) ∧
    within sid create.(T_Create.file_id) create.(T_Create.seq) create.(T_Create.final_size) p [] [0] c r1 d1 TaskQueue.empty ∧
    a.(T_ReceiverActionBatch.nacks) = [] ∧ a.(T_ReceiverActionBatch.failed) = false ∧
    Forall (λ h, h.(T_ReceiverHeartbeatAction.heartbeat).(T_Heartbeat.durable_offset) ∈ [0])
      a.(T_ReceiverActionBatch.heartbeats).
Proof.
  intros Hr Hat Hrec Hsid Hid Hfid Hchunk Hcom Hnew. pose proof Hat as (_ & _ & Hpath & _ & _ & Hoff & _).
  set (d1 := AppendDurable.mk create.(T_Create.file_id) (Some p) 0 0 0 d.(AppendDurable.heartbeat_line_id) false 0 false "").
  do 2 eexists. split.
  { cbn [handle]. unfold apply_create. rewrite Hid. cbv zeta.
    rewrite (bind_ret _ _ _ _ _ (append_receiver_for_appending s sid c r d _)).
    rewrite (bind_ret _ _ _ _ _ (on_append_appending _ s sid c r d _ _ _ Hr)).
    rewrite (bind_ret _ _ _ _ _ (context_for_appending s sid c r1 d _)).
    rewrite (bind_ret _ _ _ _ _ (append_receiver_appending _ s sid c r1 d _)), Hpath.
    unfold reset_append_durable_context.
    rewrite (bind_ret _ _ _ _ _ (update_durable_appending _ s sid c r1 d _)).
    rewrite (proj2 (Z.eqb_neq _ _) Hnew). fold d1.
    rewrite (bind_ret _ _ _ _ _ (refresh_chunk_appending s sid c r1 d1 _ Hchunk)).
    rewrite (bind_ret get _ _ _ _ eq_refl).
    rewrite (bind_ret _ _ _ _ _ (append_receiver_appending _ s sid c r1 d1 _)). reflexivity. }
  split; [|split; [done|]; split; [done|]].
  - split; try done.
    + split_and!; try done. by left.
    + split; by left.
  - constructor; [|done]. cbn. unfold current_offset. rewrite Hoff. by left.
Qed.

(** The writer's thread and the poll, until nothing is left to do: twice, since
    the file may have grown under an fsync. *)
Definition settle : list event := [WriterStart; WriterFinish; OnPoll; WriterStart; WriterFinish; OnPoll].

Lemma settle_proper : Forall proper (Meanwhile <$> settle).
Proof. repeat constructor; cbn; unfold background; tauto. Qed.

Lemma events_settle sid seq fid final moves es offset :
  events sid seq fid final offset (moves ++ (Meanwhile <$> es)) = events sid seq fid final offset moves ++ es.
Proof.
  revert offset. induction moves as [|[line piece|e] moves IH]; intros offset; cbn; rewrite ?IH; try done.
  induction es as [|e es IHes]; cbn; congruence.
Qed.
Lemma pieces_settle moves es : pieces (moves ++ (Meanwhile <$> es)) = pieces moves.
Proof.
  unfold pieces. rewrite bind_app. rewrite <- (app_nil_r (moves ≫= _)) at 2. f_equal. by induction es.
Qed.

(** One round. *)
Lemma round sid fid seq final p content ended s c r d q :
  within sid fid seq final p content ended c r d q →
  ∃ ended' r' d' q', (run [WriterStart; WriterFinish; OnPoll] (appending s sid c r d q)).2 = appending s sid c r' d' q' ∧
    within sid fid seq final p content ended' c r' d' q' ∧
    let caught_up (d : AppendDurable.t) :=
      d.(AppendDurable.fsync_queued) = false ∨ d.(AppendDurable.fsync_active_target) = zlen content in
    caught_up d' ∧ (caught_up d → d'.(AppendDurable.fsync_queued) = false).
Proof.
  intros Hw.
  destruct (start_event _ _ _ _ _ _ _ s _ _ _ _ Hw) as (a1 & r1 & d1 & q1 & E1 & Hw1 & _ & _ & _ & _ & -> & P1).
  destruct (finish_event _ _ _ _ _ _ _ s _ _ _ _ Hw1) as (a2 & r2 & d2 & q2 & E2 & Hw2 & _ & _ & _ & _ & P2).
  destruct (P2 P1) as [-> Hd2].
  destruct (poll_event _ _ _ _ _ _ _ s _ _ _ _ Hw2) as (a3 & r3 & d3 & q3 & E3 & Hw3 & _ & _ & _ & _ & P3).
  destruct (P3 eq_refl) as [Hd3 Hrest].
  do 4 eexists. split; [|split; [exact Hw3|]].
  - cbn [run]. by rewrite E1, E2, E3.
  - split; [done|]. intros Hd. by apply Hrest, Hd2.
Qed.

Lemma settled sid fid seq final p content ended s c r d q :
  within sid fid seq final p content ended c r d q →
  ∃ r' d', (run settle (appending s sid c r d q)).2 = appending s sid c r' d' TaskQueue.empty ∧
    d'.(AppendDurable.fsync_queued) = false ∧ d'.(AppendDurable.durable_offset) = zlen content ∧
    d'.(AppendDurable.durable_target) = zlen content.
Proof.
  intros Hw. destruct (round _ _ _ _ _ _ _ s _ _ _ _ Hw) as (ended1 & r1 & d1 & q1 & E1 & Hw1 & Hd1 & _).
  destruct (round _ _ _ _ _ _ _ s _ _ _ _ Hw1) as (ended2 & r2 & d2 & q2 & E2 & Hw2 & _ & Hd2).
  specialize (Hd2 Hd1). destruct Hw2 as [_ _ _ _ _ _ (_ & _ & _ & Ht & _ & [(_ & -> & Ho & _)|(Hq & _)]) _]; [|congruence].
  exists r2, d2. split; [|done].
  change settle with ([WriterStart; WriterFinish; OnPoll] ++ [WriterStart; WriterFinish; OnPoll]). rewrite run_app.
  destruct (run _ (appending s sid c r d q)) as [rs1 s1]. cbn in E1. subst s1.
  by destruct (run _ (appending s sid c r1 d1 q1)).
Qed.

Lemma appending_durable s sid c r d q s' c' r' d' q' :
  appending s sid c r d q = appending s' sid c' r' d' q' → d = d' ∧ q = q'.
Proof.
  intros E. split; [|by apply (f_equal (λ s, s.(disk_writer_))) in E].
  pose proof (context_appending s sid c r d q) as H1. rewrite E, context_appending in H1.
  by apply (f_equal (λ r, match r with (Ret c, _) => durable c | _ => d end)) in H1.
Qed.
End transfer.
End AppendedFile.

(** ** An appended file, from CREATE to the end *)
Module AppendedTransfer.
Import T_ReceiverStreamContext T_ReceiverCoordinator CoordinatorRun AppendedFile.
Import AppendFacts AppendTransfer CreateFacts.

Section transfer.
Context {CRC : Crc32c} `{!MapIteration Z T_ReceiverStreamContext.t}.

(** A whole appended file through the coordinator and the writer: CREATE, then
    pieces of any sizes on any lines, with polls of the completions and turns of the
    writer's thread between them in any order, and at the end two rounds of the
    writer and the poll.  No message is refused; every heartbeat of the run reports
    as durable either nothing or an offset that an fsync which had already ended was
    asked for; the file is then on disk with the pieces as its content, some
    heartbeat has reported its full size as durable, and nothing is left to write. *)
Theorem append_transfer_confirmed line create s sid c r d ds name moves :
  let p := r.(T_ReceiverStream.root_) ++ ds ++ [name] in
  let data := pieces moves in
  let seq := create.(T_Create.seq) in
  create_expected r create → create.(T_Create.kind) = EM_EntryKind.REGULAR_FILE →
  path_parts create.(T_Create.name) = ds ++ [name] → place r ds name →
  r.(T_ReceiverStream.world).(nodes) !! p = None →
  create.(T_Create.final_size) = zlen data → data ≠ [] → zlen data < 9223372036854775808 →
  0 ≤ seq → seq + 1 < 18446744073709551616 → r.(T_ReceiverStream.stream_id_) = sid →
  c.(chunk) = None → c.(chunk_commit) = ChunkCommit.none →
  d.(AppendDurable.durable_file_id) ≠ create.(T_Create.file_id) →
  Forall proper moves →
  let es := OnCreate line create :: events sid seq create.(T_Create.file_id) (zlen data) 0 moves ++ settle in
  let s0 := appending s sid c r d TaskQueue.empty in
  honest es s0 [0] ∧
  ∃ rs s', run es s0 = (rs, s') ∧ (CommitFacts.the_disk s').(nodes) !! p = Some (File data) ∧
    reports rs (zlen data) ∧ T_ReceiverStreamMap.append_durable_idle s'.(streams_) = true ∧
    s'.(disk_writer_) = TaskQueue.empty.
Proof.
  intros p data seq Hexp Hkind Hparts Hplace Hnone Hfinal Hne Hlen Hs0 Hs1 Hsid Hchunk Hcom Hnew Hmoves es s0.
  destruct (create_starts r create ds name) as (r1 & Hr & Hat & Hrec & Hid1 & Hfid & _);
    [done..| |].
  { rewrite Hfinal. destruct data as [|x l]; [done|]. rewrite zlen_cons. pose proof (zlen_nonneg l). lia. }
  destruct (create_event line create s sid c r d r1 p) as (a & d1 & Hstep & Hw & Hn & Hf & Hh);
    try done; [by rewrite Hid1|by rewrite (proj1 (proj2 Hexp))|].
  fold seq in Hw. rewrite Hfinal in Hw.
  assert (Hes : es = OnCreate line create ::
    events sid seq create.(T_Create.file_id) (zlen data) (zlen (@nil Byte.byte)) (moves ++ (Meanwhile <$> settle))) by (by rewrite events_settle).
  pose proof (zlen_nonneg data) as Hpos.
  assert (Hall : zlen (@nil Byte.byte) + zlen (pieces (moves ++ (Meanwhile <$> settle))) ≤ zlen data < 9223372036854775808)
    by (rewrite pieces_settle, zlen_nil; fold data; lia).
  assert (Hpart : zlen (@nil Byte.byte) + zlen (pieces moves) ≤ zlen data < 9223372036854775808) by (rewrite zlen_nil; fold data; lia).
  destruct (moves_run _ _ _ _ _ _ s c r1 d1 _ _ _ Hw Hs0 Hs1 (proj2 (Forall_app _ _ _) (conj Hmoves settle_proper)) Hall)
    as (Hhonest & rs & ended' & r' & d' & q' & Hrun & Hw' & Hrep).
  rewrite pieces_settle in Hw'. fold data in Hw'. cbn [app] in Hw'.
  destruct (moves_run _ _ _ _ _ _ s c r1 d1 _ _ _ Hw Hs0 Hs1 Hmoves Hpart)
    as (_ & rs2 & ended2 & r2 & d2 & q2 & Hrun2 & Hw2 & _). fold data in Hw2. cbn [app] in Hw2.
  destruct (settled _ _ _ _ _ _ _ s _ _ _ _ Hw2) as (r3 & d3 & Hrun3 & Hidle & Hoff & Htarget).
  assert (appending s sid c r' d' q' = appending s sid c r3 d3 TaskQueue.empty) as Esame.
  { rewrite events_settle, run_app, Hrun2 in Hrun. destruct (run settle _) as [rs3 s3]. cbn in Hrun3. subst s3.
    by apply (f_equal snd) in Hrun. }
  destruct (appending_durable _ _ _ _ _ _ _ _ _ _ _ Esame) as [-> ->].
  rewrite Hes. cbn [honest run]. unfold s0. rewrite Hstep. cbn [fst snd]. split; [split; [by exists a|exact Hhonest]|].
  rewrite Hrun. do 2 eexists. split; [reflexivity|]. split; [|split; [|split; [|done]]].
  - destruct Hw' as [(_ & _ & _ & (d0 & n0 & Ep & _ & _ & Hnode) & _) _ _ _ _ _ _ _]. exact Hnode.
  - rewrite Hoff in Hrep. destruct Hrep as [E|(a' & h & H1 & H2 & H3)]; [exfalso|exists a', h; split; [by right|done]].
    destruct Hw as [_ _ _ _ _ _ (_ & _ & _ & _ & _ & [(_ & _ & E1 & _)|(_ & E1 & _)]) _].
    + rewrite E1, zlen_nil in E. destruct data; [done|]. rewrite zlen_cons in E. pose proof (zlen_nonneg data). lia.
    + rewrite zlen_nil in E1. lia.
  - unfold T_ReceiverStreamMap.append_durable_idle. cbn. rewrite map_to_list_singleton. cbn.
    unfold T_ReceiverStreamMap.busy. cbn. rewrite Hidle, Hoff, Htarget, Hcom, Z.gtb_ltb, Z.ltb_irrefl. done.
Qed.
End transfer.
End AppendedTransfer.

(** * The properties *)
Import T_ReceiverStreamContext T_ReceiverCoordinator CoordinatorRun ChunkedFile.
Import ChunkFacts ChunkTransfer CommitTransfer FileTransfer.

Section properties.
Context {CRC : Crc32c} `{!MapIteration Z T_ReceiverStreamContext.t}.

(** A whole chunked file through the coordinator and the writer: FILE_BEGIN,
    its chunks in any order, on any lines and with any repetitions as long as each
    comes once, FILE_COMMIT, then the writer's thread and a poll.  No message is
    refused, each chunk is acknowledged on the line it came on, and the poll
    confirms the file's size on the line of the commit; the file is then on disk
    with its bytes, every other entry is as it was, and nothing is pending. *)
Theorem chunk_transfer_confirmed data cs s c r begin ds name line chunks :
  let sid := r.(T_ChunkedReceiverStream.stream_id) in
  let seq := begin.(T_FileBegin.seq) in
  let file_id := begin.(T_FileBegin.file_id) in
  0 < cs < 4294967296 → 65536 < zlen data < 4611686018427387904 →
  begin_expected data cs r begin → room r begin ds name → 0 < seq → seq + 1 < 18446744073709551616 →
  c.(append) = None → c.(durable) = AppendDurable.initial → c.(chunk_commit) = ChunkCommit.none →
  s.(disk_writer_) = TaskQueue.empty →
  Forall (λ li, 0 ≤ li.2 < count data cs) chunks → (∀ i, 0 ≤ i < count data cs → i ∈ chunks.*2) →
  ∃ a acks s',
    run (OnBegin line begin :: chunk_events data cs sid seq file_id chunks ++
         [OnCommit line (T_FileCommit.mk sid seq file_id); WriterStart; WriterFinish; OnPoll]) (holding s sid c r) =
      (Ret a :: (Ret <$> acks) ++ [Ret (T_ReceiverActionBatch.commit_poll T_ReceiverActionBatch.empty);
         Ret T_ReceiverActionBatch.empty; Ret T_ReceiverActionBatch.empty;
         Ret (confirmed line sid seq file_id (zlen data) s.(recv_window_bytes_))], s') ∧
    a.(T_ReceiverActionBatch.nacks) = [] ∧
    Forall2 (λ li, acknowledges li.1 sid seq file_id s.(recv_window_bytes_) li.2) chunks acks ∧
    (CommitFacts.the_disk s').(nodes) !! (r.(T_ChunkedReceiverStream.root) ++ ds ++ [name]) = Some (File data) ∧
    (∀ q n, r.(T_ChunkedReceiverStream.world).(nodes) !! q = Some n → (CommitFacts.the_disk s').(nodes) !! q = Some n) ∧
    T_ReceiverStreamMap.has_pending_chunk_commit s'.(streams_) = false.
Proof.
  intros sid seq file_id Hcs Hsize Hb Hroom Hseq0 Hseq1 Happ Hdur Hcom Hw Hixs Hall.
  destruct (apply_begin_plain data cs Hcs Hsize r begin ds name Hb Hroom) as [Hrun1 Hcol1].
  set (f := begun r begin ds name) in *. set (r1 := after_chunks r _ f []) in *.
  destruct (chunks_steps data cs Hcs Hsize chunks s c r1 _ f [] Hcol1 Hixs)
    as (f2 & c2 & acks & Hrun2 & Hacks & Ht2 & Hsame2 & Hhas2).
  pose proof (collecting_after data cs r1 _ f [] f2 c2 Hcol1 Hsame2 Ht2) as Hcol2.
  assert (∀ i, 0 ≤ i < count data cs → ActiveFile.has f2 (Z.to_nat i) = true) as Hfull
    by (intros i Hi; apply Hhas2; [lia|left; by apply Hall]).
  pose proof (tracks_all data cs Hcs Hsize f2 c2 Ht2 Hfull) as ->.
  pose proof (tracks_complete data cs Hcs Hsize f2 data Ht2 Hfull) as Hcount.
  set (r2 := after_chunks r1 _ f2 data) in *.
  destruct (ready_to_commit data cs r begin ds name f2 Hb Hroom Hsame2)
    as ((Htemp & Hfinal & Htr & Hn & Hplace & Hsum) & Hdisk & _ & Hkeep & _).
  pose proof (begin_step line begin s sid c r r1 (proj1 Hb) Hrun1) as Hstep1.
  pose proof Hsame2 as (Hq1 & Hq2 & _). change (ActiveFile.file_id f) with file_id in *.
  destruct (commit_run data cs Hsize line s c r2 seq f2 ds name Hcol2 Hcount Hq1 Hseq0 Hseq1 Htemp Hfinal Htr Hn
    Hplace Hsum Happ Hdur Hcom Hw) as (s' & c' & r' & Hrun3 & Hnodes).
  change (T_ChunkedReceiverStream.stream_id r2) with sid in *. change (T_ChunkedReceiverStream.stream_id r1) with sid in *.
  change (T_ChunkedReceiverStream.root r2) with (T_ChunkedReceiverStream.root r) in *.
  rewrite Hq2 in Hrun3. do 3 eexists. split.
  { cbn [run handle]. rewrite Hstep1, run_app. fold seq in Hrun2. rewrite Hrun2, Hrun3. reflexivity. }
  split_and!; [done|exact Hacks| | |].
  - change (CommitFacts.the_disk (holding s' sid _ r')) with (T_ChunkedReceiverStream.world r'). by rewrite Hnodes.
  - intros q m Hq. change (CommitFacts.the_disk (holding s' sid _ r')) with (T_ChunkedReceiverStream.world r').
    rewrite Hnodes. by apply Hkeep.
  - unfold T_ReceiverStreamMap.has_pending_chunk_commit. cbn. by rewrite map_to_list_singleton.
Qed.
End properties.

(** * On concrete runs *)
Section witnesses.
#[local] Existing Instance crc_ref_impl.
#[local] Existing Instance some_order.

Definition sample_coordinator : t := create (T_ReceiverStreamMap.create 3 ["s"] None (mk_fsys (<[["s"] := Dir]> ∅) [])) 1000 10.
Definition sample_context : T_ReceiverStreamContext.t := T_ReceiverStreamContext.fresh 3 ["s"].

Lemma chunk_transfer_confirmed_witness :
  room ChunkReceiver.sample_stream ChunkReceiver.sample_begin [] "big" ∧
  ∃ rs s', run (OnBegin 4 ChunkReceiver.sample_begin ::
      chunk_events ChunkReceiver.sample_bytes 65536 3 1 9 [(2, 1); (1, 0); (2, 1)] ++
      [OnCommit 4 (T_FileCommit.mk 3 1 9); WriterStart; WriterFinish; OnPoll])
      (holding sample_coordinator 3 sample_context ChunkReceiver.sample_stream) = (rs, s') ∧
    (CommitFacts.the_disk s').(nodes) !! ["s"; "big"] = Some (File ChunkReceiver.sample_bytes).
Proof.
  split; [exact ChunkReceiver.sample_room|].
  destruct (chunk_transfer_confirmed ChunkReceiver.sample_bytes 65536 sample_coordinator sample_context
    ChunkReceiver.sample_stream ChunkReceiver.sample_begin [] "big" 4 [(2, 1); (1, 0); (2, 1)])
    as (a & acks & s' & Hrun & _ & _ & Hfile & _).
  - lia.
  - rewrite ChunkReceiver.sample_bytes_len. lia.
  - exact ChunkReceiver.sample_begin_expected.
  - exact ChunkReceiver.sample_room.
  - reflexivity.
  - reflexivity.
  - reflexivity.
  - reflexivity.
  - reflexivity.
  - reflexivity.
  - rewrite ChunkReceiver.sample_count. repeat constructor; cbn; lia.
  - rewrite ChunkReceiver.sample_count. intros i Hi. assert (i = 0 ∨ i = 1) as [-> | ->] by lia;
      [apply elem_of_cons; right; apply elem_of_cons; left|apply elem_of_cons; left]; reflexivity.
  - eexists _, s'. split; [exact Hrun|exact Hfile].
Defined.

(** Two pieces; the second comes while the writer works on the first. *)
Definition sample_moves : list AppendedFile.move :=
  [AppendedFile.Piece 1 [x05; x06]; AppendedFile.Meanwhile WriterStart; AppendedFile.Piece 2 [x07];
   AppendedFile.Meanwhile OnPoll; AppendedFile.Meanwhile WriterFinish].

Lemma append_transfer_confirmed_witness :
  CreateFacts.place AppendReceiver.sample_stream ["sub"] "2.file" ∧
  ∃ rs s', run (OnCreate 1 AppendReceiver.sample_create ::
      AppendedFile.events 3 2 2 3 0 sample_moves ++ AppendedFile.settle)
      (AppendedFile.appending sample_coordinator 3 sample_context AppendReceiver.sample_stream
         AppendDurable.initial TaskQueue.empty) = (rs, s') ∧
    (CommitFacts.the_disk s').(nodes) !! ["s"; "sub"; "2.file"] = Some (File [x05; x06; x07]) ∧
    AppendedFile.reports rs 3 ∧ T_ReceiverStreamMap.append_durable_idle s'.(streams_) = true.
Proof.
  split; [exact AppendReceiver.sample_place|].
  destruct (AppendedTransfer.append_transfer_confirmed 1 AppendReceiver.sample_create sample_coordinator 3 sample_context
    AppendReceiver.sample_stream AppendDurable.initial ["sub"] "2.file" sample_moves)
    as (_ & rs & s' & Hrun & Hfile & Hreport & Hidle & _).
  - exact AppendReceiver.sample_create_expected.
  - reflexivity.
  - vm_compute; reflexivity.
  - exact AppendReceiver.sample_place.
  - vm_compute; reflexivity.
  - reflexivity.
  - discriminate.
  - reflexivity.
  - vm_compute; discriminate.
  - reflexivity.
  - reflexivity.
  - reflexivity.
  - reflexivity.
  - vm_compute; discriminate.
  - repeat constructor; cbn; unfold AppendedFile.background; try discriminate; tauto.
  - exists rs, s'. split; [exact Hrun|]. split; [exact Hfile|]. split; [exact Hreport|exact Hidle].
Defined.

(** ** Offsets reported as durable that no fsync covers *)
Definition file_create (seq file_id : Z) (name : string) (size : Z) : T_Create.t :=
  T_Create.mk 3 seq file_id EM_EntryKind.REGULAR_FILE name "" size 0 0
    (T_FileChecksum.mk EM_ChecksumAlgo.NONE 0 0 []).
Definition file_data := AppendTransfer.data_message 3.

(** What the heartbeats of a batch say: the file, its offset, how much is durable. *)
Definition reported (r : exc T_ReceiverActionBatch.t) : list (Z * Z * Z) :=
  match r with
  | Ret a => (λ h, let h := h.(T_ReceiverHeartbeatAction.heartbeat) in
      (h.(T_Heartbeat.file_id), h.(T_Heartbeat.offset), h.(T_Heartbeat.durable_offset))) <$> a.(T_ReceiverActionBatch.heartbeats)
  | Throw _ => []
  end.

(** A CREATE comes while the fsync of the file before is in the writer: the poll
    takes that fsync's completion for the new file, which has no bytes. *)
Lemma stale_completion :
  reported <$> (run [OnCreate 1 (file_create 1 1 "a" 4); OnData 1 (file_data 1 1 4 0 [x01; x02; x03; x04]); WriterStart;
     OnCreate 1 (file_create 2 2 "b" 9); WriterFinish; OnPoll] sample_coordinator).1 =
  [[(1, 0, 0)]; [(1, 4, 0)]; []; [(2, 0, 0)]; []; [(2, 0, 4)]].
Proof. vm_compute. reflexivity. Qed.

(** The CREATE of a complete file, sent again, is answered with all its bytes as
    durable, though no fsync ran. *)
Lemma repeated_create :
  reported <$> (run [OnCreate 1 (file_create 1 1 "a" 4); OnData 1 (file_data 1 1 4 0 [x01; x02; x03; x04]);
     OnCreate 1 (file_create 1 1 "a" 4)] sample_coordinator).1 =
  [[(1, 0, 0)]; [(1, 4, 0)]; [(1, 4, 4)]].
Proof. vm_compute. reflexivity. Qed.

(** The CREATE of an earlier file, sent again, makes the next DATA of the current
    one report what came before it as durable. *)
Lemma repeated_older_create :
  reported <$> (run [OnCreate 1 (file_create 1 1 "a" 4); OnData 1 (file_data 1 1 4 0 [x01; x02; x03; x04]);
     WriterStart; WriterFinish; OnPoll; OnCreate 1 (file_create 2 2 "b" 4); OnData 1 (file_data 2 2 4 0 [x01; x02]);
     OnCreate 1 (file_create 1 1 "a" 4); OnData 1 (file_data 2 2 4 2 [x03; x04])] sample_coordinator).1 =
  [[(1, 0, 0)]; [(1, 4, 0)]; []; []; [(1, 4, 4)]; [(2, 0, 0)]; [(2, 2, 0)]; [(2, 2, 2)]; [(2, 4, 2)]].
Proof. vm_compute. reflexivity. Qed.
End witnesses.
