(* ===== verification/ReceiverApp.v ===== *)
(** * The receiver: [src/receiver/yisync_receiver_app.cpp], [src/receiver/yisync_commit_poller.cpp]

    [ReceiverApp]: the coordinator with its streams and the writer, the network,
    the answer to a manifest, and the timers that poll and that end the run.
    Log output and the metrics line are left out. *)
From S2P Require Import Prelude Hoare Crc32c Filesystem Wire Protocol Framing Sync ReceiverPaths AppendReceiver ChunkReceiver.
From S2P Require Import Network NodeCommon DiskWriter ReceiverStreams Coordinator CommitConfirmation WriterIdle.
From stdpp Require Import sorting.
#[local] Open Scope Z_scope.

(** ** The poller of commits: one call at a time *)
Module T_CommitCompletionPoller.
Record t := mk { interval_ : Z; scheduled_ : bool }.
Definition create (interval : Z) : t := mk interval false.

(** [schedule]: the delay of the call to make, when there is none waiting. *)
Definition schedule (p : t) : option Z * t :=
  if p.(scheduled_) then (None, p) else (Some p.(interval_), mk p.(interval_) true).
(** The call itself, and [mark_idle]. *)
Definition mark_idle (p : t) : t := mk p.(interval_) false.
End T_CommitCompletionPoller.

(** What the event loop is to call later. *)
Inductive later :=
  | HeartbeatTick
  | CommitPoll
  | QuietStop (generation : Z)
  | QuietStopRetry (generation : Z)
  | TimesOut.

Module ReceiverApp.
Import T_ReceiverCoordinator.
Export (hints) T_ReceiverCoordinator T_ReceiverNetwork.

(** [receiver_stream_roots_] is in the coordinator's stream map, which has the
    pointer to it; [disk_writer_] is in the coordinator too. *)
Record t := mk {
  options_ : T_NodeOptions.t; coordinator_ : T_ReceiverCoordinator.t; commit_poller_ : T_CommitCompletionPoller.t;
  network_ : T_ReceiverNetwork.t; activity_generation_ : Z; committed_ : bool; failed_ : bool;
  stopped_ : bool; later_ : list (Z * later)
}.

Definition set_coordinator v s := mk s.(options_) v s.(commit_poller_) s.(network_) s.(activity_generation_)
  s.(committed_) s.(failed_) s.(stopped_) s.(later_).
Definition set_poller v s := mk s.(options_) s.(coordinator_) v s.(network_) s.(activity_generation_)
  s.(committed_) s.(failed_) s.(stopped_) s.(later_).
Definition set_network v s := mk s.(options_) s.(coordinator_) s.(commit_poller_) v s.(activity_generation_)
  s.(committed_) s.(failed_) s.(stopped_) s.(later_).
Definition set_generation v s := mk s.(options_) s.(coordinator_) s.(commit_poller_) s.(network_) v
  s.(committed_) s.(failed_) s.(stopped_) s.(later_).
Definition set_committed v s := mk s.(options_) s.(coordinator_) s.(commit_poller_) s.(network_)
  s.(activity_generation_) v s.(failed_) s.(stopped_) s.(later_).
Definition set_failed v s := mk s.(options_) s.(coordinator_) s.(commit_poller_) s.(network_)
  s.(activity_generation_) s.(committed_) v s.(stopped_) s.(later_).
Definition set_loop stopped calls s := mk s.(options_) s.(coordinator_) s.(commit_poller_) s.(network_)
  s.(activity_generation_) s.(committed_) s.(failed_) stopped calls.

#[export] Instance has_coordinator : Has t T_ReceiverCoordinator.t.
Proof. by refine {| part := coordinator_; set_part := set_coordinator |}; [|intros []|]. Defined.
#[export] Instance has_network : Has t T_ReceiverNetwork.t.
Proof. by refine {| part := network_; set_part := set_network |}; [|intros []|]. Defined.
#[export] Instance has_lines : Has t T_ReceiverLineSet.t.
Proof.
  refine {| part s := s.(network_).(T_ReceiverNetwork.lines_);
            set_part l s := set_network (T_ReceiverNetwork.set_lines l s.(network_)) s |}; [done| |done].
  by intros [? ? ? [] ?].
Defined.

Definition on_disk {A} (m : M fsys A) : M t A := on (T_ReceiverCoordinator.on_disk m).

Definition call_later (delay : Z) (what : later) : M t unit :=
  modify (λ s, set_loop s.(stopped_) (s.(later_) ++ [(delay, what)]) s).
Definition stop_loop : M t unit := modify (λ s, set_loop true s.(later_) s).
Definition fail : M t unit := modify (set_failed true);; stop_loop.

(** *** Directories of the streams *)
Definition receiver_stream_roots_ (s : t) : gmap Z path :=
  default ∅ s.(coordinator_).(streams_).(T_ReceiverStreamMap.roots_).
Definition set_stream_root (stream_id : Z) (root : path) : M t unit :=
  modify (λ s, set_coordinator (set_streams
    (T_ReceiverStreamMap.set_roots (Some (<[stream_id := root]> (receiver_stream_roots_ s))) s.(coordinator_).(streams_))
    s.(coordinator_)) s).

Definition stream_root_for (stream_id : Z) (s : t) : path :=
  T_ReceiverStreamMap.stream_root_for stream_id s.(coordinator_).(streams_).

(** The elements of a sender's root that are kept below the receiver's. *)
Definition mounted (part : string) : Prop :=
  ¬ (part = "/" ∨ part = "" ∨ part = "." ∨ part = "..")%string.
#[export] Instance mounted_dec part : Decision (mounted part).
Proof. unfold mounted. apply _. Defined.

Definition mounted_source_root (root : path) (source_root : string) : path :=
  let relative := filter mounted (path_parts source_root) in
  if bool_decide (relative = []) then root else root ++ relative.

Definition id_le (r1 r2 : Z * path) : Prop := r1.1 ≤ r2.1.
#[export] Instance id_le_dec : RelDecision id_le.
Proof. unfold id_le. intros x y. apply _. Defined.

(** The subdirectories of the root named by the number of another stream. *)
Fixpoint numbered_directories (root : path) (names : list string) : M fsys (list (Z * path)) :=
  match names with
  | [] => mret []
  | name :: names =>
      directory ← or_throw "status: " (is_directory (root ++ [name]));
      roots ← numbered_directories root names;
      mret (match parse_stream_dir_name (root ++ [name]) with
            | Some stream_id =>
                if directory && negb (stream_id =? kStreamId) then (stream_id, root ++ [name]) :: roots else roots
            | None => roots
            end)
  end.

Section application.
Context {CRC : Crc32c} `{!MapIteration Z path} `{!MapIteration Z T_ReceiverStreamContext.t}
  `{!MapIteration T_ReceiverNetwork.T_HeartbeatKey T_PendingHeartbeat.t}.

Definition manifest_roots : M t (list (Z * path)) :=
  s ← get;
  let root := s.(options_).(T_NodeOptions.root) in
  let roots := iteration (receiver_stream_roots_ s) in
  let roots := if bool_decide (roots = []) then [(kStreamId, root)] else roots in
  found ← on_disk (with_ec (exists_ root));
  match found with
  | Ok true =>
      names ← on_disk (or_throw "directory iterator cannot open directory: " (list_directory root));
      more ← on_disk (numbered_directories root names);
      mret (unique (λ r1 r2, r1.1 =? r2.1) (merge_sort id_le (roots ++ more)))
  | _ => mret roots
  end.

(** *** The answer to a manifest *)
Definition name_le (a b : string) : Prop := String.leb a b = true.
#[export] Instance name_le_dec : RelDecision name_le.
Proof. unfold name_le. intros x y. apply _. Defined.

(** The top-level directories that the scan of the default stream leaves out. *)
Definition stream_dir_names (manifest1 : T_Manifest1.t) (roots : list (Z * path)) : list string :=
  let numbers := to_string <$> filter (λ id, id ≠ kStreamId)
    (T_Manifest1Stream.stream_id <$> manifest1.(T_Manifest1.streams)) in
  let names := (λ r, filename r.2) <$> filter (λ r, r.1 ≠ kStreamId) roots in
  unique String.eqb (merge_sort name_le (numbers ++ names)).

Fixpoint scan_streams (dir_names : list string) (streams : list T_Manifest1Stream.t) : M t (list T_Manifest1Stream.t) :=
  match streams with
  | [] => mret []
  | sender_stream :: streams =>
      let stream_id := sender_stream.(T_Manifest1Stream.stream_id) in
      s ← get;
      let root := if bool_decide (sender_stream.(T_Manifest1Stream.root) = ""%string) then stream_root_for stream_id s
                  else mounted_source_root s.(options_).(T_NodeOptions.root) sender_stream.(T_Manifest1Stream.root) in
      set_stream_root stream_id root;;
      on_disk (or_throw "cannot create directories: " (create_directories root));;
      scanned ← on_disk (scan_manifest_stream no_regex stream_id root (4 * 1024 * 1024)
                           (if stream_id =? kStreamId then dir_names else []) "");
      rest ← scan_streams dir_names streams;
      mret (scanned :: rest)
  end.

Definition receiver_manifest_for_manifest1 (manifest1 : T_Manifest1.t) : M t T_Manifest1.t :=
  roots ← manifest_roots;
  streams ← scan_streams (stream_dir_names manifest1 roots) manifest1.(T_Manifest1.streams);
  mret (T_Manifest1.mk manifest1.(T_Manifest1.manifest_id) streams).

Definition find_stream (stream_id : Z) (streams : list T_Manifest1Stream.t) : option T_Manifest1Stream.t :=
  snd <$> list_find (λ c, c.(T_Manifest1Stream.stream_id) = stream_id) streams.

(** The plans of the streams, or the first stream whose entries conflict. *)
Fixpoint plan_streams (receiver : list T_Manifest1Stream.t) (streams : list T_Manifest1Stream.t)
    : T_Nack.t + list T_Manifest2Stream.t :=
  match streams with
  | [] => inr []
  | sender_stream :: streams =>
      let stream_id := sender_stream.(T_Manifest1Stream.stream_id) in
      let receiver_entries := from_option T_Manifest1Stream.entries [] (find_stream stream_id receiver) in
      match diff_stream stream_id sender_stream.(T_Manifest1Stream.entries) receiver_entries with
      | Throw what => inl (T_Nack.mk stream_id 0 0 0 0 0 0 EM_NackReason.SIZE_CONFLICT what)
      | Ret start =>
          match plan_streams receiver streams with
          | inl nack => inl nack
          | inr plans => inr (make_manifest2_stream stream_id start :: plans)
          end
      end
  end.

Definition send_message (line_id : Z) (message : T_Message) : M t unit := on (T_ReceiverNetwork.send line_id message).
Definition send_nack (line_id : Z) (nack : T_Nack.t) : M t unit := send_message line_id (M_Nack nack).

Definition apply_manifest1 (line_id : Z) (manifest1 : T_Manifest1.t) : M t unit :=
  modify (set_committed false);;
  receiver_manifest ← receiver_manifest_for_manifest1 manifest1;
  match plan_streams receiver_manifest.(T_Manifest1.streams) manifest1.(T_Manifest1.streams) with
  | inl nack => send_nack line_id nack
  | inr plans => send_message line_id (M_Manifest2 (T_Manifest2.mk manifest1.(T_Manifest1.manifest_id) plans))
  end.

(** *** The actions the coordinator asks for *)
Definition schedule_quiet_stop : M t unit :=
  modify (set_committed true);;
  modify (λ s, set_generation (u64 (s.(activity_generation_) + 1)) s);;
  s ← get;
  call_later 750 (QuietStop s.(activity_generation_)).

(** The call [schedule_quiet_stop] and its retries make. *)
Definition quiet_stop (generation : Z) : M t unit :=
  s ← get;
  if s.(options_).(T_NodeOptions.watch) then mret tt
  else
    let current := negb s.(failed_) && s.(committed_) && (generation =? s.(activity_generation_)) in
    if current && T_ReceiverStreamMap.append_durable_idle s.(coordinator_).(streams_) then stop_loop
    else if current then call_later s.(options_).(T_NodeOptions.receiver_heartbeat_interval) (QuietStopRetry generation)
    else mret tt.

Definition schedule_commit_poll : M t unit :=
  s ← get;
  let '(delay, poller) := T_CommitCompletionPoller.schedule s.(commit_poller_) in
  put (set_poller poller s);;
  match delay with Some delay => call_later delay CommitPoll | None => mret tt end.

Definition can_send (line_id : Z) : M t bool := on (T_ReceiverNetwork.can_send line_id).

Fixpoint send_nacks (nacks : list T_ReceiverNackAction.t) : M t unit :=
  match nacks with
  | [] => mret tt
  | a :: nacks =>
      let line_id := a.(T_ReceiverNackAction.line_id) in
      open ← (if a.(T_ReceiverNackAction.only_if_line_open) then can_send line_id else mret true);
      (if negb open then mret tt else send_nack line_id a.(T_ReceiverNackAction.nack));;
      send_nacks nacks
  end.

Fixpoint queue_heartbeats (heartbeats : list T_ReceiverHeartbeatAction.t) : M t unit :=
  match heartbeats with
  | [] => mret tt
  | a :: heartbeats =>
      let line_id := a.(T_ReceiverHeartbeatAction.line_id) in
      open ← (if a.(T_ReceiverHeartbeatAction.only_if_line_open) then can_send line_id else mret true);
      (if negb open then mret tt
       else
         on (T_ReceiverNetwork.queue_heartbeat line_id a.(T_ReceiverHeartbeatAction.heartbeat));;
         if a.(T_ReceiverHeartbeatAction.flush) then on (T_ReceiverNetwork.flush_heartbeats line_id) else mret tt);;
      queue_heartbeats heartbeats
  end.

Definition execute_actions (actions : T_ReceiverActionBatch.t) : M t unit :=
  send_nacks actions.(T_ReceiverActionBatch.nacks);;
  queue_heartbeats actions.(T_ReceiverActionBatch.heartbeats);;
  (if actions.(T_ReceiverActionBatch.schedule_commit_poll) then schedule_commit_poll else mret tt);;
  (if actions.(T_ReceiverActionBatch.schedule_quiet_stop) then schedule_quiet_stop else mret tt);;
  if actions.(T_ReceiverActionBatch.failed) then fail else mret tt.

(** The coordinator's answer, executed. *)
Definition execute (m : M T_ReceiverCoordinator.t T_ReceiverActionBatch.t) : M t unit :=
  actions ← on m;
  execute_actions actions.

Definition on_message (line_id : Z) (message : T_Message) : M t unit :=
  modify (λ s, set_generation (u64 (s.(activity_generation_) + 1)) s);;
  match message with
  | M_Create create => execute (apply_create line_id create)
  | M_Data data => execute (apply_data line_id data)
  | M_FileBegin begin => execute (apply_begin line_id begin)
  | M_Chunk chunk => execute (apply_chunk line_id chunk)
  | M_FileCommit commit => execute (apply_commit line_id commit)
  | M_Manifest1 manifest => apply_manifest1 line_id manifest
  | _ => fail
  end.

(** *** Timers *)
Definition check_disk_writer : M t bool :=
  s ← get;
  match s.(coordinator_).(writer_error) with
  | None => mret true
  | Some _ => fail;; mret false
  end.

Definition heartbeat_tick : M t unit :=
  s ← get;
  if s.(failed_) then mret tt
  else
    ok ← check_disk_writer;
    if negb ok then mret tt
    else
      execute poll_completions;;
      s ← get;
      if s.(failed_) then mret tt
      else
        on T_ReceiverNetwork.flush_all_heartbeats;;
        call_later s.(options_).(T_NodeOptions.receiver_heartbeat_interval) HeartbeatTick.

Definition commit_poll_tick : M t unit :=
  s ← get;
  if s.(failed_) then mret tt
  else
    ok ← check_disk_writer;
    if negb ok then mret tt
    else
      execute poll_completions;;
      s ← get;
      if negb s.(failed_) && T_ReceiverStreamMap.has_pending_chunk_commit s.(coordinator_).(streams_)
      then schedule_commit_poll else mret tt.

Definition run_later (what : later) : M t unit :=
  match what with
  | HeartbeatTick => heartbeat_tick
  | CommitPoll => modify (λ s, set_poller (T_CommitCompletionPoller.mark_idle s.(commit_poller_)) s);; commit_poll_tick
  | QuietStop generation | QuietStopRetry generation => quiet_stop generation
  | TimesOut =>
      s ← get;
      if negb s.(options_).(T_NodeOptions.watch) && negb s.(committed_) then fail else mret tt
  end.

(** *** The run *)
Definition create (options : T_NodeOptions.t) (w : fsys) : t :=
  let root := options.(T_NodeOptions.root) in
  mk options
    (T_ReceiverCoordinator.create (T_ReceiverStreamMap.create kStreamId root (Some {[kStreamId := root]}) w)
       options.(T_NodeOptions.recv_window_bytes) options.(T_NodeOptions.max_missing_ranges_per_heartbeat))
    (T_CommitCompletionPoller.create options.(T_NodeOptions.receiver_commit_poll_interval))
    (T_ReceiverNetwork.create (make_line_endpoints options) kMaxFrameBytes
       (make_hello EM_Role.RECEIVER "receiver" (u32 options.(T_NodeOptions.chunk_size))
          options.(T_NodeOptions.recv_window_bytes)))
    0 false false false [].

Fixpoint create_roots (roots : list path) : M t unit :=
  match roots with
  | [] => mret tt
  | root :: roots => on_disk (or_throw "cannot create directories: " (create_directories root));; create_roots roots
  end.

(** [run] up to the loop; [bound] is the endpoint that a listener gets. *)
Definition start (bound : Endpoint.t → Endpoint.t) : M t unit :=
  s ← get;
  create_roots (s.(options_).(T_NodeOptions.root) :: (iteration (receiver_stream_roots_ s)).*2);;
  modify (λ s, set_network (T_ReceiverNetwork.set_heartbeat_ack_batch_size
    s.(options_).(T_NodeOptions.heartbeat_ack_batch_size) s.(network_)) s);;
  on (T_ReceiverNetwork.listen bound);;
  call_later s.(options_).(T_NodeOptions.receiver_heartbeat_interval) HeartbeatTick;;
  call_later 60000 TimesOut.

(** The callbacks given to the network; there is none for an accepted line. *)
Definition accepted_callback (line_id : Z) : M t unit := mret tt.
Definition error_callback (line_id : Z) (error : string) : M t unit := fail.
Definition close_callback (line_id : Z) : M t unit := mret tt.

(** [close] of the line's connection, and [fail] of it. *)
Definition close_connection (line_id : Z) : M t unit :=
  line ← on (T_ReceiverLineSet.find line_id);
  match line.(ReceiverLine.connection) with
  | Some c =>
      if AsyncFrameConnection.closed c then mret tt
      else
        on (T_ReceiverLineSet.update line_id (ReceiverLine.set_connection (Some (AsyncFrameConnection.close c))));;
        T_ReceiverNetwork.on_close close_callback line_id
  | None => mret tt
  end.
Definition connection_fails (line_id : Z) (error : string) : M t unit :=
  T_ReceiverNetwork.on_error error_callback line_id error;;
  close_connection line_id.

(** What happens: a connection accepted, a message of one, one that breaks or is
    closed by the peer, the [n]-th of the calls that wait, and the moves of the
    writer's thread. *)
Inductive event :=
  | Accepts (line_id fd : Z) (loop : EventLoop.t unit)
  | Receives (line_id : Z) (message : T_Message)
  | Breaks (line_id : Z) (error : string)
  | Closes (line_id : Z)
  | Fires (n : nat)
  | WriterStart
  | WriterFinish.

(** An exception of a message's handler fails the connection it came on. *)
Definition handle (e : event) : M t unit :=
  match e with
  | Accepts line_id fd loop =>
      T_ReceiverLineSet.on_accept (T_ReceiverNetwork.on_accepted accepted_callback) line_id fd loop
  | Receives line_id message =>
      try_catch (T_ReceiverNetwork.handle_message on_message error_callback close_callback line_id message)
        (connection_fails line_id)
  | Breaks line_id error => connection_fails line_id error
  | Closes line_id => close_connection line_id
  | Fires n =>
      s ← get;
      match s.(later_) !! n with
      | Some (_, what) => put (set_loop s.(stopped_) (delete n s.(later_)) s);; run_later what
      | None => mret tt
      end
  | WriterStart => on writer_start
  | WriterFinish => on writer_finish
  end.

(** The turns of the loop until it is stopped; an exception ends the program. *)
Fixpoint handle_all (events : list event) : M t unit :=
  match events with
  | [] => mret tt
  | e :: events =>
      s ← get;
      if s.(stopped_) then mret tt else handle e;; handle_all events
  end.

(** [loop_.run()], which forgets an earlier [stop]. *)
Definition run_loop (events : list event) : M t unit :=
  modify (λ s, set_loop false s.(later_) s);; handle_all events.

Definition exit_code (s : t) : Z := if s.(failed_) || negb s.(committed_) then 1 else 0.
End application.
End ReceiverApp.

(** ** What the handlers keep

    An invariant that the parts of the state other than the streams and the
    writer do not matter to, and that the coordinator's calls keep, is kept by
    every handler but the one that ends the run. *)
Module ReceiverFrame.
Import T_ReceiverCoordinator ReceiverApp.

Section frame.
Context {CRC : Crc32c} `{!MapIteration Z path} `{!MapIteration Z T_ReceiverStreamContext.t}
  `{!MapIteration T_ReceiverNetwork.T_HeartbeatKey T_PendingHeartbeat.t}.

(** The coordinator's call that a message is for. *)
Definition coordinator_call (line_id : Z) (message : T_Message) : option (M T_ReceiverCoordinator.t T_ReceiverActionBatch.t) :=
  match message with
  | M_Create m => Some (apply_create line_id m)
  | M_Data m => Some (apply_data line_id m)
  | M_FileBegin m => Some (apply_begin line_id m)
  | M_Chunk m => Some (apply_chunk line_id m)
  | M_FileCommit m => Some (apply_commit line_id m)
  | _ => None
  end.

Context (P : t → Prop) (ready : T_Message → t → Prop).

(** What is asked of an invariant [P], when the messages come only as [ready] allows. *)
Record stable : Prop := {
  stable_network n s : P s → P (set_network n s);
  stable_generation n s : P s → P (set_generation n s);
  stable_committed b s : P s → P (set_committed b s);
  stable_poller p s : P s → P (set_poller p s);
  stable_calls calls s : P s → P (set_loop s.(stopped_) calls s);
  stable_fail s : P s → P (set_loop true s.(later_) (set_failed true s));
  stable_streams m s :
    m.(T_ReceiverStreamMap.streams_) = s.(coordinator_).(T_ReceiverCoordinator.streams_).(T_ReceiverStreamMap.streams_) →
    P s → P (set_coordinator (T_ReceiverCoordinator.set_streams m s.(coordinator_)) s);
  stable_poll : keeps P (on poll_completions);
  stable_start : keeps P (on writer_start);
  stable_finish : keeps P (on writer_finish);
  stable_ready m n s : ready m s → ready m (set_generation n s);
  stable_call line_id m call :
    coordinator_call line_id m = Some call → triple (λ s, P s ∧ ready m s) (on call) (λ _, P) P
}.
Context (HP : stable).

Lemma keeps_receiver_network {A} (m : M T_ReceiverNetwork.t A) : keeps P (on m).
Proof using HP. apply keeps_on. intros c s. by apply stable_network. Qed.
Lemma keeps_lines {A} (m : M T_ReceiverLineSet.t A) : keeps P (on m).
Proof using HP. apply keeps_on. intros c s. by apply stable_network. Qed.
Lemma keeps_lines' {A} (m : M T_ReceiverLineSet.t A) : keeps P (on (H := T_ReceiverNetwork.state_has_lines) m).
Proof using HP. apply keeps_on. intros c s. by apply stable_network. Qed.
Lemma keeps_disk {A} (m : M fsys A) : keeps P (on_disk m).
Proof using HP.
  intros s r s' Hs Hr. cut (P s'); [by destruct r|]. unfold on_disk, on in Hr. cbn in Hr.
  destruct (T_ReceiverCoordinator.on_disk m s.(coordinator_)) as [r0 c] eqn:E.
  apply CommitFacts.on_disk_inv in E as (w & _ & ->). injection Hr as _ <-. by apply stable_streams.
Qed.
Lemma keeps_later delay what : keeps P (call_later delay what).
Proof using HP. apply keeps_modify. intros s. by apply stable_calls. Qed.
Lemma keeps_fail : keeps P fail.
Proof using HP. unfold fail, stop_loop. intros s r s' Hs [= <- <-]. by apply stable_fail. Qed.
Lemma keeps_generation f : keeps P (modify (λ s, set_generation (f s) s)).
Proof using HP. apply keeps_modify. intros s. by apply stable_generation. Qed.
Lemma keeps_committed b : keeps P (modify (set_committed b)).
Proof using HP. apply keeps_modify. intros s. by apply stable_committed. Qed.
Lemma keeps_poller f : keeps P (modify (λ s, set_poller (f s) s)).
Proof using HP. apply keeps_modify. intros s. by apply stable_poller. Qed.
Lemma keeps_root id root : keeps P (set_stream_root id root).
Proof using HP. apply keeps_modify. intros s. by apply stable_streams. Qed.
Lemma keeps_modify_network f : keeps P (modify (λ s, set_part (f s : T_ReceiverNetwork.t) s)).
Proof using HP. apply keeps_modify. intros s. by apply stable_network. Qed.
Lemma keeps_modify_network_const (n : T_ReceiverNetwork.t) : keeps P (modify (set_part n)).
Proof using HP. apply keeps_modify. intros s. by apply stable_network. Qed.
#[local] Hint Resolve keeps_receiver_network keeps_lines keeps_lines' keeps_disk keeps_later keeps_fail
  keeps_generation keeps_committed keeps_poller keeps_root keeps_modify_network keeps_modify_network_const : keeps.

(** *** The handlers *)
Lemma keeps_scan names streams : keeps P (scan_streams names streams).
Proof using HP. induction streams; cbn; solve_keeps. Qed.
#[local] Hint Resolve keeps_scan : keeps.
Lemma keeps_manifest line m : keeps P (apply_manifest1 line m).
Proof using HP.
  unfold apply_manifest1, receiver_manifest_for_manifest1, manifest_roots, send_nack, send_message. solve_keeps.
Qed.

Lemma keeps_schedule_poll : keeps P schedule_commit_poll.
Proof using HP.
  unfold schedule_commit_poll. apply keeps_get. intros s Hs. destruct (T_CommitCompletionPoller.schedule _) as [d p].
  apply keeps_bind; [by apply keeps_put, stable_poller|]. intros. solve_keeps.
Qed.
Lemma keeps_schedule_quiet : keeps P schedule_quiet_stop.
Proof using HP. unfold schedule_quiet_stop. solve_keeps. Qed.
#[local] Hint Resolve keeps_manifest keeps_schedule_poll keeps_schedule_quiet : keeps.

Lemma keeps_nacks nacks : keeps P (send_nacks nacks).
Proof using HP. induction nacks; cbn; unfold can_send, send_nack, send_message; solve_keeps. Qed.
Lemma keeps_heartbeats hbs : keeps P (queue_heartbeats hbs).
Proof using HP. induction hbs; cbn; unfold can_send; solve_keeps. Qed.
#[local] Hint Resolve keeps_nacks keeps_heartbeats : keeps.

Lemma keeps_actions actions : keeps P (execute_actions actions).
Proof using HP. unfold execute_actions. solve_keeps. Qed.
#[local] Hint Resolve keeps_actions : keeps.
Lemma keeps_poll_tick : keeps P (execute poll_completions).
Proof using HP. unfold execute. apply keeps_bind; [by apply stable_poll|]. intros. solve_keeps. Qed.
#[local] Hint Resolve keeps_poll_tick : keeps.

Lemma message_kept line m : triple (λ s, P s ∧ ready m s) (on_message line m) (λ _, P) P.
Proof using HP.
  unfold on_message. eapply triple_bind with (R := λ _ s, P s ∧ ready m s).
  { intros s r s' [Hs Hm] [= <- <-]. split; [by apply stable_generation|by apply stable_ready]. }
  intros []. destruct (coordinator_call line m) as [call|] eqn:Ec.
  - assert (triple (λ s, P s ∧ ready m s) (execute call) (λ _, P) P) as H.
    { unfold execute. eapply triple_bind; [by eapply stable_call|]. intros a. apply keeps_actions. }
    destruct m; try discriminate; injection Ec as <-; exact H.
  - apply (triple_conseq _ P); [|by intros ? []]. destruct m; try discriminate;
      first [apply keeps_manifest|apply keeps_fail].
Qed.

Lemma keeps_check : keeps P check_disk_writer.
Proof using HP. unfold check_disk_writer. solve_keeps. Qed.
#[local] Hint Resolve keeps_check : keeps.
Lemma keeps_heartbeat_tick : keeps P heartbeat_tick.
Proof using HP. unfold heartbeat_tick. solve_keeps. Qed.
Lemma keeps_commit_poll_tick : keeps P commit_poll_tick.
Proof using HP. unfold commit_poll_tick. solve_keeps. Qed.
#[local] Hint Resolve keeps_heartbeat_tick keeps_commit_poll_tick : keeps.

Lemma keeps_forget line : keeps P (T_ReceiverNetwork.forget line).
Proof using HP. unfold T_ReceiverNetwork.forget. solve_keeps. Qed.
#[local] Hint Resolve keeps_forget : keeps.
Lemma keeps_close line : keeps P (close_connection line).
Proof using HP. unfold close_connection, T_ReceiverNetwork.on_close, close_callback. solve_keeps. Qed.
#[local] Hint Resolve keeps_close : keeps.
Lemma keeps_fails line e : keeps P (connection_fails line e).
Proof using HP. unfold connection_fails, T_ReceiverNetwork.on_error, error_callback. solve_keeps. Qed.
#[local] Hint Resolve keeps_fails : keeps.
Lemma keeps_protocol line e : keeps P (T_ReceiverNetwork.fail_protocol error_callback close_callback line e).
Proof using HP.
  unfold T_ReceiverNetwork.fail_protocol, T_ReceiverLineSet.close, T_ReceiverNetwork.on_close, error_callback, close_callback.
  solve_keeps.
Qed.
#[local] Hint Resolve keeps_protocol : keeps.
Lemma keeps_hello line hello : keeps P (T_ReceiverNetwork.handle_hello error_callback close_callback line hello).
Proof using HP. unfold T_ReceiverNetwork.handle_hello. solve_keeps. Qed.
Lemma receive_kept line m :
  triple (λ s, P s ∧ ready m s) (T_ReceiverNetwork.handle_message on_message error_callback close_callback line m) (λ _, P) P.
Proof using HP.
  assert (keeps P (T_ReceiverNetwork.fail_protocol error_callback close_callback line
    "business message before T_Hello negotiation")) as Hfail by apply keeps_protocol.
  assert (∀ net : T_ReceiverNetwork.t, triple (λ s, P s ∧ ready m s)
    (match net.(T_ReceiverNetwork.negotiated_lines_) !! line with
     | Some result =>
         if negb result.(T_NegotiationResult.ok)
         then T_ReceiverNetwork.fail_protocol error_callback close_callback line "business message before T_Hello negotiation"
         else on_message line m
     | None => T_ReceiverNetwork.fail_protocol error_callback close_callback line "business message before T_Hello negotiation"
     end) (λ _, P) P) as H.
  { intros net. destruct (_ !! _) as [result|]; [|by apply (triple_conseq _ P); [|intros ? []]].
    destruct (negb _); [by apply (triple_conseq _ P); [|intros ? []]|apply message_kept]. }
  unfold T_ReceiverNetwork.handle_message. destruct m; try (intros s r s' Hs Hr; exact (H _ s r s' Hs Hr)).
  apply (triple_conseq _ P); [apply keeps_hello|by intros ? []].
Qed.

(** An event, when the one that may end the run keeps [R]. *)
Definition ready_event (e : event) (s : t) : Prop :=
  match e with Receives _ m => ready m s | _ => True end.

Lemma event_kept (R : t → Prop) e :
  (∀ s, P s → R s) → (∀ g, triple P (quiet_stop g) (λ _, R) R) →
  triple (λ s, P s ∧ ready_event e s) (handle e) (λ _, R) R.
Proof using HP.
  intros HR Hquiet.
  assert (∀ m : M t unit, keeps P m → triple (λ s, P s ∧ ready_event e s) m (λ _, R) R) as Hkeep.
  { intros m Hm s r s' [Hs _] Hr. specialize (Hm s r s' Hs Hr). destruct r; by apply HR. }
  destruct e; cbn [handle ready_event] in *; try (apply Hkeep; solve [solve_keeps]).
  - apply Hkeep. unfold T_ReceiverLineSet.on_accept, T_ReceiverNetwork.on_accepted, accepted_callback. solve_keeps.
  - intros s r s' Hs Hr. cut (P s'); [destruct r; apply HR|].
    assert (H : triple (λ s, P s ∧ ready message s) (try_catch
      (T_ReceiverNetwork.handle_message on_message error_callback close_callback line_id message)
      (connection_fails line_id)) (λ _, P) P).
    { eapply triple_catch; [apply receive_kept|]. intros err. apply keeps_fails. }
    specialize (H s r s' Hs Hr). by destruct r.
  - apply (triple_conseq _ P); [|by intros ? []].
    apply triple_get. intros s Hs. destruct (later_ s !! n) as [[delay what]|].
    2:{ apply triple_ret. intros s' ->. by apply HR. }
    apply (triple_bind _ _ _ (λ _, P)); [intros s0 r s' -> [= <- <-]; by apply stable_calls|]. intros _.
    assert (∀ m : M t unit, keeps P m → triple P m (λ _, R) R) as Hkeep'.
    { intros m Hm s0 r s' Hs0 Hr. specialize (Hm s0 r s' Hs0 Hr). destruct r; by apply HR. }
    destruct what; cbn [run_later]; try apply Hquiet; apply Hkeep'; solve_keeps.
  - apply Hkeep, stable_start, HP.
  - apply Hkeep, stable_finish, HP.
Qed.

(** The work before the loop. *)
Lemma keeps_receiver_start bound : keeps P (start bound).
Proof using HP.
  unfold start. apply keeps_get. intros s Hs. generalize (T_NodeOptions.root (options_ s) :: (iteration (receiver_stream_roots_ s)).*2).
  intros roots. apply keeps_bind; [induction roots; cbn; solve_keeps|intros].
  apply keeps_bind; [apply keeps_modify; intros ?; by apply stable_network|intros _]. solve_keeps.
Qed.
End frame.
End ReceiverFrame.

(** ** When the receiver stops *)
Module StopFacts.
Import ReceiverApp ReceiverFrame.

Section stop.
Context {CRC : Crc32c} `{!MapIteration Z path} `{!MapIteration Z T_ReceiverStreamContext.t}
  `{!MapIteration T_ReceiverNetwork.T_HeartbeatKey T_PendingHeartbeat.t}.

(** A loop that was stopped was stopped by a failure; and by a failure or with
    nothing left to write. *)
Definition by_failure (s : t) : Prop := s.(stopped_) = true → s.(failed_) = true.
Definition by_failure_or_idle (s : t) : Prop := s.(stopped_) = true → s.(failed_) = false →
  s.(options_).(T_NodeOptions.watch) = false ∧ s.(committed_) = true ∧
  T_ReceiverStreamMap.append_durable_idle s.(coordinator_).(T_ReceiverCoordinator.streams_) = true.

Lemma failure_or_idle s : by_failure s → by_failure_or_idle s.
Proof. intros H Hs Hf. rewrite (H Hs) in Hf. done. Qed.

Lemma keeps_coordinator {A} (m : M T_ReceiverCoordinator.t A) : keeps by_failure (on m).
Proof. by apply keeps_on. Qed.

Lemma by_failure_stable : stable by_failure (λ _ _, True).
Proof.
  split; try done; try apply keeps_coordinator. intros line m call _.
  apply (triple_conseq _ by_failure); [apply keeps_coordinator|by intros ? []].
Qed.

(** The only call that may stop a loop that did not fail. *)
Lemma quiet_stop_stops g : triple by_failure (quiet_stop g) (λ _, by_failure_or_idle) by_failure_or_idle.
Proof.
  intros s r s' Hs Hr. unfold quiet_stop, mbind, M_bind, get in Hr.
  destruct (T_NodeOptions.watch _) eqn:Hw; [injection Hr as <- <-; by apply failure_or_idle|]. cbv zeta in Hr.
  destruct (negb (failed_ s) && committed_ s && (g =? activity_generation_ s)) eqn:Hc; cbn [andb] in Hr;
    [|injection Hr as <- <-; by apply failure_or_idle].
  apply andb_prop in Hc as [Hc _]. apply andb_prop in Hc as [_ Hc].
  destruct (T_ReceiverStreamMap.append_durable_idle _) eqn:Hi; injection Hr as <- <-; [done|by apply failure_or_idle].
Qed.

Lemma handle_stops e : triple by_failure (handle e) (λ _, by_failure_or_idle) by_failure_or_idle.
Proof.
  apply (triple_conseq _ (λ s, by_failure s ∧ ready_event (λ _ _, True) e s)); [|intros s Hs; by destruct e].
  exact (event_kept _ _ by_failure_stable _ e failure_or_idle quiet_stop_stops).
Qed.

Lemma run_stops es : keeps by_failure_or_idle (handle_all es).
Proof.
  induction es as [|e es IH]; cbn [handle_all]; [apply keeps_ret|]. intros s r s' Hs Hr.
  unfold mbind at 1, M_bind at 1, get in Hr. destruct (stopped_ s) eqn:Hstop; [by injection Hr as <- <-|].
  refine (triple_bind by_failure _ _ (λ _, by_failure_or_idle) (λ _, by_failure_or_idle) by_failure_or_idle
    (handle_stops e) (λ _, IH) s r s' _ Hr). intros E. congruence.
Qed.

End stop.
End StopFacts.

(** ** What the writer has in its queue *)
Module WriterFacts.
Import ReceiverApp ReceiverFrame.
Import (hints) CommitQueue FsyncQueue.

(** A CREATE or a DATA of a file that comes with the fsync of another file of
    its stream queued, and the runs in which none comes. *)
Definition passes (sid id : Z) (s : t) : bool :=
  let d := FsyncQueue.durable_at s.(coordinator_) sid in
  d.(AppendDurable.fsync_queued) && negb (d.(AppendDurable.durable_file_id) =? id).
Definition disturbs (m : T_Message) (s : t) : bool :=
  match m with
  | M_Create m => passes m.(T_Create.stream_id) m.(T_Create.file_id) s
  | M_Data m => passes m.(T_Data.stream_id) m.(T_Data.file_id) s
  | _ => false
  end.

Section writer.
Context {CRC : Crc32c} `{!MapIteration Z path} `{!MapIteration Z T_ReceiverStreamContext.t}
  `{!MapIteration T_ReceiverNetwork.T_HeartbeatKey T_PendingHeartbeat.t}.

Fixpoint undisturbed (events : list event) (s : t) : bool :=
  match events with
  | [] => true
  | e :: events =>
      if s.(stopped_) then true
      else
        negb match e with Receives _ m => disturbs m s | _ => false end &&
        match handle e s with
        | (Ret _, s') => undisturbed events s'
        | (Throw _, _) => true
        end
  end.

Definition commits_known (s : t) : Prop := CommitQueue.inv s.(coordinator_).
Definition fsyncs_known (s : t) : Prop := FsyncQueue.inv s.(coordinator_).

Lemma on_coordinator {A} (I : T_ReceiverCoordinator.t → Prop) (m : M T_ReceiverCoordinator.t A) :
  keeps I m → keeps (λ s, I s.(coordinator_)) (on m).
Proof. by apply keeps_on_part. Qed.

Lemma commits_stable : stable commits_known (λ _ _, True).
Proof.
  split; try done.
  - intros m s Hm HI. apply (CommitFacts.commit_only (P := CommitQueue.inv) s.(coordinator_)); [split_and!; [intros sid; unfold CommitFacts.commit_at, CommitFacts.commit_in; cbn; by rewrite Hm|done..]|done].
  - apply (on_coordinator CommitQueue.inv). apply keeps_get. intros s _. apply CommitQueue.poll_keeps.
  - apply (on_coordinator CommitQueue.inv). apply CommitFacts.keeps_writer_start, _.
  - apply (on_coordinator CommitQueue.inv). apply CommitQueue.finish_keeps.
  - intros line m call Hc. apply (triple_conseq _ commits_known); [|by intros ? []].
    apply (on_coordinator CommitQueue.inv).
    destruct m; try discriminate; injection Hc as <-;
      auto using CommitQueue.create_keeps, CommitQueue.data_keeps, CommitQueue.begin_keeps, CommitQueue.chunk_keeps,
        CommitQueue.commit_keeps.
Qed.

Lemma passes_calm sid id s : passes sid id s = false → FsyncQueue.calm sid id s.(coordinator_).
Proof.
  unfold passes, FsyncQueue.calm. intros H Hq. rewrite Hq in H. cbn in H. apply negb_false_iff in H. by apply Z.eqb_eq.
Qed.

Lemma fsyncs_stable : stable fsyncs_known (λ m s, disturbs m s = false).
Proof.
  split; try done.
  - intros m s Hm HI. apply (FsyncQueue.fsync_only (P := FsyncQueue.inv) s.(coordinator_)); [|done]. split; [|done]. intros sid.
    unfold FsyncQueue.durable_at, StreamFrame.field_in. cbn. by rewrite Hm.
  - apply (on_coordinator FsyncQueue.inv). apply keeps_get. intros s _. apply FsyncQueue.fsync_poll_keeps.
  - apply (on_coordinator FsyncQueue.inv). apply FsyncQueue.fsync_keeps_writer_start, _.
  - apply (on_coordinator FsyncQueue.inv). apply FsyncQueue.fsync_finish_keeps.
  - intros line m call Hc. assert (∀ (P : T_ReceiverCoordinator.t → Prop) c, triple P c (λ _, FsyncQueue.inv) FsyncQueue.inv →
      (∀ s, fsyncs_known s ∧ disturbs m s = false → P s.(coordinator_)) →
      triple (λ s, fsyncs_known s ∧ disturbs m s = false) (on c) (λ _ : T_ReceiverActionBatch.t, fsyncs_known) fsyncs_known) as Hon.
    { intros P c Hm Hp s r s' Hs Hr. unfold on in Hr. destruct (c (part s)) as [r0 c0] eqn:E. injection Hr as <- <-.
      specialize (Hm _ _ _ (Hp s Hs) E). by destruct r0. }
    destruct m; try discriminate; injection Hc as <-.
    + eapply Hon; [apply FsyncQueue.fsync_create_inv|]. intros s [Hs Hd]. split; [done|by apply passes_calm].
    + eapply Hon; [apply FsyncQueue.data_inv|]. intros s [Hs Hd]. split; [done|by apply passes_calm].
    + eapply Hon; [apply (FsyncQueue.fsync_keeps_begin FsyncQueue.inv)|by intros s []].
    + eapply Hon; [apply (FsyncQueue.keeps_chunk FsyncQueue.inv)|by intros s []].
    + eapply Hon; [apply (FsyncQueue.fsync_keeps_commit FsyncQueue.inv)|by intros s []].
Qed.

Lemma quiet_stop_same (I : T_ReceiverCoordinator.t → Prop) g : keeps (λ s, I s.(coordinator_)) (quiet_stop g).
Proof.
  unfold quiet_stop. apply keeps_get. intros s Hs. destruct (T_NodeOptions.watch _); [apply keeps_ret|]. cbv zeta.
  destruct (_ && T_ReceiverStreamMap.append_durable_idle _); [by apply keeps_modify|].
  destruct (_ && (_ =? _)); [by apply keeps_modify|apply keeps_ret].
Qed.

Lemma commits_run es : keeps commits_known (handle_all es).
Proof.
  induction es as [|e es IH]; cbn [handle_all]; [apply keeps_ret|]. apply keeps_get. intros s Hs.
  destruct (stopped_ s); [apply keeps_ret|]. apply keeps_bind; [|intros; apply IH].
  apply (triple_conseq _ (λ s, commits_known s ∧ ready_event (λ _ _, True) e s)); [|intros s0 Hs0; by destruct e].
  apply (event_kept _ _ commits_stable commits_known e); [done|]. intros g. apply (quiet_stop_same CommitQueue.inv).
Qed.

Lemma fsyncs_run es s r s' :
  undisturbed es s = true → fsyncs_known s → handle_all es s = (r, s') → fsyncs_known s'.
Proof.
  revert s. induction es as [|e es IH]; intros s Hu Hs Hr; cbn in Hu, Hr; [by injection Hr as _ <-|].
  rewrite (bind_ret get _ s s s eq_refl) in Hr. destruct (stopped_ s); [by injection Hr as _ <-|].
  apply andb_prop in Hu as [Hready Hu].
  assert (triple (λ s, fsyncs_known s ∧ ready_event (λ m s, disturbs m s = false) e s) (handle e) (λ _, fsyncs_known) fsyncs_known)
    as Hkept.
  { apply (event_kept _ _ fsyncs_stable fsyncs_known e); [done|]. intros g. apply (quiet_stop_same FsyncQueue.inv). }
  assert (fsyncs_known s ∧ ready_event (λ m s, disturbs m s = false) e s) as Hpre.
  { split; [done|]. destruct e; try done. by apply negb_true_iff in Hready. }
  apply bind_cases in Hr as [([] & s1 & E & Hr)|(err & E & ->)]; specialize (Hkept _ _ _ Hpre E); [|done].
  rewrite E in Hu. by eapply IH.
Qed.
End writer.
End WriterFacts.

(** ** The end of a run *)
Module EndFacts.
Import ReceiverApp ReceiverFrame StopFacts WriterFacts.

Section ends.
Context {CRC : Crc32c} `{!MapIteration Z path} `{!MapIteration Z T_ReceiverStreamContext.t}
  `{!MapIteration T_ReceiverNetwork.T_HeartbeatKey T_PendingHeartbeat.t}.

(** No stream waits for the writer: the file it is at is durable as far as it
    was received, and no commit is under way. *)
Definition waits_for_nothing (c : T_ReceiverStreamContext.t) : Prop :=
  let d := c.(T_ReceiverStreamContext.durable) in
  d.(AppendDurable.fsync_queued) = false ∧ d.(AppendDurable.durable_target) ≤ d.(AppendDurable.durable_offset) ∧
  c.(T_ReceiverStreamContext.chunk_commit).(ChunkCommit.queued) = false.

(** What a receiver that says it succeeded has left: nothing that a stream waits
    for, no commit in the writer, and nothing at all in the writer when no file
    was passed over with its fsync queued. *)
Definition at_rest (undisturbed : Prop) (s : t) : Prop :=
  (∀ stream_id c, s.(coordinator_).(T_ReceiverCoordinator.streams_).(T_ReceiverStreamMap.streams_) !! stream_id = Some c →
     waits_for_nothing c) ∧
  (∀ task i, Some (CommitTask task i) ≠ s.(coordinator_).(T_ReceiverCoordinator.disk_writer_).(TaskQueue.running) ∧
     CommitTask task i ∉ s.(coordinator_).(T_ReceiverCoordinator.disk_writer_).(TaskQueue.waiting)) ∧
  (undisturbed → s.(coordinator_).(T_ReceiverCoordinator.disk_writer_).(TaskQueue.running) = None ∧
     s.(coordinator_).(T_ReceiverCoordinator.disk_writer_).(TaskQueue.waiting) = []).

(** No CREATE or DATA of the run passes over a file with its fsync queued. *)
Definition undisturbed_run (options : T_NodeOptions.t) (w : fsys) (bound : Endpoint.t → Endpoint.t)
    (events : list event) : bool :=
  match start bound (create options w) with
  | (Ret _, s) => undisturbed events (set_loop false s.(later_) s)
  | (Throw _, _) => true
  end.

Lemma idle_streams s :
  T_ReceiverStreamMap.append_durable_idle s.(coordinator_).(T_ReceiverCoordinator.streams_) = true →
  ∀ stream_id c, s.(coordinator_).(T_ReceiverCoordinator.streams_).(T_ReceiverStreamMap.streams_) !! stream_id = Some c →
  waits_for_nothing c.
Proof.
  intros Hi stream_id c Hctx. unfold T_ReceiverStreamMap.append_durable_idle in Hi. rewrite forallb_forall in Hi.
  specialize (Hi (stream_id, c)). rewrite <- list_elem_of_In, elem_of_map_to_list in Hi. specialize (Hi Hctx). cbn in Hi.
  unfold T_ReceiverStreamMap.busy in Hi. apply negb_true_iff, orb_false_iff in Hi as [Hi H3]. apply orb_false_iff in Hi as [H1 H2].
  rewrite Z.gtb_ltb, Z.ltb_ge in H2. done.
Qed.

Lemma idle_at_rest s undisturbed :
  commits_known s → (undisturbed → fsyncs_known s) →
  T_ReceiverStreamMap.append_durable_idle s.(coordinator_).(T_ReceiverCoordinator.streams_) = true → at_rest undisturbed s.
Proof.
  intros HC HF Hi. pose proof (idle_streams s Hi) as Hs. split; [done|].
  assert (CommitFacts.commit_tasks s.(coordinator_).(T_ReceiverCoordinator.disk_writer_) = []) as Hc.
  { apply CommitQueue.none_left; [done|]. intros sid. unfold CommitFacts.settled, CommitFacts.commit_at, CommitFacts.commit_in.
    destruct (_ !! sid) as [c|] eqn:E; [|done]. by apply (Hs sid c). }
  split.
  - intros task i. unfold CommitFacts.commit_tasks in Hc. rewrite omap_app in Hc. apply app_eq_nil in Hc as [H1 H2]. split.
    + intros E. by rewrite <- E in H1.
    + intros Hin. assert ((task, i) ∈ omap CommitFacts.commit_of s.(coordinator_).(T_ReceiverCoordinator.disk_writer_).(TaskQueue.waiting))
        as Hin2 by (apply list_elem_of_omap; by exists (CommitTask task i)). rewrite H2 in Hin2. by apply elem_of_nil in Hin2.
  - intros Hu. apply queue_empty; [done|]. apply FsyncQueue.fsync_none_left; [by apply HF|]. intros sid.
    unfold FsyncQueue.durable_at, StreamFrame.field_in. destruct (_ !! sid) as [c|] eqn:E; [|done]. by apply (Hs sid c).
Qed.

(** What a loop that was stopped with 0 as the exit code leaves. *)
Lemma stopped_idle options w bound events r s :
  (start bound;; run_loop events) (create options w) = (r, s) → s.(stopped_) = true → exit_code s = 0 →
  s.(options_).(T_NodeOptions.watch) = false ∧ s.(failed_) = false ∧ s.(committed_) = true ∧
  at_rest (undisturbed_run options w bound events = true) s.
Proof.
  intros Hrun Hstop Hcode.
  assert (by_failure_or_idle s ∧ commits_known s ∧ (undisturbed_run options w bound events = true → fsyncs_known s))
    as (Hs & HC & HF).
  { assert (commits_known (create options w)) as HC by apply CommitQueue.create_inv.
    assert (fsyncs_known (create options w)) as HF by apply FsyncQueue.initial_inv.
    assert (by_failure (create options w)) as HB by done.
    unfold undisturbed_run. destruct (start bound (create options w)) as [r1 s1] eqn:E.
    pose proof (keeps_run _ _ _ _ _ (keeps_receiver_start _ _ commits_stable bound) HC E) as HC1.
    pose proof (keeps_run _ _ _ _ _ (keeps_receiver_start _ _ fsyncs_stable bound) HF E) as HF1.
    pose proof (keeps_run _ _ _ _ _ (keeps_receiver_start _ _ by_failure_stable bound) HB E) as HB1.
    destruct r1 as [[]|e]; [rewrite (bind_ret _ _ _ _ _ E) in Hrun|rewrite (bind_throw _ _ _ _ _ E) in Hrun].
    - unfold run_loop in Hrun. erewrite bind_ret in Hrun by done.
      split; [eapply keeps_run; [apply run_stops| |exact Hrun]; done|].
      split; [eapply keeps_run; [apply commits_run| |exact Hrun]; done|]. intros Hu.
      by apply (fsyncs_run events (set_loop false s1.(later_) s1) r).
    - injection Hrun as _ <-. split; [by apply failure_or_idle|]. split; [done|]. intros _. done. }
  unfold exit_code in Hcode. destruct (failed_ s) eqn:Hf; [done|]. destruct (Hs Hstop Hf) as (Hw & Hc & Hi).
  split; [done|]. split; [done|]. split; [done|]. by apply idle_at_rest.
Qed.
End ends.
End EndFacts.

(** ** The properties *)
Section properties.
Context {CRC : Crc32c} `{!MapIteration Z path} `{!MapIteration Z T_ReceiverStreamContext.t}
  `{!MapIteration T_ReceiverNetwork.T_HeartbeatKey T_PendingHeartbeat.t}.

(** C9: the receiver says it succeeded only at rest: in any run, from its
    construction through any messages, lost lines, timers and moves of the
    writer, a loop that was stopped with 0 as the exit code was not watching, no
    handler failed, and it left no stream with an fsync queued, with bytes of the
    file it is at received and not reported as durable, or with a commit
    waiting; the writer has no commit left, and nothing at all when no CREATE or
    DATA of the run passed over another file of its stream with that file's
    fsync queued. *)
Theorem receiver_exits_when_idle options w bound events r s :
  (ReceiverApp.start bound;; ReceiverApp.run_loop events) (ReceiverApp.create options w) = (r, s) →
  s.(ReceiverApp.stopped_) = true → ReceiverApp.exit_code s = 0 →
  s.(ReceiverApp.options_).(T_NodeOptions.watch) = false ∧ s.(ReceiverApp.failed_) = false ∧
  s.(ReceiverApp.committed_) = true ∧
  let coordinator := s.(ReceiverApp.coordinator_) in
  (∀ stream_id c, coordinator.(T_ReceiverCoordinator.streams_).(T_ReceiverStreamMap.streams_) !! stream_id = Some c →
     let d := c.(T_ReceiverStreamContext.durable) in
     d.(AppendDurable.fsync_queued) = false ∧ d.(AppendDurable.durable_target) ≤ d.(AppendDurable.durable_offset) ∧
     c.(T_ReceiverStreamContext.chunk_commit).(ChunkCommit.queued) = false) ∧
  (∀ task i, Some (CommitTask task i) ≠ coordinator.(T_ReceiverCoordinator.disk_writer_).(TaskQueue.running) ∧
     CommitTask task i ∉ coordinator.(T_ReceiverCoordinator.disk_writer_).(TaskQueue.waiting)) ∧
  (EndFacts.undisturbed_run options w bound events = true →
     coordinator.(T_ReceiverCoordinator.disk_writer_).(TaskQueue.running) = None ∧
     coordinator.(T_ReceiverCoordinator.disk_writer_).(TaskQueue.waiting) = []).
Proof. apply EndFacts.stopped_idle. Qed.
End properties.

(** ** On concrete runs *)
Section witnesses.
#[local] Existing Instance crc_ref_impl.
#[local] Existing Instance some_order.
Import ReceiverApp.

Definition sample_options : T_NodeOptions.t :=
  let d := T_NodeOptions.defaults ["tmp"] in
  T_NodeOptions.mk "receiver" d.(T_NodeOptions.host) d.(T_NodeOptions.base_port) 1 3 ["r"] [] 0 [] []
    [T_LineEndpoint.mk 1 EM_Protocol.TCP (Endpoint.mk "127.0.0.1" 19000) "line"] []
    EM_Compression.NONE EM_ChecksumAlgo.CRC32C kLineWindowBytes 65536 300 100 5 3 64 20 100 2000 50 2 false
    EM_WatchBackend.AUTO 500 200.
Definition sample_world : fsys := mk_fsys {[ ["r"] := Dir ]} [].
Definition sample_loop : EventLoop.t unit := EventLoop.mk unit false 1 [] [].
Definition sample_hello : T_Message := M_Hello (make_hello EM_Role.SENDER "sender" 65536 kLineWindowBytes).
Definition sample_create : T_Message := M_Create (T_Create.mk kStreamId 1 1 EM_EntryKind.REGULAR_FILE "a" "" 3 0 0
  (T_FileChecksum.mk EM_ChecksumAlgo.NONE 0 0 [])).
Definition sample_data : T_Message := M_Data (AppendTransfer.data_message kStreamId 1 1 3 0 [x01; x02; x03]).

(** One file of three bytes; its fsync; the tick that reports it; and the call that
    ends the run. *)
Definition sample_events : list event :=
  [Accepts 1 5 sample_loop; Receives 1 sample_hello; Receives 1 sample_create; Receives 1 sample_data;
   WriterStart; WriterFinish; Fires 0; Fires 2].
Definition sample_run (w : fsys) (events : list event) : exc unit * t :=
  (start id;; run_loop events) (create sample_options w).

Lemma sample_undisturbed : EndFacts.undisturbed_run sample_options sample_world id sample_events = true.
Proof. vm_compute. reflexivity. Qed.

Lemma receiver_exits_when_idle_witness :
  ∃ r s, sample_run sample_world sample_events = (r, s) ∧ s.(stopped_) = true ∧ exit_code s = 0 ∧ s.(failed_) = false ∧
    s.(coordinator_).(T_ReceiverCoordinator.disk_writer_).(TaskQueue.waiting) = [].
Proof.
  destruct (sample_run sample_world sample_events) as [r s] eqn:E. exists r, s.
  assert (s.(stopped_) = true ∧ exit_code s = 0) as [Hs Hc].
  { apply (f_equal (λ x, (x.2.(stopped_), exit_code x.2))) in E. vm_compute in E. injection E as E1 E2. split; symmetry; assumption. }
  split; [reflexivity|]. split; [exact Hs|]. split; [exact Hc|].
  destruct (receiver_exits_when_idle sample_options sample_world id sample_events r s E Hs Hc)
    as (_ & Hf & _ & _ & _ & Hu). split; [exact Hf|]. apply (Hu sample_undisturbed).
Defined.

(** A file of three bytes, and at once an empty one after it: the CREATE of the
    second makes the stream forget the fsync of the first, and the receiver
    stops with the exit code 0 while it waits in the writer, neither done nor
    reported. *)
Definition next_create : T_Message := M_Create (T_Create.mk kStreamId 2 2 EM_EntryKind.REGULAR_FILE "b" "" 0 0 0
  (T_FileChecksum.mk EM_ChecksumAlgo.NONE 0 0 [])).
Definition passing_events : list event :=
  [Accepts 1 5 sample_loop; Receives 1 sample_hello; Receives 1 sample_create; Receives 1 sample_data;
   Receives 1 next_create; Fires 4].

Lemma exit_zero_with_fsync_waiting :
  let '(r, s) := sample_run sample_world passing_events in
  r = Ret tt ∧ s.(stopped_) = true ∧ exit_code s = 0 ∧
  s.(coordinator_).(T_ReceiverCoordinator.disk_writer_).(TaskQueue.waiting) = [FsyncTask ["r"; "a"] 3 kStreamId] ∧
  EndFacts.undisturbed_run sample_options sample_world id passing_events = false.
Proof. vm_compute. repeat split; reflexivity. Qed.

(** A link to itself in the receiver's directory, which a CREATE can make: every
    manifest then fails the connection, and the receiver with it. *)
Lemma looped_link_ends_receiver :
  let s := (sample_run (mk_fsys (<[ ["r"; "loop"] := Symlink "loop" ]> {[ ["r"] := Dir ]}) [])
    [Accepts 1 5 sample_loop; Receives 1 sample_hello; Receives 1 (M_Manifest1 (T_Manifest1.mk 1 []))]).2 in
  s.(failed_) = true ∧ exit_code s = 1.
Proof. vm_compute. split; reflexivity. Qed.

(** A heartbeat waits for a line that closes: the next tick throws, and the
    exception leaves the loop. *)
Lemma closed_line_ends_receiver :
  ∃ what, (sample_run sample_world
    [Accepts 1 5 sample_loop; Receives 1 sample_hello; Receives 1 sample_create; Receives 1 sample_data;
     Closes 1; Fires 0]).1 = Throw what.
Proof. eexists. vm_compute. reflexivity. Qed.


(** A commit whose file has the wrong checksum. *)
Definition bad_bytes : Bytes := replicate (Z.to_nat 65540) x07.
Definition bad_commit_events : list event :=
  [Accepts 1 5 sample_loop; Receives 1 sample_hello;
   Receives 1 (M_FileBegin (T_FileBegin.mk kStreamId 1 9 "big" 65540 65536 2
     (T_FileChecksum.mk EM_ChecksumAlgo.CRC32C 0 65540 [x00; x00; x00; x00]) 0 0 empty_checksum));
   Receives 1 (M_Chunk (ChunkFacts.chunk_message bad_bytes 65536 kStreamId 1 9 0));
   Receives 1 (M_Chunk (ChunkFacts.chunk_message bad_bytes 65536 kStreamId 1 9 1));
   Receives 1 (M_FileCommit (T_FileCommit.mk kStreamId 1 9)); WriterStart; WriterFinish].

(** The frames that wait on line 1. *)
Definition frames_waiting (s : t) : list Bytes :=
  match T_ReceiverLineSet.find 1 s.(network_).(T_ReceiverNetwork.lines_) with
  | (Ret line, _) => from_option (λ c, AsyncFrameConnection.PendingWrite.bytes <$> AsyncFrameConnection.write_queue_ c) [] line.(ReceiverLine.connection)
  | _ => []
  end.

(** The call that finds the commit failed puts the NACK behind the frames of the
    line and stops the loop: it is never written. *)
Lemma failed_commit_nack_unsent :
  let s := (sample_run sample_world bad_commit_events).2 in
  let s' := (handle (Fires 2) s).2 in
  s.(stopped_) = false ∧ s'.(stopped_) = true ∧ s'.(failed_) = true ∧
  frames_waiting s' = frames_waiting s ++ [encode_frame (M_Nack (T_Nack.mk kStreamId 1 1 9 0 9 0
    EM_NackReason.CHECKSUM_MISMATCH "final file checksum mismatch"))].
Proof. vm_compute. repeat split; reflexivity. Qed.
End witnesses.
