(* ===== verification/Node.v ===== *)
(** * The program: [src/node/yisync_node.cpp]

    [main] parses the command line, runs the application of its mode, and turns
    an exception into the exit code 1.  What happens to the process is its
    [environment]: the events of the application, and what the system answers. *)
From S2P Require Import Prelude Hoare Crc32c Filesystem Wire Protocol Framing Sync Source ChunkResend AppendState.
From S2P Require Import SendBuffer SenderPlan Network NodeCommon Config SenderApp SenderRun.
From S2P Require Import DiskWriter ReceiverStreams Coordinator ReceiverApp.
#[local] Open Scope Z_scope.

Record environment := mk_environment {
  sender_events : list SenderApp.event; receiver_events : list ReceiverApp.event;
  watcher_starts : path → bool; bound : Endpoint.t → Endpoint.t
}.

Section program.
Context {CRC : Crc32c} (regex_extended : string → exc (string → bool)).
Context `{!MapIteration T_SendBufferKey.t T_BufferedSend.t} `{!MapIteration Z path}
  `{!MapIteration Z T_ReceiverStreamContext.t} `{!MapIteration T_ReceiverNetwork.T_HeartbeatKey T_PendingHeartbeat.t}.
Context (depth : nat) (loop_fuel : SenderApp.limit).

(** The exit code; none while the loop has not been stopped. *)
Definition run_sender (options : T_NodeOptions.t) (w : fsys) (env : environment) : exc (option Z) :=
  match SenderApp.create regex_extended options w with
  | (Throw what, _) => Throw what
  | (Ret app, _) =>
      match (SenderApp.start env.(watcher_starts);;
             SenderApp.run_loop regex_extended depth loop_fuel env.(sender_events)) app with
      | (Throw what, _) => Throw what
      | (Ret _, app) => Ret (if app.(SenderApp.stopped_) then Some (SenderApp.exit_code app) else None)
      end
  end.

Definition run_receiver (options : T_NodeOptions.t) (w : fsys) (env : environment) : exc (option Z) :=
  match (ReceiverApp.start env.(bound);; ReceiverApp.run_loop env.(receiver_events)) (ReceiverApp.create options w) with
  | (Throw what, _) => Throw what
  | (Ret _, app) => Ret (if app.(ReceiverApp.stopped_) then Some (ReceiverApp.exit_code app) else None)
  end.

Definition main (temp_directory : path) (args : list string) (w : fsys) (env : environment) : option Z :=
  match Config.parse_options temp_directory args w with
  | (Throw _, _) => Some 1
  | (Ret options, w) =>
      match (if bool_decide (options.(T_NodeOptions.mode) = "receiver"%string)
             then run_receiver options w env else run_sender options w env) with
      | Ret code => code
      | Throw _ => Some 1
      end
  end.

(** What a process that succeeded has done. *)
Definition sent_everything (events : list SenderApp.event) (app : SenderApp.t) : Prop :=
  app.(SenderApp.failed_) = false ∧ app.(SenderApp.done_) = true ∧
  ∀ stream j task, stream ∈ app.(SenderApp.streams_) → stream.(T_StreamSendState.tasks) !! j = Some task →
  Confirmation.confirmed (events ≫= SenderKeeps.brings) stream.(T_StreamSendState.stream_id)
    (Confirmation.key_of <$> stream.(T_StreamSendState.tasks)) j.

Definition came_to_rest (options : T_NodeOptions.t) (w : fsys) (env : environment) (app : ReceiverApp.t) : Prop :=
  app.(ReceiverApp.failed_) = false ∧ app.(ReceiverApp.committed_) = true ∧
  EndFacts.at_rest (EndFacts.undisturbed_run options w env.(bound) env.(receiver_events) = true) app.

Lemma run_sender_success options w env :
  run_sender options w env = Ret (Some 0) →
  ∃ app w0 app', SenderApp.create regex_extended options w = (Ret app, w0) ∧
    (SenderApp.start env.(watcher_starts);;
     SenderApp.run_loop regex_extended depth loop_fuel env.(sender_events)) app = (Ret tt, app') ∧
    sent_everything env.(sender_events) app'.
Proof.
  unfold run_sender. destruct (SenderApp.create _ _ _) as [[app|] w0] eqn:Ec; [|done].
  destruct ((SenderApp.start _;; _) app) as [[[]|] app'] eqn:Er; [|done].
  destruct (SenderApp.stopped_ app'); [|done]. intros [= Hcode]. unfold SenderApp.exit_code in Hcode.
  exists app, w0, app'. split; [done|]. split; [exact Er|].
  destruct (SenderApp.failed_ app') eqn:Hf; [done|]. destruct (SenderApp.done_ app') eqn:Hd; [|done].
  split; [done|]. split; [done|]. by apply (SenderKeeps.done_confirmed regex_extended depth loop_fuel _ _ _ _ _ _ _ _ Ec Er).
Qed.

Lemma run_receiver_success options w env :
  run_receiver options w env = Ret (Some 0) →
  ∃ app, (ReceiverApp.start env.(bound);; ReceiverApp.run_loop env.(receiver_events)) (ReceiverApp.create options w)
    = (Ret tt, app) ∧ came_to_rest options w env app.
Proof.
  unfold run_receiver. destruct ((ReceiverApp.start _;; _) _) as [[[]|] app] eqn:Er; [|done].
  destruct (ReceiverApp.stopped_ app) eqn:Hs; [|done]. intros [= Hcode]. exists app. split; [done|].
  destruct (EndFacts.stopped_idle _ _ _ _ _ _ Er Hs Hcode) as (_ & Hf & Hc & Hall). by split.
Qed.
End program.


(** ** On a concrete run: the sender of three bytes of [SenderRun], from its
    command line *)
#[local] Existing Instance some_order.
Definition sample_environment : environment :=
  mk_environment SenderRun.sample_events [] (λ _, true) id.
Abbreviation sample_main :=
  (main (λ _, Throw "") 3 10%nat ["tmp"] ["sender"; "--lines"; "1"; "--size"; "3"]%string SenderRun.sample_world sample_environment).

Lemma sample_main_code : sample_main = Some 0.
Proof. vm_compute. reflexivity. Qed.

Lemma sample_mode options w :
  Config.parse_options ["tmp"] ["sender"; "--lines"; "1"; "--size"; "3"]%string SenderRun.sample_world = (Ret options, w) →
  options.(T_NodeOptions.mode) = "sender"%string.
Proof.
  intros Ho. apply (f_equal (λ r, match fst r with Ret o => T_NodeOptions.mode o | Throw _ => ""%string end)) in Ho.
  vm_compute in Ho. by symmetry.
Qed.

