(* ===== verification/ManifestAgreement.v ===== *)
(** * Agreement on manifests

    What the scan of a plain directory answers, that two directories with the same
    entries have the same manifest, and what the receiver then answers a sender. *)
From S2P Require Import Prelude Hoare Crc32c Filesystem Wire Protocol Framing Sync ReceiverPaths AppendReceiver ChunkReceiver.
From S2P Require Import Scheduler Source ChunkResend AppendState SendBuffer SenderPlan Network NodeCommon SenderApp.
From S2P Require Import DiskWriter ReceiverStreams Coordinator ReceiverApp.
From stdpp Require Import sorting.
From Stdlib Require Import Ascii.
#[local] Open Scope Z_scope.
Export (hints) ReceiverApp.

(** ** The order of the entries *)
Module EntryOrder.

Lemma compare_trans a b c :
  String.compare a b ≠ Gt → String.compare b c ≠ Gt →
  String.compare a c ≠ Gt ∧ (String.compare a c = Eq → String.compare a b = Eq).
Proof.
  revert b c. induction a as [|x a IH]; intros [|y b] [|z c] Hab Hbc; cbn in *; try done.
  unfold Ascii.compare in *.
  destruct (N.compare_spec (N_of_ascii x) (N_of_ascii y)), (N.compare_spec (N_of_ascii y) (N_of_ascii z)),
    (N.compare_spec (N_of_ascii x) (N_of_ascii z)); try done; try lia.
  - by apply (IH b c).
Qed.

Lemma ltb_compare a b : String.ltb a b = true ↔ String.compare a b = Lt.
Proof. unfold String.ltb. by destruct (String.compare a b). Qed.
Lemma not_ltb_compare a b : String.ltb b a = false ↔ String.compare a b ≠ Gt.
Proof.
  unfold String.ltb. rewrite (String.compare_antisym b a). by destruct (String.compare a b).
Qed.

#[export] Instance entry_le_trans : Transitive entry_le.
Proof.
  intros x y z. unfold entry_le, entry_lt.
  destruct (legacy_numeric x), (legacy_numeric y), (legacy_numeric z); cbn; try done.
  - intros H1%Z.ltb_ge H2%Z.ltb_ge. apply Z.ltb_ge. lia.
  - rewrite !not_ltb_compare. intros H1 H2. by apply (compare_trans _ (T_ManifestEntry.name y)).
Qed.

(** Entries with different names and ids are ordered one way only. *)
Lemma entry_le_antisym x y :
  entry_le x y → entry_le y x →
  x.(T_ManifestEntry.file_id) = y.(T_ManifestEntry.file_id) ∨ x.(T_ManifestEntry.name) = y.(T_ManifestEntry.name).
Proof.
  unfold entry_le, entry_lt. destruct (legacy_numeric x), (legacy_numeric y); cbn; try done.
  - intros H1%Z.ltb_ge H2%Z.ltb_ge. left. lia.
  - rewrite !not_ltb_compare. intros H1 H2. right. apply String.compare_eq_iff.
    rewrite (String.compare_antisym (T_ManifestEntry.name y)) in H2.
    by destruct (String.compare (T_ManifestEntry.name x) _).
Qed.

Lemma sorted_same l1 l2 :
  (∀ x y, x ∈ l1 → y ∈ l1 → x.(T_ManifestEntry.file_id) = y.(T_ManifestEntry.file_id) ∨
     x.(T_ManifestEntry.name) = y.(T_ManifestEntry.name) → x = y) →
  l1 ≡ₚ l2 → merge_sort entry_le l1 = merge_sort entry_le l2.
Proof.
  intros Hkey Hp. apply (StronglySorted_unique_strong entry_le).
  - intros x y Hx Hy Hxy Hyx. rewrite merge_sort_Permutation in Hx, Hy. rewrite <- Hp in Hy.
    apply Hkey; [done..|]. by apply entry_le_antisym.
  - apply (StronglySorted_merge_sort entry_le).
  - apply (StronglySorted_merge_sort entry_le).
  - by rewrite !merge_sort_Permutation.
Qed.
End EntryOrder.

(** ** The scan of a plain directory *)
Module PlainScan.
Import EntryOrder.

(** [rel] names the node [n] below [root]. *)
Definition holds (t : gmap path node) (root rel : path) (n : node) : Prop :=
  rel ≠ [] ∧ t !! (root ++ rel) = Some n.

(** A name without a separator. *)
Definition plain_name (c : string) : Prop := name_ok c ∧ split_slash c = [c].

(** [root] is a directory, and everything below it is in a directory, under a
    plain name. *)
Record plain_tree (w : fsys) (root : path) : Prop := {
  no_faults : w.(faults) = [];
  root_dir : dir_path w.(nodes) root;
  entry_dir rel c n : w.(nodes) !! (root ++ rel ++ [c]) = Some n →
    dir_path w.(nodes) (root ++ rel) ∧ Forall plain_name (rel ++ [c]);
  file_sizes rel data : holds w.(nodes) root rel (File data) → zlen data < 9223372036854775808
}.

Lemma elem_of_descendants t root rel n : (rel, n) ∈ descendants t root ↔ holds t root rel n.
Proof.
  unfold descendants, holds. rewrite list_elem_of_omap. split.
  - intros ([k m] & Hin & Hd). apply elem_of_map_to_list in Hin. cbn in Hd.
    destruct (decide _) as [[[r ->] Hne]|]; [|done]. injection Hd as <- <-. rewrite drop_app_length.
    split; [|done]. intros ->. by rewrite app_nil_r in Hne.
  - intros [Hne Hl]. exists (root ++ rel, n). split; [by apply elem_of_map_to_list|]. cbn.
    rewrite decide_True; [by rewrite drop_app_length|]. split; [by apply prefix_app_r|].
    intros H. apply Hne. apply (app_inv_head root). by rewrite app_nil_r.
Qed.

Lemma NoDup_descendants t root : NoDup (descendants t root).
Proof.
  assert (NoDup (descendants t root).*1) as H; [|by apply NoDup_fmap_1 in H].
  unfold descendants. pose proof (NoDup_fst_map_to_list t) as Hnd. induction (map_to_list t) as [|[k m] l IH]; cbn; [constructor|].
  apply NoDup_cons in Hnd as [Hk Hnd]. cbn in Hk. specialize (IH Hnd).
  destruct (decide _) as [[[r ->] Hne]|]; cbn; [|done]. apply NoDup_cons. split; [|done].
  rewrite list_elem_of_fmap. intros ([rel n] & E & Hin). cbn in E. rewrite drop_app_length in E. subst rel.
  apply list_elem_of_omap in Hin as ([k' m'] & Hin & Hd). cbn in Hd.
  destruct (decide _) as [[[r' ->] Hne']|]; [|done]. injection Hd as E _. rewrite drop_app_length in E. subst r'.
  apply Hk. apply list_elem_of_fmap. by exists (root ++ r, m').
Qed.

(** *** What the scan records of a node *)
Section exact.
Context {CRC : Crc32c}.

Definition tail_checksum (len : Z) (data : Bytes) : T_FileChecksum.t :=
  let len := Z.min (zlen data) len in
  if zlen data =? 0 then empty_checksum
  else T_FileChecksum.mk EM_ChecksumAlgo.CRC32C (zlen data - len) len (crc32c_bytes (slice data (zlen data - len) len)).

Definition entry_for (len : Z) (rel : path) (n : node) : T_ManifestEntry.t :=
  let name := generic_string rel in
  let entry kind link_target size checksum :=
    T_ManifestEntry.mk (entry_id kind name) 0 kind name link_target size checksum in
  match n with
  | Symlink target => entry EM_EntryKind.SYMLINK target 0 empty_checksum
  | Dir => entry EM_EntryKind.DIRECTORY "" 0 empty_checksum
  | File data => entry EM_EntryKind.REGULAR_FILE "" (zlen data) (tail_checksum len data)
  end.

Lemma status_held w root rel n :
  plain_tree w root → holds w.(nodes) root rel n → is_symlink (Some n) = false → status w.(nodes) (root ++ rel) = Ok n.
Proof.
  intros Ht [Hne Hl] Hn. destruct rel as [|c rel _] using rev_ind; [done|].
  destruct (entry_dir _ _ Ht rel c n Hl) as [Hd Hok]. apply Forall_app in Hok as [_ Hok]. apply Forall_inv in Hok as [Hc _].
  rewrite app_assoc in Hl |- *. assert (node_at w.(nodes) ((root ++ rel) ++ [c]) = Some n) as E by (by rewrite node_at_snoc).
  by rewrite status_in_dir, E by (done || by rewrite E).
Qed.

Lemma scan_entry_exact w root len rel n :
  plain_tree w root → 0 < len → holds w.(nodes) root rel n →
  scan_entry root len None rel n w = (Ret (Some (entry_for len rel n)), w).
Proof.
  intros Ht Hlen Hn. destruct n as [data| |target]; [|done..]. unfold scan_entry. cbn [filter_accepts negb].
  pose proof (status_held w root rel _ Ht Hn eq_refl) as Hs. pose proof (no_faults _ _ Ht) as Hf.
  assert (file_at w (root ++ rel) data) as Hfile by (split_and!; [done|done|by eapply file_sizes]).
  rewrite (bind_ret (with_ec (file_size (root ++ rel))) _ w (Ok (zlen data)) w).
  2:{ unfold with_ec, file_size. by rewrite (syscall_ok _ w (zlen data)) by (done || by rewrite Hs). }
  by rewrite (bind_ret _ _ _ _ _ (make_checksum_spec w (root ++ rel) data len Hfile Hlen)).
Qed.

Definition entries_of (len : Z) (excluded : list string) (es : list (path * node)) : list T_ManifestEntry.t :=
  (λ e, entry_for len e.1 e.2) <$> filter (λ e, visited excluded e.1 = true) es.

Lemma scan_loop_exact w root len excluded es :
  plain_tree w root → 0 < len → (∀ rel n, (rel, n) ∈ es → holds w.(nodes) root rel n) →
  scan_loop root len excluded None es w = (Ret (entries_of len excluded es), w).
Proof.
  intros Ht Hlen. induction es as [|[rel n] es IH]; intros Hes; [done|]. cbn [scan_loop].
  assert (scan_loop root len excluded None es w = (Ret (entries_of len excluded es), w)) as Hrest
    by (apply IH; intros; apply Hes; by right).
  destruct (visited excluded rel) eqn:Hv; cbn [negb].
  - rewrite (bind_ret _ _ _ _ _ (scan_entry_exact w root len rel n Ht Hlen (Hes rel n (list_elem_of_here _ _)))).
    rewrite (bind_ret _ _ _ _ _ Hrest). unfold entries_of. by rewrite filter_cons_True by done.
  - rewrite Hrest. unfold entries_of. by rewrite filter_cons_False by (cbn; congruence).
Qed.

(** The manifest of a plain directory. *)
Definition manifest_of (t : gmap path node) (stream_id : Z) (root : path) (len : Z) (excluded : list string)
    : T_Manifest1Stream.t :=
  T_Manifest1Stream.mk stream_id ("/" ++ generic_string root)
    (number_entries 0 (merge_sort entry_le (entries_of len excluded (descendants t root)))).

Lemma scan_exact regex w stream_id root len excluded :
  plain_tree w root → 0 < len →
  scan_manifest_stream regex stream_id root len excluded "" w = (Ret (manifest_of w.(nodes) stream_id root len excluded), w).
Proof.
  intros Ht Hlen. pose proof (no_faults _ _ Ht) as Hf. pose proof (root_dir _ _ Ht) as Hd.
  pose proof (status_dir _ _ Hd) as Hs. unfold scan_manifest_stream.
  rewrite (bind_ret (with_ec (exists_ root)) _ w (Ok true) w).
  2:{ unfold with_ec, exists_. by rewrite (syscall_ok _ w true) by (done || by rewrite Hs). }
  rewrite bool_decide_eq_true_2 by done. rewrite (bind_ret (mret None) _ _ _ _ eq_refl), (bind_ret get _ _ _ _ eq_refl).
  assert (resolve w.(nodes) root = Ok root) as ->.
  { unfold resolve. pose proof (walk_dirs MAXSYMLINKS true w.(nodes) root [] Hd) as Hw. by rewrite app_nil_r, walk_nil in Hw. }
  rewrite (dir_path_node _ _ Hd). cbv zeta.
  rewrite (bind_ret _ _ _ _ _ (scan_loop_exact w root len excluded _ Ht Hlen
    (λ rel n H, proj1 (elem_of_descendants _ _ _ _) H))).
  by rewrite sort_numbered.
Qed.

(** *** Directories with the same entries *)

(** Both hold the same of what a scan visits. *)
Definition same_entries (t1 : gmap path node) (root1 : path) (excluded1 : list string)
    (t2 : gmap path node) (root2 : path) (excluded2 : list string) : Prop :=
  ∀ rel n, visited excluded1 rel = true ∧ holds t1 root1 rel n ↔ visited excluded2 rel = true ∧ holds t2 root2 rel n.

(** An id names one of the entries visited. *)
Definition distinct_ids (t : gmap path node) (root : path) (excluded : list string) : Prop :=
  ∀ rel n rel' n', visited excluded rel = true → visited excluded rel' = true →
    holds t root rel n → holds t root rel' n' →
    entry_id (node_kind n) (generic_string rel) = entry_id (node_kind n') (generic_string rel') → rel = rel'.

Lemma split_slash_nil s : split_slash s ≠ [].
Proof. destruct s; cbn; [done|]. destruct (decide _); [done|]. by destruct (split_slash s). Qed.

Lemma split_slash_app a b : split_slash a = [a] → split_slash (a ++ "/" ++ b)%string = a :: split_slash b.
Proof.
  induction a as [|x a IH]; [done|]. change (String x a +:+ "/" +:+ b) with (String x (a +:+ "/" +:+ b)).
  cbn [split_slash]. pose proof (split_slash_nil a). destruct (decide (x = "/"%char)) as [->|Hx].
  - by destruct (split_slash a).
  - destruct (split_slash a) as [|seg [|seg' segs]] eqn:E; try done. intros [= ->]. by rewrite (IH eq_refl).
Qed.

Lemma split_generic p : p ≠ [] → Forall (λ c, split_slash c = [c]) p → split_slash (generic_string p) = p.
Proof.
  unfold generic_string. intros Hne Hp. induction Hp as [|c [|c' p] Hc Hp IH]; [done|done|].
  cbn [String.concat]. rewrite split_slash_app by done. f_equal. by apply IH.
Qed.

Lemma generic_inj p q :
  p ≠ [] → q ≠ [] → Forall plain_name p → Forall plain_name q → generic_string p = generic_string q → p = q.
Proof.
  intros Hp Hq Hp1 Hq1 E. rewrite <- (split_generic p Hp), <- (split_generic q Hq); [by rewrite E|..];
    by eapply Forall_impl; [done|intros c [_ ?]].
Qed.

Lemma held_plain w root rel n : plain_tree w root → holds w.(nodes) root rel n → Forall plain_name rel.
Proof.
  intros Ht [Hne Hl]. destruct rel as [|c rel _] using rev_ind; [done|]. by eapply entry_dir.
Qed.

Lemma elem_of_entries t root len excluded e :
  e ∈ entries_of len excluded (descendants t root) ↔
  ∃ rel n, visited excluded rel = true ∧ holds t root rel n ∧ e = entry_for len rel n.
Proof.
  unfold entries_of. rewrite list_elem_of_fmap. split.
  - intros ([rel n] & -> & [Hv Hin]%list_elem_of_filter). exists rel, n. by rewrite elem_of_descendants in Hin.
  - intros (rel & n & Hv & Hin & ->). exists (rel, n). split; [done|]. apply list_elem_of_filter. by rewrite elem_of_descendants.
Qed.

Lemma same_manifest w1 root1 excluded1 w2 root2 excluded2 len :
  plain_tree w1 root1 → same_entries w1.(nodes) root1 excluded1 w2.(nodes) root2 excluded2 →
  distinct_ids w1.(nodes) root1 excluded1 →
  merge_sort entry_le (entries_of len excluded1 (descendants w1.(nodes) root1)) =
  merge_sort entry_le (entries_of len excluded2 (descendants w2.(nodes) root2)).
Proof.
  intros Ht Hsame Hids. apply sorted_same.
  - intros x y (rel & n & Hv & Hh & ->)%elem_of_entries (rel' & n' & Hv' & Hh' & ->)%elem_of_entries Hkey.
    assert (rel = rel') as <-.
    { destruct Hkey as [Hid|Hname].
      - apply (Hids rel n rel' n'); try done. by destruct n, n'.
      - apply generic_inj; [apply Hh|apply Hh'|by eapply held_plain|by eapply held_plain|by destruct n, n']. }
    destruct Hh as [_ E], Hh' as [_ E']. by rewrite E in E'; injection E' as <-.
  - unfold entries_of. apply fmap_Permutation, NoDup_Permutation;
      [apply NoDup_filter, NoDup_descendants..|]. intros [rel n]. rewrite !list_elem_of_filter, !elem_of_descendants.
    apply Hsame.
Qed.
End exact.
End PlainScan.

(** ** The receiver's answer *)
Module Answer.
Import EntryOrder PlainScan ReceiverApp.

Section answer.
Context {CRC : Crc32c} `{!MapIteration Z path} `{!MapIteration Z T_ReceiverStreamContext.t}
  `{!MapIteration T_ReceiverNetwork.T_HeartbeatKey T_PendingHeartbeat.t}.

Definition disk (s : t) : fsys := s.(coordinator_).(T_ReceiverCoordinator.streams_).(T_ReceiverStreamMap.world).

Lemma on_self {S C A} `{Has S C} (m : M C A) (s : S) a : m (part s) = (a, part s) → on m s = (a, s).
Proof. intros E. unfold on. by rewrite E, set_part_part. Qed.

Lemma on_disk_self {A} (m : M fsys A) s a : m (disk s) = (a, disk s) → on_disk m s = (a, s).
Proof. intros E. by apply on_self, on_self, on_world_self. Qed.

(** A call that leaves the files alone, without faults, leaves the disk alone. *)
Lemma create_directories_there w p : plain_tree w p → or_throw "cannot create directories: " (create_directories p) w = (Ret tt, w).
Proof.
  intros Ht. unfold or_throw, create_directories.
  rewrite (syscall_ok _ w tt); [done|by apply (no_faults _ _ Ht)|].
  assert (∀ made rest, dir_path w.(nodes) (made ++ rest) → make_directories w.(nodes) made rest = Ok w.(nodes)) as H.
  { intros made rest. revert made. induction rest as [|c rest IH]; intros made Hd; [done|]. cbn [make_directories].
    assert (made ++ c :: rest = (made ++ [c]) ++ rest) as E by (by rewrite <- app_assoc). rewrite E in Hd.
    rewrite (status_dir _ _ (dir_path_prefix _ _ _ Hd)). by apply IH. }
  by rewrite (H [] p (root_dir _ _ Ht)).
Qed.

(** *** Where the receiver keeps a sender's directory *)
Lemma mounted_plain root src :
  Forall plain_name src → mounted_source_root root ("/" ++ generic_string src) = root ++ src.
Proof.
  intros Hp. unfold mounted_source_root.
  assert (filter mounted (path_parts ("/" ++ generic_string src)%string) = src) as ->.
  { unfold path_parts. change ("/" ++ generic_string src)%string with ("" ++ "/" ++ generic_string src)%string.
    rewrite split_slash_app by done. destruct src as [|c src]; [done|].
    rewrite split_generic; [|done|by eapply Forall_impl; [done|intros ? [_ ?]]].
    rewrite filter_cons_False by tauto.
    assert (∀ l, Forall plain_name l → filter (λ seg, seg ≠ ""%string) l = l ∧ filter mounted l = l) as Hf.
    { intros l Hl. induction Hl as [|x l [(H1 & H2 & H3 & H4) _] Hl [IH1 IH2]]; [done|].
      rewrite !filter_cons_True by (done || unfold mounted; tauto). by rewrite IH1, IH2. }
    destruct (Hf _ Hp) as [-> Hm]. rewrite bool_decide_eq_false_2.
    - rewrite app_nil_r. change (is_absolute _) with true. cbv match. cbn [app].
      rewrite filter_cons_False by (unfold mounted; tauto). done.
    - intros [_ Hlast]. cbn [last] in Hlast. apply last_Some_elem_of in Hlast.
      rewrite Forall_forall in Hp. by destruct (Hp _ Hlast) as [[? _] _]. }
  case_bool_decide as E; [|done]. by rewrite E, app_nil_r.
Qed.

(** *** The receiver's own manifest *)
Definition receiver_root (s : t) : path := s.(options_).(T_NodeOptions.root).
Definition range_len : Z := 4 * 1024 * 1024.

(** The names that the receiver's scan of a stream leaves out. *)
Definition excluded (dir_names : list string) (stream_id : Z) : list string :=
  if stream_id =? kStreamId then dir_names else [].

(** A stream of the sender, whose directory [src] the receiver keeps below its own. *)
Definition stream_of (s : t) (source : Z * path) (st : T_Manifest1Stream.t) : Prop :=
  st.(T_Manifest1Stream.stream_id) = source.1 ∧ st.(T_Manifest1Stream.root) = ("/" ++ generic_string source.2)%string ∧
  Forall plain_name source.2 ∧ plain_tree (disk s) (receiver_root s ++ source.2).

(** The directories of the streams noted. *)
Definition rooted (s : t) (source : Z * path) : t := (set_stream_root source.1 (receiver_root s ++ source.2) s).2.

Lemma rooted_same s sources :
  let s' := foldl rooted s sources in
  receiver_root s' = receiver_root s ∧ disk s' = disk s ∧ s'.(network_) = s.(network_) ∧ s'.(committed_) = s.(committed_) ∧
  s'.(failed_) = s.(failed_) ∧ s'.(stopped_) = s.(stopped_).
Proof.
  revert s. induction sources as [|source sources IH]; intros s s'; [done|].
  subst s'. cbn [foldl]. by destruct (IH (rooted s source)) as (-> & -> & -> & -> & -> & ->).
Qed.

Lemma scan_streams_exact dir_names sources streams s :
  Forall2 (stream_of s) sources streams →
  scan_streams dir_names streams s =
  (Ret ((λ source, manifest_of (disk s).(nodes) source.1 (receiver_root s ++ source.2) range_len
           (excluded dir_names source.1)) <$> sources), foldl rooted s sources).
Proof.
  intros H. remember (disk s) as w eqn:Ew. remember (receiver_root s) as root eqn:Er.
  assert (∀ source st, stream_of s source st → st.(T_Manifest1Stream.stream_id) = source.1 ∧
    st.(T_Manifest1Stream.root) = ("/" ++ generic_string source.2)%string ∧ Forall plain_name source.2 ∧
    plain_tree w (root ++ source.2)) as Hst by (intros source st Hs; unfold stream_of in Hs; by rewrite <- Ew, <- Er in Hs).
  apply (Forall2_impl _ _ _ _ H) in Hst. clear H. revert s Ew Er.
  induction Hst as [|source st sources streams (Hid & Hroot & Hplain & Htree) Hst IH]; intros s Ew Er; [done|].
  cbn [scan_streams]. rewrite (bind_ret get _ _ _ _ eq_refl), Hid, Hroot.
  rewrite bool_decide_eq_false_2 by (by destruct (generic_string source.2)).
  change (T_NodeOptions.root (options_ s)) with (receiver_root s). rewrite <- Er, mounted_plain by done.
  rewrite (bind_ret (set_stream_root _ _) _ s tt (rooted s source)) by (unfold rooted; by rewrite <- Er).
  destruct (rooted_same s [source]) as (Er' & Ew' & _). cbn [foldl] in Er', Ew'. rewrite <- Ew in Ew'. rewrite <- Er in Er'.
  rewrite (bind_ret _ _ _ tt (rooted s source)) by (apply on_disk_self; rewrite Ew'; by apply create_directories_there).
  rewrite (bind_ret _ _ _ (manifest_of w.(nodes) source.1 (root ++ source.2) range_len (excluded dir_names source.1)) (rooted s source))
    by (apply on_disk_self; rewrite Ew'; by apply scan_exact).
  by rewrite (bind_ret _ _ _ _ _ (IH (rooted s source) (eq_sym Ew') (eq_sym Er'))).
Qed.

(** *** Plans *)
Lemma diff_same stream_id es : diff_stream stream_id es es = Ret None.
Proof.
  rewrite <- (app_nil_r es) at 1 2. rewrite diff_stream_prefix; [done|].
  apply Forall_Forall2_diag, Forall_forall. intros e _. unfold entry_synced, manifest_entries_same_identity,
    manifest_entries_same_content, checksums_equal, bytes_equal.
  assert (∀ A (H : EqDecision A) (x : A), bool_decide (x = x) = true) as Hrefl
    by (intros; by apply bool_decide_eq_true_2).
  rewrite !Hrefl, !Z.eqb_refl. cbn [andb negb].
  case_bool_decide as E; [|done]. by destruct E as [-> | ->].
Qed.

Lemma find_own (f : Z * path → T_Manifest1Stream.t) sources source :
  (∀ source, (f source).(T_Manifest1Stream.stream_id) = source.1) → NoDup sources.*1 → source ∈ sources →
  find_stream source.1 (f <$> sources) = Some (f source).
Proof.
  intros Hf. unfold find_stream. induction sources as [|x sources IH]; intros Hnd Hin; [by apply elem_of_nil in Hin|].
  apply NoDup_cons in Hnd as [Hx Hnd]. cbn. rewrite Hf. apply elem_of_cons in Hin as [->|Hin]; [by rewrite decide_True|].
  rewrite decide_False.
  - specialize (IH Hnd Hin). by destruct (list_find _ _) as [[]|].
  - intros E. apply Hx. rewrite E. by apply list_elem_of_fmap_2.
Qed.

Definition in_sync (source : Z * path) : T_Manifest2Stream.t :=
  T_Manifest2Stream.mk source.1 EM_Manifest2Action.IN_SYNC 0 0.

Lemma plan_in_sync receiver sources streams :
  Forall2 (λ source st, st.(T_Manifest1Stream.stream_id) = source.1 ∧
    T_Manifest1Stream.entries <$> find_stream source.1 receiver = Some st.(T_Manifest1Stream.entries)) sources streams →
  plan_streams receiver streams = inr (in_sync <$> sources).
Proof.
  induction 1 as [|source st sources streams [Hid Hfind] _ IH]; [done|]. cbn [plan_streams]. rewrite Hid.
  destruct (find_stream source.1 receiver) as [r|]; [|done]. injection Hfind as Hr. cbn [from_option]. by rewrite Hr, diff_same, IH.
Qed.

(** The sender's directory [source] on the disk [ws] and the receiver's copy of it. *)
Record copied (ws : fsys) (s : t) (dir_names : list string) (source : Z * path) : Prop := {
  plain_source : Forall plain_name source.2;
  source_tree : plain_tree ws source.2;
  copy_tree : plain_tree (disk s) (receiver_root s ++ source.2);
  copy_same : same_entries ws.(nodes) source.2 [] (disk s).(nodes) (receiver_root s ++ source.2) (excluded dir_names source.1);
  source_ids : distinct_ids ws.(nodes) source.2 []
}.

Lemma answer_in_sync line manifest1 sources ws s roots :
  let s0 := set_committed false s in
  Forall2 (λ source st, scan_manifest_stream no_regex source.1 source.2 range_len [] "" ws = (Ret st, ws))
    sources manifest1.(T_Manifest1.streams) →
  NoDup sources.*1 → manifest_roots s0 = (Ret roots, s0) →
  Forall (copied ws s (stream_dir_names manifest1 roots)) sources →
  apply_manifest1 line manifest1 s =
    send_message line (M_Manifest2 (T_Manifest2.mk manifest1.(T_Manifest1.manifest_id) (in_sync <$> sources)))
      (foldl rooted s0 sources).
Proof.
  intros s0 Hscan Hnd Hroots Hcopied. set (dir_names := stream_dir_names manifest1 roots) in *.
  set (f := λ source : Z * path, manifest_of (disk s).(nodes) source.1 (receiver_root s ++ source.2) range_len
              (excluded dir_names source.1)).
  assert (Forall2 (λ source st, stream_of s0 source st ∧ source ∈ sources ∧
    st.(T_Manifest1Stream.entries) = (f source).(T_Manifest1Stream.entries)) sources (T_Manifest1.streams manifest1)) as Hst.
  { apply Forall2_same_length_lookup_2; [by eapply Forall2_length|]. intros i source st Hi Hj.
    pose proof (Forall2_lookup_lr _ _ _ _ _ _ Hscan Hi Hj) as Hsc. pose proof (Forall_lookup_1 _ _ _ _ Hcopied Hi) as [H1 H2 H3 H4 H5].
    cbn beta in Hsc. rewrite scan_exact in Hsc by done. injection Hsc as <-. split_and!; try done.
    - by eapply list_elem_of_lookup_2.
    - cbn. f_equal. by apply (same_manifest ws source.2 [] (disk s)). }
  unfold apply_manifest1. rewrite (bind_ret (modify _) _ s tt s0) by done.
  rewrite (bind_ret _ _ s0 (T_Manifest1.mk manifest1.(T_Manifest1.manifest_id) (f <$> sources)) (foldl rooted s0 sources)).
  - cbn [T_Manifest1.streams]. rewrite (plan_in_sync _ sources); [done|]. eapply Forall2_impl; [exact Hst|].
    intros source st ((Hid & _) & Hin & He). split; [done|]. cbn beta. rewrite (find_own f sources source) by done. cbn. by rewrite He.
  - unfold receiver_manifest_for_manifest1. rewrite (bind_ret _ _ _ _ _ Hroots).
    rewrite (bind_ret _ _ _ _ _ (scan_streams_exact dir_names sources (T_Manifest1.streams manifest1) s0
      (Forall2_impl _ _ _ _ Hst (λ _ _ H, proj1 H)))). done.
Qed.
End answer.
End Answer.

(** ** The sender on that answer *)
Module SenderInSync.
Import SenderApp.

Section sender.
Context {CRC : Crc32c} `{!MapIteration T_SendBufferKey.t T_BufferedSend.t}.
Context (regex : string → exc (string → bool)) (lost_callback : list T_LostSend.t → M t unit) (loop_fuel : SenderApp.limit).

(** A stream whose manifest waits for its answer, and one that has nothing to send. *)
Definition waiting (st : T_StreamSendState.t) : Prop :=
  st.(T_StreamSendState.manifest_applied) = false ∧ st.(T_StreamSendState.complete) = false.
Definition synced (st : T_StreamSendState.t) : T_StreamSendState.t :=
  T_StreamSendState.set_progress (zlen st.(T_StreamSendState.tasks)) true true false st.

(** The application at the end. *)
Definition finished (s : t) : t :=
  set_loop true s.(later_) (set_network (T_SenderNetwork.stop s.(network_)) (set_done true s)).

Definition answered (m2 : T_Manifest2.t) (st : T_StreamSendState.t) : Prop :=
  waiting st ∧ ∃ i plan,
    list_find (λ c, c.(T_Manifest2Stream.stream_id) = st.(T_StreamSendState.stream_id)) m2.(T_Manifest2.streams) = Some (i, plan) ∧
    plan.(T_Manifest2Stream.action) = EM_Manifest2Action.IN_SYNC.

Lemma apply_answered m2 st :
  answered m2 st → apply_manifest2_to_stream m2 st = (Ret (Some T_Manifest2ApplyResult.in_sync_result), synced st).
Proof.
  intros ([Ha Hc] & i & plan & Hf & Hs). unfold apply_manifest2_to_stream. rewrite (bind_ret get _ _ _ _ eq_refl), Ha, Hc.
  cbn [orb]. rewrite Hf, Hs, bool_decide_eq_true_2 by done. by rewrite (bind_ret (modify _) _ st tt (synced st)).
Qed.

Lemma apply_streams_in_sync m2 s pre post :
  Forall (answered m2) post → s.(failed_) = false → s.(done_) = false → s.(options_).(T_NodeOptions.watch) = false →
  let s1 := set_streams (synced <$> (pre ++ post)) s in
  apply_streams regex lost_callback m2 (seq (length pre) (length post)) (set_streams ((synced <$> pre) ++ post) s) =
  (Ret true, if bool_decide (post = []) then s1 else finished s1).
Proof.
  intros Hpost Hf Hd Hw. revert pre. induction Hpost as [|st post Hst Hpost IH]; intros pre; cbn zeta.
  { rewrite bool_decide_eq_true_2 by done. by rewrite !app_nil_r. }
  rewrite bool_decide_eq_false_2 by done. cbn [length seq apply_streams].
  set (s0 := set_streams ((synced <$> pre) ++ st :: post) s).
  set (s1 := set_streams ((synced <$> pre) ++ synced st :: post) s).
  set (s2 := if bool_decide (post = []) then finished s1 else s1).
  assert (apply_manifest2_stream regex lost_callback m2 (length pre) s0 = (Ret tt, s2)) as Hstep.
  { unfold apply_manifest2_stream. rewrite (bind_ret _ _ _ st s0).
    2:{ unfold stream_at, s0. cbn. by rewrite lookup_app_r, length_fmap, Nat.sub_diag by (by rewrite length_fmap). }
    rewrite apply_answered by done. rewrite (bind_ret _ _ _ tt s1).
    2:{ unfold update_stream, modify, s0, s1. cbn. f_equal. unfold set_streams. f_equal.
        rewrite <- (Nat.add_0_r (length pre)), <- (length_fmap synced pre). by rewrite alter_app_r. }
    cbn [T_Manifest2ApplyResult.in_sync T_Manifest2ApplyResult.in_sync_result].
    unfold check_all_done. rewrite (bind_ret get _ _ _ _ eq_refl). change (failed_ s1) with (failed_ s).
    change (done_ s1) with (done_ s). change (streams_ s1) with ((synced <$> pre) ++ synced st :: post).
    rewrite Hf, Hd. cbn [orb]. rewrite bool_decide_eq_false_2 by (intros E; by apply app_nil in E as [_ E]).
    rewrite forallb_app. cbn [forallb andb]. assert (forallb T_StreamSendState.complete (synced <$> pre) = true) as ->.
    { clear. induction pre; [done|]. by cbn. }
    change (T_StreamSendState.complete (synced st)) with true. cbn [andb]. unfold s2. destruct post as [|st' post]; [|rewrite bool_decide_eq_false_2 by done].
    - cbn [forallb negb]. rewrite (bind_ret (modify _) _ s1 tt (set_done true s1)) by done.
      change (options_ s1) with (options_ s). rewrite Hw. cbn [negb]. by rewrite bool_decide_eq_true_2.
    - apply Forall_inv in Hpost as [[_ Hc] _]. cbn [forallb]. by rewrite Hc. }
  rewrite (bind_ret _ _ _ _ _ Hstep), (bind_ret get _ _ _ _ eq_refl).
  assert (failed_ s2 = false) as -> by (unfold s2; by case_bool_decide).
  assert (synced <$> (pre ++ st :: post) = (synced <$> (pre ++ [st]) ++ post)) as Eall by (by rewrite <- app_assoc).
  assert ((synced <$> pre) ++ synced st :: post = (synced <$> (pre ++ [st])) ++ post) as E1 by (by rewrite fmap_app, <- app_assoc).
  unfold s2. destruct post as [|st' post].
  - rewrite bool_decide_eq_true_2 by done. cbn [length seq apply_streams]. unfold s1. by rewrite Eall, E1, !app_nil_r.
  - rewrite bool_decide_eq_false_2 by done. unfold s1. rewrite E1, Eall.
    specialize (IH (pre ++ [st])). rewrite length_app in IH. cbn [length] in IH. rewrite Nat.add_1_r in IH.
    cbn [length]. rewrite IH. by rewrite bool_decide_eq_false_2.
Qed.

(** Every stream in sync: the sender is done. *)
Lemma manifest2_in_sync m2 s :
  Forall (answered m2) s.(streams_) → s.(streams_) ≠ [] → s.(failed_) = false → s.(done_) = false →
  s.(options_).(T_NodeOptions.watch) = false →
  on_manifest2 regex lost_callback loop_fuel m2 s = (Ret tt, finished (set_streams (synced <$> s.(streams_)) s)).
Proof.
  intros Hst Hne Hf Hd Hw. unfold on_manifest2. rewrite (bind_ret get _ _ _ _ eq_refl).
  pose proof (apply_streams_in_sync m2 s [] (streams_ s) Hst Hf Hd Hw) as H. cbn [length fmap list_fmap app] in H.
  rewrite bool_decide_eq_false_2 in H by done. assert (set_streams (streams_ s) s = s) as Es by (by destruct s).
  rewrite Es in H. rewrite (bind_ret _ _ _ _ _ H). unfold schedule_work. by rewrite (bind_ret get _ _ _ _ eq_refl), orb_true_r.
Qed.
End sender.
End SenderInSync.

(** * The property *)
Import ReceiverApp PlainScan Answer SenderInSync.

Section property.
Context {CRC : Crc32c} `{!MapIteration Z path} `{!MapIteration Z T_ReceiverStreamContext.t}
  `{!MapIteration T_ReceiverNetwork.T_HeartbeatKey T_PendingHeartbeat.t} `{!MapIteration T_SendBufferKey.t T_BufferedSend.t}.

(** C7: a sender and a receiver that agree stop without sending a file.  When the
    receiver holds, below its root, a copy of each directory of the sender (its
    own working directory and those of other streams apart), it answers the
    sender's manifest with [IN_SYNC] for every stream and touches nothing on its
    disk; and on that answer the sender is done, with 0 as its exit code. *)
Theorem copied_tree_in_sync regex lost_callback loop_fuel line manifest_id sources ws (sender : SenderApp.t) (receiver : t) roots :
  let manifest1 := manifest1_from_streams manifest_id sender.(SenderApp.streams_) in
  let receiver0 := set_committed false receiver in
  Forall2 (λ source st, st.(T_StreamSendState.stream_id) = source.1 ∧ waiting st ∧
    scan_manifest_stream no_regex source.1 source.2 (4 * 1024 * 1024) [] "" ws = (Ret st.(T_StreamSendState.source_manifest), ws))
    sources sender.(SenderApp.streams_) →
  sources ≠ [] → NoDup sources.*1 → manifest_roots receiver0 = (Ret roots, receiver0) →
  Forall (copied ws receiver (stream_dir_names manifest1 roots)) sources →
  sender.(SenderApp.failed_) = false → sender.(SenderApp.done_) = false →
  sender.(SenderApp.options_).(T_NodeOptions.watch) = false →
  ∃ manifest2 receiver' sender',
    apply_manifest1 line manifest1 receiver = send_message line (M_Manifest2 manifest2) receiver' ∧
    manifest2.(T_Manifest2.manifest_id) = manifest_id ∧
    disk receiver' = disk receiver ∧ receiver'.(network_) = receiver.(network_) ∧ receiver'.(failed_) = receiver.(failed_) ∧
    SenderApp.on_manifest2 regex lost_callback loop_fuel manifest2 sender = (Ret tt, sender') ∧
    sender'.(SenderApp.done_) = true ∧ sender'.(SenderApp.stopped_) = true ∧ SenderApp.exit_code sender' = 0 ∧
    sender'.(SenderApp.send_buffer_) = sender.(SenderApp.send_buffer_).
Proof.
  intros manifest1 receiver0 Hst Hne Hnd Hroots Hcopied Hf Hd Hw.
  destruct (rooted_same receiver0 sources) as (_ & Hdisk & Hnet & _ & Hfailed & _).
  exists (T_Manifest2.mk manifest_id (in_sync <$> sources)), (foldl rooted receiver0 sources),
    (finished (SenderApp.set_streams (synced <$> sender.(SenderApp.streams_)) sender)).
  split; [|split; [done|]; split; [done|]; split; [done|]; split; [done|]; split; [|unfold SenderApp.exit_code; cbn; by rewrite Hf]].
  - apply (answer_in_sync line manifest1 sources ws receiver roots); [|done..]. subst manifest1. cbn.
    apply Forall2_fmap_r. eapply Forall2_impl; [exact Hst|]. by intros source st (_ & _ & H).
  - apply manifest2_in_sync; [|by intros E; rewrite E in Hst; apply Forall2_nil_inv_r in Hst|done..].
    apply Forall_forall. intros st [i Hi]%list_elem_of_lookup.
    destruct (Forall2_lookup_r _ _ _ _ _ Hst Hi) as (source & Hsource & Hid & Hwait & _). split; [done|].
    exists i, (in_sync source). split; [|done]. apply list_find_Some. cbn. split; [by rewrite list_lookup_fmap, Hsource|].
    split; [done|]. intros j plan Hj Hlt E. rewrite list_lookup_fmap in Hj.
    destruct (sources !! j) as [source'|] eqn:Ej; [|done]. injection Hj as <-. cbn in E.
    assert (i = j) as ->; [|lia]. apply (NoDup_lookup _ _ _ source.1 Hnd); rewrite list_lookup_fmap; [by rewrite Hsource|].
    rewrite Ej. cbn. congruence.
Qed.
End property.

(** * A sender and a receiver with the same two files *)
Lemma plain_tree_intro w root :
  w.(faults) = [] → dir_path w.(nodes) root →
  map_Forall (λ p n, root `prefix_of` p → p = root ∨
    dir_path w.(nodes) (removelast p) ∧ Forall plain_name (drop (length root) p) ∧
    (∀ data, n = File data → zlen data < 9223372036854775808)) w.(nodes) → plain_tree w root.
Proof.
  intros Hf Hd Hall. split; [done|done| |].
  - intros rel c n Hn. destruct (Hall _ _ Hn (prefix_app_r _ _ _ (reflexivity root))) as [E|(H1 & H2 & _)].
    + exfalso. apply (f_equal length) in E. rewrite !length_app in E. cbn in E. lia.
    + rewrite app_assoc, removelast_last in H1. by rewrite drop_app_length in H2.
  - intros rel data [Hne Hn]. destruct (Hall _ _ Hn (prefix_app_r _ _ _ (reflexivity root))) as [E|(_ & _ & H3)]; [|by apply H3].
    exfalso. apply Hne, (app_inv_head root). by rewrite app_nil_r.
Qed.

Lemma same_entries_intro t1 root1 excluded1 t2 root2 excluded2 :
  filter (λ e, visited excluded1 e.1 = true) (descendants t1 root1) ≡ₚ
  filter (λ e, visited excluded2 e.1 = true) (descendants t2 root2) →
  same_entries t1 root1 excluded1 t2 root2 excluded2.
Proof.
  intros Hp rel n. pose proof (elem_of_Permutation_proper (rel, n) _ _ Hp) as H.
  by rewrite !list_elem_of_filter, !elem_of_descendants in H.
Qed.

Lemma distinct_ids_intro t root excluded :
  NoDup ((λ e : path * node, entry_id (node_kind e.2) (generic_string e.1)) <$> descendants t root) →
  distinct_ids t root excluded.
Proof.
  intros Hnd rel n rel' n' _ _ H1%elem_of_descendants H2%elem_of_descendants E.
  apply list_elem_of_lookup in H1 as [i Hi], H2 as [j Hj].
  assert (i = j) as ->; [|congruence].
  eapply (NoDup_lookup _ _ _ _ Hnd); rewrite list_lookup_fmap; [by rewrite Hi|rewrite Hj; exact (f_equal Some (eq_sym E))].
Qed.

Section witnesses.
#[local] Existing Instance crc_ref_impl.
#[local] Existing Instance some_order.

(** The sender's directory, and the receiver's with a copy of it and a working
    directory of its own. *)
Definition sample_source : fsys :=
  mk_fsys (list_to_map [(["data"], Dir); (["data"; "a"], File [x01; x02]); (["data"; "sub"], Dir);
    (["data"; "sub"; "b"], File [x03])]) [].
Definition sample_copy : fsys :=
  mk_fsys (list_to_map [(["r"], Dir); (["r"; "data"], Dir); (["r"; "data"; "a"], File [x01; x02]); (["r"; "data"; "sub"], Dir);
    (["r"; "data"; "sub"; "b"], File [x03]); (["r"; "data"; ".yisync_tmp"], Dir)]) [].

Definition sample_options (root source_root : path) : T_NodeOptions.t :=
  let d := T_NodeOptions.defaults ["tmp"] in
  T_NodeOptions.mk "" d.(T_NodeOptions.host) d.(T_NodeOptions.base_port) 1 3 root source_root 0 [] []
    [T_LineEndpoint.mk 1 EM_Protocol.TCP (Endpoint.mk "127.0.0.1" 19000) "line"] []
    EM_Compression.NONE EM_ChecksumAlgo.CRC32C kLineWindowBytes 65536 300 100 5 3 64 20 100 2000 50 2 false
    EM_WatchBackend.AUTO 500 200.

Definition sample_sender : exc SenderApp.t * fsys :=
  SenderApp.create no_regex (sample_options [] ["data"]) sample_source.
Definition sample_receiver : t := ReceiverApp.create (sample_options ["r"] []) sample_copy.
Definition sample_roots : list (Z * path) := [(kStreamId, ["r"])].

Lemma sample_source_tree : plain_tree sample_source ["data"].
Proof.
  assert (dir_path sample_source.(nodes) ["data"]) as Hd by (by apply (dir_path_snoc _ [] "data"); [apply dir_path_nil|..]).
  assert (dir_path sample_source.(nodes) ["data"; "sub"]) as Hs by (by apply (dir_path_snoc _ ["data"] "sub")).
  apply plain_tree_intro; [done|done|].
  repeat (apply map_Forall_insert_2; [intros _; first [by left|right; split_and!; [done|by repeat constructor|by intros data [= <-]]]|]).
  apply map_Forall_empty.
Qed.

Lemma sample_copy_tree : plain_tree sample_copy ["r"; "data"].
Proof.
  assert (dir_path sample_copy.(nodes) ["r"]) as Hr by (by apply (dir_path_snoc _ [] "r"); [apply dir_path_nil|..]).
  assert (dir_path sample_copy.(nodes) ["r"; "data"]) as Hd by (by apply (dir_path_snoc _ ["r"] "data")).
  assert (dir_path sample_copy.(nodes) ["r"; "data"; "sub"]) as Hs by (by apply (dir_path_snoc _ ["r"; "data"] "sub")).
  apply plain_tree_intro; [done|done|].
  repeat (apply map_Forall_insert_2; [intros Hp; first [by left|by destruct Hp as [? Hp]|
    right; split_and!; [done|by repeat constructor|by intros data [= <-]]]|]).
  apply map_Forall_empty.
Qed.

Lemma sample_copied dir_names : dir_names = [] → copied sample_source sample_receiver dir_names (kStreamId, ["data"]).
Proof.
  intros ->. split; [by repeat constructor|exact sample_source_tree|exact sample_copy_tree| |].
  - apply same_entries_intro. apply (bool_decide_unpack _). vm_compute. exact I.
  - apply distinct_ids_intro. apply (bool_decide_unpack _). vm_compute. exact I.
Qed.

Lemma copied_tree_in_sync_witness :
  ∃ sender manifest2 receiver' sender',
    sample_sender = (Ret sender, sample_source) ∧
    apply_manifest1 1 (manifest1_from_streams 5 sender.(SenderApp.streams_)) sample_receiver =
      send_message 1 (M_Manifest2 manifest2) receiver' ∧
    SenderApp.on_manifest2 no_regex (λ _, mret tt) 10%nat manifest2 sender = (Ret tt, sender') ∧ SenderApp.exit_code sender' = 0.
Proof.
  destruct sample_sender as [[sender|e] w] eqn:E; [|vm_compute in E; discriminate].
  assert (w = sample_source ∧ SenderApp.failed_ sender = false ∧ SenderApp.done_ sender = false ∧
    T_NodeOptions.watch (SenderApp.options_ sender) = false ∧
    ∃ st, SenderApp.streams_ sender = [st] ∧ st.(T_StreamSendState.stream_id) = kStreamId ∧ waiting st ∧
      scan_manifest_stream no_regex kStreamId ["data"] (4 * 1024 * 1024) [] "" sample_source =
        (Ret st.(T_StreamSendState.source_manifest), sample_source) ∧
      stream_dir_names (manifest1_from_streams 5 [st]) sample_roots = [])
    as (-> & Hf & Hd & Hw & st & Hst & Hid & Hwait & Hscan & Hnames).
  { vm_compute in E. injection E as <- <-. split_and!; try (vm_compute; reflexivity).
    eexists. split; [reflexivity|]. split; [reflexivity|]. split; [split; reflexivity|]. split; vm_compute; reflexivity. }
  destruct (copied_tree_in_sync no_regex (λ _, mret tt) 10%nat 1 5 [(kStreamId, ["data"])] sample_source sender sample_receiver sample_roots)
    as (manifest2 & receiver' & sender' & H1 & _ & _ & _ & _ & H2 & _ & _ & H3 & _).
  - rewrite Hst. constructor; [|constructor]. split; [exact Hid|]. split; [exact Hwait|exact Hscan].
  - discriminate.
  - apply NoDup_singleton.
  - vm_compute. reflexivity.
  - constructor; [|constructor]. apply sample_copied. rewrite Hst. exact Hnames.
  - exact Hf.
  - exact Hd.
  - exact Hw.
  - exists sender, manifest2, receiver', sender'. split; [reflexivity|]. split; [exact H1|]. split; [exact H2|exact H3].
Defined.
End witnesses.
