(* ===== verification/SenderTruth.v ===== *)
(** * What the sender puts on its lines is true

    Every message that a run of [SenderApp] hands to a connection says of a file
    what the source holds: the bytes of a range of it, its size, its checksum.
    These are the messages that the receiver's transfers start from. *)
From S2P Require Import Prelude Hoare Crc32c Filesystem Wire Protocol Framing Sync Scheduler Source ChunkResend.
From S2P Require Import ReceiverPaths AppendReceiver ChunkReceiver AppendState SendBuffer SenderPlan Network NodeCommon SenderApp.
From S2P Require Import SenderRun SenderEnds ManifestAgreement.
From stdpp Require Import sorting.
From Stdlib Require Import Ascii.
#[local] Open Scope Z_scope.

(** ** What is on the lines *)
Module OnLines.
Section messages.
(** What holds of every message. *)
Context (ok : T_Message → Prop).

(** The bytes handed to the kernel, with those that wait, are frames of such
    messages. *)
Definition conn_carries (c : conn) : Prop :=
  ∃ ms, Forall ok ms ∧
    c.(AsyncFrameConnection.sent_) ++ WriteFacts.pending c.(AsyncFrameConnection.write_queue_) = FramingFacts.frames ms.

Definition line_carries (line : SenderLine.t) : Prop :=
  match line.(SenderLine.connection) with Some c => conn_carries c | None => True end.
Definition lines_carry (l : T_SenderLineSet.t) : Prop := Forall line_carries l.(T_SenderLineSet.lines_).

(** The network: its lines, the messages that wait for one, and its greeting. *)
Definition net_carries (n : T_SenderNetwork.t) : Prop :=
  lines_carry n.(T_SenderNetwork.lines_) ∧
  Forall (λ c, ok c.(T_ControlMessage.message)) n.(T_SenderNetwork.control_queue_) ∧
  ok (M_Hello n.(T_SenderNetwork.local_hello_)).

Lemma conn_same c c' :
  c'.(AsyncFrameConnection.sent_) = c.(AsyncFrameConnection.sent_) →
  c'.(AsyncFrameConnection.write_queue_) = c.(AsyncFrameConnection.write_queue_) → conn_carries c → conn_carries c'.
Proof. unfold conn_carries. by intros -> ->. Qed.

Lemma update_watch_same c :
  (AsyncFrameConnection.update_watch c).(AsyncFrameConnection.sent_) = c.(AsyncFrameConnection.sent_) ∧
  (AsyncFrameConnection.update_watch c).(AsyncFrameConnection.write_queue_) = c.(AsyncFrameConnection.write_queue_).
Proof.
  unfold AsyncFrameConnection.update_watch. destruct (AsyncFrameConnection.closed c); [done|].
  by destruct (AsyncFrameConnection.loop_ c).
Qed.

Lemma conn_send m c c' : AsyncFrameConnection.send m c = Ret c' → ok m → conn_carries c → conn_carries c'.
Proof.
  unfold AsyncFrameConnection.send. destruct (AsyncFrameConnection.closed c); [done|]. intros [= <-] Hm (ms & Hms & E).
  match goal with |- conn_carries (AsyncFrameConnection.update_watch ?c1) =>
    eapply (conn_same c1); [apply update_watch_same..|] end.
  exists (ms ++ [m]). split; [by apply Forall_app; split; [|constructor]|].
  cbn [AsyncFrameConnection.sent_ AsyncFrameConnection.write_queue_ AsyncFrameConnection.set_write_queue].
  rewrite WriteFacts.pending_app, app_assoc, E. unfold FramingFacts.frames. rewrite fmap_app, concat_app.
  cbn. by rewrite app_nil_r.
Qed.

Lemma conn_start loop c c' : AsyncFrameConnection.start loop c = Ret c' → conn_carries c → conn_carries c'.
Proof.
  unfold AsyncFrameConnection.start. destruct (AsyncFrameConnection.closed c); [done|].
  destruct (EventLoop.watch_fd _ _ _ _) as [[?|] ?]; [|done]. intros [= <-] Hc.
  match goal with |- conn_carries (AsyncFrameConnection.update_watch ?c1) =>
    eapply (conn_same c1); [apply update_watch_same..|] end.
  by eapply conn_same; [| |exact Hc].
Qed.

(** *** The lines *)
Import T_SenderLineSet.

Lemma carries_update id f : (∀ l, line_carries l → line_carries (f l)) → keeps lines_carry (update id f).
Proof.
  intros Hf s r s' Hs Hr. unfold update in Hr. destruct (find_index id s) as [[i line]|]; injection Hr as <- <-; [|done].
  apply Forall_alter; [exact Hs|]. auto.
Qed.
Lemma carries_find_line id : keeps lines_carry (find id).
Proof. intros s r s' Hs Hr. unfold find in Hr. by destruct (find_index id s) as [[]|]; injection Hr as <- <-. Qed.
Lemma gives_find_line id : gives lines_carry (find id) line_carries.
Proof.
  intros s r s' Hs Hr. unfold find in Hr. destruct (find_index id s) as [[i line]|] eqn:E; injection Hr as <- <-; [|done].
  split; [done|]. apply list_find_Some in E as (E & _ & _). by eapply Forall_lookup_1.
Qed.
Lemma carries_request_loop r : keeps lines_carry (modify (request r)).
Proof. by apply keeps_modify. Qed.
#[local] Hint Extern 1 (keeps _ (update _ _)) => apply carries_update; done : keeps.
#[local] Hint Resolve carries_find_line carries_request_loop : keeps.

Lemma carries_reconnect id : keeps lines_carry (schedule_reconnect id).
Proof. unfold schedule_reconnect. solve_keeps. Qed.
Lemma carries_connect id : keeps lines_carry (connect id).
Proof. unfold connect. solve_keeps. Qed.
#[local] Hint Resolve carries_connect : keeps.
Lemma carries_start_all : keeps lines_carry start_all.
Proof. unfold start_all. solve_keeps. induction (lines_ _); cbn; solve_keeps. Qed.
Lemma carries_timer id : keeps lines_carry (reconnect_timer id).
Proof. unfold reconnect_timer. solve_keeps. Qed.
Lemma carries_can_send_line id : keeps lines_carry (can_send_line id).
Proof. unfold can_send_line. solve_keeps. Qed.

Lemma carries_set_connection id c : conn_carries c → keeps lines_carry (update id (SenderLine.set_connection (Some c))).
Proof. intros Hc. by apply carries_update. Qed.

Lemma carries_send_line id m : ok m → keeps lines_carry (send id m).
Proof.
  intros Hm. unfold send. apply (keeps_given _ _ _ line_carries); [apply gives_find_line|]. intros line Hl. unfold line_carries in Hl. destruct (SenderLine.connection line) as [c|]; [|apply keeps_throw].
  destruct (AsyncFrameConnection.closed c); [apply keeps_throw|].
  destruct (AsyncFrameConnection.send m c) as [c'|e] eqn:E; cbn; [|apply keeps_throw].
  apply carries_set_connection. by eapply conn_send.
Qed.
End messages.
#[export] Hint Resolve carries_reconnect carries_start_all carries_timer carries_can_send_line : keeps.

(** *** The network, in a state that holds it *)
Section network.
Context {St : Type} `{HasNet : Has St T_SenderNetwork.t} (ok : T_Message → Prop) (I : St → Prop).
Context (I_part : ∀ s, I s → net_carries ok (part s)).
Context (I_set : ∀ n s, I s → net_carries ok n → I (set_part (n : T_SenderNetwork.t) s)).
Context (message_callback_ : Z → T_Message → M St unit) (connected_callback_ : Z → M St unit)
  (lost_send_callback_ : list T_LostSend.t → M St unit).
Context (lost_keeps : ∀ l, keeps I (lost_send_callback_ l)).
#[local] Hint Resolve lost_keeps : keeps.

Lemma carries_net {A} (m : M T_SenderNetwork.t A) : keeps (net_carries ok) m → keeps I (on m).
Proof. by apply keeps_on_part. Qed.

Lemma carries_net_scheduler {A} (m : M T_MultiLineScheduler.t A) :
  keeps I (on (C := T_SenderNetwork.t) (on (H := T_SenderNetwork.has_scheduler) m)).
Proof. apply carries_net, keeps_on. by intros c s (? & ? & ?). Qed.

Lemma carries_net_lines {A} (m : M T_SenderLineSet.t A) :
  keeps (lines_carry ok) m → keeps I (on (H := T_SenderNetwork.state_has_lines) m).
Proof.
  apply keeps_on_part; [intros s HI; by apply (I_part s)|]. intros l s HI Hl. apply I_set; [done|].
  destruct (I_part s HI) as (_ & ? & ?). done.
Qed.

Lemma carries_modify_net (f : St → T_SenderNetwork.t) :
  (∀ s, net_carries ok (part s) → net_carries ok (f s)) → keeps I (modify (λ s, set_part (f s) s)).
Proof. intros Hf. apply keeps_modify. auto. Qed.
#[local] Hint Extern 1 (keeps _ (modify (λ s, set_part _ s))) => apply carries_modify_net; intros ? (? & ? & ?); done : keeps.
#[local] Hint Extern 1 (keeps _ (modify (set_part _))) =>
  apply carries_modify_net; intros ? _; match goal with H : I ?s |- _ => destruct (I_part s H) as (? & ? & ?); done end : keeps.
#[local] Hint Extern 1 (keeps _ (on (C := T_SenderNetwork.t) (on _))) => apply carries_net_scheduler : keeps.
#[local] Hint Extern 1 (keeps _ (T_SenderNetwork.can_send _)) => apply carries_net_lines; auto with keeps : keeps.
#[local] Hint Extern 1 (keeps _ (on (H := T_SenderNetwork.state_has_lines) (T_SenderLineSet.schedule_reconnect _))) =>
  apply carries_net_lines; auto with keeps : keeps.

Lemma carries_line_send id m : ok m → keeps I (T_SenderNetwork.line_send id m).
Proof. intros Hm. by apply carries_net_lines, carries_send_line. Qed.

Lemma carries_emit : keeps I (T_SenderNetwork.emit_lost_sends lost_send_callback_).
Proof. unfold T_SenderNetwork.emit_lost_sends. solve_keeps. Qed.
#[local] Hint Resolve carries_emit : keeps.
Lemma carries_unavailable id b : keeps I (T_SenderNetwork.handle_unavailable lost_send_callback_ id b).
Proof. unfold T_SenderNetwork.handle_unavailable. solve_keeps. Qed.
#[local] Hint Resolve carries_unavailable : keeps.

Lemma carries_mark_with (close : Z → M St unit) id :
  keeps I (close id) → keeps I (T_SenderLineSet.mark_unavailable_with (H := T_SenderNetwork.state_has_lines)
    (T_SenderNetwork.handle_unavailable lost_send_callback_) close id).
Proof.
  intros Hc. unfold T_SenderLineSet.mark_unavailable_with. solve_keeps.
  all: apply carries_net_lines; (apply carries_find_line || by apply carries_update).
Qed.
Lemma carries_close id : keeps I (T_SenderLineSet.on_close (H := T_SenderNetwork.state_has_lines)
  (T_SenderNetwork.handle_unavailable lost_send_callback_) id).
Proof. unfold T_SenderLineSet.on_close. solve_keeps. apply carries_mark_with, keeps_throw. Qed.
Lemma carries_mark id : keeps I (T_SenderNetwork.mark_unavailable lost_send_callback_ id).
Proof. apply carries_mark_with, carries_close. Qed.
#[local] Hint Resolve carries_mark : keeps.

Lemma carries_flush_one : keeps I (T_SenderNetwork.flush_one_control lost_send_callback_).
Proof.
  unfold T_SenderNetwork.flush_one_control. apply keeps_gets. intros s HI. destruct (I_part s HI) as (_ & Hq & _).
  destruct (T_SenderNetwork.control_queue_ (part s)) as [|control queue]; [apply keeps_ret|].
  apply Forall_inv in Hq as Hc. pose proof (λ id, carries_line_send id _ Hc). solve_keeps.
  apply carries_modify_net. intros s' (Hl & Hq' & Hh). split; [done|]. split; [|done]. by apply Forall_tail.
Qed.
#[local] Hint Resolve carries_flush_one : keeps.
Lemma carries_flush : keeps I (T_SenderNetwork.flush_controls lost_send_callback_).
Proof.
  unfold T_SenderNetwork.flush_controls. apply keeps_gets. intros s _.
  induction (S (length _)) as [|fuel IH]; cbn; solve_keeps.
Qed.
#[local] Hint Resolve carries_flush : keeps.

Lemma carries_send m r : ok m → keeps I (T_SenderNetwork.send lost_send_callback_ m r).
Proof. intros Hm. pose proof (λ id, carries_line_send id m Hm). unfold T_SenderNetwork.send. solve_keeps. Qed.
Lemma carries_control m label : ok m → keeps I (T_SenderNetwork.send_control lost_send_callback_ m label).
Proof.
  intros Hm. unfold T_SenderNetwork.send_control. solve_keeps. apply carries_modify_net. intros s (Hl & Hq & Hh).
  split; [done|]. split; [|done]. by apply Forall_app; split; [|constructor].
Qed.
Lemma carries_refill_lines ticks : keeps I (T_SenderNetwork.refill_ticks lost_send_callback_ ticks).
Proof.
  unfold T_SenderNetwork.refill_ticks. solve_keeps. induction (T_SenderNetwork.snapshots _); cbn; solve_keeps.
Qed.
Lemma carries_connected id : keeps I (T_SenderNetwork.handle_connected id).
Proof.
  unfold T_SenderNetwork.handle_connected. solve_keeps. apply carries_line_send.
  match goal with H : I ?s |- _ => by destruct (I_part s H) as (_ & _ & ?) end.
Qed.

Context (connected_keeps : ∀ id, keeps I (connected_callback_ id)).
#[local] Hint Resolve connected_keeps : keeps.
Lemma carries_error id : keeps I (T_SenderNetwork.protocol_error lost_send_callback_ id).
Proof. unfold T_SenderNetwork.protocol_error. solve_keeps. Qed.
#[local] Hint Resolve carries_error : keeps.
Lemma carries_incoming id m :
  keeps I (message_callback_ id m) →
  keeps I (T_SenderNetwork.handle_message message_callback_ connected_callback_ lost_send_callback_ id m).
Proof. intros. unfold T_SenderNetwork.handle_message, T_SenderNetwork.handle_hello. solve_keeps. Qed.
End network.
End OnLines.

(** ** What the messages say of the source *)
Module Truth.
Import AppendTransfer ChunkFacts CommitTransfer.

Section truth.
Context {CRC : Crc32c}.
(** [source stream_id file_id name data]: the stream has a file of that id and
    name, and [data] is what it holds.  [cs] is the size of a chunk. *)
Context (source : Z → Z → string → Bytes → Prop) (cs : Z).

Definition truthful (m : T_Message) : Prop :=
  match m with
  | M_Create c =>
      c.(T_Create.kind) = EM_EntryKind.REGULAR_FILE →
      ∃ data, source c.(T_Create.stream_id) c.(T_Create.file_id) c.(T_Create.name) data ∧
        c.(T_Create.final_size) = zlen data
  | M_Data d =>
      ∃ name data offset len, source d.(T_Data.stream_id) d.(T_Data.file_id) name data ∧
        0 ≤ offset ∧ 0 < len ∧ offset + len ≤ zlen data ∧
        d = data_message d.(T_Data.stream_id) d.(T_Data.seq) d.(T_Data.file_id) (zlen data) offset (slice data offset len)
  | M_FileBegin b =>
      ∃ data, source b.(T_FileBegin.stream_id) b.(T_FileBegin.file_id) b.(T_FileBegin.name) data ∧
        65536 < zlen data < 4611686018427387904 ∧ b.(T_FileBegin.final_size) = zlen data ∧
        b.(T_FileBegin.chunk_size) = cs ∧ b.(T_FileBegin.chunk_count) = count data cs ∧
        b.(T_FileBegin.prev_file_id) = 0 ∧ checksum_of data b.(T_FileBegin.file_checksum)
  | M_Chunk c =>
      ∃ name data i, source c.(T_Chunk.stream_id) c.(T_Chunk.file_id) name data ∧ 0 ≤ i < count data cs ∧
        c = chunk_message data cs c.(T_Chunk.stream_id) c.(T_Chunk.seq) c.(T_Chunk.file_id) i
  | _ => True
  end.

(** *** The tasks *)
Context (regex_extended : string → exc (string → bool)) (tree : gmap path node).

(** What a reader yields of the file, from the files [tree], is a range of [data]. *)
Definition reads (r : source_reader) (file_id : Z) (data : Bytes) : Prop :=
  ∀ w offset len bytes w', w.(nodes) = tree →
    @read_range _ (reader_reader regex_extended) r file_id offset len w = (Ret bytes, w') →
    in_u64 offset → in_u64 len → offset + len ≤ zlen data ∧ bytes = slice data offset len.

(** It leaves them as they are. *)
Definition reads_only (r : source_reader) (file_id : Z) : Prop :=
  ∀ w offset len res w', w.(nodes) = tree →
    @read_range _ (reader_reader regex_extended) r file_id offset len w = (res, w') → w'.(nodes) = tree.

Import T_FileSendTask.

(** Nothing of the file is sent but its CREATE. *)
Definition empty_task (k : T_FileSendTask.t) : Prop :=
  k.(kind) ≠ EM_EntryKind.REGULAR_FILE ∧ k.(source_size) = 0 ∧ k.(preferred_chunk_mode) = false ∧
  k.(chunk_resend).(T_ChunkResendState.chunk_count) = 0.

Definition file_task (k : T_FileSendTask.t) (r : source_reader) (data : Bytes) : Prop :=
  k.(reader) = Some r ∧ source k.(stream_id) k.(file_id) k.(name) data ∧ reads r k.(file_id) data ∧
  k.(source_size) = zlen data ∧ zlen data < 4611686018427387904 ∧
  (k.(chunk_resend).(T_ChunkResendState.chunk_count) = 0 ∨
   k.(chunk_resend).(T_ChunkResendState.chunk_count) = count data cs) ∧
  (k.(preferred_chunk_mode) = true →
   k.(chunk_count) = count data cs ∧ 65536 < zlen data ∧ checksum_of data k.(source_checksum)).

Record task_true (k : T_FileSendTask.t) : Prop := {
  true_resend : Sendable.steady k.(chunk_resend);
  true_offset : 0 ≤ k.(append).(T_AppendSendState.next_offset);
  true_mode : k.(chunk_mode) = true → k.(preferred_chunk_mode) = true;
  true_source : empty_task k ∨ ∃ r data, file_task k r data;
  true_reader : ∀ r, k.(reader) = Some r → reads_only r k.(file_id)
}.

Context (Hcs : 0 < cs < 4294967296).

Lemma create_true k : task_true k → truthful (M_Create (SenderApp.create_message k)).
Proof.
  intros Hk Hkind. destruct (true_source _ Hk) as [(Hne & _)|(r & data & _ & Hsrc & _ & Hsize & _)]; [by destruct Hne|].
  by exists data.
Qed.

Lemma begin_true k : task_true k → k.(chunk_mode) = true → truthful (M_FileBegin (SenderApp.file_begin_message cs k)).
Proof.
  intros Hk Hm. apply (true_mode _ Hk) in Hm.
  destruct (true_source _ Hk) as [(_ & _ & Hp & _)|(r & data & _ & Hsrc & _ & Hsize & Hlt & _ & Hp)]; [congruence|].
  destruct (Hp Hm) as (Hcount & Hlen & Hsum). by exists data.
Qed.

Lemma data_true k off len w payload w' :
  task_true k → w.(nodes) = tree →
  next_append cs k.(source_size) k.(append) = Some (T_NextAppend.Data off len) →
  read_task_range regex_extended k off len w = (Ret payload, w') →
  truthful (M_Data (make_data_from_payload k.(stream_id) k.(file_id) k.(append).(T_AppendSendState.seq) off
    k.(source_size) payload)).
Proof.
  intros Hk Hw Hn Hr. pose proof (true_offset _ Hk) as H0. unfold next_append in Hn.
  destruct (_ && _); [done|]. destruct (_ && _); [done|]. destruct (T_AppendSendState.data_sent _); [done|].
  destruct (Z.ltb_spec k.(append).(T_AppendSendState.next_offset) k.(source_size)) as [Hlt|]; [|done]. injection Hn as <- <-.
  destruct (true_source _ Hk) as [(_ & Hz & _)|(r & data & Hreader & Hsrc & Hreads & Hsize & Hmax & _)]; [lia|].
  unfold read_task_range in Hr. rewrite Hreader in Hr.
  set (off := T_AppendSendState.next_offset (append k)) in *. set (len := Z.min cs (source_size k - off)) in *.
  destruct (Hreads _ _ _ _ _ Hw Hr ltac:(uint_unfold; lia) ltac:(uint_unfold; lia)) as [Hin ->].
  exists k.(name), data, off, len. split; [done|]. split; [done|]. split; [lia|]. split; [done|].
  unfold make_data_from_payload, data_message. cbn. rewrite Hsize, zlen_slice by lia.
  rewrite u32_small by (uint_unfold; lia). done.
Qed.

Lemma chunk_true k tick rto i w payload w' :
  task_true k → w.(nodes) = tree → next_unsent_chunk_index k tick rto = Some i →
  read_chunk_payload regex_extended k i cs w = (Ret payload, w') →
  truthful (M_Chunk (make_chunk_from_payload k.(stream_id) k.(seq) k.(file_id) i payload cs)).
Proof.
  intros Hk Hw Hn Hr. pose proof (true_resend _ Hk) as Hst. destruct (Sendable.next_waits _ _ _ _ Hst Hn) as (_ & _ & Hi).
  destruct Hst as (Hac & _). rewrite Hac in Hi.
  destruct (true_source _ Hk) as [(_ & _ & _ & Hz)|(r & data & Hreader & Hsrc & Hreads & Hsize & Hmax & Hc & _)]; [lia|].
  destruct Hc as [Hz|Hc]; [lia|]. rewrite Hc in Hi.
  assert (0 ≤ i < count data cs) as Hi' by lia.
  assert (0 ≤ i * cs < zlen data) as Hlt.
  { unfold count in Hi'. pose proof (Z.div_mod (zlen data + cs - 1) cs ltac:(lia)).
    pose proof (Z.mod_pos_bound (zlen data + cs - 1) cs ltac:(lia)). nia. }
  unfold read_chunk_payload, read_task_range in Hr. rewrite Hreader, Hsize in Hr.
  rewrite (u64_small (i * cs)), (u64_small (zlen data - i * cs)) in Hr by (uint_unfold; lia).
  destruct (Hreads _ _ _ _ _ Hw Hr ltac:(uint_unfold; lia) ltac:(uint_unfold; lia)) as [Hin ->].
  exists k.(name), data, i. split; [done|]. split; [done|].
  unfold make_chunk_from_payload, chunk_message. cbn.
  assert (slice data (i * cs) (Z.min cs (zlen data - i * cs)) = piece data cs i) as ->.
  { unfold piece, slice. destruct (Z.min_spec cs (zlen data - i * cs)) as [[_ ->]|[Hle ->]]; [done|].
    unfold zlen in *. rewrite !take_ge by (rewrite length_drop; lia). done. }
  assert (zlen (piece data cs i) ≤ cs) as Hp by (unfold piece, slice, zlen; rewrite length_take; lia).
  pose proof (zlen_nonneg (piece data cs i)). rewrite u32_small, u64_small by (uint_unfold; lia). done.
Qed.
End truth.
End Truth.

(** ** The files of the source *)
Module SourceTruth.
Import SourceFacts PlainScan Truth CommitTransfer ChunkFacts.

Section scans.
Context {CRC : Crc32c} (regex_extended : string → exc (string → bool)) (tree : gmap path node).

(** The name of a plain file, taken apart again. *)
Lemma parts_generic rel : rel ≠ [] → Forall plain_name rel → is_absolute (generic_string rel) = false ∧ path_parts (generic_string rel) = rel.
Proof.
  intros Hne Hp. assert (is_absolute (generic_string rel) = false) as Habs.
  { destruct Hp as [|c rel [Hc Hs] _]; [done|]. destruct c as [|x c]; [by destruct Hc|].
    assert (x ≠ "/"%char) as Hx.
    { intros ->. cbn [split_slash] in Hs. rewrite decide_True in Hs by done. by destruct (split_slash_nil c). }
    assert (∀ s, is_absolute (String x s) = false) as Hx' by (intros s; unfold is_absolute; by rewrite bool_decide_eq_false_2).
    destruct rel; apply Hx'. }
  split; [done|]. unfold path_parts. rewrite Habs, split_generic; [|done|by eapply Forall_impl; [done|intros c []]].
  assert (filter (λ seg : string, seg ≠ "") rel = rel) as ->.
  { clear Hne Habs. induction Hp as [|c rel [Hc _] _ IH]; [done|]. rewrite filter_cons_True; [by f_equal|apply Hc]. }
  rewrite bool_decide_eq_false_2; [by rewrite app_nil_r|]. intros [_ Hl]. apply last_Some in Hl as [l ->].
  apply Forall_app in Hp as [_ Hp]. by apply Forall_inv in Hp as [(Hc & _) _].
Qed.

(** A scanned entry of the node [n]. *)
Definition entry_true (rel : path) (n : node) (e : T_ManifestEntry.t) : Prop :=
  entry_of rel n e ∧ match n with File data => e.(T_ManifestEntry.size) = zlen data | _ => True end.

Lemma scan_entry_true root len filt rel n w e w' :
  w.(nodes) = tree → plain_tree (mk_fsys tree []) root → holds tree root rel n →
  scan_entry root len filt rel n w = (Ret (Some e), w') → entry_true rel n e.
Proof.
  intros Hw Ht Hn Hr. split; [by eapply scan_entry_of|]. destruct n as [data| |]; [|done..].
  unfold scan_entry in Hr. destruct (negb _); [done|]. inv_bind. destruct a as [size|]; [|done]. inv_bind.
  injection Hr as <- <-. apply file_size_inv in E as (data' & Hs & ->). cbn.
  pose proof (status_held (mk_fsys tree []) root rel _ Ht Hn eq_refl) as Hs'. rewrite Hw in Hs. cbn in Hs'.
  rewrite Hs in Hs'. by injection Hs' as ->.
Qed.

Lemma scan_loop_true root len excl filt es w l w' e :
  w.(nodes) = tree → plain_tree (mk_fsys tree []) root → (∀ rel n, (rel, n) ∈ es → holds tree root rel n) →
  scan_loop root len excl filt es w = (Ret l, w') → e ∈ l →
  ∃ rel n, holds tree root rel n ∧ visited excl rel = true ∧ entry_true rel n e.
Proof.
  intros Hw Ht. revert w l w' Hw. induction es as [|[rel n] es IH]; intros w l w' Hw Hes Hr He; cbn in Hr.
  { injection Hr as <- <-. by apply elem_of_nil in He. }
  assert (∀ rel n, (rel, n) ∈ es → holds tree root rel n) as Hes' by (intros; apply Hes; by right).
  destruct (visited excl rel) eqn:Hv; cbn [negb] in Hr; [|by eapply IH]. inv_bind.
  destruct (read_only_run _ _ _ _ (read_only_entry root len filt rel n) E) as [Hw1 _].
  destruct a as [x|]; injection Hr as <- <-; [|eapply IH; [by rewrite Hw1|done..]].
  apply elem_of_cons in He as [->|He]; [|eapply IH; [by rewrite Hw1|done..]].
  assert (holds tree root rel n) as Hn by (apply Hes; left). exists rel, n. split_and!; [done..|]. by eapply scan_entry_true.
Qed.

Lemma scan_true sid root len excl rx w s w' e :
  w.(nodes) = tree → plain_tree (mk_fsys tree []) root →
  scan_manifest_stream regex_extended sid root len excl rx w = (Ret s, w') → e ∈ s.(T_Manifest1Stream.entries) →
  ∃ rel n, holds tree root rel n ∧ visited excl rel = true ∧ entry_true rel n e.
Proof.
  intros Hw Ht Hr He. unfold scan_manifest_stream in Hr. apply M_bind_inv in Hr as (found & w1 & E & Hr).
  assert (w1.(nodes) = tree) as Hw1.
  { assert (read_only (with_ec (exists_ root))) as Hq by eauto with yisync. by destruct (read_only_run _ _ _ _ Hq E) as [-> _]. }
  destruct found as [[]|]; try (injection Hr as <- <-; by apply elem_of_nil in He).
  inv_bind. injection E1 as <- <-. injection Hr as <- <-. cbn in He. rewrite sort_numbered in He.
  assert (s0.(nodes) = tree) as Hw0.
  { destruct (bool_decide _); [by injection E0 as _ <-|]. destruct (regex_extended rx); [by injection E0 as _ <-|done]. }
  apply number_entries_elem in He as (x & j & Hx & ->). rewrite merge_sort_Permutation in Hx.
  rewrite Hw0 in E2. pose proof (root_dir _ _ Ht) as Hd. cbn in Hd.
  assert (resolve tree root = Ok root) as Hres.
  { unfold resolve. pose proof (walk_dirs MAXSYMLINKS true tree root [] Hd) as Hwalk. by rewrite app_nil_r, walk_nil in Hwalk. }
  rewrite Hres, (dir_path_node _ _ Hd) in E2.
  destruct (scan_loop_true _ _ _ _ _ _ _ _ _ Hw0 Ht (λ rel n H, proj1 (elem_of_descendants _ _ _ _) H) E2 Hx)
    as (rel & n & Hn & Hv & He). exists rel, n. split_and!; [done..|]. by destruct x, n.
Qed.
End scans.

Lemma whole_checksum {CRC : Crc32c} data : checksum_of data (T_FileChecksum.mk EM_ChecksumAlgo.CRC32C 0 (zlen data) (crc32c_bytes data)).
Proof.
  intros w p Hw. pose proof Hw as (_ & _ & Hs). pose proof (zlen_nonneg data).
  rewrite (checksum_matches_crc _ p w data); [|done| |done].
  - rewrite bool_decide_eq_true_2; [done|]. cbn. split; [lia|]. f_equal. unfold slice. cbn. unfold zlen.
    by rewrite Nat2Z.id, take_ge by done.
  - unfold T_FileChecksum.ok. split_and!; cbn; done || uint_lia.
Qed.

(** *** What a reader yields *)
Section readers.
Context {CRC : Crc32c} (regex_extended : string → exc (string → bool)) (tree : gmap path node).
Context (d : T_SourceDirectory.t).
Context (Hplain : plain_tree (mk_fsys tree []) d.(T_SourceDirectory.root_)).

Lemma path_of_held rel n : holds tree d.(T_SourceDirectory.root_) rel n →
  T_SourceDirectory.path_of d (generic_string rel) = d.(T_SourceDirectory.root_) ++ rel.
Proof.
  intros Hn. destruct (parts_generic rel) as [Ha Hp]; [apply Hn|by eapply (held_plain (mk_fsys tree []))|].
  unfold T_SourceDirectory.path_of. by rewrite Ha, Hp.
Qed.

Lemma file_size_bound rel data : holds tree d.(T_SourceDirectory.root_) rel (File data) → zlen data < 9223372036854775808.
Proof. apply (file_sizes _ _ Hplain). Qed.

(** The files of a directory. *)
Definition file_true (file : T_SourceFile.t) (rel : path) (n : node) : Prop :=
  holds tree d.(T_SourceDirectory.root_) rel n ∧ visited [] rel = true ∧
  entry_true rel n file.(T_SourceFile.manifest) ∧
  file.(T_SourceFile.file_id) = entry_id (node_kind n) (generic_string rel) ∧
  file.(T_SourceFile.path) = d.(T_SourceDirectory.root_) ++ rel.

Lemma source_file_true e rel n : holds tree d.(T_SourceDirectory.root_) rel n → visited [] rel = true → entry_true rel n e →
  file_true (T_SourceDirectory.source_file d e) rel n.
Proof.
  intros Hn Hv He. pose proof He as [(Hname & _ & Hid & _) _]. split_and!; [done..| |]; cbn; [done|].
  rewrite Hname. by eapply path_of_held.
Qed.

Lemma files_true w files w' file : w.(nodes) = tree → T_SourceDirectory.files regex_extended d w = (Ret files, w') →
  file ∈ files → ∃ rel n, file_true file rel n.
Proof.
  intros Hw Hr Hin. unfold T_SourceDirectory.files in Hr. inv_bind. injection Hr as <- <-.
  apply list_elem_of_fmap in Hin as (e & -> & He).
  destruct (scan_true _ _ _ _ _ _ _ _ _ _ _ Hw Hplain E He) as (rel & n & Hn & Hv & Ht).
  exists rel, n. by apply source_file_true.
Qed.

Lemma file_found w id file w' : w.(nodes) = tree → T_SourceDirectory.file regex_extended d id w = (Ret file, w') →
  ∃ rel n, file_true file rel n ∧ entry_id (node_kind n) (generic_string rel) = id.
Proof.
  intros Hw Hr. unfold T_SourceDirectory.file in Hr. inv_bind.
  destruct (list_find _ _) as [[i e]|] eqn:Ef; [|done]. destruct (negb _); [done|]. inv_bind. destruct (negb _); [done|].
  injection Hr as <- <-. apply list_find_Some in Ef as (He & Hid & _). apply list_elem_of_lookup_2 in He.
  destruct (scan_true _ _ _ _ _ _ _ _ _ _ _ Hw Hplain E He) as (rel & n & Hn & Hv & Ht).
  exists rel, n. split; [by apply source_file_true|]. destruct Ht as [(_ & _ & <- & _) _]. done.
Qed.

Lemma directory_reads_only id : reads_only regex_extended tree (Directory d) id.
Proof.
  intros w offset len res w' Hw Hr. unfold read_range, reader_reader, read_range, T_SourceDirectory.reader in Hr.
  assert (∀ what p, read_only (or_fail what (read_file p))) as Hq.
  { intros what p w0. unfold or_fail. pose proof (read_file_quiet p w0). by destruct (read_file p w0) as [[] ?]. }
  revert Hr. match goal with |- ?m _ = _ → _ => intros Hr; assert (read_only m) as Hro end.
  { pose proof (read_only_file regex_extended d id). solve_read_only. }
  destruct (read_only_run _ _ _ _ Hro Hr) as [-> _]. done.
Qed.

Context (Hids : distinct_ids tree d.(T_SourceDirectory.root_) []).

Lemma directory_reads rel data : holds tree d.(T_SourceDirectory.root_) rel (File data) → visited [] rel = true →
  reads regex_extended tree (Directory d) (entry_id EM_EntryKind.REGULAR_FILE (generic_string rel)) data.
Proof.
  intros Hn Hv w offset len bytes w' Hw Hr Ho Hl.
  destruct (read_range_exact regex_extended d _ offset len w w' bytes Ho Hl Hr) as (file & w1 & data' & Hf & Hout & Hs & -> & _).
  destruct (file_found _ _ _ _ Hw Hf) as (rel' & n & (Hn' & Hv' & He & _ & Hpath) & Hid).
  assert (rel' = rel) as -> by (by apply (Hids rel' n rel (File data))).
  assert (n = File data) as -> by (destruct Hn as [_ E], Hn' as [_ E']; rewrite E in E'; by injection E').
  rewrite Hw, Hpath in Hs. pose proof (status_held (mk_fsys tree []) _ rel _ Hplain Hn eq_refl) as Hs'. cbn in Hs'.
  rewrite Hs in Hs'. injection Hs' as ->. split; [|done]. destruct He as [_ He]. rewrite He in Hout.
  apply not_outside in Hout; [done|uint_lia|uint_lia|by eapply file_size_bound].
Qed.

(** The checksum of the whole file. *)
Lemma returned {S A} (a b : A) (s s' : S) : (mret a : M S A) s = (Ret b, s') → a = b.
Proof. by intros [= ->]. Qed.
Lemma full_checksum_true file rel data w sum w' : w.(nodes) = tree → file_true file rel (File data) → 0 < zlen data →
  T_SourceDirectory.full_checksum file w = (Ret sum, w') → checksum_of data sum.
Proof.
  intros Hw (Hn & _ & [_ Hsize] & _ & Hpath) Hpos Hr. unfold T_SourceDirectory.full_checksum in Hr. rewrite Hsize in Hr.
  destruct (Z.gtb_spec (zlen data) 0); [|lia]. destruct (Z.eqb_spec (zlen data) 0); [lia|]. inv_bind.
  apply returned in Hr as <-. apply or_fail_inv, read_file_inv in E as [Hs _]. rewrite Hw, Hpath in Hs.
  pose proof (status_held (mk_fsys tree []) _ rel _ Hplain Hn eq_refl) as Hs'. cbn in Hs'. rewrite Hs in Hs'. injection Hs' as ->.
  rewrite checksum_loop_spec by (lia || done). apply whole_checksum.
Qed.
End readers.

(** *** The tasks of a source *)
Section tasks.
Context {CRC : Crc32c} (regex_extended : string → exc (string → bool)) (tree : gmap path node).
Context (source : Z → Z → string → Bytes → Prop) (cs : Z).
Context (Hcs : 0 < cs < 4294967296).
Abbreviation task_true := (task_true source cs regex_extended tree).

(** The chunks of a task that was initialized. *)
Lemma initialized b task task' : initialize_file_task b cs [] task = Ret task' →
  ∃ n, task' = T_FileSendTask.set_modes b b n (initialize_chunk_resend_state n []) task ∧
    (b = false → n = 0) ∧
    ∀ data : Bytes, b = true → task.(T_FileSendTask.source_size) = zlen data → 65536 < zlen data < 4611686018427387904 → n = count data cs.
Proof.
  unfold initialize_file_task. destruct b; cbn.
  - unfold chunk_count_for_size. destruct (Z.eqb_spec cs 0); [lia|]. cbn. intros [= <-]. eexists. split; [done|].
    split; [done|]. intros data _ Hs Hl. rewrite Hs. destruct (Z.eqb_spec (zlen data) 0); [lia|]. unfold count.
    f_equal. rewrite (u64_small (zlen data + cs)) by (uint_unfold; lia). apply u64_small. uint_unfold; lia.
  - intros [= <-]. by exists 0.
Qed.

Lemma chunk_mode_size size : should_use_chunk_mode size = true → 65536 < size.
Proof. unfold should_use_chunk_mode. rewrite Z.gtb_ltb, Z.ltb_lt. by change kChunkModeThresholdBytes with 65536. Qed.

(** A new task for a file of these bytes, whose reader yields them. *)
Lemma new_task_true sid seq fid name (data : Bytes) link sum range r task :
  source sid fid name data → reads regex_extended tree r fid data → reads_only regex_extended tree r fid →
  zlen data < 4611686018427387904 → (65536 < zlen data → checksum_of data sum) →
  initialize_file_task (should_use_chunk_mode (zlen data)) cs []
    (T_FileSendTask.create sid seq fid EM_EntryKind.REGULAR_FILE name link (zlen data) sum range (Some r)) = Ret task →
  task_true task.
Proof.
  intros Hsrc Hr Hro Hl Hsum Hi. apply initialized in Hi as (n & -> & H0 & H1).
  assert (should_use_chunk_mode (zlen data) = true → n = count data cs ∧ 65536 < zlen data) as Hn.
  { intros Hb. pose proof (chunk_mode_size _ Hb). split; [|done]. by apply (H1 data). }
  constructor; cbn; [apply Sendable.steady_initialize|done|done| |by intros ? [= <-]].
  right. exists r, data. split_and!; try done; cbn.
  - destruct (should_use_chunk_mode (zlen data)) eqn:Hb; [right; by apply Hn|left; by apply H0].
  - intros Hb. destruct (Hn Hb). split_and!; auto.
Qed.

(** One for an entry that is no regular file. *)
Lemma bare_task_true sid seq fid kind name link sum range r task :
  kind ≠ EM_EntryKind.REGULAR_FILE → (∀ r', r = Some r' → reads_only regex_extended tree r' fid) →
  initialize_file_task false cs [] (T_FileSendTask.create sid seq fid kind name link 0 sum range r) = Ret task →
  task_true task.
Proof.
  intros Hk Hro Hi. apply initialized in Hi as (n & -> & H0 & _). rewrite (H0 eq_refl).
  constructor; cbn; [apply (Sendable.steady_initialize 0)|done|done|left; by split_and!|done].
Qed.

(** The tasks of a directory. *)
Section directory.
Context (d : T_SourceDirectory.t).
Context (Hplain : plain_tree (mk_fsys tree []) d.(T_SourceDirectory.root_)).
Context (Hids : distinct_ids tree d.(T_SourceDirectory.root_) []).
Context (Hsizes : ∀ rel data, holds tree d.(T_SourceDirectory.root_) rel (File data) → zlen data < 4611686018427387904).
Context (Hsource : ∀ rel data, holds tree d.(T_SourceDirectory.root_) rel (File data) → visited [] rel = true →
  source d.(T_SourceDirectory.stream_id_) (entry_id EM_EntryKind.REGULAR_FILE (generic_string rel)) (generic_string rel) data).

Abbreviation there := (λ w : fsys, w.(nodes) = tree).

Lemma keeps_full_checksum file : keeps there (T_SourceDirectory.full_checksum file).
Proof.
  intros w r w' Hw Hr. assert (read_only (T_SourceDirectory.full_checksum file)) as Hro.
  { assert (∀ what p, read_only (or_fail what (read_file p))) as Hq.
    { intros what p w0. unfold or_fail. pose proof (read_file_quiet p w0). by destruct (read_file p w0) as [[] ?]. }
    unfold T_SourceDirectory.full_checksum. solve_read_only. }
  destruct (read_only_run _ _ _ _ Hro Hr) as [E _]. cbn in Hw. by destruct r; rewrite E.
Qed.

Lemma real_task_true file rel n : file_true tree d file rel n →
  gives there (make_real_file_task d.(T_SourceDirectory.stream_id_) file (Some (Directory d)) cs []) task_true.
Proof.
  intros Hf w r w' Hw Hr. unfold make_real_file_task in Hr.
  pose proof Hf as (Hn & Hv & ((Hname & Hkind & _ & _) & Hsize) & Hid & _). rewrite Hkind in Hr.
  assert (there w' ∧ ∀ task, r = Ret task → task_true task) as [Hw' Ht]; [|destruct r; auto].
  pose proof (directory_reads_only regex_extended tree d file.(T_SourceFile.file_id)) as Hro.
  destruct n as [data| |target]; cbn [node_kind] in *.
  2,3: rewrite bool_decide_eq_false_2 in Hr by done; cbn [andb] in Hr;
    rewrite (bind_ret (mret empty_checksum) _ w empty_checksum w eq_refl) in Hr; injection Hr as <- <-;
    split; [done|]; intros task Hi; eapply bare_task_true; [| |exact Hi]; [done|by intros ? [= <-]].
  rewrite bool_decide_eq_true_2 in Hr by done. cbn [andb] in Hr.
  apply bind_cases in Hr as [(sum & w1 & Hsum & Hr)|(e & He & ->)].
  2:{ split; [exact (keeps_full_checksum _ _ _ _ Hw He)|done]. }
  pose proof (keeps_full_checksum _ _ _ _ Hw Hsum) as Hw1. injection Hr as <- <-. split; [done|]. intros task Hi.
  rewrite Hsize in Hi. apply new_task_true in Hi; [done| | |done|by eapply Hsizes|].
  - rewrite Hid, Hname. by apply Hsource.
  - rewrite Hid. by apply directory_reads.
  - intros Hl. eapply (full_checksum_true tree d Hplain file rel data); [exact Hw|done|lia|exact Hsum].
Qed.

Lemma tasks_true files : (∀ file, file ∈ files → ∃ rel n, file_true tree d file rel n) →
  gives there (SenderApp.make_tasks d cs files) (Forall task_true).
Proof.
  induction files as [|file files IH]; intros Hf; cbn [SenderApp.make_tasks]; [by apply gives_ret|].
  destruct (Hf file (list_elem_of_here _ _)) as (rel & n & Hfile).
  apply (gives_bind _ _ _ task_true); [by eapply real_task_true|]. intros task Ht.
  apply (gives_bind _ _ _ (Forall task_true)); [apply IH; intros; apply Hf; by right|]. intros tasks Hts.
  apply gives_ret. by constructor.
Qed.
End directory.
End tasks.
End SourceTruth.
