(* ===== verification/SenderTells.v ===== *)
(** * The sender's messages say what its source holds

    [SenderTruth] says when a message is true of the source, and that the tasks of
    a source make true messages; here every handler of [SenderApp] is shown to
    send no others, from the construction through any events.  These are the
    messages that the receiver's transfers start from. *)
From S2P Require Import Prelude Hoare Crc32c Filesystem Wire Protocol Framing Sync Scheduler Source ChunkResend.
From S2P Require Import ReceiverPaths AppendReceiver ChunkReceiver AppendState SendBuffer SenderPlan Network NodeCommon SenderApp.
From S2P Require Import SenderRun SenderEnds ManifestAgreement SenderTruth.
From stdpp Require Import sorting.
#[local] Open Scope Z_scope.

(** ** Every handler keeps to the truth *)
Module SenderTells.
Import SenderApp Truth OnLines.

(** *** The buffer *)
Section buffer.
Context (ok : T_Message → Prop).
Import T_SenderSendBuffer.

Definition buffer_carries (b : t) : Prop := map_Forall (λ _ e, ok e.(T_BufferedSend.message)) b.(entries_).

Lemma buffer_remember m r tick b : ok m → buffer_carries b → buffer_carries (remember m r tick b).
Proof. intros Hm Hb. by apply map_Forall_insert_2. Qed.
Lemma buffer_find key b e : buffer_carries b → find key b = Some e → ok e.(T_BufferedSend.message).
Proof. intros Hb He. exact (Hb key e He). Qed.
Lemma buffer_delete_keys (l : list (T_SendBufferKey.t * T_BufferedSend.t)) b :
  buffer_carries b → buffer_carries (set_entries (delete_keys l b.(entries_)) b).
Proof.
  unfold buffer_carries. cbn. unfold delete_keys. generalize (entries_ b). induction l as [|[k e] l IH]; intros es Hes; cbn; [done|].
  first [by apply IH, map_Forall_delete|by apply map_Forall_delete, IH].
Qed.
Lemma buffer_completed `{!MapIteration T_SendBufferKey.t T_BufferedSend.t} hb tick b :
  buffer_carries b → buffer_carries (erase_completed hb tick b).2.
Proof. intros Hb. unfold erase_completed. destruct (_ =? 0); [done|]. by apply buffer_delete_keys. Qed.
Lemma buffer_erase_one key tick b : buffer_carries b → buffer_carries (erase_one key tick b).2.
Proof. intros Hb. unfold erase_one. destruct (_ !! _); [|done]. by apply map_Forall_delete. Qed.
Lemma buffer_enqueue key b : buffer_carries b → buffer_carries (enqueue_retransmit key b).2.
Proof. intros Hb. unfold enqueue_retransmit. by destruct (_ !! _). Qed.
Lemma buffer_enqueue_nack nack cs b : buffer_carries b → buffer_carries (enqueue_nack_retransmit nack cs b).2.
Proof. intros Hb. unfold enqueue_nack_retransmit. destruct (key_for_nack _ _ _); [by apply buffer_enqueue|done]. Qed.
Lemma buffer_retransmitted key bytes tick b : buffer_carries b → buffer_carries (mark_retransmitted key bytes tick b).2.
Proof.
  intros Hb. unfold mark_retransmitted. destruct (find key b) as [e|] eqn:E; [|done].
  apply map_Forall_insert_2; [|done]. exact (Hb key e E).
Qed.
Lemma buffer_erase_queue i b : buffer_carries b → buffer_carries (erase_retransmit i b).
Proof. intros Hb. unfold erase_retransmit. by destruct (_ >=? _). Qed.
End buffer.
#[export] Hint Resolve buffer_completed buffer_erase_one buffer_enqueue buffer_enqueue_nack buffer_retransmitted
  buffer_erase_queue : keeps.

Section truth.
Context {CRC : Crc32c} (regex_extended : string → exc (string → bool)).
Context `{!MapIteration T_SendBufferKey.t T_BufferedSend.t}.
Context (source : Z → Z → string → Bytes → Prop) (tree : gmap path node) (options : T_NodeOptions.t).
Abbreviation cs := options.(T_NodeOptions.chunk_size).
Context (Hcs : 0 < cs < 4294967296).
Abbreviation truthful := (truthful source cs).
Abbreviation task_true := (task_true source cs regex_extended tree).
Abbreviation stream_true := (λ st, Forall task_true st.(T_StreamSendState.tasks)).

Record tells (s : t) : Prop := {
  tells_net : net_carries truthful s.(network_);
  tells_buffer : buffer_carries truthful s.(send_buffer_);
  tells_streams : Forall stream_true s.(streams_);
  tells_files : s.(world_).(nodes) = tree;
  tells_options : s.(options_) = options
}.

(** *** Changes to a task *)
Lemma true_set_begin sent ready id k : task_true k → task_true (set_begin sent ready id k).
Proof. by intros []. Qed.
Lemma true_set_commit sent id k : task_true k → task_true (set_commit sent id k).
Proof. by intros []. Qed.
Lemma true_set_append a k : 0 ≤ a.(T_AppendSendState.next_offset) → task_true k → task_true (set_append a k).
Proof. by intros ? []. Qed.
Lemma true_set_resend r k :
  Sendable.steady r → r.(T_ChunkResendState.chunk_count) = k.(T_FileSendTask.chunk_resend).(T_ChunkResendState.chunk_count) →
  task_true k → task_true (set_resend r k).
Proof.
  intros Hr Hc [H1 H2 H3 H4 H5]. constructor; [done..| |done].
  destruct H4 as [(Ha & Hb & Hd & He)|(r0 & data & Ha & Hb & Hd & He & Hf & Hg & Hh)].
  - left. split_and!; [done..|]. by rewrite <- He.
  - right. exists r0, data. split_and!; try done. cbn. by rewrite Hc.
Qed.
Lemma true_append_mode k : task_true k → task_true (T_FileSendTask.set_chunk_mode false k).
Proof. by intros []. Qed.
Lemma true_reset k : task_true k → task_true (reset_task_for_manifest_recovery k).
Proof.
  intros Hk. unfold reset_task_for_manifest_recovery.
  apply true_set_resend; [by apply Sendable.steady_reset, Hk|done|]. apply true_set_append; [done|].
  destruct Hk. by constructor.
Qed.

(** The number of chunks of a task stays. *)
Lemma count_sent i id tick r :
  (mark_chunk_sent i id tick r).2.(T_ChunkResendState.chunk_count) = r.(T_ChunkResendState.chunk_count).
Proof. unfold mark_chunk_sent. by destruct (negb _). Qed.
Lemma count_acked i r : (acknowledge_chunk i r).2.(T_ChunkResendState.chunk_count) = r.(T_ChunkResendState.chunk_count).
Proof. unfold acknowledge_chunk. by destruct (negb _). Qed.
Lemma count_lost i r : (mark_chunk_lost i r).2.(T_ChunkResendState.chunk_count) = r.(T_ChunkResendState.chunk_count).
Proof. unfold mark_chunk_lost. destruct (negb _); [done|]. by destruct (_ || _). Qed.
Lemma count_hints seq file_id ranges r :
  (apply_missing_hints seq file_id ranges r).2.(T_ChunkResendState.chunk_count) = r.(T_ChunkResendState.chunk_count).
Proof.
  unfold apply_missing_hints. destruct (_ =? _); [done|]. revert r.
  induction ranges as [|range ranges IH]; intros r; cbn [hint_ranges]; [done|].
  destruct (_ || _); [apply IH|]. destruct (_ >? _); [apply IH|].
  assert (∀ first last, (hint_range first last r).2.(T_ChunkResendState.chunk_count) = r.(T_ChunkResendState.chunk_count)) as Hr.
  { intros first last. unfold hint_range. generalize false at 1. revert r.
    induction (seqZ first _) as [|i l IHl]; intros r b; cbn [foldl]; [done|]. destruct (negb _); by rewrite IHl. }
  match goal with |- context [hint_range ?f ?l r] => specialize (Hr f l); destruct (hint_range f l r) as [changed r1] end.
  specialize (IH r1). destruct (hint_ranges seq file_id ranges r1). cbn in *. congruence.
Qed.

(** *** The state *)
Abbreviation I := tells.

Ltac easy_tells := intros; match goal with H : I ?s |- _ => destruct H; constructor; done end.
#[local] Hint Extern 1 (keeps _ (modify _)) => apply keeps_modify; easy_tells : keeps.
#[local] Hint Extern 1 (keeps _ (put _)) => apply keeps_put; easy_tells : keeps.

Lemma tells_set_net n s : I s → net_carries truthful n → I (set_part n s).
Proof. intros [] ?. by constructor. Qed.
#[local] Hint Resolve tells_net tells_set_net : core.

Lemma says_set_buffer b : (∀ s, I s → buffer_carries truthful (b s)) → keeps I (modify (λ s, set_send_buffer (b s) s)).
Proof. intros Hb. apply keeps_modify. intros s HI. pose proof (Hb s HI). destruct HI. by constructor. Qed.
Lemma says_buffer_op {A} (f : T_SenderSendBuffer.t → A * T_SenderSendBuffer.t) :
  (∀ b, buffer_carries truthful b → buffer_carries truthful (f b).2) → keeps I (on_buffer f).
Proof.
  intros Hf s r s' HI Hr. unfold on_buffer in Hr. pose proof (Hf _ (tells_buffer _ HI)) as Hb.
  destruct (f (send_buffer_ s)) as [a b]. injection Hr as <- <-. destruct HI. by constructor.
Qed.
#[local] Hint Extern 1 (keeps _ (on_buffer _)) => apply says_buffer_op; auto with keeps : keeps.
#[local] Hint Extern 1 (keeps _ (modify (λ s, set_send_buffer (T_SenderSendBuffer.erase_retransmit _ _) s))) =>
  apply says_set_buffer; intros ? []; by apply buffer_erase_queue : keeps.

(** *** The streams *)
Lemma says_stream_at i : keeps I (stream_at i).
Proof. intros s r s' HI Hr. unfold stream_at in Hr. by destruct (_ !! _); injection Hr as <- <-. Qed.
Lemma says_task_at i j : keeps I (task_at i j).
Proof. intros s r s' HI Hr. unfold task_at in Hr. by destruct (_ ≫= _); injection Hr as <- <-. Qed.
Lemma gives_stream_at i : gives I (stream_at i) stream_true.
Proof.
  intros s r s' HI Hr. unfold stream_at in Hr. destruct (streams_ s !! i) as [st|] eqn:E; injection Hr as <- <-; [|done].
  split; [done|]. eapply Forall_lookup_1 in E; [exact E|apply HI].
Qed.
Lemma gives_task_at i j : gives I (task_at i j) task_true.
Proof.
  intros s r s' HI Hr. unfold task_at in Hr. destruct (streams_ s !! i) as [st|] eqn:E; cbn in Hr; [|by injection Hr as <- <-].
  destruct (_ !! j) as [task|] eqn:Ej; injection Hr as <- <-; [|done]. split; [done|].
  eapply Forall_lookup_1 in E; [|apply HI]. by eapply Forall_lookup_1 in Ej.
Qed.
Lemma says_stream_change i f : (∀ st, stream_true st → stream_true (f st)) → keeps I (update_stream i f).
Proof.
  intros Hf. apply keeps_modify. intros s []. constructor; try done. cbn. apply Forall_alter; [done|]. auto.
Qed.
Lemma says_task_change i j f : (∀ k, task_true k → task_true (f k)) → keeps I (update_task i j f).
Proof. intros Hf. apply says_stream_change. intros st Hst. cbn. apply Forall_alter; [done|]. auto. Qed.
Lemma says_append_change i j f :
  (∀ a, 0 ≤ a.(T_AppendSendState.next_offset) → 0 ≤ (f a).(T_AppendSendState.next_offset)) → keeps I (update_append i j f).
Proof. intros Hf. apply says_task_change. intros k Hk. apply true_set_append; [apply Hf, Hk|done]. Qed.
Lemma says_resend_change i j f :
  (∀ r, Sendable.steady r → Sendable.steady (f r) ∧ (f r).(T_ChunkResendState.chunk_count) = r.(T_ChunkResendState.chunk_count)) →
  keeps I (update_resend i j f).
Proof. intros Hf. apply says_task_change. intros k Hk. apply true_set_resend; [apply Hf, Hk|apply Hf, Hk|done]. Qed.
Lemma says_sent_change i j c id tick : keeps I (update_resend i j (λ r, (mark_chunk_sent c id tick r).2)).
Proof. apply says_resend_change. intros r Hr. by split; [apply Sendable.steady_sent|apply count_sent]. Qed.
Lemma says_hints_change i j seq file_id ranges :
  keeps I (update_resend i j (λ r, (apply_missing_hints seq file_id ranges r).2)).
Proof. apply says_resend_change. intros r Hr. by split; [apply Sendable.steady_hints|apply count_hints]. Qed.
#[local] Hint Resolve says_stream_at says_task_at says_sent_change says_hints_change : keeps.
#[local] Hint Extern 1 (keeps _ (update_stream _ _)) => apply says_stream_change; done : keeps.
#[local] Hint Extern 1 (keeps _ (update_task _ _ (λ k, set_begin _ _ _ k))) =>
  apply says_task_change; intros; by apply true_set_begin : keeps.
#[local] Hint Extern 1 (keeps _ (update_task _ _ (set_commit _ _))) =>
  apply says_task_change; intros; by apply true_set_commit : keeps.
#[local] Hint Extern 1 (keeps _ (update_task _ _ (λ k, set_commit _ _ k))) =>
  apply says_task_change; intros; by apply true_set_commit : keeps.
#[local] Hint Extern 1 (keeps _ (update_append _ _ _)) => apply says_append_change; done : keeps.

(** A task is read. *)
Lemma with_task {A} i j (k : T_FileSendTask.t → M t A) :
  (∀ task, task_true task → keeps I (k task)) → keeps I (task_at i j ≫= k).
Proof. apply keeps_given, gives_task_at. Qed.
Lemma with_stream {A} i (k : T_StreamSendState.t → M t A) :
  (∀ st, stream_true st → keeps I (k st)) → keeps I (stream_at i ≫= k).
Proof. apply keeps_given, gives_stream_at. Qed.

(** *** What makes no message *)
Lemma says_later d w : keeps I (call_later d w).
Proof. unfold call_later. auto with keeps. Qed.
Lemma says_failed : keeps I fail_and_stop.
Proof. unfold fail_and_stop, stop_loop. solve_keeps. Qed.
Lemma says_stop_network : keeps I stop_network.
Proof.
  apply keeps_modify. intros s [[Hl [Hq Hh]] ? ? ? ?]. constructor; try done. split; [|done].
  unfold lines_carry. cbn. rewrite Forall_fmap. exact Hl.
Qed.
#[local] Hint Resolve says_later says_failed says_stop_network : keeps.
Lemma says_final : keeps I final_fail.
Proof. unfold final_fail, stop_loop. solve_keeps. Qed.
Lemma says_rescan_request reason : keeps I (request_rescan reason).
Proof. unfold request_rescan. solve_keeps. Qed.
Lemma says_sample sample : keeps I (observe_ack_sample sample).
Proof. unfold observe_ack_sample. solve_keeps. Qed.
#[local] Hint Resolve says_final says_rescan_request says_sample : keeps.
Lemma says_samples samples : keeps I (observe_ack_samples samples).
Proof. induction samples; cbn; solve_keeps. Qed.
#[local] Hint Resolve says_samples : keeps.
Lemma says_done_check : keeps I check_all_done.
Proof.
  unfold check_all_done, stop_loop. solve_keeps. apply keeps_modify. intros s' []. constructor; try done.
  cbn. rewrite Forall_fmap. done.
Qed.
Lemma says_task_mark r id : keeps I (mark_task_retransmitted r id).
Proof. unfold mark_task_retransmitted. solve_keeps. Qed.
#[local] Hint Resolve says_done_check says_task_mark : keeps.
Lemma says_erase_completed hb : keeps I (erase_completed_buffered hb).
Proof. unfold erase_completed_buffered. solve_keeps. Qed.
Lemma says_erased erase :
  (∀ b, buffer_carries truthful b → buffer_carries truthful (erase b).2) → keeps I (observe_erased erase).
Proof. intros He. unfold observe_erased. solve_keeps. Qed.

(** A task is read and put back changed. *)
Definition task_in (i j : nat) (s : t) : option T_FileSendTask.t :=
  s.(streams_) !! i ≫= λ st, st.(T_StreamSendState.tasks) !! j.

Definition reading (i j : nat) (task : T_FileSendTask.t) (s : t) : Prop := I s ∧ task_in i j s = Some task.

Lemma with_task_in {A} i j (k : T_FileSendTask.t → M t A) :
  (∀ task, task_true task → triple (reading i j task) (k task) (λ _, I) I) → keeps I (task_at i j ≫= k).
Proof.
  intros Hk s r s' HI Hr. pose proof (gives_task_at i j s) as Hg.
  destruct (task_in i j s) as [task|] eqn:E.
  - assert (task_at i j s = (Ret task, s)) as Ht by (unfold task_at; unfold task_in in E; by rewrite E).
    rewrite (bind_ret _ _ _ _ _ Ht) in Hr. destruct (Hg _ _ HI Ht) as [_ Htrue]. exact (Hk task Htrue s r s' (conj HI E) Hr).
  - assert (task_at i j s = (Throw "no such task", s)) as Ht by (unfold task_at; unfold task_in in E; by rewrite E).
    rewrite (bind_throw _ _ _ _ _ Ht) in Hr. by injection Hr as <- <-.
Qed.

Lemma update_task_in {A} i j f task (m : M t A) :
  task_true (f task) → keeps I m → triple (reading i j task) (update_task i j f;; m) (λ _, I) I.
Proof.
  intros Hf Hm. apply (triple_bind _ _ _ (λ _, I)); [|intros; exact Hm].
  intros s r s' [HI Ht] [= <- <-]. unfold task_in in Ht. destruct HI. constructor; try done. cbn.
  apply Forall_alter; [done|]. intros st Est Hst. rewrite Est in Ht. cbn in *. apply Forall_alter; [done|].
  intros k Ek _. rewrite Ek in Ht. by injection Ht as ->.
Qed.

Lemma when_reading {A} i j task (m : M t A) : keeps I m → triple (reading i j task) m (λ _, I) I.
Proof. intros Hm. eapply triple_conseq; [exact Hm|]. by intros ? []. Qed.

Lemma says_acks i j sid chunks : keeps I (ack_chunks i j sid chunks).
Proof.
  induction chunks as [|received chunks IH]; cbn [ack_chunks]; [apply keeps_ret|].
  apply with_task_in. intros task Ht. apply (triple_bind _ _ _ (λ _, I)); [|intros; exact IH].
  destruct (_ || _); [apply when_reading, keeps_ret|].
  pose proof (Sendable.steady_acked received.(T_ReceivedChunk.chunk_index) _ (true_resend _ _ _ _ _ Ht)) as Hk.
  pose proof (count_acked received.(T_ReceivedChunk.chunk_index) task.(T_FileSendTask.chunk_resend)) as Hc.
  destruct (acknowledge_chunk _ _) as [known resend]. apply update_task_in; [by apply true_set_resend|].
  solve_keeps. apply says_erased. intros b. apply buffer_erase_one.
Qed.

Lemma says_lose_one lost : keeps I (lose lost).
Proof.
  unfold lose. apply keeps_get. intros s _. destruct (stream_for_id _ _) as [i|]; [|apply keeps_ret].
  apply with_stream. intros stream _. destruct (T_StreamSendState.complete _); [apply keeps_ret|].
  destruct (active_index _) as [j|]; [|apply keeps_ret]. apply with_task_in. intros task Ht.
  destruct (negb _); [apply when_reading, keeps_ret|].
  apply (triple_bind _ _ _ (λ _, reading i j task)).
  { intros s0 r s' [HI Hin] Hr. pose proof (says_buffer_op (T_SenderSendBuffer.enqueue_retransmit
      (T_SenderSendBuffer.key_for_lost_send lost)) (buffer_enqueue _ _) s0 r s' HI Hr) as HI'.
    unfold on_buffer in Hr. destruct (T_SenderSendBuffer.enqueue_retransmit _ _). by injection Hr as <- <-. }
  intros [|]; [apply when_reading, keeps_ret|].
  destruct (negb _); [apply when_reading; solve_keeps|].
  destruct (negb _); [apply when_reading, keeps_ret|].
  pose proof (Sendable.steady_lost lost.(T_LostSend.chunk_index) _ (true_resend _ _ _ _ _ Ht)) as Hk.
  pose proof (count_lost lost.(T_LostSend.chunk_index) task.(T_FileSendTask.chunk_resend)) as Hc.
  destruct (mark_chunk_lost _ _) as [marked resend].
  destruct (T_LostSend.kind lost); try (apply when_reading; solve_keeps; fail).
  apply update_task_in; [by apply true_set_resend|apply keeps_ret].
Qed.
Lemma says_lose_each changed lost_sends : keeps I (lose_all changed lost_sends).
Proof.
  revert changed. induction lost_sends as [|lost lost_sends IH]; intros changed; cbn [lose_all]; [apply keeps_ret|].
  apply keeps_bind; [apply says_lose_one|auto].
Qed.
#[local] Hint Resolve says_erase_completed says_acks says_lose_each : keeps.

(** *** Reading the source *)
Lemma with_payload {A} k off len (m : Bytes → M t A) :
  task_true k →
  (∀ payload w w', w.(nodes) = tree → read_task_range regex_extended k off len w = (Ret payload, w') → keeps I (m payload)) →
  keeps I (on (read_task_range regex_extended k off len) ≫= m).
Proof.
  intros Hk Hm. apply (keeps_given _ _ _ (λ payload, ∃ w w', w.(nodes) = tree ∧
    read_task_range regex_extended k off len w = (Ret payload, w'))); [|intros payload (w & w' & Hw & Hr); eauto].
  intros s r s' HI Hr. unfold on in Hr. destruct (read_task_range _ _ _ _ _) as [r0 w] eqn:E. injection Hr as <- <-.
  change (part s) with (s.(world_)) in E.
  assert (w.(nodes) = tree) as Hw.
  { unfold read_task_range in E. destruct (T_FileSendTask.reader k) as [rd|] eqn:Erd.
    - exact (true_reader _ _ _ _ _ Hk _ Erd _ _ _ _ _ (tells_files _ HI) E).
    - injection E as _ <-. apply HI. }
  assert (I (set_part w s)) as HI' by (by destruct HI; constructor). destruct r0; [|done]. split; [done|].
  exists s.(world_), w. split; [apply HI|done].
Qed.

(** *** The messages *)
Section sends.
Context (lost_callback : list T_LostSend.t → M t unit) (loop_fuel : SenderApp.limit).
Context (lost_keeps : ∀ l, keeps I (lost_callback l)).
#[local] Hint Resolve lost_keeps : keeps.

Lemma says_tell m r : truthful m → keeps I (net_send lost_callback m r).
Proof. intros Hm. by apply (carries_send truthful); auto. Qed.
Lemma says_tell_control m label : truthful m → keeps I (T_SenderNetwork.send_control lost_callback m label).
Proof. intros Hm. by apply (carries_control truthful); auto. Qed.
Lemma says_line_lost id : keeps I (T_SenderNetwork.mark_unavailable lost_callback id).
Proof. by apply (carries_mark truthful); auto. Qed.
Lemma says_net_ticks ticks : keeps I (T_SenderNetwork.refill_ticks lost_callback ticks).
Proof. by apply (carries_refill_lines truthful); auto. Qed.
#[local] Hint Resolve says_line_lost says_net_ticks : keeps.

Lemma says_tell_buffered m r : truthful m → keeps I (send_buffered lost_callback m r).
Proof.
  intros Hm. unfold send_buffered. apply keeps_bind; [by apply says_tell|]. intros result.
  destruct (negb _); [apply keeps_ret|]. apply keeps_bind; [|intros; apply keeps_ret].
  apply keeps_modify. intros s []. constructor; try done. by apply buffer_remember.
Qed.
Lemma says_manifest1 : keeps I (send_manifest1 lost_callback).
Proof. unfold send_manifest1. solve_keeps. by apply says_tell_control. Qed.
#[local] Hint Resolve says_manifest1 : keeps.

Lemma says_recover : keeps I (recover_with_manifest1 lost_callback).
Proof.
  unfold recover_with_manifest1. solve_keeps. apply keeps_put.
  match goal with H : I ?s |- _ => destruct H end. constructor; try done. cbn. rewrite Forall_fmap.
  eapply Forall_impl; [done|]. intros st Hst. cbn. rewrite Forall_fmap. eapply Forall_impl; [exact Hst|].
  intros k. apply true_reset.
Qed.
#[local] Hint Resolve says_recover : keeps.

Lemma says_flush_retransmits : keeps I (flush_retransmits lost_callback loop_fuel).
Proof.
  unfold flush_retransmits. solve_keeps. induction loop_fuel.(turns) as [|fuel IH]; cbn [flush_loop]; [apply keeps_throw|].
  apply keeps_get. intros s1 HI. destruct (T_SenderSendBuffer.retransmit_queue_ _) as [|key keys]; [apply keeps_ret|].
  destruct (T_SenderSendBuffer.find _ _) as [buffered|] eqn:Ef; [|solve_keeps].
  pose proof (buffer_find _ _ _ _ (tells_buffer _ HI) Ef) as Hm.
  pose proof (says_tell _ buffered.(T_BufferedSend.request) Hm). solve_keeps.
Qed.
Lemma says_enqueue_rto : keeps I (enqueue_rto_retransmits lost_callback).
Proof.
  unfold enqueue_rto_retransmits. solve_keeps.
  induction (T_SenderSendBuffer.expired_keys _ _ _ _); cbn; solve_keeps.
Qed.
#[local] Hint Resolve says_flush_retransmits says_enqueue_rto : keeps.

Lemma says_drop id : keeps I (maybe_drop_line_once lost_callback id).
Proof. unfold maybe_drop_line_once. solve_keeps. Qed.
#[local] Hint Resolve says_drop : keeps.

(** FILE_BEGIN, FILE_COMMIT, CREATE and DATA, and the chunks. *)
Lemma says_file_begin i j : keeps I (send_file_begin lost_callback i j).
Proof.
  unfold send_file_begin. apply with_stream. intros st _. apply with_task. intros task Ht.
  destruct (T_FileSendTask.chunk_mode task) eqn:Hmode; cbn [negb orb]; [|apply keeps_ret].
  destruct (_ || _); [apply keeps_ret|]. apply keeps_get. intros s HI. rewrite (tells_options _ HI).
  pose proof (λ r, says_tell_buffered _ r (begin_true _ _ _ _ task Ht Hmode)). solve_keeps.
Qed.
Lemma says_commit i j : keeps I (send_commit_if_possible lost_callback i j).
Proof.
  unfold send_commit_if_possible. pose proof (λ c r, says_tell_buffered (M_FileCommit c) r Logic.I). solve_keeps.
Qed.
Lemma says_append i j : keeps I (send_append_if_possible regex_extended lost_callback i j).
Proof.
  unfold send_append_if_possible. apply with_stream. intros st _. apply with_task. intros task Ht.
  apply keeps_get. intros s HI. rewrite (tells_options _ HI). destruct (_ || _); [apply keeps_ret|]. cbv zeta.
  destruct (next_append _ _ _) as [[|off len]|] eqn:Hn; [| |apply keeps_ret].
  - pose proof (λ r, says_tell_buffered _ r (create_true _ _ _ _ task Ht)). solve_keeps.
  - apply with_payload; [done|]. intros payload w w' Hw Hr.
    pose proof (λ r, says_tell_buffered _ r (data_true _ _ _ _ Hcs task _ _ _ _ _ Ht Hw Hn Hr)). solve_keeps.
Qed.
#[local] Hint Resolve says_file_begin says_commit says_append : keeps.

Lemma says_chunk_loop fuel i j : keeps I (chunk_loop regex_extended lost_callback loop_fuel fuel i j).
Proof.
  induction fuel as [|fuel IH]; cbn [chunk_loop]; [apply keeps_throw|]. apply with_task. intros task Ht.
  apply keeps_get. intros s HI. rewrite (tells_options _ HI).
  destruct (next_unsent_chunk_index _ _ _) as [c|] eqn:Hn; [|apply keeps_ret]. destruct (_ >=? _); [solve_keeps|].
  cbv zeta. unfold read_chunk_payload at 1. cbv zeta. apply with_payload; [done|]. intros payload w w' Hw Hr.
  pose proof (λ r, says_tell_buffered _ r (chunk_true _ _ _ _ Hcs task _ _ _ _ _ _ Ht Hw Hn Hr)). solve_keeps.
Qed.
#[local] Hint Resolve says_chunk_loop : keeps.
Lemma says_chunk_work i j : keeps I (schedule_chunk_work regex_extended lost_callback loop_fuel i j).
Proof. unfold schedule_chunk_work. solve_keeps. Qed.
#[local] Hint Resolve says_chunk_work : keeps.
Lemma says_schedule : keeps I (schedule_work regex_extended lost_callback loop_fuel).
Proof.
  unfold schedule_work. solve_keeps. generalize (seq 0 (length (streams_ s0))). intros ixs.
  induction ixs; cbn [work_streams]; solve_keeps.
Qed.
#[local] Hint Resolve says_schedule : keeps.

Lemma says_plan i j d : 0 ≤ d.(T_SyncStart.start_offset) → keeps I (apply_append_plan regex_extended lost_callback i j d).
Proof.
  intros Hd. unfold apply_append_plan. solve_keeps.
Qed.
Lemma says_complete i : keeps I (set_complete i).
Proof. by apply says_stream_change. Qed.
#[local] Hint Resolve says_complete : keeps.
Lemma says_advance i : keeps I (advance_stream_task regex_extended lost_callback loop_fuel i).
Proof. unfold advance_stream_task. solve_keeps. by apply says_plan. Qed.
#[local] Hint Resolve says_advance : keeps.

Lemma plan_true m2 : keeps stream_true (apply_manifest2_to_stream m2).
Proof.
  assert (∀ current applied complete pending, keeps stream_true
    (modify (T_StreamSendState.set_progress current applied complete pending))) as Hp by (intros; by apply keeps_modify).
  assert (keeps stream_true (modify (update_active_task (T_FileSendTask.set_chunk_mode false)))) as Hm.
  { apply keeps_modify. intros st Hst. apply Forall_alter; [exact Hst|]. intros k _. apply true_append_mode. }
  unfold apply_manifest2_to_stream. solve_keeps.
Qed.

(** An answer to the manifest; where a transfer resumes, the offset is a number
    the message can carry. *)
Definition plan_offsets (m2 : T_Manifest2.t) : Prop :=
  Forall (λ p, 0 ≤ p.(T_Manifest2Stream.start_offset)) m2.(T_Manifest2.streams).

Lemma plan_start m2 : plan_offsets m2 →
  gives stream_true (apply_manifest2_to_stream m2)
    (λ r, ∀ result, r = Some result → 0 ≤ result.(T_Manifest2ApplyResult.start).(T_SyncStart.start_offset)).
Proof.
  intros Hm2 st r st' Hst Hr. pose proof (plan_true m2 st r st' Hst Hr) as Hk.
  destruct r as [[result|]|]; [|by split|done]. split; [done|]. intros ? [= <-]. clear Hk.
  unfold apply_manifest2_to_stream, mbind, M_bind, get, modify, throw in Hr.
  destruct (_ || _); [done|]. destruct (list_find _ (T_Manifest2.streams m2)) as [[n plan]|] eqn:E; [|done].
  apply list_find_Some in E as (E & _ & _). assert (0 ≤ plan.(T_Manifest2Stream.start_offset)) as Hplan
    by (by eapply (Forall_lookup_1 _ _ n plan) in Hm2).
  destruct (bool_decide _); [by injection Hr as <- <-|]. destruct (list_find _ _) as [[]|]; [|done].
  destruct (active_task _); [|by injection Hr as <- <-].
  destruct (bool_decide _); by injection Hr as <- <-.
Qed.

Lemma says_plan_stream m2 i : plan_offsets m2 → keeps I (apply_manifest2_stream regex_extended lost_callback m2 i).
Proof.
  intros Hm2. unfold apply_manifest2_stream. apply with_stream. intros stream Hst.
  pose proof (plan_start m2 Hm2 stream) as Hp.
  destruct (apply_manifest2_to_stream m2 stream) as [[[result|]|e] stream'] eqn:E; specialize (Hp _ _ Hst eq_refl).
  all: assert (keeps I (update_stream i (λ _, stream'))) as Hup by (apply says_stream_change; intros _ _; apply Hp).
  - destruct Hp as [_ Hp]. pose proof (λ i j, says_plan i j _ (Hp _ eq_refl)). solve_keeps.
  - exact Hup.
  - solve_keeps.
Qed.
Lemma says_plans m2 : plan_offsets m2 → keeps I (on_manifest2 regex_extended lost_callback loop_fuel m2).
Proof.
  intros Hm2. unfold on_manifest2. apply keeps_get. intros s _. apply keeps_bind; [|intros; solve_keeps].
  generalize (seq 0 (length (streams_ s))). intros ixs.
  induction ixs as [|i ixs IH]; cbn [apply_streams]; [apply keeps_ret|].
  apply keeps_bind; [by apply says_plan_stream|]. intros. solve_keeps.
Qed.

(** A heartbeat. *)
Lemma says_ready_change i j hb : keeps I (update_append i j (λ a, (mark_append_create_ready_from_heartbeat hb a).2)).
Proof.
  apply says_append_change. intros a Ha. unfold mark_append_create_ready_from_heartbeat.
  destruct (_ || _); [done|]. by destruct (_ && _).
Qed.
Lemma says_data_change i j hb : keeps I (update_append i j (λ a, (mark_append_data_ready_from_heartbeat hb a).2)).
Proof.
  apply says_append_change. intros a Ha. unfold mark_append_data_ready_from_heartbeat.
  destruct (negb _); [done|]. destruct (_ && _); [done|]. cbn. apply u64_range.
Qed.
#[local] Hint Resolve says_ready_change says_data_change : keeps.
Lemma says_append_report i j hb : keeps I (on_append_heartbeat regex_extended lost_callback loop_fuel i j hb).
Proof. unfold on_append_heartbeat. solve_keeps. Qed.
Lemma says_chunk_report i j hb : keeps I (on_chunk_heartbeat regex_extended lost_callback loop_fuel i j hb).
Proof.
  unfold on_chunk_heartbeat. solve_keeps. apply says_erased. intros b. apply buffer_erase_one.
Qed.
#[local] Hint Resolve says_append_report says_chunk_report : keeps.
Lemma says_report id hb : keeps I (on_heartbeat regex_extended lost_callback loop_fuel id hb).
Proof.
  unfold on_heartbeat. apply keeps_bind; [|intros; solve_keeps]. apply (carries_net truthful); [auto..|].
  unfold T_SenderNetwork.on_heartbeat. apply keeps_on. by intros c s (? & ? & ?).
Qed.
#[local] Hint Resolve says_report : keeps.

(** *** Lost sends, and the callbacks *)
Lemma says_lost_again lost_sends : keeps I (handle_lost_sends regex_extended lost_callback loop_fuel lost_sends).
Proof. unfold handle_lost_sends. solve_keeps. Qed.
Lemma says_line_ready id : keeps I (on_connected regex_extended lost_callback loop_fuel id).
Proof. unfold on_connected. solve_keeps. Qed.
Lemma says_refusal nack : keeps I (on_nack regex_extended lost_callback loop_fuel nack).
Proof. unfold on_nack. solve_keeps. Qed.
#[local] Hint Resolve says_refusal : keeps.
Lemma says_received id m : (∀ m2, m = M_Manifest2 m2 → plan_offsets m2) →
  keeps I (on_message regex_extended lost_callback loop_fuel id m).
Proof. intros Hm. destruct m; cbn [on_message]; auto with keeps. by apply says_plans, Hm. Qed.
Lemma says_turn : keeps I (tick regex_extended lost_callback loop_fuel).
Proof. unfold tick. solve_keeps. Qed.
Lemma says_late : keeps I timeout.
Proof. unfold timeout. solve_keeps. Qed.
End sends.
End truth.

(** *** The streams of the source *)
Section streams.
Import SourceFacts PlainScan SourceTruth.
Context {CRC : Crc32c} (regex_extended : string → exc (string → bool)) (options : T_NodeOptions.t) (tree : gmap path node).

(** A directory the sender may read: one that its options name, or one that it
    finds below [source_root]. *)
Definition configured (root : T_StreamRootConfig.t) : Prop :=
  options.(T_NodeOptions.source_root) ≠ [] ∧ ∃ w roots w', w.(nodes) = tree ∧ source_roots options w = (Ret roots, w') ∧ root ∈ roots.

(** The files of the source: the bytes that are made when there is no
    [source_root]; else the regular files below the directories. *)
Definition source_of (sid fid : Z) (name : string) (data : Bytes) : Prop :=
  if bool_decide (options.(T_NodeOptions.source_root) = [])
  then sid = kStreamId ∧ fid = kFileId ∧ name = file_name_for_id kFileId ∧ data = make_sender_bytes options.(T_NodeOptions.size)
  else ∃ root rel, configured root ∧ sid = root.(T_StreamRootConfig.stream_id) ∧
    holds tree root.(T_StreamRootConfig.root) rel (File data) ∧ visited [] rel = true ∧
    fid = entry_id EM_EntryKind.REGULAR_FILE (generic_string rel) ∧ name = generic_string rel.

(** Chunks have a size; directories are plain, the ids of their entries
    differ, and no file has 2^62 bytes. *)
Record sound_source : Prop := {
  sound_chunks : 0 < options.(T_NodeOptions.chunk_size) < 4294967296;
  sound_bytes : zlen (make_sender_bytes options.(T_NodeOptions.size)) < 4611686018427387904;
  sound_trees root : configured root → plain_tree (mk_fsys tree []) root.(T_StreamRootConfig.root);
  sound_ids root : configured root → distinct_ids tree root.(T_StreamRootConfig.root) [];
  sound_sizes root rel data : configured root → holds tree root.(T_StreamRootConfig.root) rel (File data) →
    zlen data < 4611686018427387904
}.
Context (Hsound : sound_source).

Abbreviation stream_true := (λ st, Forall (Truth.task_true source_of options.(T_NodeOptions.chunk_size) regex_extended tree)
  st.(T_StreamSendState.tasks)).
Abbreviation there := (λ w : fsys, w.(nodes) = tree).

Lemma simulated_true stream : options.(T_NodeOptions.source_root) = [] → simulated_stream options = Ret stream → stream_true stream.
Proof.
  intros Hroot Hr. unfold simulated_stream in Hr. apply exc_bind_inv in Hr as (task & Ht & Hr). injection Hr as <-. cbn.
  constructor; [|constructor]. unfold make_simulated_file_task in Ht.
  pose proof (sound_bytes Hsound) as Hl.
  apply (new_task_true regex_extended tree source_of _ (sound_chunks Hsound)) in Ht; [done| | | |done|intros _; apply whole_checksum].
  - unfold source_of. by rewrite bool_decide_eq_true_2.
  - intros w offset len bytes w' _ Hr Ho Hlen. unfold read_range, reader_reader, read_range, T_SimulatedSourceReader.reader in Hr.
    cbn [T_SimulatedSourceReader.data_] in Hr. destruct (outside _ _ _) eqn:Hout; [done|]. apply returned in Hr as <-.
    split; [|done]. apply not_outside in Hout; [done|uint_lia..].
  - intros w offset len res w' Hw Hr. unfold read_range, reader_reader, read_range, T_SimulatedSourceReader.reader in Hr.
    destruct (outside _ _ _); injection Hr as _ <-; exact Hw.
Qed.

Lemma says_exists p : keeps there (with_ec (exists_ p)).
Proof.
  intros w r w' Hw Hr. assert (read_only (with_ec (exists_ p))) as Hro by eauto with yisync.
  destruct (read_only_run _ _ _ _ Hro Hr) as [E _]. cbn in Hw. by destruct r; rewrite E.
Qed.
Lemma gives_found d : plain_tree (mk_fsys tree []) d.(T_SourceDirectory.root_) →
  gives there (T_SourceDirectory.files regex_extended d) (Forall (λ file, ∃ rel n, file_true tree d file rel n)).
Proof.
  intros Hp w r w' Hw Hr. assert (read_only (T_SourceDirectory.files regex_extended d)) as Hro.
  { unfold T_SourceDirectory.files, T_SourceDirectory.scan_manifest. solve_read_only. }
  destruct (read_only_run _ _ _ _ Hro Hr) as [E _]. cbn in Hw. destruct r as [files|]; rewrite E; [|done]. split; [done|].
  apply Forall_forall. intros file. by eapply (files_true regex_extended tree d Hp w).
Qed.

Lemma directory_stream root : options.(T_NodeOptions.source_root) ≠ [] → configured root →
  gives there (build_stream regex_extended options root) (λ st, ∀ stream, st = Some stream → stream_true stream).
Proof.
  intros Hne Hroot. unfold build_stream. apply gives_after; [apply says_exists|]. intros [[]|]; try apply gives_throw.
  set (d := T_SourceDirectory.mk _ _ _ _). cbv zeta.
  pose proof (sound_trees Hsound root Hroot : plain_tree _ d.(T_SourceDirectory.root_)) as Hp. apply gives_after.
  { intros w r w' Hw Hr. destruct (read_only_run _ _ _ _ (read_only_scan _ _ _ _ _ _) Hr) as [E _]. cbn in Hw. by destruct r; rewrite E. }
  intros manifest. destruct (_ && _); [by apply gives_ret|].
  eapply gives_bind; [by apply gives_found|]. intros files Hfiles. cbv beta in Hfiles.
  eapply gives_bind.
  - apply (tasks_true regex_extended tree source_of _ (sound_chunks Hsound) d Hp (sound_ids Hsound root Hroot)).
    + intros rel data. exact (sound_sizes Hsound root rel data Hroot).
    + intros rel data Hh Hv. unfold source_of. rewrite bool_decide_eq_false_2 by done. exists root, rel. by split_and!.
    + by apply Forall_forall.
  - intros tasks Ht. apply gives_ret. by intros stream [= <-].
Qed.
End streams.

(** *** The application *)
Section application.
Import PlainScan SourceTruth.
Context {CRC : Crc32c} (regex_extended : string → exc (string → bool)).
Context `{!MapIteration T_SendBufferKey.t T_BufferedSend.t}.
Context (options : T_NodeOptions.t) (tree : gmap path node) (Hsound : sound_source options tree).
Abbreviation source := (source_of options tree).
Abbreviation ok := (truthful source options.(T_NodeOptions.chunk_size)).
Abbreviation I := (tells regex_extended source tree options).
Abbreviation Hcs := (sound_chunks _ _ Hsound).

Lemma says_new_stream st : Forall (task_true source options.(T_NodeOptions.chunk_size) regex_extended tree) st.(T_StreamSendState.tasks) →
  keeps I (push_stream st).
Proof. intros Hst. apply keeps_modify. intros s []. constructor; try done. cbn. apply Forall_app. by split; [|constructor]. Qed.

Lemma says_directories roots : options.(T_NodeOptions.source_root) ≠ [] → Forall (configured options tree) roots →
  keeps I (build_streams regex_extended roots).
Proof.
  intros Hne. induction 1 as [|root roots Hroot _ IH]; cbn [build_streams]; [apply keeps_ret|].
  apply keeps_get. intros s HI. rewrite (tells_options _ _ _ _ _ HI). eapply keeps_given.
  - eapply (gives_on_part _ (λ w, w.(nodes) = tree)); [apply tells_files| |by apply directory_stream].
    intros w s' [] Hw. by constructor.
  - intros [st|] Hst; cbv beta in Hst; (apply keeps_bind; [|done]); [by apply says_new_stream, Hst|apply keeps_ret].
Qed.

Lemma read_only_roots : read_only (source_roots options).
Proof.
  unfold source_roots.
  assert (∀ p names, read_only (discover_roots p names)) as Hd.
  { intros p names. assert (∀ q, read_only (or_throw "status: " (is_directory q))) as Hq.
    { intros q. apply read_only_or_throw. intros w. apply syscall_quiet. intros t a n. by repeat case_match; intros; simplify_eq. }
    induction names as [|name names IH]; cbn [discover_roots]; solve_read_only. }
  assert (∀ p, read_only (or_throw "directory iterator cannot open directory: " (list_directory p))) as Hl.
  { intros q. apply read_only_or_throw. intros w. apply syscall_quiet. intros t a n. by repeat case_match; intros; simplify_eq. }
  solve_read_only.
Qed.

Lemma says_sources : keeps I (build_source_streams regex_extended).
Proof.
  unfold build_source_streams. apply keeps_get. intros s HI. rewrite (tells_options _ _ _ _ _ HI).
  destruct (bool_decide _) eqn:Hroot.
  - apply bool_decide_eq_true in Hroot. apply (keeps_given _ _ _ (λ st, simulated_stream options = Ret st)).
    + intros s0 r s' H0 Hr. injection Hr as <- <-. by destruct (simulated_stream options).
    + intros st Hst. apply says_new_stream. by apply (simulated_true regex_extended options tree Hsound).
  - apply bool_decide_eq_false in Hroot. apply (keeps_given _ _ _ (Forall (configured options tree))).
    + intros s0 r s' H0 Hr. unfold on in Hr. destruct (source_roots options (part s0)) as [r0 w] eqn:E. injection Hr as <- <-.
      destruct (read_only_run _ _ _ _ read_only_roots E) as [Hw _].
      assert (I (set_part w s0)) as HI' by (destruct H0; constructor; try done; cbn in *; congruence).
      destruct r0 as [roots|]; [|done]. split; [done|]. apply Forall_forall. intros root Hin.
      split; [done|]. exists (part s0), roots, w. split_and!; [apply H0|done..].
    + intros roots Hroots. pose proof (says_directories roots Hroot Hroots). solve_keeps.
Qed.
Lemma says_sources_again : keeps I (rebuild_source_streams_for_rescan regex_extended).
Proof.
  unfold rebuild_source_streams_for_rescan. apply keeps_bind; [|intros; apply says_sources].
  apply keeps_modify. intros s []. by constructor.
Qed.

Lemma new_network endpoints configs max policy hello network :
  T_SenderNetwork.create endpoints configs max policy hello = Ret network → net_carries ok network.
Proof.
  unfold T_SenderNetwork.create. intros H. inv_bind. injection H as <-. split_and!; cbn; [|constructor|done].
  unfold lines_carry. cbn. apply Forall_fmap, Forall_forall. by intros endpoint _.
Qed.
Lemma create_tells world s world' : world.(nodes) = tree → create regex_extended options world = (Ret s, world') → I s.
Proof.
  intros Hw Hc. unfold create in Hc. destruct (T_SenderNetwork.create _ _ _ _ _) as [network|] eqn:En; [|done].
  apply new_network in En. set (app := mk _ _ _ _ _ _ _ _ _ _ _ _ _ _ _ _) in Hc.
  destruct (build_source_streams regex_extended app) as [r s1] eqn:E.
  assert (I s1) as HI; [|by destruct r; [injection Hc as <- _|]].
  apply (keeps_run I) in E; [done|apply says_sources|].
  constructor; [done|apply map_Forall_empty|constructor|done|done].
Qed.

(** *** The events *)
Context (depth : nat) (loop_fuel : SenderApp.limit).
Abbreviation Lost := (lost regex_extended depth loop_fuel).

Lemma says_losses d lost_sends : keeps I (on_lost_sends regex_extended loop_fuel d lost_sends).
Proof.
  revert lost_sends. induction d as [|d IH]; intros lost_sends; cbn [on_lost_sends]; [apply keeps_throw|].
  by apply (says_lost_again _ _ _ _ Hcs).
Qed.

(** A message has the numbers its fields can carry; a new connection has
    nothing to write yet. *)
Definition proper (e : event) : Prop :=
  match e with
  | Receives _ m => message_ok m
  | Connects _ c _ => c.(AsyncFrameConnection.sent_) = [] ∧ c.(AsyncFrameConnection.write_queue_) = []
  | _ => True
  end.

Lemma says_all_lines {A} (m : M T_SenderLineSet.t A) : keeps (lines_carry ok) m → keeps I (on m).
Proof.
  apply keeps_on_part; [intros s HI; apply (tells_net _ _ _ _ _ HI)|]. intros l s [] Hl. constructor; try done.
  by destruct tells_net0 as (_ & ? & ?).
Qed.
Lemma says_line_gone id b : keeps I (handle_unavailable regex_extended depth loop_fuel id b).
Proof.
  apply (carries_unavailable ok I); [apply tells_net|apply tells_set_net|]. intros. apply says_losses.
Qed.
Lemma says_line_up id : keeps I (handle_connected id).
Proof. apply (carries_connected ok I); [apply tells_net|apply tells_set_net]. Qed.
#[local] Hint Resolve says_line_gone says_line_up : keeps.
#[local] Hint Extern 1 (keeps _ (on (T_SenderLineSet.schedule_reconnect _))) => apply says_all_lines; auto with keeps : keeps.
#[local] Hint Extern 1 (keeps _ (on (T_SenderLineSet.reconnect_timer _))) => apply says_all_lines; auto with keeps : keeps.
#[local] Hint Extern 1 (keeps _ (on (T_SenderLineSet.find _))) => apply says_all_lines, carries_find_line : keeps.
#[local] Hint Extern 1 (keeps _ (on (T_SenderLineSet.update _ _))) => apply says_all_lines, carries_update; done : keeps.

Lemma says_marked close id : keeps I (close id) →
  keeps I (T_SenderLineSet.mark_unavailable_with (handle_unavailable regex_extended depth loop_fuel) close id).
Proof. intros Hc. unfold T_SenderLineSet.mark_unavailable_with. solve_keeps. Qed.
Lemma says_gone id : keeps I (T_SenderLineSet.on_close (handle_unavailable regex_extended depth loop_fuel) id).
Proof. unfold T_SenderLineSet.on_close. solve_keeps. apply says_marked, keeps_throw. Qed.

Lemma says_event e : proper e → keeps I (handle regex_extended depth loop_fuel e).
Proof.
  intros Hp. assert (∀ l, keeps I (Lost l)) as Hlost by (intros; apply says_losses).
  destruct e as [id m|id c loop|id|id|id|id| | |events|reason]; cbn [handle].
  - apply (carries_incoming ok I); [apply tells_net|apply tells_set_net|done|intros; by apply says_line_ready; [apply Hcs|]|].
    apply says_received; [apply Hcs|done|]. intros m2 ->. destruct Hp as [_ [_ Hp]].
    eapply Forall_impl; [exact Hp|]. intros p (_ & _ & _ & [? _]). done.
  - destruct Hp as [H1 H2]. assert (conn_carries ok c) as Hc by (exists []; split; [constructor|by rewrite H1, H2]).
    unfold T_SenderLineSet.on_tcp_connected. apply keeps_bind; [by apply says_all_lines, carries_update|intros []].
    apply (keeps_given _ _ _ (λ c', AsyncFrameConnection.start loop c = Ret c')).
    { intros s r s' HI [= <- <-]. by destruct (AsyncFrameConnection.start loop c). }
    intros c' E. apply (conn_start ok) in E; [|done].
    apply keeps_bind; [by apply says_all_lines, carries_set_connection|auto with keeps].
  - unfold T_SenderLineSet.on_connect_failed. solve_keeps.
  - unfold T_SenderLineSet.on_error, T_SenderLineSet.mark_unavailable. solve_keeps. apply says_marked, says_gone.
  - apply says_gone.
  - auto with keeps.
  - by apply says_turn; [apply Hcs|].
  - apply says_late.
  - pose proof (says_rescan_request regex_extended source tree options "watch event").
    pose proof (says_later regex_extended source tree options). unfold watch_poll_tick. solve_keeps.
  - pose proof (says_manifest1 regex_extended source tree options Lost Hlost).
    pose proof says_sources_again. pose proof (says_failed regex_extended source tree options).
    assert (∀ f, (∀ s, I s → I (f s)) → keeps I (modify f)) as Hm by (intros; by apply keeps_modify).
    unfold rescan_and_send_manifest. solve_keeps; apply Hm; intros ? []; by constructor.
Qed.
Lemma says_events events : Forall proper events → keeps I (handle_all regex_extended depth loop_fuel events).
Proof.
  induction 1 as [|e events He _ IH]; cbn [handle_all]; [apply keeps_ret|]. apply keeps_get. intros s _.
  destruct (stopped_ s); [apply keeps_ret|]. apply keeps_bind; [by apply says_event|done].
Qed.
Lemma says_started watcher_starts : keeps I (start watcher_starts).
Proof.
  pose proof (says_later regex_extended source tree options). pose proof (says_failed regex_extended source tree options).
  assert (keeps I (on (C := T_SenderNetwork.t) T_SenderNetwork.start)) as Hn.
  { apply (carries_net ok I); [apply tells_net|apply tells_set_net|]. unfold T_SenderNetwork.start.
    apply (keeps_on_part _ (lines_carry ok)); [by intros n []|intros l n (? & ? & ?) ?; by split_and!|apply carries_start_all]. }
  unfold start, start_watchers. solve_keeps.
Qed.

Lemma run_tells world watcher_starts events s0 world0 r s :
  world.(nodes) = tree → create regex_extended options world = (Ret s0, world0) → Forall proper events →
  (start watcher_starts;; run_loop regex_extended depth loop_fuel events) s0 = (r, s) → I s.
Proof.
  intros Hw Hc He Hr. apply create_tells in Hc; [|done]. eapply (keeps_run I); [|exact Hc|exact Hr].
  apply keeps_bind; [apply says_started|intros _]. unfold run_loop.
  apply keeps_bind; [apply keeps_modify; intros s1 []; by constructor|]. intros _. by apply says_events.
Qed.
End application.
End SenderTells.


(** C3: every message that a run of the sender hands to a connection says of a file
    what the source holds: from its construction through any events (lines lost
    and made, messages resent, answers and heartbeats of any content, rescans),
    the bytes on each line, sent or waiting, are frames of messages such that the
    CREATE of a regular file has the name and the size of a file of the source, a
    FILE_BEGIN its name, its size and its checksum, and a DATA or CHUNK the bytes
    of that file at the offset it names. *)
Theorem sender_sends_truth {CRC : Crc32c} (regex_extended : string → exc (string → bool))
    `{!MapIteration T_SendBufferKey.t T_BufferedSend.t} (depth : nat) (loop_fuel : SenderApp.limit)
    options world watcher_starts events s0 world0 r s :
  SenderTells.sound_source options world.(nodes) →
  SenderApp.create regex_extended options world = (Ret s0, world0) → Forall SenderTells.proper events →
  (SenderApp.start watcher_starts;; SenderApp.run_loop regex_extended depth loop_fuel events) s0 = (r, s) →
  ∀ line c, line ∈ s.(SenderApp.network_).(T_SenderNetwork.lines_).(T_SenderLineSet.lines_) →
    line.(SenderLine.connection) = Some c →
    ∃ ms, Forall (Truth.truthful (SenderTells.source_of options world.(nodes)) options.(T_NodeOptions.chunk_size)) ms ∧
      c.(AsyncFrameConnection.sent_) ++ WriteFacts.pending c.(AsyncFrameConnection.write_queue_) = FramingFacts.frames ms.
Proof.
  intros Hsound Hc He Hr line c Hin Hline.
  destruct (SenderTells.tells_net _ _ _ _ _ (SenderTells.run_tells _ _ _ Hsound _ _ _ _ _ _ _ _ _ eq_refl Hc He Hr)) as (Hl & _ & _).
  unfold OnLines.lines_carry in Hl. rewrite Forall_forall in Hl. specialize (Hl _ Hin).
  unfold OnLines.line_carries in Hl. by rewrite Hline in Hl.
Qed.

#[local] Existing Instance some_order.
Lemma sample_sound : SenderTells.sound_source SenderRun.sample_options ∅.
Proof. constructor; [done|done|by intros root []..|]. by intros root rel data []. Qed.
Lemma sample_proper : Forall SenderTells.proper sample_events.
Proof. repeat constructor; vm_compute; intuition discriminate. Qed.

(** How many bytes each line of the sample run carries. *)
Definition line_bytes (o : option (exc unit * SenderApp.t)) : list Z :=
  match o with
  | Some (_, s) =>
      (λ line, match line.(SenderLine.connection) with
        | Some c => zlen (c.(AsyncFrameConnection.sent_) ++ WriteFacts.pending c.(AsyncFrameConnection.write_queue_))
        | None => 0
        end) <$> s.(SenderApp.network_).(T_SenderNetwork.lines_).(T_SenderLineSet.lines_)
  | None => []
  end.

Lemma sender_sends_truth_witness :
  ∃ c ms, Forall (Truth.truthful (SenderTells.source_of SenderRun.sample_options ∅) 65536) ms ∧ FramingFacts.frames ms ≠ [] ∧
    c.(AsyncFrameConnection.sent_) ++ WriteFacts.pending c.(AsyncFrameConnection.write_queue_) = FramingFacts.frames ms.
Proof.
  destruct sample_start as [[s0|e] w] eqn:E0; [|vm_compute in E0; discriminate].
  destruct (sample_run s0) as [r s] eqn:E1.
  assert (sample_end = Some (r, s)) as Hend by (unfold sample_end; by rewrite E0, E1).
  assert (∃ line c, s.(SenderApp.network_).(T_SenderNetwork.lines_).(T_SenderLineSet.lines_) = [line] ∧
    line.(SenderLine.connection) = Some c ∧
    zlen (c.(AsyncFrameConnection.sent_) ++ WriteFacts.pending c.(AsyncFrameConnection.write_queue_)) ≠ 0) as (line & c & Hl & Hc & Hne).
  { assert (line_bytes sample_end = [353]) as Hb by (vm_compute; reflexivity). rewrite Hend in Hb. clear - Hb. unfold line_bytes in Hb.
    destruct (T_SenderLineSet.lines_ _) as [|line [|]]; try done. exists line. cbn [fmap list_fmap] in Hb.
    destruct (SenderLine.connection line) as [c|]; [|done]. exists c. split_and!; [done..|]. injection Hb as ->. done. }
  destruct (sender_sends_truth (λ _, Throw "") 3 10%nat SenderRun.sample_options sample_world (λ _, true) sample_events s0 w r s
    sample_sound E0 sample_proper E1 line c) as (ms & Hms & E);
    [rewrite Hl; apply list_elem_of_here|exact Hc|].
  exists c, ms. split; [exact Hms|]. split; [|exact E]. intros Hz. rewrite E, Hz in Hne. apply Hne. reflexivity.
Defined.
