(* ===== verification/EndToEnd.v ===== *)
(** * From the sender's files to the receiver's disk

    [sender_sends_truth] says that the messages on the sender's lines are true of
    its source; here messages of which that holds, as a receiver gets them, put
    the source's own bytes on its disk.  The receiver knows nothing of the source:
    that the bytes it writes are the right ones rests on the sender's messages. *)
From S2P Require Import Prelude Hoare Crc32c Filesystem Wire Protocol Sync Scheduler Source ReceiverPaths AppendReceiver ChunkReceiver.
From S2P Require Import DiskWriter ReceiverStreams NodeCommon Coordinator CommitConfirmation ReceiverTransfer ManifestAgreement.
From S2P Require Import SenderApp SenderRun SenderTruth SenderTells.
#[local] Open Scope Z_scope.

Module Arrival.
Import T_ReceiverStreamContext T_ReceiverCoordinator CoordinatorRun ChunkedFile AppendedFile.
Import ChunkFacts AppendTransfer Truth PlainScan.

(** ** The source has one file of an id *)
Section source.
Context {CRC : Crc32c} (options : T_NodeOptions.t) (tree : gmap path node).
Abbreviation source := (SenderTells.source_of options tree).
Abbreviation cs := options.(T_NodeOptions.chunk_size).

(** A stream id is the id of one directory. *)
Definition distinct_streams : Prop :=
  ∀ r1 r2, SenderTells.configured options tree r1 → SenderTells.configured options tree r2 →
    r1.(T_StreamRootConfig.stream_id) = r2.(T_StreamRootConfig.stream_id) →
    r1.(T_StreamRootConfig.root) = r2.(T_StreamRootConfig.root).

Context (Hsound : SenderTells.sound_source options tree) (Hstreams : distinct_streams).

Lemma source_unique sid fid name1 data1 name2 data2 :
  source sid fid name1 data1 → source sid fid name2 data2 → name1 = name2 ∧ data1 = data2.
Proof.
  unfold SenderTells.source_of. destruct (bool_decide _); [by intros (_ & _ & -> & ->) (_ & _ & -> & ->)|].
  intros (r1 & rel1 & Hr1 & -> & Hh1 & Hv1 & Hid1 & ->) (r2 & rel2 & Hr2 & Hsid & Hh2 & Hv2 & Hid2 & ->).
  pose proof (Hstreams _ _ Hr1 Hr2 Hsid) as Hroot. rewrite <- Hroot in Hh2.
  assert (rel1 = rel2) as -> by (apply (SenderTells.sound_ids _ _ Hsound r1 Hr1 rel1 (File data1) rel2 (File data2)); try done; cbn; congruence).
  split; [done|]. destruct Hh1 as [_ E1], Hh2 as [_ E2]. rewrite E1 in E2. by injection E2.
Qed.

Lemma source_bound sid fid name data : source sid fid name data → zlen data < 9223372036854775808.
Proof.
  unfold SenderTells.source_of. destruct (bool_decide _); intros H.
  - destruct H as (_ & _ & _ & ->). pose proof (SenderTells.sound_bytes _ _ Hsound). lia.
  - destruct H as (root & rel & Hr & _ & Hh & _). pose proof (SenderTells.sound_sizes _ _ Hsound root rel data Hr Hh). lia.
Qed.

(** ** Chunks *)

(** Chunks that are true are the chunks of the file. *)
Definition of_file (begin : T_FileBegin.t) (c : T_Chunk.t) : Prop :=
  c.(T_Chunk.stream_id) = begin.(T_FileBegin.stream_id) ∧ c.(T_Chunk.file_id) = begin.(T_FileBegin.file_id) ∧
  c.(T_Chunk.seq) = begin.(T_FileBegin.seq).
Definition arrivals (chunks : list (Z * T_Chunk.t)) : list event := (λ '(line, c), OnChunk line c) <$> chunks.

Lemma true_chunk begin name data c :
  source begin.(T_FileBegin.stream_id) begin.(T_FileBegin.file_id) name data → truthful source cs (M_Chunk c) →
  of_file begin c → 0 ≤ c.(T_Chunk.chunk_index) < count data cs ∧
  c = chunk_message data cs begin.(T_FileBegin.stream_id) begin.(T_FileBegin.seq) begin.(T_FileBegin.file_id) c.(T_Chunk.chunk_index).
Proof.
  intros Hsrc (name' & data' & i & Hsrc' & Hi & Hc) (Hs & Hf & Hq). rewrite Hs, Hf, Hq in *.
  destruct (source_unique _ _ _ _ _ _ Hsrc Hsrc') as [_ <-]. rewrite Hc. by cbn.
Qed.

Lemma true_arrivals begin name data chunks :
  source begin.(T_FileBegin.stream_id) begin.(T_FileBegin.file_id) name data →
  Forall (λ lc, truthful source cs (M_Chunk lc.2) ∧ of_file begin lc.2) chunks →
  let ixs := (λ lc, (lc.1, lc.2.(T_Chunk.chunk_index))) <$> chunks in
  arrivals chunks = chunk_events data cs begin.(T_FileBegin.stream_id) begin.(T_FileBegin.seq) begin.(T_FileBegin.file_id) ixs ∧
  Forall (λ li, 0 ≤ li.2 < count data cs) ixs.
Proof.
  intros Hsrc. induction 1 as [|[line c] chunks [Hc Hf] _ [IH1 IH2]]; [by split; constructor|].
  destruct (true_chunk begin name data c Hsrc Hc Hf) as [Hi Hm]. split; [|by constructor].
  cbn. rewrite <- Hm. f_equal. exact IH1.
Qed.

(** ** Pieces *)

(** What a DATA among these events says is true. *)
Definition true_event (e : event) : Prop := match e with OnData _ d => truthful source cs (M_Data d) | _ => True end.

Lemma slice_split data off n m : 0 ≤ off → 0 ≤ n → 0 ≤ m → slice data off n ++ slice data (off + n) m = slice data off (n + m).
Proof.
  intros. unfold slice. rewrite !Z2Nat.inj_add by done. rewrite <- drop_drop, <- take_take_drop. done.
Qed.

Lemma true_pieces sid seq fid name data moves off :
  source sid fid name data → 0 ≤ off → Forall true_event (events sid seq fid (zlen data) off moves) →
  pieces moves = slice data off (zlen (pieces moves)).
Proof.
  intros Hsrc. revert off. induction moves as [|[line piece|e] moves IH]; intros off Hoff He.
  - done.
  - apply Forall_cons in He as [(name' & data' & off' & len & Hsrc' & Ho & Hl & Hin & Hd) He]. cbn in Hsrc'.
    destruct (source_unique _ _ _ _ _ _ Hsrc Hsrc') as [_ <-].
    pose proof (f_equal T_Data.offset Hd) as E1. pose proof (f_equal T_Data.payload Hd) as E2. cbn in E1, E2. subst off'.
    change (pieces (Piece line piece :: moves)) with (piece ++ pieces moves).
    pose proof (zlen_nonneg piece). rewrite zlen_app, <- slice_split by (done || lia || apply zlen_nonneg). f_equal.
    + by rewrite E2 at 2; rewrite E2, zlen_slice by lia.
    + apply IH; [lia|done].
  - apply Forall_cons in He as [_ He]. by apply IH.
Qed.
End source.
End Arrival.

(** ** The properties *)
Import T_ReceiverStreamContext T_ReceiverCoordinator CoordinatorRun ChunkedFile AppendedFile.
Import ChunkFacts ChunkTransfer CommitTransfer FileTransfer.

Section properties.
Context {CRC : Crc32c} `{!MapIteration Z T_ReceiverStreamContext.t}.
Context (options : T_NodeOptions.t) (tree : gmap path node).
Abbreviation true_of := (Truth.truthful (SenderTells.source_of options tree) options.(T_NodeOptions.chunk_size)).

(** C4: a chunked file from the sender's directory to the receiver's: a FILE_BEGIN
    and chunks that are true of the source, as [sender_sends_truth] says of all that
    the sender hands to its lines, and that reach the receiver in any order, on any
    lines and with any repetitions as long as each chunk comes once, put the bytes
    of the source's file of that id and name on the receiver's disk; no message is
    refused, each chunk is acknowledged on the line it came on, the poll confirms the
    file's size on the line of the commit, every other entry of the disk is as it
    was, and nothing is pending. *)
Theorem chunked_file_arrives s c r begin ds name line chunks :
  let sid := r.(T_ChunkedReceiverStream.stream_id) in
  let seq := begin.(T_FileBegin.seq) in
  let file_id := begin.(T_FileBegin.file_id) in
  SenderTells.sound_source options tree → Arrival.distinct_streams options tree →
  true_of (M_FileBegin begin) →
  Forall (λ lc, true_of (M_Chunk lc.2) ∧ Arrival.of_file begin lc.2) chunks →
  (∀ i, 0 ≤ i < begin.(T_FileBegin.chunk_count) → i ∈ (λ lc, lc.2.(T_Chunk.chunk_index)) <$> chunks) →
  begin.(T_FileBegin.stream_id) = sid → seq = r.(T_ChunkedReceiverStream.expected_seq) →
  r.(T_ChunkedReceiverStream.active) !! seq = None → room r begin ds name → 0 < seq → seq + 1 < 18446744073709551616 →
  c.(append) = None → c.(durable) = AppendDurable.initial → c.(chunk_commit) = ChunkCommit.none →
  s.(disk_writer_) = TaskQueue.empty →
  ∃ data a acks s',
    SenderTells.source_of options tree sid file_id begin.(T_FileBegin.name) data ∧
    run (OnBegin line begin :: Arrival.arrivals chunks ++
         [OnCommit line (T_FileCommit.mk sid seq file_id); WriterStart; WriterFinish; OnPoll]) (holding s sid c r) =
      (Ret a :: (Ret <$> acks) ++ [Ret (T_ReceiverActionBatch.commit_poll T_ReceiverActionBatch.empty);
         Ret T_ReceiverActionBatch.empty; Ret T_ReceiverActionBatch.empty;
         Ret (confirmed line sid seq file_id (zlen data) s.(recv_window_bytes_))], s') ∧
    a.(T_ReceiverActionBatch.nacks) = [] ∧
    Forall2 (λ lc, acknowledges lc.1 sid seq file_id s.(recv_window_bytes_) lc.2.(T_Chunk.chunk_index)) chunks acks ∧
    (CommitFacts.the_disk s').(nodes) !! (r.(T_ChunkedReceiverStream.root) ++ ds ++ [name]) = Some (File data) ∧
    (∀ q n, r.(T_ChunkedReceiverStream.world).(nodes) !! q = Some n → (CommitFacts.the_disk s').(nodes) !! q = Some n) ∧
    T_ReceiverStreamMap.has_pending_chunk_commit s'.(streams_) = false.
Proof.
  intros sid seq file_id Hsound Hstreams (data & Hsrc & Hsize & Hfinal & Hcs & Hcount & Hprev & Hsum) Hchunks Hall
    Hsid Hseq Hact Hroom Hs0 Hs1 Happ Hdur Hcom Hw.
  destruct (Arrival.true_arrivals options tree Hsound Hstreams begin _ data chunks Hsrc Hchunks) as [He His].
  cbv zeta in He, His. rewrite Hsid in *. fold sid seq file_id in He. rewrite Hcount in Hall.
  destruct (chunk_transfer_confirmed data options.(T_NodeOptions.chunk_size) s c r begin ds name line
    ((λ lc, (lc.1, lc.2.(T_Chunk.chunk_index))) <$> chunks))
    as (a & acks & s' & Hrun & Hn & Hacks & Hrest); try done.
  - apply Hsound.
  - intros i Hi. rewrite <- list_fmap_compose. by apply Hall.
  - exists data, a, acks, s'. split; [done|]. rewrite He. split; [exact Hrun|]. split; [done|]. split; [|done].
    by rewrite Forall2_fmap_l in Hacks.
Qed.

(** C5: an appended file from the sender's directory to the receiver's: a CREATE
    and DATA that are true of the source, in the order of their offsets, on any
    lines, with polls and the writer's work in between, and as many bytes as the
    CREATE announces, put the bytes of the source's file of that id and name on the
    receiver's disk; no message is refused, every heartbeat reports as durable either
    nothing or an offset that an fsync which had already ended was asked for, some
    heartbeat reports the full size, and nothing is left to write. *)
Theorem appended_file_arrives line create s sid c r d ds name moves :
  let p := r.(T_ReceiverStream.root_) ++ ds ++ [name] in
  let seq := create.(T_Create.seq) in
  let size := create.(T_Create.final_size) in
  let es := events sid seq create.(T_Create.file_id) size 0 moves in
  let s0 := appending s sid c r d TaskQueue.empty in
  SenderTells.sound_source options tree → Arrival.distinct_streams options tree →
  true_of (M_Create create) → Forall (Arrival.true_event options tree) es → zlen (pieces moves) = size → 0 < size →
  CreateFacts.create_expected r create → create.(T_Create.kind) = EM_EntryKind.REGULAR_FILE →
  path_parts create.(T_Create.name) = ds ++ [name] → CreateFacts.place r ds name →
  r.(T_ReceiverStream.world).(nodes) !! p = None →
  0 ≤ seq → seq + 1 < 18446744073709551616 → r.(T_ReceiverStream.stream_id_) = sid →
  c.(chunk) = None → c.(chunk_commit) = ChunkCommit.none →
  d.(AppendDurable.durable_file_id) ≠ create.(T_Create.file_id) → Forall proper moves →
  ∃ data, SenderTells.source_of options tree sid create.(T_Create.file_id) create.(T_Create.name) data ∧
    honest (OnCreate line create :: es ++ settle) s0 [0] ∧
    ∃ rs s', run (OnCreate line create :: es ++ settle) s0 = (rs, s') ∧
      (CommitFacts.the_disk s').(nodes) !! p = Some (File data) ∧ reports rs size ∧
      T_ReceiverStreamMap.append_durable_idle s'.(streams_) = true ∧ s'.(disk_writer_) = TaskQueue.empty.
Proof.
  intros p seq size es s0 Hsound Hstreams Hcreate Hes Hlen Hpos Hexp Hkind Hparts Hplace Hnone Hs0 Hs1 Hsid Hchunk Hcom Hnew Hmoves.
  destruct (Hcreate Hkind) as (data & Hsrc & Hfinal). rewrite (proj1 (proj2 Hexp)), Hsid in Hsrc.
  assert (zlen data < 9223372036854775808) as Hbound by by eapply Arrival.source_bound.
  assert (pieces moves = data) as Hdata.
  { unfold es, size in Hes. rewrite Hfinal in Hes.
    pose proof (Arrival.true_pieces options tree Hsound Hstreams _ _ _ _ _ _ _ Hsrc (Z.le_refl 0) Hes) as E.
    rewrite Hlen in E. rewrite E. unfold size. rewrite Hfinal. unfold slice, zlen. by rewrite drop_0, Nat2Z.id, firstn_all. }
  exists data. split; [done|]. destruct (AppendedTransfer.append_transfer_confirmed line create s sid c r d ds name moves)
    as (Hh & rs & s' & Hrun & Hfile & Hrep & Hidle); try done; try by rewrite Hdata.
  { intros E. rewrite E, zlen_nil in Hlen. lia. }
  rewrite Hdata, <- Hfinal in Hh, Hrun, Hrep. split; [exact Hh|]. exists rs, s'. split; [exact Hrun|].
  split; [by rewrite Hdata in Hfile|by split].
Qed.
End properties.

(** ** On concrete runs *)
Section witnesses.
#[local] Existing Instance crc_ref_impl.
#[local] Existing Instance some_order.
Import FileTransfer.

(** The sender makes a file of [size] bytes, and has no directories. *)
Definition options_of (size : Z) : T_NodeOptions.t :=
  let d := T_NodeOptions.defaults ["tmp"] in
  T_NodeOptions.mk "sender" d.(T_NodeOptions.host) d.(T_NodeOptions.base_port) 1 size d.(T_NodeOptions.root) [] 0 [] [] []
    [] EM_Compression.NONE EM_ChecksumAlgo.CRC32C kLineWindowBytes 65536 300 100 5 3 64 20 100 2000 50 2 false
    EM_WatchBackend.AUTO 500 200.
Definition name_of_file : string := file_name_for_id kFileId.

Lemma sender_bytes_len size : 0 ≤ size → zlen (make_sender_bytes size) = size.
Proof. intros. unfold make_sender_bytes, zlen. rewrite length_fmap, length_seqZ. lia. Qed.
Lemma made_sound size : 0 ≤ size < 4611686018427387904 → SenderTells.sound_source (options_of size) ∅.
Proof.
  intros Hs. constructor; [done| |by intros root []..|by intros root rel data []].
  change (T_NodeOptions.size (options_of size)) with size. rewrite sender_bytes_len by lia. lia.
Qed.
Lemma made_distinct size : Arrival.distinct_streams (options_of size) ∅.
Proof. by intros r1 r2 []. Qed.
Lemma made_source size : SenderTells.source_of (options_of size) ∅ kStreamId kFileId name_of_file (make_sender_bytes size).
Proof. done. Qed.

Definition sample_root : fsys := mk_fsys (<[["s"] := Dir]> (<[["s"; ".yisync_tmp"] := Dir]> ∅)) [].
Definition sample_receiver : T_ChunkedReceiverStream.t :=
  T_ChunkedReceiverStream.mk kStreamId ["s"] ["s"; ".yisync_tmp"] 1 0 0 ∅ sample_root.
Definition sample_begin (data : Bytes) : T_FileBegin.t :=
  T_FileBegin.mk kStreamId 1 kFileId name_of_file 65540 65536 2
    (T_FileChecksum.mk EM_ChecksumAlgo.CRC32C 0 (zlen data) (crc32c_bytes data)) 0 0 empty_checksum.
Definition sample_chunks (data : Bytes) : list (Z * T_Chunk.t) :=
  (λ '(line, i), (line, chunk_message data 65536 kStreamId 1 kFileId i)) <$> [(2, 1); (1, 0); (2, 1)].
Definition sample_context : T_ReceiverStreamContext.t := T_ReceiverStreamContext.fresh kStreamId ["s"].
Definition sample_coordinator : t := create (T_ReceiverStreamMap.create kStreamId ["s"] None sample_root) 1000 10.

Lemma sample_two_chunks data : zlen data = 65540 → count data 65536 = 2.
Proof. intros Hd. unfold count. by rewrite Hd. Qed.

Lemma receiver_room data : room sample_receiver (sample_begin data) [] name_of_file.
Proof.
  assert (dir_path sample_root.(nodes) ["s"]) as Hs by (apply (dir_path_snoc _ [] "s"); [apply dir_path_nil|done|vm_compute; done]).
  split_and!; try done; cycle 1.
  - by apply (dir_path_snoc _ ["s"] ".yisync_tmp").
  - cbv zeta. split; [vm_compute; reflexivity|]. intros [k Hk]. vm_compute in Hk. discriminate.
  - split_and!; try done. split; [constructor|]. intros q Hq. apply prefix_nil_inv in Hq as ->. by left.
Qed.

Lemma chunked_file_arrives_witness :
  ∃ rs s', run (OnBegin 4 (sample_begin (make_sender_bytes 65540)) :: Arrival.arrivals (sample_chunks (make_sender_bytes 65540)) ++
      [OnCommit 4 (T_FileCommit.mk kStreamId 1 kFileId); WriterStart; WriterFinish; OnPoll])
      (holding sample_coordinator kStreamId sample_context sample_receiver) = (rs, s') ∧
    ∃ data, SenderTells.source_of (options_of 65540) ∅ kStreamId kFileId name_of_file data ∧
      (CommitFacts.the_disk s').(nodes) !! ["s"; name_of_file] = Some (File data).
Proof.
  pose proof (sender_bytes_len 65540 ltac:(lia)) as Hlen. pose proof (made_source 65540) as Hsrc.
  generalize dependent (make_sender_bytes 65540). intros bytes Hlen Hsrc. pose proof (sample_two_chunks _ Hlen) as Hcount.
  destruct (chunked_file_arrives (options_of 65540) ∅ sample_coordinator sample_context sample_receiver (sample_begin bytes) []
    name_of_file 4 (sample_chunks bytes)) as (data & a & acks & s' & Hdata & Hrun & _ & _ & Hfile & _).
  - apply made_sound. lia.
  - apply made_distinct.
  - exists bytes. split; [exact Hsrc|]. rewrite Hlen. split; [lia|]. split; [reflexivity|]. split; [reflexivity|].
    split; [symmetry; exact Hcount|]. split; [reflexivity|]. apply SourceTruth.whole_checksum.
  - repeat apply Forall_cons_2; try apply Forall_nil_2; (split; [|by repeat split]); exists name_of_file, bytes;
      eexists; (split; [exact Hsrc|]); (split; [|reflexivity]); change (T_NodeOptions.chunk_size _) with 65536;
      rewrite Hcount; lia.
  - change (T_FileBegin.chunk_count _) with 2. intros i Hi. change (i ∈ [1; 0; 1]).
    assert (i = 0 ∨ i = 1) as [-> | ->] by lia;
      [apply elem_of_cons; right; apply elem_of_cons; left|apply elem_of_cons; left]; reflexivity.
  - reflexivity.
  - reflexivity.
  - reflexivity.
  - apply receiver_room.
  - reflexivity.
  - reflexivity.
  - reflexivity.
  - reflexivity.
  - reflexivity.
  - reflexivity.
  - eexists _, s'. split; [exact Hrun|]. exists data. split; [exact Hdata|exact Hfile].
Defined.

(** Three bytes in two pieces; the writer works between them. *)
Definition append_receiver : T_ReceiverStream.t :=
  T_ReceiverStream.mk kStreamId ["s"] (T_ReceiverStreamState.mk true 1 0 0 0 0) EM_EntryKind.REGULAR_FILE None sample_root.
Definition sample_create : T_Create.t :=
  T_Create.mk kStreamId 1 kFileId EM_EntryKind.REGULAR_FILE name_of_file "" 3 0 0 empty_checksum.
Definition sample_moves : list AppendedFile.move :=
  [Piece 1 [x41; x42]; Meanwhile WriterStart; Piece 2 [x43]; Meanwhile OnPoll; Meanwhile WriterFinish].

Lemma append_place : CreateFacts.place append_receiver [] name_of_file.
Proof.
  split_and!; [|split; [constructor|]|done..].
  - apply (dir_path_snoc _ [] "s"); [apply dir_path_nil|done|vm_compute; done].
  - intros q Hq. apply prefix_nil_inv in Hq as ->. by left.
Qed.

Lemma appended_file_arrives_witness :
  ∃ data rs s', SenderTells.source_of (options_of 3) ∅ kStreamId kFileId name_of_file data ∧
    run (OnCreate 1 sample_create :: events kStreamId 1 kFileId 3 0 sample_moves ++ settle)
      (appending sample_coordinator kStreamId sample_context append_receiver AppendDurable.initial TaskQueue.empty) = (rs, s') ∧
    (CommitFacts.the_disk s').(nodes) !! ["s"; name_of_file] = Some (File data) ∧ reports rs 3.
Proof.
  destruct (appended_file_arrives (options_of 3) ∅ 1 sample_create sample_coordinator kStreamId sample_context append_receiver
    AppendDurable.initial [] name_of_file sample_moves) as (data & Hdata & _ & rs & s' & Hrun & Hfile & Hrep & _).
  - apply made_sound. lia.
  - apply made_distinct.
  - intros _. exists (make_sender_bytes 3). split; [apply made_source|reflexivity].
  - repeat apply Forall_cons_2; try apply Forall_nil_2; try exact Logic.I;
      [exists name_of_file, (make_sender_bytes 3), 0, 2|exists name_of_file, (make_sender_bytes 3), 2, 1];
      (split; [apply made_source|]); rewrite (sender_bytes_len 3) by lia; (split; [lia|]); (split; [lia|]); (split; [lia|]); reflexivity.
  - reflexivity.
  - reflexivity.
  - split_and!; try reflexivity. by left.
  - reflexivity.
  - reflexivity.
  - apply append_place.
  - reflexivity.
  - discriminate.
  - reflexivity.
  - reflexivity.
  - reflexivity.
  - reflexivity.
  - discriminate.
  - repeat constructor; cbn; unfold background; try discriminate; tauto.
  - exists data, rs, s'. split; [exact Hdata|]. split; [exact Hrun|]. split; [exact Hfile|exact Hrep].
Defined.

(** [distinct_streams] can fail: of the directories that the sender finds by
    itself, two whose names are the same number become streams of one id. *)
Definition numbered : fsys :=
  mk_fsys (<[["d"] := Dir]> (<[["d"; "7"] := Dir]> (<[["d"; "07"] := Dir]> ∅))) [].
Lemma numbered_twice :
  match SenderApp.source_roots (ManifestAgreement.sample_options [] ["d"]) numbered with
  | (Ret roots, _) => T_StreamRootConfig.stream_id <$> roots = [7; 7] ∧ NoDup (T_StreamRootConfig.root <$> roots)
  | _ => False
  end.
Proof. vm_compute. split; [reflexivity|]. repeat constructor; by rewrite ?elem_of_cons, ?elem_of_nil; intuition discriminate. Qed.
End witnesses.
